(* ===== verification/_CoqProject ===== *)
-Q . S2P
Prelude.v
Format.v
Nvm.v
Modification.v
Allocator.v
HeapSpec.v
HeapLists.v
HeapTiling.v
AllocatorWp.v
AllocRefine.v
FreeRefine.v
Heap.v
Objects.v
Wire.v
Tablet.v
TabletRefine.v
Logged.v
Verbs.v
Merge.v
LogSize.v
Protocol.v
Parallel.v
Loopback.v
Infiniband.v
Endpoint.v
WorkQueue.v
Handoff.v
Hash.v
Index.v
IndexSpec.v
Message.v
Session.v
Coordinator.v
Sync.v
SyncSpec.v
SyncRules.v
Server.v
Service.v
BasicServer.v
Join.v
ServerSteps.v
ServerView.v
ServerMain.v
ServerRules.v
Client.v
ClientMain.v
ClientSpec.v
Cluster.v
ClientRules.v
CoordinatorRun.v
CoordinatorMain.v
Store.v
StoreLive.v
ServerRun.v
RcPerf.v
SendRc.v
Memc.v
WriteRc.v
WriteRcUnsignaled.v
WriteRcMulti.v
SendRcUnsignaled.v
Rdma.v
SendUd.v
Ledger.v
Mckey.v
MckeySpec.v
Prime.v
Ibud.v
Udpp.v
UdppSpec.v
InfinibandOld.v
