(* ===== verification/Prelude.v ===== *)
(** * NVDS: a verification development

    NVDS is a key-value store for emulated non-volatile memory (NVM) that
    replicates over RDMA.  Clients send requests as InfiniBand datagrams; a
    server serves them from a tablet, a region of NVM with an allocator and a
    hash table; every write is logged, and after each operation the log is
    written into the memory of a backup with one-sided RDMA writes.  A
    coordinator gives every server its number and everyone the map from key
    hashes to tablets, in JSON messages over TCP.  Next to the system the
    repository has the benchmarks its transport was tuned with.  All of it is
    under src/src, unless another directory is named.

    ** Conventions

    Definitions are translated function by function and keep the names of the
    code, in a Module per class or program.  A machine integer is a [Z] that
    is reduced to its width wherever the code may leave it ([u8] to [u64]).
    Code on the NVM or on message buffers is in the state and error monad [M]
    below over a byte-addressed memory ([Nvm]); a failed assertion (they are
    on in the build), an access outside the memory, an exception and, in the
    model only, exhausted fuel are outcomes.  Code that calls the verbs, the
    connection manager or the operating system is a tree of calls ([prog] of
    [Verbs]): none of these is part of the repository, so the answer to a call
    is left open and theorems hold for every environment [e], a function of
    the history so far; [Loopback] is a concrete one for examples.

    ** The store

    - [Nvm], [Modification]: memory with little-endian words; modification.h.
    - [Allocator]: allocator.h and allocator.cc.  [HeapSpec] is the abstract
      heap (blocks that tile the tablet, free lists by size) with [abs_alloc]
      and [abs_free]; [HeapLists], [HeapTiling] and [AllocatorWp] are about
      lists, tilings and symbolic execution, [AllocRefine] and [FreeRefine]
      prove that the code implements the abstract operations, [Heap] states
      the contract for every request and for every run of a client of the
      heap whose objects leave the footers of their blocks alone, and the
      faults: an allocation that leaves a remainder of 16 bytes aborts, and
      an object that reaches into the footer breaks a later [Free].
      [Objects] has the rules the tablet is verified with.
    - [Tablet]: the hash table of tablet.h and tablet.cc.  [TabletRefine]: it
      implements a finite map; [Del] runs forever on a key that is not at the
      head of its chain.
    - [Logged]: every byte an operation changes is in its log.  [LogSize]:
      how much the first [Put] of a chain logs, and where.
    - [Hash]: MurmurHash2.cc and hash.h.

    ** Transport and replication

    - [Verbs]: calls and programs.  [Protocol]: the rules of the verbs as the
      manual pages state them, a judge of histories and the logic [safe].  A
      history is excused when an answer is not one the manual allows.  Three
      assumptions on the machine are part of [reply_ok]: [memalign] and
      [ibv_create_cq] do not fail and a list of devices is not empty.
      [Parallel]: the rules are local, so that threads keep them together
      when each of them keeps them alone.
    - [Infiniband]: infiniband.h and infiniband.cc; [Endpoint]: its calls
      under the rules.
    - [InfinibandOld]: infiniband_old.h and infiniband_old.cc, which are not
      part of the build: on datagrams they make the calls of their successor,
      but for the messages that go inline.
    - [Merge], [Sync]: the connections and the replication of tablet.cc.
      [SyncSpec]: what reaches the backup (only the first merged entry, so
      that the first [Put] of every chain is lost); [SyncRules]: entries of more
      than 128 bytes cannot be posted as they are.

    ** Servers, clients, coordinator

    - [Wire]: common.h, request.h, response.h, status.h.
    - [Index]: index.h, index.cc; [IndexSpec]: the cluster map that joins
      build and how keys are routed, with the rounding of the division.
    - [Message], [Session], [Coordinator], [Join]: message.*, session.*,
      coordinator.*, and the joining of servers and clients; [Cluster]: all
      of them together until everyone has the same map; [BasicServer],
      [CoordinatorRun]: the service that accepts connections and runs the
      handlers, and the coordinator under any load, with peers that go away
      at any moment, also while their request is handled.
    - [WorkQueue], [Handoff]: the queue of a worker under its spinlock one
      memory access at a time, and the wake-up through a condition variable,
      which no thread needs a spurious wake-up for.
    - [Server]: server.h and server.cc; [Service]: what a request means;
      [ServerSteps]: poller, workers and device in any interleaving, and
      when exactly a worker finds no send buffer;
      [ServerView]: the same for the state of a server between two operations;
      [ServerMain], [ServerRules]: server_main.cc, from the start of the
      process to a server that is connected and has its receives posted;
      [ServerRun]: from there on, with the map the coordinator forms, one
      pass of the poller or one request at a time, the only rule it can break
      is the limit on inline data.
    - [Client]: client.h and client.cc; [ClientSpec]: client, datagrams and
      server together are a map; [Store]: so are any number of clients, the
      map of a formed cluster and its servers, each datagram being served
      where its address leads, if items leave the footers of their blocks
      alone; [StoreLive]: when devices complete what they are polled for and
      the network delivers, every operation comes back, or its tablet stops
      over it, whatever becomes of replication; [ClientMain], [ClientRules]:
      client_main.cc keeps the rules of the verbs with any number of threads
      in any interleaving.
    - [Format]: common.cc, exception.h and source_location.h: formatting
      returns the whole text; [CoordinatorMain]: coordinator_main.cc.
    - [Prime]: prime.cc, which found the size of the hash table.

    ** Benchmarks (src/src/experiments and src/cs)

    - [RcPerf] is the part send_rc, write_rc, their variants and cs/rdma
      share; [SendRc], [SendRcUnsignaled], [WriteRc], [WriteRcUnsignaled],
      [WriteRcMulti] and [Rdma] are the programs, [SendUd] is send_ud.c.  They
      keep the rules of the verbs with every device and peer; for the
      unsignaled variants this is an invariant of the send queue.
    - [Ibud]: ibud.c, which breaks the rules on every run that comes to
      modify its queue pair, whatever the environment.
    - [Mckey]: ud.c; [Ledger] accounts for resources, and [MckeySpec] shows
      that what is acquired is released once, and what an early exit leaves.
    - [Udpp], [UdppSpec]: udpp.c.
    - [Memc]: memc.cc, for comparison with memcached.
    Files that are in both directories are byte-identical.

    ** Fuel and bounds

    Fuel stands for loops the code does not bound: the walk through a chain
    of the hash table, polling for a completion, waiting for a peer.  The
    theorems on the tablet give the fuel that is enough (more than the length
    of the chain) and prove [Del] out of fuel for every amount; those on
    programs hold for every amount of fuel, since a program may wait forever.
    The loops of the programs have the bounds of the code.  Sizes and numbers
    of servers are those of common.h; [AddServer] is proved for every
    configuration whose tablet numbers fit the 32 bits they are computed in,
    [WriteRcMulti] for any number of queue pairs.

    ** Exceptions

    An exception is the stop [Throw] of a program or the error of an outcome.
    [Verbs.unwind] runs a destructor when the rest of a constructor throws:
    the constructors of tablet, server and client destroy their members as
    the compiler makes them do, and nothing else (a queue pair behind a raw
    pointer stays).  The threads of client_main.cc destroy their client on
    the way to the handler.  An exception that nobody catches ends the
    process: [Terminate], and in the coordinator an error of the service.

    ** Not modelled

    measurement.h (clocks and counters in floating point that are only
    printed); the pointer wrapper of nvm.h; the macros of nvds.h; the tests.
    What the log says is modelled in [Format] and [CoordinatorMain] only: the
    other files keep the calls that print and the errno of an exception.  The
    JSON library
    is a pair of functions [parse] and [dump]; the address exchange of a
    socket, [getopt] and the random generator deliver their results as
    arguments.  Of the
    sockets only the bytes and the address of the peer are kept, which can be
    gone at every look: closing them is no operation of the model. *)

From Stdlib Require Strings.Byte.
From coqutil Require Export Byte Word.LittleEndianList.
From stdpp Require Export base gmap list strings numbers.
#[export] Instance byte_eq_decision : EqDecision Init.Byte.byte := Stdlib.Strings.Byte.byte_eq_dec.

#[export] Set Default Goal Selector "!".

(** Frame and side-condition lemmas of the components. *)
Create HintDb nvds discriminated.
#[export] Hint Constants Transparent : nvds.

Declare Scope nvds_scope.
Delimit Scope nvds_scope with nvds.
#[global] Open Scope Z_scope.
#[global] Open Scope nvds_scope.

(** ** Machine integers

    A w-bit unsigned integer is a [Z] kept in range by reducing after every
    operation that may leave the range; [size_t] and [uintptr_t] are 64 bit. *)

Definition u8 (z : Z) : Z := z mod 2 ^ 8.
Definition u16 (z : Z) : Z := z mod 2 ^ 16.
Definition u32 (z : Z) : Z := z mod 2 ^ 32.
Definition u64 (z : Z) : Z := z mod 2 ^ 64.

(** Bitwise complement of a [uint32_t]. *)
Definition not32 (z : Z) : Z := Z.lxor z (2 ^ 32 - 1).

(** ** Outcomes of a C++ computation

    [assert] is active in the build (the Makefile never defines [NDEBUG]), so
    a failed assertion is an outcome of the program; so is an access outside
    the memory region, a C++ exception, and, in the model only, exhausted
    fuel.  The state at the point of failure is kept: an exception handler
    resumes from it. *)

Inductive error :=
  | AssertFail                (* assert(...) aborts the process *)
  | Segv                      (* a wild or null access *)
  | OutOfFuel                 (* the model's bound on a loop, not an outcome of C++ *)
  | Throw (errno : Z).        (* throw TransportException(HERE, ..., errno) *)

Inductive outcome (S A : Type) :=
  | Ok (a : A) (s : S)
  | Err (e : error) (s : S).
Arguments Ok {S A}.
Arguments Err {S A}.

#[export] Instance error_eq_dec : EqDecision error.
Proof. solve_decision. Defined.

(** A computation over the state [S]. *)
Definition M (S A : Type) := S -> outcome S A.

Section Monad.
Context {S : Type}.

Definition ret {A} (a : A) : M S A := fun s => Ok a s.
Definition fail {A} (e : error) : M S A := fun s => Err e s.
Definition bind {A B} (c : M S A) (k : A -> M S B) : M S B :=
  fun s => match c s with
           | Ok a s' => k a s'
           | Err e s' => Err e s'
           end.
Definition get : M S S := fun s => Ok s s.
Definition put (s : S) : M S unit := fun _ => Ok tt s.
Definition gets {A} (f : S -> A) : M S A := fun s => Ok (f s) s.
Definition modify (f : S -> S) : M S unit := fun s => Ok tt (f s).
Definition assert (b : bool) : M S unit :=
  fun s => if b then Ok tt s else Err AssertFail s.
Definition guard (b : bool) (e : error) : M S unit :=
  fun s => if b then Ok tt s else Err e s.
Definition when (b : bool) (c : M S unit) : M S unit :=
  if b then c else ret tt.
(** [try { c } catch (TransportException& e) { h }] *)
Definition catch {A} (c : M S A) (h : Z -> M S A) : M S A :=
  fun s => match c s with
           | Err (Throw e) s' => h e s'
           | r => r
           end.
End Monad.

Notation "x <- c ;; k" := (bind c (fun x => k))
  (at level 62, c at next level, right associativity) : nvds_scope.
Notation "c ;;; k" := (bind c (fun _ => k))
  (at level 62, right associativity) : nvds_scope.

Section MonadLemmas.
Context {S : Type}.

Lemma bind_Ok {A B} (c : M S A) (k : A -> M S B) s a s' :
  c s = Ok a s' -> bind c k s = k a s'.
Proof. unfold bind. by intros ->. Qed.

Lemma bind_Err {A B} (c : M S A) (k : A -> M S B) s e s' :
  c s = Err e s' -> bind c k s = Err e s'.
Proof. unfold bind. by intros ->. Qed.

Lemma bind_inv_Ok {A B} (c : M S A) (k : A -> M S B) s b s'' :
  bind c k s = Ok b s'' -> exists a s', c s = Ok a s' /\ k a s' = Ok b s''.
Proof. unfold bind. destruct (c s) eqn:E; [eauto | done]. Qed.

Lemma bind_assoc {A B C} (c : M S A) (k : A -> M S B) (l : B -> M S C) s :
  bind (bind c k) l s = bind c (fun a => bind (k a) l) s.
Proof. unfold bind. by destruct (c s). Qed.

Lemma bind_ret_l {A B} (a : A) (k : A -> M S B) s : bind (ret a) k s = k a s.
Proof. done. Qed.

Lemma assert_true {A} (b : bool) (k : unit -> M S A) s :
  b = true -> bind (assert b) k s = k tt s.
Proof. by intros ->. Qed.

Lemma guard_true {A} (b : bool) e (k : unit -> M S A) s :
  b = true -> bind (guard b e) k s = k tt s.
Proof. by intros ->. Qed.
End MonadLemmas.

(** [monad_step] runs the head of a monadic program one step. *)
Ltac monad_step :=
  first [ rewrite bind_assoc | rewrite bind_ret_l
        | rewrite assert_true by (done || lia) | rewrite guard_true by (done || lia) ].

(** ** Bit operations on [uint32_t] as arithmetic *)

Lemma u32_small z : 0 <= z < 2 ^ 32 -> u32 z = z.
Proof. apply Z.mod_small. Qed.

Lemma u32_range z : 0 <= u32 z < 2 ^ 32.
Proof. apply Z.mod_pos_bound. lia. Qed.

Lemma u64_small z : 0 <= z < 2 ^ 64 -> u64 z = z.
Proof. apply Z.mod_small. Qed.

Lemma u64_range z : 0 <= u64 z < 2 ^ 64.
Proof. apply Z.mod_pos_bound. lia. Qed.

Lemma u16_small z : 0 <= z < 2 ^ 16 -> u16 z = z.
Proof. apply Z.mod_small. Qed.

Lemma u16_range z : 0 <= u16 z < 2 ^ 16.
Proof. apply Z.mod_pos_bound. lia. Qed.

(** Splitting a word at bit [n]. *)
Lemma land_high (n k w : Z) :
  0 <= n -> 0 <= k -> 0 <= w < 2 ^ (n + k) ->
  Z.land w (Z.shiftl (Z.ones k) n) = 2 ^ n * (w / 2 ^ n).
Proof.
  intros Hn Hk Hw. apply Z.bits_inj'. intros i Hi.
  rewrite Z.land_spec, Z.mul_comm, Z.mul_pow2_bits, Z.shiftl_spec by lia.
  destruct (Z.ltb_spec i n).
  - rewrite (Z.testbit_neg_r (Z.ones k)) by lia.
    rewrite (Z.testbit_neg_r _ (i - n)) by lia. apply andb_false_r.
  - rewrite Z.div_pow2_bits, Z.sub_add by lia.
    destruct (Z.ltb_spec (i - n) k).
    + rewrite Z.ones_spec_low by lia. apply andb_true_r.
    + rewrite Z.ones_spec_high by lia. rewrite andb_false_r. symmetry.
      replace w with (w mod 2 ^ (n + k)) by (apply Z.mod_small; lia).
      apply Z.mod_pow2_bits_high. lia.
Qed.

Lemma land_mask31 w : 0 <= w < 2 ^ 32 -> Z.land w (2 ^ 31) = 2 ^ 31 * (w / 2 ^ 31).
Proof. intros. by apply (land_high 31 1). Qed.

Lemma land_not_mask31 w : Z.land w (not32 (2 ^ 31)) = w mod 2 ^ 31.
Proof. change (not32 (2 ^ 31)) with (Z.ones 31). apply Z.land_ones. lia. Qed.

(** Disjoint bits: [lor] is addition. *)
Lemma lor_disjoint_add n a b :
  0 <= n -> 0 <= b < 2 ^ n -> Z.lor (2 ^ n * a) b = 2 ^ n * a + b.
Proof.
  intros Hn Hb. rewrite <- Z.add_lor_land.
  replace (Z.land (2 ^ n * a) b) with 0; [lia |].
  symmetry. apply Z.bits_inj'. intros i Hi.
  rewrite Z.land_spec, Z.bits_0, Z.mul_comm, Z.mul_pow2_bits by lia.
  destruct (Z.ltb_spec i n).
  - by rewrite (Z.testbit_neg_r _ (i - n)) by lia.
  - replace b with (b mod 2 ^ n) by (apply Z.mod_small; lia).
    rewrite (Z.mod_pow2_bits_high b n i) by lia. apply andb_false_r.
Qed.

Lemma lor_mask31 w : 0 <= w < 2 ^ 32 -> Z.lor w (2 ^ 31) = w mod 2 ^ 31 + 2 ^ 31.
Proof.
  intros Hw.
  assert (w = 2 ^ 31 * (w / 2 ^ 31) + w mod 2 ^ 31) as Hdec by (apply Z.div_mod; lia).
  assert (0 <= w mod 2 ^ 31 < 2 ^ 31) as Hlo by (apply Z.mod_pos_bound; lia).
  rewrite Hdec at 1. rewrite <- lor_disjoint_add by lia.
  rewrite <- Z.lor_assoc, (Z.lor_comm (w mod _)), Z.lor_assoc.
  assert (w / 2 ^ 31 = 0 \/ w / 2 ^ 31 = 1) as [-> | ->].
  { assert (0 <= w / 2 ^ 31 < 2) by
      (split; [apply Z.div_pos; lia | apply Z.div_lt_upper_bound; lia]). lia. }
  - rewrite Z.mul_0_r, Z.lor_0_l.
    replace (2 ^ 31) with (2 ^ 31 * 1) at 1 by lia.
    rewrite lor_disjoint_add by lia. lia.
  - rewrite Z.mul_1_r, Z.lor_diag.
    replace (2 ^ 31) with (2 ^ 31 * 1) at 1 by lia.
    rewrite lor_disjoint_add by lia. lia.
Qed.

Lemma lor_flag_size f s : 0 <= s < 2 ^ 31 -> Z.lor (2 ^ 31 * f) s = 2 ^ 31 * f + s.
Proof. intros. apply lor_disjoint_add; lia. Qed.

Lemma land_not15 w : 0 <= w < 2 ^ 32 -> Z.land w (not32 15) = 16 * (w / 16).
Proof.
  intros. change (not32 15) with (Z.shiftl (Z.ones 28) 4).
  by apply (land_high 4 28).
Qed.

(** ** Weakest preconditions

    [wp c Q E s]: from [s], [c] either returns normally in [Q] or fails in
    [E].  With [E := no_error] this is total correctness. *)

Definition wp {S A} (c : M S A) (Q : A -> S -> Prop) (E : error -> S -> Prop) (s : S) : Prop :=
  match c s with Ok a s' => Q a s' | Err e s' => E e s' end.

Definition no_error {S} : error -> S -> Prop := fun _ _ => False.

Section WP.
Context {S : Type} (E : error -> S -> Prop).

Lemma wp_ret {A} (a : A) (Q : A -> S -> Prop) s : Q a s -> wp (ret a) Q E s.
Proof. done. Qed.

Lemma wp_bind {A B} (c : M S A) (k : A -> M S B) (Q : B -> S -> Prop) s :
  wp c (fun a => wp (k a) Q E) E s -> wp (bind c k) Q E s.
Proof. unfold wp, bind. by destruct (c s). Qed.

Lemma wp_bind_iff {A B} (c : M S A) (k : A -> M S B) (Q : B -> S -> Prop) s :
  wp (bind c k) Q E s <-> wp c (fun a => wp (k a) Q E) E s.
Proof. unfold wp, bind. by destruct (c s). Qed.

Lemma wp_assoc {A B C} (c : M S A) (k : A -> M S B) (l : B -> M S C) (Q : C -> S -> Prop) s :
  wp (bind (bind c k) l) Q E s -> wp (bind c (fun a => bind (k a) l)) Q E s.
Proof. unfold wp. by rewrite bind_assoc. Qed.

Lemma wp_assert (b : bool) (Q : unit -> S -> Prop) s :
  b = true -> Q tt s -> wp (assert b) Q E s.
Proof. unfold wp, assert. by intros ->. Qed.

Lemma wp_guard (b : bool) e (Q : unit -> S -> Prop) s :
  b = true -> Q tt s -> wp (guard b e) Q E s.
Proof. unfold wp, guard. by intros ->. Qed.

Lemma wp_get (Q : S -> S -> Prop) s : Q s s -> wp get Q E s.
Proof. done. Qed.

Lemma wp_gets {A} (f : S -> A) (Q : A -> S -> Prop) s : Q (f s) s -> wp (gets f) Q E s.
Proof. done. Qed.

Lemma wp_modify (f : S -> S) (Q : unit -> S -> Prop) s : Q tt (f s) -> wp (modify f) Q E s.
Proof. done. Qed.

Lemma wp_when (b : bool) c (Q : unit -> S -> Prop) s :
  (b = true -> wp c Q E s) -> (b = false -> Q tt s) -> wp (when b c) Q E s.
Proof. unfold when. destruct b; intros H1 H2; [by apply H1 | by apply H2]. Qed.

Lemma wp_if {A} (b : bool) (c d : M S A) (Q : A -> S -> Prop) s :
  (b = true -> wp c Q E s) -> (b = false -> wp d Q E s) -> wp (if b then c else d) Q E s.
Proof. destruct b; auto. Qed.

Lemma wp_mono {A} (c : M S A) (Q Q' : A -> S -> Prop) s :
  wp c Q E s -> (forall a s', Q a s' -> Q' a s') -> wp c Q' E s.
Proof. unfold wp. destruct (c s); auto. Qed.
End WP.

Lemma wp_total {S A} (c : M S A) (Q : A -> S -> Prop) s :
  wp c Q no_error s -> exists a s', c s = Ok a s' /\ Q a s'.
Proof. unfold wp. destruct (c s); [eauto | done]. Qed.

Lemma wp_of_Ok {S A} (c : M S A) (Q : A -> S -> Prop) E s a s' :
  c s = Ok a s' -> wp c Q E s -> Q a s'.
Proof. unfold wp. by intros ->. Qed.
