(* ===== verification/Format.v ===== *)
(** * [common.cc], [exception.h], [source_location.h]: text for the log

    [Format] is [printf] into a string: the loop tries a buffer of 1K and then
    one that is long enough.  An exception carries a message, an errno and
    where it was thrown; the models of the other files keep the errno.  Of the
    conversions, those the program uses for strings and integers are modelled;
    the standard leaves a conversion it does not define, or an argument that is
    missing or of another type, undefined.  [__cxa_demangle], [strerror] and
    [typeid] are parameters.  The stack has room for the buffer. *)

From Stdlib Require Import Ascii String.
From stdpp Require Import pretty.
From S2P Require Import Prelude.
#[local] Open Scope string_scope.
#[local] Open Scope Z_scope.

#[local] Abbreviation len s := (Z.of_nat (String.length s)).

(** ** The C library *)

Inductive arg := Chars (s : string) | Integer (z : Z).

(** What [printf] writes; [None] is undefined behaviour.  The length
    modifiers [h] and [l] only say how wide the argument is. *)
Fixpoint render (fmt : string) (args : list arg) : option string :=
  match fmt with
  | "" => Some ""
  | String "%"%char (String "%"%char fmt') => String "%"%char <$> render fmt' args
  | String "%"%char (String "s"%char fmt') =>
      match args with Chars s :: args => String.append s <$> render fmt' args | _ => None end
  | String "%"%char (String "d"%char fmt') | String "%"%char (String "u"%char fmt')
  | String "%"%char (String "h"%char (String "u"%char fmt')) | String "%"%char (String "l"%char (String "u"%char fmt')) =>
      match args with Integer z :: args => String.append (pretty z) <$> render fmt' args | _ => None end
  | String "%"%char _ => None
  | String c fmt' => String c <$> render fmt' args
  end.

(** A C string ends before the first null. *)
Fixpoint c_str (s : string) : string :=
  match s with
  | "" => ""
  | String "000"%char _ => ""
  | String c s' => String c (c_str s')
  end.

Definition INT_MAX : Z := 2 ^ 31 - 1.

(** [vsnprintf(buf, n, format, ap)] for [0 < n]: the result, and the text in
    the buffer up to the null that ends it. *)
Definition vsnprintf (n : Z) (format : string) (ap : list arg) : M unit (Z * string) :=
  match render format ap with
  | None => fail Segv
  | Some t => ret (if INT_MAX <? len t then -1 else len t, String.substring 0 (Z.to_nat (n - 1)) t)
  end.

(** ** [common.cc] *)

Module Format.

(** The [while (true)] of [VFormat]; [s = buf] takes a C string. *)
Fixpoint VFormat_loop (fuel : nat) (bufSize : Z) (format : string) (ap : list arg) : M unit string :=
  match fuel with
  | O => fail OutOfFuel
  | S fuel' =>
      x <- vsnprintf bufSize format ap ;;
      let '(r, buf) := x in
      assert (0 <=? r) ;;; (* old glibc versions returned -1 *)
      if r <? bufSize then ret (c_str buf)
      else guard (r + 1 <=? INT_MAX) Segv ;;; VFormat_loop fuel' (r + 1) format ap
  end.

(** A safe version of vprintf. *)
Definition VFormat (fuel : nat) : string -> list arg -> M unit string := VFormat_loop fuel 1024.

(** A safe version of sprintf. *)
Definition Format (fuel : nat) (format : string) (args : list arg) : M unit string := VFormat fuel format args.

(** [Demangle]: the name itself when it cannot be demangled. *)
Definition Demangle (cxa_demangle : string -> option string) (name : string) : string :=
  match cxa_demangle name with Some res => res | None => name end.

(** [memset_volatile] on memory with the bytes [bs]; [None] when it is shorter. *)
Definition memset_volatile {A} (v : A) (size : nat) (bs : list A) : option (list A) :=
  if (size <=? length bs)%nat then Some (replicate size v ++ drop size bs)%list else None.

End Format.

(** ** [source_location.h], [exception.h] *)

Module SourceLocation.
Record t := mkLoc { file : string; func : string; line : Z }.
Definition loc_ToString (l : t) : string := file l ++ ":" ++ func l ++ ":" ++ pretty (line l).
End SourceLocation.

Module Exception.
Record t := mkException { msg_ : string; err_no_ : Z; loc_ : SourceLocation.t }.

Section Exception.
Variables (strerror : Z -> string) (cxa_demangle : string -> option string).

(** The constructors: of a place; with a message; with an errno; with both. *)
Definition plain (loc : SourceLocation.t) : t := mkException "" 0 loc.
Definition with_msg (loc : SourceLocation.t) (msg : string) : t := mkException msg 0 loc.
Definition with_errno (loc : SourceLocation.t) (err_no : Z) : t := mkException (strerror err_no) err_no loc.
Definition with_both (loc : SourceLocation.t) (msg : string) (err_no : Z) : t :=
  mkException (msg ++ ": " ++ strerror err_no) err_no loc.

(** [type_name] is [typeid( *this).name()]. *)
Definition ToString (type_name : string) (e : t) : string :=
  let ret := Format.Demangle cxa_demangle type_name ++ ": " ++ msg_ e ++ ", thrown at " ++ SourceLocation.loc_ToString (loc_ e) in
  if err_no_ e =? 0 then ret else ret ++ " [errno: " ++ pretty (err_no_ e) ++ "]".
End Exception.
End Exception.

Import Format.

(** ** The loop returns the whole text *)

Fixpoint null_free (s : string) : bool :=
  match s with "" => true | String c s' => negb (bool_decide (c = "000"%char)) && null_free s' end.

Lemma c_str_null_free s : null_free s = true -> c_str s = s.
Proof.
  induction s as [|c s IH]; [done |]. cbn [null_free c_str]. rewrite andb_true_iff, negb_true_iff, bool_decide_eq_false. intros [Hc Hs].
  rewrite (IH Hs). destruct c as [[] [] [] [] [] [] [] []]; done.
Qed.

Lemma substring_whole s n : (String.length s <= n)%nat -> String.substring 0 n s = s.
Proof. revert n. induction s as [|c s IH]; intros [|n] Hn; cbn in *; try done; [lia |]. by rewrite IH by lia. Qed.

(** Two rounds are enough for every text that an [int] can count, however long
    it is: the string is the whole text, up to its first null. *)
Theorem Format_whole fuel format args text : render format args = Some text -> len text < INT_MAX -> (2 <= fuel)%nat ->
  Format fuel format args tt = Ok (c_str text) tt.
Proof.
  intros Ht Hl Hf. unfold Format, VFormat. destruct fuel as [|[|fuel]]; try lia. cbn [VFormat_loop].
  unfold vsnprintf. rewrite Ht. rewrite (proj2 (Z.ltb_ge INT_MAX (len text))) by lia. rewrite !bind_ret_l. rewrite assert_true by lia.
  destruct (Z.ltb_spec (len text) 1024).
  - unfold ret. by rewrite substring_whole by lia.
  - rewrite guard_true by lia. rewrite bind_ret_l, assert_true by lia. rewrite (proj2 (Z.ltb_lt _ _)) by lia.
    unfold ret. by rewrite substring_whole by lia.
Qed.

(** A text without conversions is its own rendering, whatever the arguments;
    this is why messages can be passed as formats. *)
Fixpoint literal (s : string) : bool :=
  match s with "" => true | String c s' => negb (bool_decide (c = "%"%char)) && literal s' end.

Lemma render_literal s args : literal s = true -> render s args = Some s.
Proof.
  induction s as [|c s IH]; [done |]. cbn [literal]. rewrite andb_true_iff, negb_true_iff, bool_decide_eq_false. intros [Hc Hs].
  destruct c as [[] [] [] [] [] [] [] []]; try done; cbn [render]; by rewrite (IH Hs).
Qed.

Theorem message_as_format fuel msg : literal msg = true -> null_free msg = true -> len msg < INT_MAX -> (2 <= fuel)%nat ->
  Format fuel msg [] tt = Ok msg tt.
Proof.
  intros H1 H2 H3 H4. rewrite <- (c_str_null_free msg H2) at 2. apply Format_whole; [by apply render_literal | done | done].
Qed.

Example format_runs : Format 2 "[%d/%d] join requests received%%" [Integer 1; Integer 2] tt = Ok "[1/2] join requests received%" tt.
Proof. vm_compute. reflexivity. Qed.

(** The format of [server_main.cc] has the name of the macro in it. *)
Example size_not_printed : Format 2 "acquire nvm failed: size = %PRIu64" [Integer 134217872] tt = Err Segv tt.
Proof. vm_compute. reflexivity. Qed.
