(* ===== verification/Nvm.v ===== *)
(** * The byte-addressed memory of one tablet

    Offsets are relative to the [base_] of the tablet's [Allocator]; a byte
    nobody wrote reads as zero.  Integers are stored little-endian, as the
    x86-64 target of the code does. *)

From S2P Require Import Prelude.

Abbreviation mem := (gmap Z Init.Byte.byte).

Definition byte_at (m : mem) (a : Z) : Init.Byte.byte := default Byte.x00 (m !! a).

(** [n] bytes from offset [a] on. *)
Fixpoint load (m : mem) (a : Z) (n : nat) : list Init.Byte.byte :=
  match n with
  | O => []
  | S n' => byte_at m a :: load m (a + 1) n'
  end.

Fixpoint store (m : mem) (a : Z) (bs : list Init.Byte.byte) : mem :=
  match bs with
  | [] => m
  | b :: bs' => store (<[a := b]> m) (a + 1) bs'
  end.

(** [memset(base + a, 0, n)]: the bytes become the default. *)
Definition zero_fill (m : mem) (a n : Z) : mem :=
  filter (fun kv => ~ (a <= kv.1 < a + n)) m.

Definition rd16 (m : mem) (a : Z) : Z := le_combine (load m a 2).
Definition rd32 (m : mem) (a : Z) : Z := le_combine (load m a 4).
Definition rd64 (m : mem) (a : Z) : Z := le_combine (load m a 8).
Definition wr32 (m : mem) (a v : Z) : mem := store m a (le_split 4 v).

Section Memory.
Implicit Types (m : mem) (a b n v : Z) (bs : list Init.Byte.byte).

Lemma byte_at_insert m a b x :
  byte_at (<[a := x]> m) b = if decide (a = b) then x else byte_at m b.
Proof. unfold byte_at. rewrite lookup_insert. by case_decide. Qed.

Lemma byte_at_store_out m a bs x :
  x < a \/ a + Z.of_nat (length bs) <= x -> byte_at (store m a bs) x = byte_at m x.
Proof.
  revert m a. induction bs as [|b bs IH]; intros m a Hx; [done |].
  cbn [store length] in *. rewrite IH by lia. rewrite byte_at_insert.
  case_decide; [lia | done].
Qed.

Lemma load_length m a k : length (load m a k) = k.
Proof. revert a. induction k; intros; cbn; auto. Qed.

Lemma load_app m a k l : load m a (k + l) = load m a k ++ load m (a + Z.of_nat k) l.
Proof.
  revert a. induction k as [|k IH]; intros a; cbn [load Nat.add app].
  - by rewrite Z.add_0_r.
  - rewrite IH. do 2 f_equal. by replace (a + 1 + Z.of_nat k) with (a + Z.of_nat (S k)) by lia.
Qed.

Lemma load_ext m m' a k :
  (forall x, a <= x < a + Z.of_nat k -> byte_at m' x = byte_at m x) ->
  load m' a k = load m a k.
Proof.
  revert a. induction k as [|k IH]; intros a H; [done |]. cbn [load].
  rewrite H by lia. f_equal. apply IH. intros. apply H. lia.
Qed.

Lemma load_ext_inv m m' a k x :
  load m' a k = load m a k -> a <= x < a + Z.of_nat k -> byte_at m' x = byte_at m x.
Proof.
  revert a. induction k as [|k IH]; intros a H Hx; [lia |]. cbn [load] in H.
  injection H as H1 H2. destruct (decide (a = x)) as [<- | Hne]; [done |].
  apply (IH (a + 1)); [done | lia].
Qed.

Lemma load_store_ne m a bs b k :
  a + Z.of_nat (length bs) <= b \/ b + Z.of_nat k <= a ->
  load (store m a bs) b k = load m b k.
Proof. intros H. apply load_ext. intros x Hx. apply byte_at_store_out. lia. Qed.

Lemma load_store_eq m a bs : load (store m a bs) a (length bs) = bs.
Proof.
  revert m a. induction bs as [|b bs IH]; intros m a; [done |].
  cbn [store length load]. rewrite IH. f_equal.
  rewrite byte_at_store_out by lia. rewrite byte_at_insert.
  by case_decide.
Qed.

Lemma load_store_sub m a bs k l :
  (k + l <= length bs)%nat ->
  load (store m a bs) (a + Z.of_nat k) l = take l (drop k bs).
Proof.
  intros H. assert (load (store m a bs) a (k + l) = take (k + l) bs) as E.
  { rewrite <- (load_store_eq m a bs) at 2.
    replace (length bs) with ((k + l) + (length bs - (k + l)))%nat at 1 by lia.
    rewrite (load_app _ a (k + l)). rewrite take_app_le by (rewrite load_length; lia).
    by rewrite take_ge by (rewrite load_length; lia). }
  rewrite load_app in E. rewrite <- (firstn_skipn k (take (k + l) bs)) in E.
  apply app_inj_1 in E as [_ E].
  - rewrite E, skipn_firstn_comm. f_equal. lia.
  - rewrite load_length, length_take, length_take. lia.
Qed.

Lemma store_app m a bs bs' :
  store m a (bs ++ bs') = store (store m a bs) (a + Z.of_nat (length bs)) bs'.
Proof.
  revert m a. induction bs as [|b bs IH]; intros m a; cbn [store app length].
  - by rewrite Z.add_0_r.
  - rewrite IH. f_equal. lia.
Qed.

Lemma byte_at_zero_fill m a n x :
  byte_at (zero_fill m a n) x =
    if decide (a <= x < a + n) then Byte.x00 else byte_at m x.
Proof.
  unfold byte_at, zero_fill. case_decide as Hx.
  - destruct (filter _ m !! x) eqn:E; [| done].
    apply map_lookup_filter_Some in E as [_ E]. cbn in E. lia.
  - destruct (m !! x) as [b|] eqn:E.
    + by rewrite (map_lookup_filter_Some_2 _ m x b E).
    + by rewrite map_lookup_filter_None_2 by (left; done).
Qed.

(** Reading back what was written. *)
Lemma rd32_range m a : 0 <= rd32 m a < 2 ^ 32.
Proof.
  unfold rd32. pose proof (le_combine_bound (load m a 4)) as H.
  rewrite load_length in H. lia.
Qed.

Lemma rd16_range m a : 0 <= rd16 m a < 2 ^ 16.
Proof.
  unfold rd16. pose proof (le_combine_bound (load m a 2)) as H.
  rewrite load_length in H. lia.
Qed.

Lemma rd32_wr32_eq m a v : rd32 (wr32 m a v) a = u32 v.
Proof.
  unfold rd32, wr32. replace 4%nat with (length (le_split 4 v)) at 1 by done.
  rewrite load_store_eq. apply le_combine_split.
Qed.

Lemma rd32_store_ne m a bs b :
  a + Z.of_nat (length bs) <= b \/ b + 4 <= a -> rd32 (store m a bs) b = rd32 m b.
Proof. intros. unfold rd32. rewrite load_store_ne; [done | lia]. Qed.

Lemma rd32_wr32_ne m a v b : a + 4 <= b \/ b + 4 <= a -> rd32 (wr32 m a v) b = rd32 m b.
Proof. intros. unfold wr32. apply rd32_store_ne. rewrite length_le_split. lia. Qed.

Lemma byte_at_wr32 m a v x :
  x < a \/ a + 4 <= x -> byte_at (wr32 m a v) x = byte_at m x.
Proof. intros. unfold wr32. apply byte_at_store_out. rewrite length_le_split. lia. Qed.

Lemma rd32_ext m m' a :
  (forall x, a <= x < a + 4 -> byte_at m' x = byte_at m x) -> rd32 m' a = rd32 m a.
Proof. intros. unfold rd32. f_equal. by apply load_ext. Qed.
End Memory.

(** Two words at the same alignment are either the same or disjoint. *)
Lemma rd32_wr32 m a v b :
  a mod 4 = 0 -> b mod 4 = 0 -> rd32 (wr32 m a v) b = if decide (a = b) then u32 v else rd32 m b.
Proof.
  intros Ha Hb. case_decide as H; [subst; apply rd32_wr32_eq |].
  apply rd32_wr32_ne.
  pose proof (Z.div_mod a 4 ltac:(lia)). pose proof (Z.div_mod b 4 ltac:(lia)). lia.
Qed.
