(* ===== verification/Modification.v ===== *)
(** * [modification.h]: the log of writes to the NVM

    Every write an operation makes to its tablet is appended to a
    [ModificationList]; the log is what is shipped to the backups. *)

From S2P Require Import Prelude.

(** [struct Modification]: the tablet offset written, its length, and the
    virtual address the bytes are read back from when they are sent. *)
Record Modification := mkModification {
  des : Z;   (* uint32_t *)
  len : Z;   (* uint32_t *)
  src : Z    (* uint64_t *)
}.

Abbreviation ModificationList := (list Modification).

#[export] Instance Modification_eq_dec : EqDecision Modification.
Proof. solve_decision. Defined.

#[export] Instance Modification_inhabited : Inhabited Modification :=
  populate (mkModification 0 0 0).

(** [operator<] *)
Definition Modification_lt (a b : Modification) : bool := des a <? des b.

(** The tablet offsets a modification covers. *)
Definition covers (m : Modification) (x : Z) : Prop := des m <= x < des m + len m.

Definition covered (l : ModificationList) (x : Z) : Prop := Exists (fun m => covers m x) l.

#[export] Instance covers_dec m x : Decision (covers m x).
Proof. unfold covers. apply _. Defined.

#[export] Instance covered_dec l x : Decision (covered l x).
Proof. unfold covered. apply _. Defined.

Lemma covered_app l1 l2 x : covered (l1 ++ l2) x <-> covered l1 x \/ covered l2 x.
Proof. apply Exists_app. Qed.

Lemma covered_cons m l x : covered (m :: l) x <-> covers m x \/ covered l x.
Proof. apply Exists_cons. Qed.

Lemma covered_nil x : ~ covered [] x.
Proof. by intros H%Exists_nil. Qed.
