(* ===== verification/Allocator.v ===== *)
(** * [allocator.h], [allocator.cc]: the segregated free-list allocator

    A simplified dlmalloc over one tablet: block headers carry the size and,
    in the top bit, whether the block *before* is free; a free block repeats
    its size in its last word and is linked in the free list of its size.
    [Module Allocator] translates every member function. *)

From S2P Require Import Prelude Nvm Modification.

Module Allocator.

Definition kMaxBlockSize : Z := 1024 + 128.
Definition kSize : Z := 64 * 1024 * 1024.
Definition kNumFreeLists : Z := kMaxBlockSize / 16 + 1.

(** [BlockHeader::kFreeMask] *)
Definition kFreeMask : Z := 2 ^ 31.

(** [offsetof] and [sizeof] of the packed structs. *)
Definition offsetof_prev : Z := 4.
Definition offsetof_next : Z := 8.
Definition sizeof_u32 : Z := 4.
Definition sizeof_FreeListManager : Z := 4 * kNumFreeLists.

(** The allocator object together with the memory it manages.  [region] is
    the number of bytes from [base_] on that belong to the tablet: an access
    outside is [Segv].  [modifications_] is [None] when the pointer is null
    or dangles. *)
Record state := mkState {
  base_ : Z;
  region : Z;
  nvm : mem;
  cnt_writes_ : Z;
  modifications_ : option ModificationList
}.

Definition with_nvm (m : mem) (s : state) : state :=
  mkState (base_ s) (region s) m (cnt_writes_ s) (modifications_ s).
Definition with_cnt_writes (n : Z) (s : state) : state :=
  mkState (base_ s) (region s) (nvm s) n (modifications_ s).
Definition with_modifications (l : option ModificationList) (s : state) : state :=
  mkState (base_ s) (region s) (nvm s) (cnt_writes_ s) l.

(** ** Access to the NVM *)

Definition in_region (s : state) (offset n : Z) : bool :=
  (0 <=? offset) && (offset + n <=? region s).

(** Dereferencing [OffsetToPtr<T>(offset)], [n = sizeof(T)]. *)
Definition OffsetToPtr (offset n : Z) : M state unit :=
  s <- get ;; guard (in_region s offset n) Segv.

Definition set_modifications (l : option ModificationList) : M state unit :=
  modify (with_modifications l).

(** [modifications_->emplace_back(des, base_ + des, len)] *)
Definition emplace_back (d l : Z) : M state unit :=
  s <- get ;;
  match modifications_ s with
  | None => fail Segv
  | Some ms =>
      modify (with_modifications (Some (ms ++ [mkModification d l (u64 (base_ s + d))])))
  end.

(** [Write<T>(offset, val)], [val] as its bytes. *)
Definition Write (offset : Z) (val : list Init.Byte.byte) : M state unit :=
  assert (negb (offset =? 0)) ;;;
  OffsetToPtr offset (Z.of_nat (length val)) ;;;
  modify (fun s => with_nvm (store (nvm s) offset val) s) ;;;
  emplace_back offset (u32 (Z.of_nat (length val))) ;;;
  modify (fun s => with_cnt_writes (u64 (cnt_writes_ s + 1)) s).

Definition Write32 (offset v : Z) : M state unit := Write offset (le_split 4 v).
Definition Write16 (offset v : Z) : M state unit := Write offset (le_split 2 v).

(** [Read<T>(offset)] *)
Definition Read (offset : Z) (n : nat) : M state (list Init.Byte.byte) :=
  assert (negb (offset =? 0)) ;;;
  OffsetToPtr offset (Z.of_nat n) ;;;
  gets (fun s => load (nvm s) offset n).

Definition Read32 (offset : Z) : M state Z :=
  bs <- Read offset 4 ;; ret (le_combine bs).
Definition Read16 (offset : Z) : M state Z :=
  bs <- Read offset 2 ;; ret (le_combine bs).

(** [memcmp]: the sign of the first difference, bytes compared unsigned. *)
Fixpoint memcmp (a b : list Init.Byte.byte) : Z :=
  match a, b with
  | x :: a', y :: b' =>
      if byte.unsigned x =? byte.unsigned y then memcmp a' b'
      else if byte.unsigned x <? byte.unsigned y then -1 else 1
  | _, _ => 0
  end.

(** Bytes of a caller's buffer; reading past its end is a wild access. *)
Definition user_bytes (buf : list Init.Byte.byte) (n : Z) : M state (list Init.Byte.byte) :=
  guard (n <=? Z.of_nat (length buf)) Segv ;;; ret (take (Z.to_nat n) buf).

(** [len] bytes behind [OffsetToPtr<char>(offset)]; no assertion here. *)
Definition nvm_bytes (offset n : Z) : M state (list Init.Byte.byte) :=
  OffsetToPtr offset n ;;; gets (fun s => load (nvm s) offset (Z.to_nat n)).

Definition Memcmp_nvm_nvm (lhs rhs n : Z) : M state Z :=
  a <- nvm_bytes lhs n ;; b <- nvm_bytes rhs n ;; ret (memcmp a b).
Definition Memcmp (lhs : Z) (rhs : list Init.Byte.byte) (n : Z) : M state Z :=
  a <- nvm_bytes lhs n ;; b <- user_bytes rhs n ;; ret (memcmp a b).
Definition Memcmp_user_nvm (lhs : list Init.Byte.byte) (rhs n : Z) : M state Z :=
  a <- user_bytes lhs n ;; b <- nvm_bytes rhs n ;; ret (memcmp a b).

Definition Memcpy_nvm_nvm (d s n : Z) : M state unit :=
  bs <- nvm_bytes s n ;;
  OffsetToPtr d n ;;;
  modify (fun st => with_nvm (store (nvm st) d bs) st) ;;;
  emplace_back d n.
Definition Memcpy (d : Z) (buf : list Init.Byte.byte) (n : Z) : M state unit :=
  bs <- user_bytes buf n ;;
  OffsetToPtr d n ;;;
  modify (fun st => with_nvm (store (nvm st) d bs) st) ;;;
  emplace_back d n.
(** Copy to the user: no NVM modification. *)
Definition Memcpy_to_user (s n : Z) : M state (list Init.Byte.byte) := nvm_bytes s n.

(** ** Tags and free lists *)

Definition GetLastFreeList : Z := (kNumFreeLists - 1) * sizeof_u32.

Definition GetFreeListByBlockSize (blk_size : Z) : M state Z :=
  assert (16 <=? blk_size) ;;;
  ret (if blk_size <=? kMaxBlockSize then (blk_size / 16 - 1) * sizeof_u32
       else GetLastFreeList).

(** [RoundupBlockSize]; past [kMaxBlockSize] it asserts. *)
Definition RoundupBlockSize (blk_size : Z) : M state Z :=
  if blk_size <=? kMaxBlockSize then ret ((blk_size + 16 - 1) / 16 * 16)
  else assert false ;;; ret 0.

Definition ReadTheSizeTag (blk : Z) : M state Z :=
  w <- Read32 blk ;; ret (Z.land w (not32 kFreeMask)).
Definition ReadThePrevFreeTag (blk : Z) : M state Z :=
  w <- Read32 blk ;; ret (Z.land w kFreeMask).
Definition ReadTheFreeTag (blk blk_size : Z) : M state Z :=
  w <- Read32 (u32 (blk + blk_size)) ;; ret (Z.land w kFreeMask).
Definition SetThePrevFreeTag (blk : Z) : M state unit :=
  w <- Read32 blk ;; Write32 blk (Z.lor kFreeMask w).
Definition ResetThePrevFreeTag (blk : Z) : M state unit :=
  w <- Read32 blk ;; Write32 blk (Z.land (not32 kFreeMask) w).
Definition SetTheFreeTag (blk blk_size : Z) : M state unit :=
  let next_blk := u32 (blk + blk_size) in
  w <- Read32 next_blk ;; Write32 next_blk (Z.lor w kFreeMask).
Definition ResetTheFreeTag (blk blk_size : Z) : M state unit :=
  let next_blk := u32 (blk + blk_size) in
  w <- Read32 next_blk ;; Write32 next_blk (Z.land w (not32 kFreeMask)).

Definition GetBlockSizeByFreeList (free_list : Z) : M state Z :=
  let free_list := free_list / sizeof_u32 in
  if free_list <? kNumFreeLists - 1 then ret ((free_list + 1) * 16)
  else
    assert (free_list =? kNumFreeLists - 1) ;;;
    head <- Read32 (free_list * sizeof_u32) ;;
    if head =? 0 then ret 0 else ReadTheSizeTag head.

(** [OffsetToPtr<const BlockHeader>(blk)->size]: the bit-fields [free : 1]
    and [size : 31] are laid out from the least significant bit (the
    Itanium/System V ABI the Makefile's g++ follows). *)
Definition GetFreeListByBlockOffset (blk : Z) : M state Z :=
  OffsetToPtr blk 12 ;;;
  w <- gets (fun s => rd32 (nvm s) blk) ;;
  GetFreeListByBlockSize (w / 2).

(** ** Construction *)

Definition Format : M state unit :=
  set_modifications (Some []) ;;;
  OffsetToPtr 0 kSize ;;;
  modify (fun s => with_nvm (zero_fill (nvm s) 0 kSize) s) ;;;
  let blk := sizeof_FreeListManager in
  Write32 GetLastFreeList blk ;;;
  let blk_size := Z.land (u32 (kSize - blk - sizeof_u32)) (not32 15) in
  Write32 blk (Z.land blk_size (not32 kFreeMask)) ;;;
  Write32 (u32 (blk + blk_size - sizeof_u32)) blk_size ;;;
  SetTheFreeTag blk blk_size ;;;
  (* the local [modifications] dies here: the member pointer dangles *)
  set_modifications None.

(** [Allocator(void* base)] over [region] bytes with contents [m]. *)
Definition Construct (base rgn : Z) (m : mem) : outcome state unit :=
  Format (mkState base rgn m 0 None).

(** ** Allocation *)

(** [while (free_list < kNumFreeLists * sizeof(uint32_t) &&
           (head = Read<uint32_t>(free_list)) == 0) free_list += 4;] *)
Fixpoint search_lists (fuel : nat) (free_list head : Z) : M state (Z * Z) :=
  match fuel with
  | O => fail OutOfFuel
  | S fuel' =>
      if free_list <? kNumFreeLists * sizeof_u32 then
        head <- Read32 free_list ;;
        if head =? 0 then search_lists fuel' (u32 (free_list + sizeof_u32)) head
        else ret (free_list, head)
      else ret (free_list, head)
  end.

(** One iteration per list, and one to leave the loop. *)
Definition search_fuel : nat := S (Z.to_nat kNumFreeLists).

Definition RemoveBlock (blk blk_size : Z) : M state unit :=
  tag <- ReadTheFreeTag blk blk_size ;;
  assert (negb (tag =? 0)) ;;;
  prev_blk <- Read32 (u32 (blk + offsetof_prev)) ;;
  next_blk <- Read32 (u32 (blk + offsetof_next)) ;;
  (if negb (prev_blk =? 0) then
     n <- Read32 (u32 (blk + offsetof_next)) ;;
     Write32 (u32 (prev_blk + offsetof_next)) n
   else
     free_list <- GetFreeListByBlockSize blk_size ;;
     n <- Read32 (u32 (blk + offsetof_next)) ;;
     Write32 free_list n) ;;;
  when (negb (next_blk =? 0))
    (p <- Read32 (u32 (blk + offsetof_prev)) ;;
     Write32 (u32 (next_blk + offsetof_prev)) p).

Definition SplitBlock (blk blk_size needed_size : Z) : M state Z :=
  next_blk <- Read32 (u32 (blk + offsetof_next)) ;;
  free_list <- GetFreeListByBlockSize blk_size ;;
  assert (needed_size <? blk_size) ;;;
  let new_size := blk_size - needed_size in
  Write32 free_list next_blk ;;;
  when (negb (next_blk =? 0)) (Write32 (u32 (next_blk + offsetof_prev)) 0) ;;;
  (* Update size *)
  tag <- ReadThePrevFreeTag blk ;;
  Write32 blk (Z.lor tag new_size) ;;;
  Write32 (u32 (blk + new_size - sizeof_u32)) new_size ;;;
  free_list <- GetFreeListByBlockSize new_size ;;
  head <- Read32 free_list ;;
  Write32 (u32 (blk + offsetof_prev)) 0 ;;;
  Write32 (u32 (blk + offsetof_next)) head ;;;
  Write32 free_list blk ;;;
  when (negb (head =? 0)) (Write32 (u32 (head + offsetof_prev)) blk) ;;;
  (* The rest smaller block is still free *)
  Write32 (u32 (blk + new_size)) (Z.lor kFreeMask needed_size) ;;;
  Write32 (u32 (blk + blk_size - sizeof_u32)) needed_size ;;;
  (* Piece splitted is not free now. *)
  ResetTheFreeTag (u32 (blk + new_size)) needed_size ;;;
  ret (u32 (blk + new_size)).

Definition AllocBlock (blk_size : Z) : M state Z :=
  free_list <- GetFreeListByBlockSize blk_size ;;
  found <- search_lists search_fuel free_list 0 ;;
  let free_list := found.1 in
  let head := found.2 in
  if head =? 0 then ret 0
  else
    head_size <- ReadTheSizeTag head ;;
    tag <- ReadTheFreeTag head head_size ;;
    assert (negb (tag =? 0)) ;;;
    assert (blk_size <=? head_size) ;;;
    if head_size =? blk_size then
      next_blk <- Read32 (u32 (head + offsetof_next)) ;;
      ResetTheFreeTag head head_size ;;;
      Write32 free_list next_blk ;;;
      Write32 (u32 (next_blk + offsetof_prev)) 0 ;;;
      ret head
    else SplitBlock head head_size blk_size.

Definition FreeBlock (blk : Z) : M state unit :=
  blk_size <- ReadTheSizeTag blk ;;
  let blk_size_old := blk_size in
  prev_blk_size <- Read32 (u32 (blk - sizeof_u32)) ;;
  let prev_blk := u32 (blk - prev_blk_size) in
  let next_blk := u32 (blk + blk_size) in
  next_blk_size <- ReadTheSizeTag next_blk ;;
  prev_tag <- ReadThePrevFreeTag blk ;;
  bs <- (if negb (prev_tag =? 0) && (blk_size <=? kMaxBlockSize)
            && (prev_blk_size <=? kMaxBlockSize)
         then RemoveBlock prev_blk prev_blk_size ;;;
              ret (prev_blk, u32 (blk_size + prev_blk_size))
         else ret (blk, blk_size)) ;;
  let blk := bs.1 in
  let blk_size := bs.2 in
  next_tag <- ReadTheFreeTag next_blk next_blk_size ;;
  blk_size <- (if negb (next_tag =? 0) && (blk_size <=? kMaxBlockSize)
                  && (next_blk_size <=? kMaxBlockSize)
               then RemoveBlock next_blk next_blk_size ;;;
                    ret (u32 (blk_size + next_blk_size))
               else ret blk_size) ;;
  (* If the blk_size changed, write it. *)
  when (negb (blk_size =? blk_size_old))
    (tag <- ReadThePrevFreeTag blk ;;
     Write32 blk (Z.lor tag blk_size) ;;;
     Write32 (u32 (blk + blk_size - sizeof_u32)) blk_size) ;;;
  SetTheFreeTag blk blk_size ;;;
  free_list <- GetFreeListByBlockSize blk_size ;;
  head <- Read32 free_list ;;
  Write32 free_list blk ;;;
  Write32 (u32 (blk + offsetof_prev)) 0 ;;;
  Write32 (u32 (blk + offsetof_next)) head ;;;
  when (negb (head =? 0)) (Write32 (u32 (head + offsetof_prev)) blk).

(** Return the offset of the object, 0 when no block is left. *)
Definition Alloc (size : Z) : M state Z :=
  blk_size <- RoundupBlockSize (u32 (size + sizeof_u32)) ;;
  assert (blk_size mod 16 =? 0) ;;;
  (* The client side should refuse too big kv item. *)
  assert (blk_size <=? kMaxBlockSize) ;;;
  blk <- AllocBlock blk_size ;;
  ret (if blk =? 0 then 0 else u32 (blk + sizeof_u32)).

Definition Free (ptr : Z) : M state unit :=
  assert ((sizeof_u32 <? ptr) && (ptr <=? kSize)) ;;;
  FreeBlock (u32 (ptr - sizeof_u32)).

End Allocator.
