(* ===== verification/HeapSpec.v ===== *)
(** * The abstract heap the allocator maintains

    A heap is a tiling of the tablet by blocks, together with the free lists:
    [fl i] is the list whose head word is at offset [4 * i]; [orph] collects
    the chains of 32-byte free blocks the code has lost track of (see
    [alloc_exact_leak] below).  [heap_inv m h] says that memory [m]
    represents [h]. *)

From S2P Require Import Prelude Nvm Modification Allocator.

(** First block, and the sentinel word behind the last one. *)
Definition FIRST : Z := Allocator.sizeof_FreeListManager.
Definition END_ : Z :=
  FIRST + Z.land (Allocator.kSize - FIRST - 4) (not32 15).

Record block := mkBlock { bsize : Z; bfree : bool }.

#[export] Instance block_eq_dec : EqDecision block.
Proof. solve_decision. Defined.

Record heap := mkHeap {
  blocks : gmap Z block;
  fl : Z -> list Z;
  orph : list (list Z)
}.

(** Index of the free list of a block size. *)
Definition class (sz : Z) : Z :=
  if sz <=? Allocator.kMaxBlockSize then sz / 16 - 1 else Allocator.kNumFreeLists - 1.

Definition upd {A} (i : Z) (l : A) (f : Z -> A) : Z -> A :=
  fun j => if j =? i then l else f j.

Lemma upd_eq {A} i (l : A) f : upd i l f i = l.
Proof. unfold upd. by rewrite Z.eqb_refl. Qed.

Lemma upd_ne {A} i j (l : A) f : i <> j -> upd i l f j = f j.
Proof. unfold upd. intros. destruct (Z.eqb_spec j i); [congruence | done]. Qed.

(** ** Chains in memory *)

(** [seg m p l n]: the nodes [l] are doubly linked in order, the first one
    pointing back to [p] and the last one on to [n]. *)
Fixpoint seg (m : mem) (p : Z) (l : list Z) (n : Z) : Prop :=
  match l with
  | [] => True
  | x :: l' => rd32 m (x + 4) = p /\ rd32 m (x + 8) = hd n l' /\ seg m x l' n
  end.

Definition lastd (p : Z) (l : list Z) : Z := List.last l p.

Definition node (x : Z) : Prop := FIRST <= x /\ x + 32 <= END_ /\ x mod 16 = 4.

(** ** Words of the heap *)

(** Words that hold list links: heads below [FIRST], [prev] and [next]. *)
Definition list_word (w : Z) : Prop :=
  (0 < w < FIRST /\ w mod 4 = 0) \/ (FIRST <= w /\ (w mod 16 = 8 \/ w mod 16 = 12)).

(** Words that hold tags and sizes: headers and footers. *)
Definition layout_word (w : Z) : Prop := FIRST <= w /\ (w mod 16 = 4 \/ w mod 16 = 0).

Lemma word_sep a b : list_word a -> layout_word b -> a + 4 <= b \/ b + 4 <= a.
Proof.
  unfold list_word, layout_word. intros.
  pose proof (Z.div_mod a 16 ltac:(lia)). pose proof (Z.div_mod b 16 ltac:(lia)).
  change FIRST with 292 in *.
  pose proof (Z.div_mod a 4 ltac:(lia)). lia.
Qed.

(** ** Invariants *)

(** The chains hold distinct nodes. *)
Record lists_wf (f : Z -> list Z) (o : list (list Z)) : Prop := {
  lw_range : forall i, f i <> [] -> 1 <= i <= 72;
  lw_node : forall i x, x ∈ f i -> node x;
  lw_onode : forall x, x ∈ concat o -> node x;
  lw_nodup : forall i, NoDup (f i);
  lw_disj : forall i j x, x ∈ f i -> x ∈ f j -> i = j;
  lw_onodup : NoDup (concat o);
  lw_odisj : forall i x, x ∈ f i -> x ∉ concat o
}.

(** Memory holds the heads and links of the chains. *)
Record lists_mem (m : mem) (f : Z -> list Z) (o : list (list Z)) : Prop := {
  lm_head : forall i, 1 <= i <= 72 -> rd32 m (4 * i) = hd 0 (f i);
  lm_seg : forall i, seg m 0 (f i) 0;
  lm_oseg : forall c, c ∈ o -> seg m 0 c 0
}.

Definition block_ok (a : Z) (b : block) : Prop :=
  FIRST <= a /\ a mod 16 = 4 /\ bsize b mod 16 = 0 /\ 32 <= bsize b /\ a + bsize b <= END_.

(** The blocks tile [FIRST .. END_). *)
Record tiling (B : gmap Z block) : Prop := {
  ti_ok : forall a b, B !! a = Some b -> block_ok a b;
  ti_first : is_Some (B !! FIRST);
  ti_next : forall a b, B !! a = Some b -> a + bsize b = END_ \/ is_Some (B !! (a + bsize b));
  ti_pred : forall a b, B !! a = Some b ->
    a = FIRST \/ exists p pb, B !! p = Some pb /\ p + bsize pb = a;
  ti_disj : forall a ba c bc, B !! a = Some ba -> B !! c = Some bc -> a < c -> a + bsize ba <= c
}.

Definition flag (b : bool) : Z := if b then 1 else 0.

(** Headers and footers agree with the blocks: the size in the low 31 bits,
    in the top bit whether the block before is free. *)
Record tags_inv (m : mem) (B : gmap Z block) : Prop := {
  tg_size : forall a b, B !! a = Some b -> rd32 m a mod 2 ^ 31 = bsize b;
  tg_flag : forall a b, B !! a = Some b -> rd32 m (a + bsize b) / 2 ^ 31 = flag (bfree b);
  tg_foot : forall a b, B !! a = Some b -> bfree b = true -> rd32 m (a + bsize b - 4) = bsize b;
  tg_first : rd32 m FIRST / 2 ^ 31 = 0;
  tg_end : rd32 m END_ mod 2 ^ 31 = 0
}.

(** Every listed node is a free block of the list's class; every free block
    is listed or, for the 32-byte class, in a lost chain. *)
Record members (B : gmap Z block) (f : Z -> list Z) (o : list (list Z)) : Prop := {
  mb_listed : forall i x, x ∈ f i ->
    exists sz, B !! x = Some (mkBlock sz true) /\ class sz = i;
  mb_lost : forall x, x ∈ concat o -> B !! x = Some (mkBlock 32 true);
  mb_all : forall x sz, B !! x = Some (mkBlock sz true) ->
    x ∈ f (class sz) \/ x ∈ concat o
}.

Record heap_inv (m : mem) (h : heap) : Prop := {
  hi_tiling : tiling (blocks h);
  hi_tags : tags_inv m (blocks h);
  hi_lists : lists_wf (fl h) (orph h);
  hi_links : lists_mem m (fl h) (orph h);
  hi_members : members (blocks h) (fl h) (orph h)
}.

(** Bytes that belong to the allocator: the list heads, the headers, the
    sentinel and the whole of every free block.  The rest is user data. *)
Definition meta (B : gmap Z block) (x : Z) : Prop :=
  0 <= x < FIRST \/ END_ <= x < END_ + 4 \/
  exists a b, B !! a = Some b /\
    (a <= x < a + 4 \/ (bfree b = true /\ a <= x < a + bsize b)).

(** [m'] differs from [m] in allocator bytes only. *)
Definition only_meta (B : gmap Z block) (m m' : mem) : Prop :=
  forall x, ~ meta B x -> byte_at m' x = byte_at m x.

(** ** Abstract operations *)

Definition push (i x : Z) (f : Z -> list Z) : Z -> list Z := upd i (x :: f i) f.

(** First nonempty list from class [i] on, at most [fuel] lists. *)
Fixpoint first_nonempty (fuel : nat) (i : Z) (f : Z -> list Z) : option (Z * Z * list Z) :=
  match fuel with
  | O => None
  | S fuel' => match f i with
               | x :: rest => Some (i, x, rest)
               | [] => first_nonempty fuel' (i + 1) f
               end
  end.

(** Lists of class [i] up to the last one, 72. *)
Definition lists_from (i : Z) : nat := Z.to_nat (Allocator.kNumFreeLists - i).

(** Taking an exactly fitting block [x] off list [i].  When [x] was the last
    node the code also clears the word at offset 4, the head of list 1: the
    32-byte blocks listed there are lost. *)
Definition alloc_exact (n i x : Z) (rest : list Z) (h : heap) : heap :=
  let f := upd i rest (fl h) in
  let B := <[x := mkBlock n false]> (blocks h) in
  match rest with
  | [] => mkHeap B (upd 1 [] f) (f 1 :: orph h)
  | _ => mkHeap B f (orph h)
  end.

(** Carving [n] bytes off the end of the free block [x] of [sz] bytes. *)
Definition alloc_split (n i x sz : Z) (rest : list Z) (h : heap) : heap :=
  mkHeap (<[x + (sz - n) := mkBlock n false]> (<[x := mkBlock (sz - n) true]> (blocks h)))
         (push (class (sz - n)) x (upd i rest (fl h))) (orph h).

(** [None]: the remainder would be a 16-byte block, whose free list is at
    offset 0, which [Read] refuses. *)
Definition abs_alloc (n : Z) (h : heap) : option (Z * heap) :=
  match first_nonempty (lists_from (class n)) (class n) (fl h) with
  | None => Some (0, h)
  | Some (i, x, rest) =>
      match blocks h !! x with
      | None => None
      | Some b =>
          if bsize b =? n then Some (x, alloc_exact n i x rest h)
          else if bsize b - n =? 16 then None
          else Some (x + (bsize b - n), alloc_split n i x (bsize b) rest h)
      end
  end.

(** Taking node [y] out of its chain.  The first node of a lost chain has no
    predecessor, so the code makes its successor the head of list 1, and it
    is the chain listed before that gets lost. *)
Inductive unlink (y : Z) (f : Z -> list Z) (o : list (list Z)) :
    (Z -> list Z) -> list (list Z) -> Prop :=
  | unlink_listed i l1 l2 :
      f i = l1 ++ y :: l2 -> unlink y f o (upd i (l1 ++ l2) f) o
  | unlink_lost o1 o2 l1 l2 :
      o = o1 ++ (l1 ++ y :: l2) :: o2 -> l1 <> [] ->
      unlink y f o f (o1 ++ (l1 ++ l2) :: o2)
  | unlink_lost_head o1 o2 l2 :
      o = o1 ++ (y :: l2) :: o2 ->
      unlink y f o (upd 1 l2 f) (o1 ++ f 1 :: o2).

(** Freeing the block [x] of [sz] bytes: merge with a small free block before
    it, then with a small free block behind it, then list the result. *)
Inductive merge_prev (x sz : Z) (h : heap) : Z -> Z -> heap -> Prop :=
  | merge_prev_yes p psz f o :
      blocks h !! p = Some (mkBlock psz true) -> p + psz = x ->
      sz <= Allocator.kMaxBlockSize -> psz <= Allocator.kMaxBlockSize ->
      unlink p (fl h) (orph h) f o ->
      merge_prev x sz h p (sz + psz) (mkHeap (delete x (blocks h)) f o)
  | merge_prev_no :
      (forall p psz, blocks h !! p = Some (mkBlock psz true) -> p + psz = x ->
        Allocator.kMaxBlockSize < sz \/ Allocator.kMaxBlockSize < psz) ->
      merge_prev x sz h x sz h.

Inductive merge_next (c s : Z) (h : heap) : Z -> heap -> Prop :=
  | merge_next_yes csz f o :
      blocks h !! c = Some (mkBlock csz true) ->
      s <= Allocator.kMaxBlockSize -> csz <= Allocator.kMaxBlockSize ->
      unlink c (fl h) (orph h) f o ->
      merge_next c s h (s + csz) (mkHeap (delete c (blocks h)) f o)
  | merge_next_no :
      (forall csz, blocks h !! c = Some (mkBlock csz true) ->
        Allocator.kMaxBlockSize < s \/ Allocator.kMaxBlockSize < csz) ->
      merge_next c s h s h.

Inductive abs_free (x : Z) (h : heap) : heap -> Prop :=
  | AbsFree sz a s h1 s' h2 :
      blocks h !! x = Some (mkBlock sz false) ->
      merge_prev x sz h a s h1 ->
      merge_next (x + sz) s h1 s' h2 ->
      abs_free x h (mkHeap (<[a := mkBlock s' true]> (blocks h2))
                           (push (class s') a (fl h2)) (orph h2)).
