(* ===== verification/HeapLists.v ===== *)
(** * Free lists in memory

    Pushing a node, unlinking a node and losing list 1 are described by the
    list words they change; each is shown to preserve [lists_inv]. *)

From S2P Require Import Prelude Nvm Modification Allocator HeapSpec.

Ltac Zify.zify_post_hook ::= Z.to_euclidean_division_equations.

(** Arithmetic on nodes and words. *)
Ltac node_lia :=
  unfold node, list_word, layout_word in *; change FIRST with 292 in *; change END_ with 67108852 in *; lia.

(** ** Segments *)

Lemma hd_cons_ne d (l1 l2 : list Z) : l1 <> [] -> hd d (l1 ++ l2) = hd d l1.
Proof. by destruct l1. Qed.

Lemma hd_app d (l1 l2 : list Z) : hd d (l1 ++ l2) = hd (hd d l2) l1.
Proof. by destruct l1. Qed.

Lemma lastd_snoc p (l : list Z) x : lastd p (l ++ [x]) = x.
Proof. apply List.last_last. Qed.

Lemma lastd_cons p x (l : list Z) : lastd p (x :: l) = lastd x l.
Proof.
  unfold lastd. revert p x. induction l as [|y l IH]; intros p x; [done |].
  change (List.last (x :: y :: l) p) with (List.last (y :: l) p). by rewrite (IH p y), (IH x y).
Qed.

Lemma lastd_in p (l : list Z) : l <> [] -> lastd p l ∈ l.
Proof.
  intros Hl. destruct (exists_last Hl) as (l' & x & ->). rewrite lastd_snoc. set_solver.
Qed.

Lemma seg_app m p l1 l2 n :
  seg m p (l1 ++ l2) n <-> seg m p l1 (hd n l2) /\ seg m (lastd p l1) l2 n.
Proof.
  revert p. induction l1 as [|x l1 IH]; intros p; cbn [app seg].
  - unfold lastd. cbn. tauto.
  - rewrite IH, lastd_cons, hd_app. tauto.
Qed.

Lemma seg_ext m m' p l n :
  (forall x, x ∈ l -> rd32 m' (x + 4) = rd32 m (x + 4) /\ rd32 m' (x + 8) = rd32 m (x + 8)) ->
  seg m p l n -> seg m' p l n.
Proof.
  revert p. induction l as [|x l IH]; intros p Hw; cbn [seg]; [done |].
  intros (H1 & H2 & H3). destruct (Hw x) as [E4 E8]; [set_solver |].
  split_and!; [congruence .. |]. apply IH; [| done]. intros. apply Hw. set_solver.
Qed.

Lemma seg_reprev m m' p p' l n :
  NoDup l ->
  seg m p l n ->
  (forall z r, l = z :: r -> rd32 m' (z + 4) = p') ->
  (forall x, x ∈ l -> rd32 m' (x + 8) = rd32 m (x + 8)) ->
  (forall x, x ∈ tail l -> rd32 m' (x + 4) = rd32 m (x + 4)) ->
  seg m' p' l n.
Proof.
  destruct l as [|z r]; [done |]. cbn [seg tail]. intros Hnd (H1 & H2 & H3) Hp Hn Ht.
  split_and!; [by eapply Hp | rewrite Hn by set_solver; done |].
  eapply seg_ext; [| done]. intros x Hx. split; [by apply Ht | apply Hn; set_solver].
Qed.

Lemma seg_renext m m' p l n n' :
  NoDup l ->
  seg m p l n ->
  (forall x, x ∈ l -> rd32 m' (x + 4) = rd32 m (x + 4)) ->
  (forall x, x ∈ l -> x <> lastd p l -> rd32 m' (x + 8) = rd32 m (x + 8)) ->
  (l <> [] -> rd32 m' (lastd p l + 8) = n') ->
  seg m' p l n'.
Proof.
  revert p. induction l as [|x l IH]; intros p Hnd; cbn [seg]; [done |].
  intros (H1 & H2 & H3) Hp Hn Hl. rewrite lastd_cons in *.
  apply list.NoDup_cons in Hnd as [Hx Hnd].
  split_and!.
  - rewrite Hp by set_solver. done.
  - destruct l as [|y l]; [by apply Hl |].
    rewrite Hn; [done | set_solver |]. intros E. apply Hx. rewrite E.
    apply lastd_in. done.
  - apply IH; [done | done | set_solver | set_solver |]. intros. by apply Hl.
Qed.

(** ** Effects of the code on the list words *)

(** [RemoveBlock] (and taking the first block of a list). *)
Definition removed (i y : Z) (m m' : mem) : Prop :=
  let prev := rd32 m (y + 4) in
  let next := rd32 m (y + 8) in
  forall w, list_word w ->
    rd32 m' w =
      if decide (next <> 0 /\ w = next + 4) then prev
      else if decide (w = if decide (prev = 0) then 4 * i else prev + 8) then next
      else rd32 m w.

(** Linking [x] in front of list [i], whose head is [h]. *)
Definition pushed (i x h : Z) (m m' : mem) : Prop :=
  forall w, list_word w ->
    rd32 m' w =
      if decide (h <> 0 /\ w = h + 4) then x
      else if decide (w = 4 * i) then x
      else if decide (w = x + 4) then 0
      else if decide (w = x + 8) then h
      else rd32 m w.

Lemma node_words x : node x -> list_word (x + 4) /\ list_word (x + 8).
Proof. node_lia. Qed.

Lemma head_word i : 1 <= i <= 72 -> list_word (4 * i).
Proof. node_lia. Qed.

(** Every node of the heap. *)
Definition known (f : Z -> list Z) (o : list (list Z)) (x : Z) : Prop :=
  (exists i, x ∈ f i) \/ x ∈ concat o.

Lemma elem_of_concat (x : Z) (o : list (list Z)) : x ∈ concat o <-> exists c, c ∈ o /\ x ∈ c.
Proof.
  rewrite list_elem_of_In, in_concat.
  split; intros (c & H1 & H2); exists c; by rewrite ?list_elem_of_In in *.
Qed.

(** ** Pure facts about chains *)

Section Pure.
Context (f : Z -> list Z) (o : list (list Z)).
Context (Hwf : lists_wf f o).

Lemma known_node x : known f o x -> node x.
Proof. intros [[i H] | H]; [by eapply lw_node | by eapply lw_onode]. Qed.

Lemma known_listed i x : x ∈ f i -> known f o x.
Proof. left. eauto. Qed.

Lemma known_lost c x : c ∈ o -> x ∈ c -> known f o x.
Proof. right. apply elem_of_concat. eauto. Qed.

Lemma hd_listed_node i : f i <> [] -> node (hd 0 (f i)).
Proof.
  intros H. apply (lw_node _ _ Hwf i). destruct (f i); [done |]. cbn. set_solver.
Qed.

Lemma push_wf i x :
  1 <= i <= 72 -> node x -> ~ known f o x -> lists_wf (push i x f) o.
Proof.
  intros Hi Hx Hfresh. unfold push.
  assert (Hin : forall j y, y ∈ upd i (x :: f i) f j <-> (j = i /\ y = x) \/ y ∈ f j).
  { intros j y. unfold upd. destruct (Z.eqb_spec j i); [subst; set_solver | naive_solver]. }
  split.
  - intros j. unfold upd. destruct (Z.eqb_spec j i); [by subst | apply (lw_range _ _ Hwf)].
  - intros j y [[_ ->] | H]%Hin; [done | by eapply (lw_node _ _ Hwf)].
  - apply (lw_onode _ _ Hwf).
  - intros j. unfold upd. destruct (Z.eqb_spec j i); [| apply (lw_nodup _ _ Hwf)].
    apply list.NoDup_cons. split; [| apply (lw_nodup _ _ Hwf)].
    intros H. apply Hfresh. by eapply known_listed.
  - intros j k y [[-> ->] | Hj]%Hin [[-> Hk] | Hk]%Hin; try done.
    + exfalso. apply Hfresh. by eapply known_listed.
    + subst. exfalso. apply Hfresh. by eapply known_listed.
    + by eapply (lw_disj _ _ Hwf).
  - apply (lw_onodup _ _ Hwf).
  - intros j y [[_ ->] | H]%Hin; [by intros ?; apply Hfresh; right | by eapply (lw_odisj _ _ Hwf)].
Qed.
End Pure.



(** *** Unlinking keeps the chains well formed *)

Lemma elem_of_upd {A} i (l : list A) f j (x : A) :
  x ∈ upd i l f j <-> (j = i /\ x ∈ l) \/ (j <> i /\ x ∈ f j).
Proof. unfold upd. destruct (Z.eqb_spec j i); naive_solver. Qed.

Lemma NoDup_drop_mid {A} (l1 l2 : list A) y :
  NoDup (l1 ++ y :: l2) -> NoDup (l1 ++ l2) /\ y ∉ l1 ++ l2.
Proof.
  rewrite (Permutation_app_comm l1 (y :: l2)), (Permutation_app_comm l1 l2).
  cbn. rewrite list.NoDup_cons. rewrite !elem_of_app. tauto.
Qed.

Lemma unlink_listed_wf f o i l1 l2 y :
  lists_wf f o -> f i = l1 ++ y :: l2 -> lists_wf (upd i (l1 ++ l2) f) o.
Proof.
  intros Hwf E. pose proof (lw_nodup _ _ Hwf i) as Hnd. rewrite E in Hnd.
  apply NoDup_drop_mid in Hnd as [Hnd _].
  assert (Hsub : forall j x, x ∈ upd i (l1 ++ l2) f j -> x ∈ f j).
  { intros j x [[-> Hx] | [_ Hx]]%elem_of_upd; [rewrite E; set_solver | done]. }
  split.
  - intros j H. destruct (decide (j = i)) as [-> |].
    + apply (lw_range _ _ Hwf). rewrite E. by destruct l1.
    + apply (lw_range _ _ Hwf). by rewrite upd_ne in H.
  - intros j x Hx%Hsub. by eapply (lw_node _ _ Hwf).
  - apply (lw_onode _ _ Hwf).
  - intros j. unfold upd. destruct (Z.eqb_spec j i); [done | apply (lw_nodup _ _ Hwf)].
  - intros j k x Hj%Hsub Hk%Hsub. by eapply (lw_disj _ _ Hwf).
  - apply (lw_onodup _ _ Hwf).
  - intros j x Hx%Hsub. by eapply (lw_odisj _ _ Hwf).
Qed.

Lemma unlink_lost_wf f o1 o2 l1 l2 y :
  lists_wf f (o1 ++ (l1 ++ y :: l2) :: o2) -> lists_wf f (o1 ++ (l1 ++ l2) :: o2).
Proof.
  intros Hwf.
  assert (Hp : concat (o1 ++ (l1 ++ y :: l2) :: o2) ≡ₚ y :: concat (o1 ++ (l1 ++ l2) :: o2)).
  { rewrite !concat_app. cbn. rewrite <- !app_assoc. cbn.
    rewrite <- !Permutation_middle. done. }
  assert (Hsub : forall x, x ∈ concat (o1 ++ (l1 ++ l2) :: o2) ->
                           x ∈ concat (o1 ++ (l1 ++ y :: l2) :: o2)).
  { intros x Hx. rewrite Hp. set_solver. }
  split; try apply Hwf.
  - intros x Hx%Hsub. by apply (lw_onode _ _ Hwf).
  - pose proof (lw_onodup _ _ Hwf) as H. rewrite Hp in H. by apply list.NoDup_cons in H as [_ H].
  - intros i x Hx Ho%Hsub. by eapply (lw_odisj _ _ Hwf).
Qed.

Lemma unlink_lost_head_wf f o1 o2 l2 y :
  lists_wf f (o1 ++ (y :: l2) :: o2) -> lists_wf (upd 1 l2 f) (o1 ++ f 1 :: o2).
Proof.
  intros Hwf.
  set (o := o1 ++ (y :: l2) :: o2) in *. set (o' := o1 ++ f 1 :: o2).
  assert (Hp : f 1 ++ concat o ≡ₚ y :: l2 ++ concat o').
  { unfold o, o'. rewrite !concat_app. cbn. rewrite !app_assoc.
    rewrite (Permutation_app_comm (f 1) (concat o1)). solve_Permutation. }
  assert (Hnd : NoDup (f 1 ++ concat o)).
  { apply list.NoDup_app. split_and!; [apply Hwf | apply (lw_odisj _ _ Hwf) | apply Hwf]. }
  rewrite Hp in Hnd. apply list.NoDup_cons in Hnd as [_ Hnd].
  apply list.NoDup_app in Hnd as (Hnd1 & Hnd2 & Hnd3).
  assert (Hl2 : forall x, x ∈ l2 -> x ∈ concat o).
  { intros x Hx. apply elem_of_concat. exists (y :: l2). unfold o. set_solver. }
  assert (Ho' : forall x, x ∈ concat o' -> x ∈ f 1 \/ x ∈ concat o).
  { intros x Hx. rewrite <- elem_of_app, Hp. set_solver. }
  split.
  - intros j H. destruct (decide (j = 1)) as [-> |]; [lia |].
    apply (lw_range _ _ Hwf). by rewrite upd_ne in H.
  - intros j x [[-> Hx] | [_ Hx]]%elem_of_upd;
      [by apply (lw_onode _ _ Hwf), Hl2 | by eapply (lw_node _ _ Hwf)].
  - intros x [Hx | Hx]%Ho'; [by eapply (lw_node _ _ Hwf) | by apply (lw_onode _ _ Hwf)].
  - intros j. unfold upd. destruct (Z.eqb_spec j 1); [done | apply (lw_nodup _ _ Hwf)].
  - intros j k x [[-> Hj] | [? Hj]]%elem_of_upd [[-> Hk] | [? Hk]]%elem_of_upd; [done | | |].
    + exfalso. by eapply (lw_odisj _ _ Hwf k), Hl2.
    + exfalso. by eapply (lw_odisj _ _ Hwf j), Hl2.
    + by eapply (lw_disj _ _ Hwf).
  - done.
  - intros j x [[-> Hx] | [Hj Hx]]%elem_of_upd H; [by eapply Hnd2 |].
    apply Ho' in H as [H | H]; [| by eapply (lw_odisj _ _ Hwf)].
    apply Hj. by eapply (lw_disj _ _ Hwf).
Qed.

Lemma unlink_wf y f o f' o' : lists_wf f o -> unlink y f o f' o' -> lists_wf f' o'.
Proof.
  intros Hwf [i l1 l2 E | o1 o2 l1 l2 -> _ | o1 o2 l2 ->].
  - by eapply unlink_listed_wf.
  - by eapply unlink_lost_wf.
  - by eapply unlink_lost_head_wf.
Qed.

(** *** Unlinking in memory *)

Lemma hd_not_nil (l : list Z) d : l <> [] -> hd d l ∈ l.
Proof. destruct l; [done | intros _; cbn; set_solver]. Qed.

Section Removed.
Context (m m' : mem) (i y p n : Z).
Context (Hrem : removed i y m m') (Hy : node y) (Hi : 1 <= i <= 72).
Context (Hp : rd32 m (y + 4) = p) (Hn : rd32 m (y + 8) = n).
Context (Hpn : p = 0 \/ node p) (Hnn : n = 0 \/ node n).

Lemma removed_prev x : node x ->
  rd32 m' (x + 4) = if decide (x = n) then p else rd32 m (x + 4).
Proof.
  intros Hx. destruct (node_words x Hx) as [H4 _]. unfold removed in Hrem.
  rewrite Hrem, Hp, Hn by done. repeat case_decide; done || node_lia.
Qed.

Lemma removed_next x : node x ->
  rd32 m' (x + 8) = if decide (x = p) then n else rd32 m (x + 8).
Proof.
  intros Hx. destruct (node_words x Hx) as [_ H8]. unfold removed in Hrem.
  rewrite Hrem, Hp, Hn by done. repeat case_decide; done || node_lia.
Qed.

Lemma removed_head j : 1 <= j <= 72 ->
  rd32 m' (4 * j) = if decide (p = 0 /\ j = i) then n else rd32 m (4 * j).
Proof.
  intros Hj. unfold removed in Hrem.
  rewrite Hrem, Hp, Hn by (by apply head_word). repeat case_decide; done || node_lia.
Qed.

(** A chain that neither neighbour is part of. *)
Lemma removed_other c : (forall x, x ∈ c -> node x /\ x <> p /\ x <> n) ->
  seg m 0 c 0 -> seg m' 0 c 0.
Proof.
  intros Hc. apply seg_ext. intros x Hx. destruct (Hc x Hx) as (H1 & H2 & H3).
  rewrite removed_prev, removed_next by done. by rewrite !decide_False.
Qed.
End Removed.

Lemma removed_chain m m' i y l1 l2 :
  removed i y m m' -> 1 <= i <= 72 ->
  (forall x, x ∈ l1 ++ y :: l2 -> node x) -> NoDup (l1 ++ y :: l2) ->
  seg m 0 (l1 ++ y :: l2) 0 -> seg m' 0 (l1 ++ l2) 0.
Proof.
  intros Hrem Hi Hnode Hnd (Hl1 & Hp & Hn & Hl2)%seg_app.
  assert (Hy : node y) by (apply Hnode; set_solver).
  assert (HP : lastd 0 l1 = 0 \/ node (lastd 0 l1)).
  { destruct (decide (l1 = [])) as [-> | H]; [by left | right].
    apply Hnode. apply elem_of_app. left. by apply lastd_in. }
  assert (HN : hd 0 l2 = 0 \/ node (hd 0 l2)).
  { destruct (decide (l2 = [])) as [-> | H]; [by left | right].
    apply Hnode. apply elem_of_app. right. apply elem_of_cons. right. by apply hd_not_nil. }
  pose proof (removed_prev m m' i y _ _ Hrem Hi Hp Hn HP HN) as Wp.
  pose proof (removed_next m m' i y _ _ Hrem Hi Hp Hn HP HN) as Wn.
  apply list.NoDup_app in Hnd as (Hnd1 & Hd & Hnd2).
  apply list.NoDup_cons in Hnd2 as [Hy2 Hnd2].
  assert (Hx1 : forall x, x ∈ l1 -> node x /\ x ∉ l2) by (intros x Hx; split; set_solver).
  assert (Hx2 : forall x, x ∈ l2 -> node x /\ x ∉ l1) by (intros x Hx; split; set_solver).
  apply seg_app. split.
  - eapply seg_renext; [done | done | | |].
    + intros x Hx. destruct (Hx1 x Hx) as [? Hxn]. rewrite Wp by done.
      case_decide; [| done]. subst x. destruct l2; [cbn in *; node_lia | set_solver].
    + intros x Hx Hne. rewrite Wn by (by apply Hx1). by rewrite decide_False.
    + intros Hne. rewrite Wn by (by apply Hx1, lastd_in). by rewrite decide_True.
  - eapply seg_reprev; [done | done | | |].
    + intros z r ->. rewrite Wp by (apply Hx2; set_solver). by rewrite decide_True.
    + intros x Hx. destruct (Hx2 x Hx) as [? Hxn]. rewrite Wn by done.
      case_decide; [| done]. subst x. destruct (decide (l1 = [])) as [-> | Hne]; [cbn in *; node_lia |].
      exfalso. by apply Hxn, lastd_in.
    + destruct l2 as [|z r]; cbn [tail hd]; [set_solver |]. intros x Hx.
      apply list.NoDup_cons in Hnd2 as [Hz _]. rewrite Wp by (apply Hx2; set_solver).
      rewrite decide_False; [done |]. cbn. set_solver.
Qed.

(** The neighbours of [y] in its chain. *)
Lemma chain_neighbours m l1 y l2 :
  seg m 0 (l1 ++ y :: l2) 0 -> (forall x, x ∈ l1 ++ y :: l2 -> node x) ->
  rd32 m (y + 4) = lastd 0 l1 /\ rd32 m (y + 8) = hd 0 l2 /\ node y /\
  (l1 = [] /\ lastd 0 l1 = 0 \/ l1 <> [] /\ lastd 0 l1 ∈ l1 /\ node (lastd 0 l1)) /\
  (l2 = [] /\ hd 0 l2 = 0 \/ l2 <> [] /\ hd 0 l2 ∈ l2 /\ node (hd 0 l2)).
Proof.
  intros (_ & Hp & Hn & _)%seg_app Hnode. split_and!; [done | done | apply Hnode; set_solver | |].
  - destruct (decide (l1 = [])) as [-> | H]; [by left | right].
    pose proof (lastd_in 0 _ H). split_and!; [done | done | apply Hnode; set_solver].
  - destruct (decide (l2 = [])) as [-> | H]; [by left | right].
    pose proof (hd_not_nil _ 0 H). split_and!; [done | done | apply Hnode; set_solver].
Qed.

(** Unlinking leaves a chain without common nodes alone. *)
Lemma removed_frame m m' i l1 y l2 c :
  removed i y m m' -> 1 <= i <= 72 ->
  seg m 0 (l1 ++ y :: l2) 0 -> (forall x, x ∈ l1 ++ y :: l2 -> node x) ->
  (forall x, x ∈ c -> node x /\ x ∉ l1 ++ y :: l2) ->
  seg m 0 c 0 -> seg m' 0 c 0.
Proof.
  intros Hrem Hi Hseg Hnode Hc.
  destruct (chain_neighbours _ _ _ _ Hseg Hnode) as (Hp & Hn & Hy & HP & HN).
  eapply (removed_other m m' i y _ _ Hrem Hi Hp Hn); [naive_solver | naive_solver |].
  intros x Hx. destruct (Hc x Hx) as [Hxn Hxc]. rewrite elem_of_app, elem_of_cons in Hxc.
  split_and!; [done | |]; intros ->; node_lia || naive_solver node_lia.
Qed.

(** The heads after unlinking [y] from the chain [l1 ++ y :: l2]. *)
Lemma removed_heads m m' i l1 y l2 j :
  removed i y m m' -> 1 <= i <= 72 -> 1 <= j <= 72 ->
  seg m 0 (l1 ++ y :: l2) 0 -> (forall x, x ∈ l1 ++ y :: l2 -> node x) ->
  rd32 m' (4 * j) = if decide (l1 = [] /\ j = i) then hd 0 l2 else rd32 m (4 * j).
Proof.
  intros Hrem Hi Hj Hseg Hnode.
  destruct (chain_neighbours _ _ _ _ Hseg Hnode) as (Hp & Hn & Hy & HP & HN).
  rewrite (removed_head m m' i y _ _ Hrem Hi Hp Hn) by naive_solver.
  destruct HP as [[-> ->] | (H1 & _ & H2)]; [by repeat case_decide; naive_solver |].
  rewrite !decide_False; [done | naive_solver |]. intros [E _]. rewrite E in H2. node_lia.
Qed.

Section Unlink.
Context (m m' : mem) (f : Z -> list Z) (o : list (list Z)) (i y : Z).
Context (Hwf : lists_wf f o) (Hmem : lists_mem m f o).
Context (Hrem : removed i y m m') (Hi : 1 <= i <= 72).

Lemma unlink_listed_mem l1 l2 :
  f i = l1 ++ y :: l2 -> lists_mem m' (upd i (l1 ++ l2) f) o.
Proof.
  intros E.
  assert (Hseg : seg m 0 (l1 ++ y :: l2) 0) by (rewrite <- E; apply Hmem).
  assert (Hnode : forall x, x ∈ l1 ++ y :: l2 -> node x).
  { intros x. rewrite <- E. apply (lw_node _ _ Hwf). }
  split.
  - intros j Hj. rewrite (removed_heads m m' i l1 y l2) by done.
    destruct (decide (j = i)) as [-> | Hji].
    + rewrite upd_eq. case_decide as H; [by destruct H as [-> _] |].
      rewrite (lm_head _ _ _ Hmem), E by done.
      destruct l1; [exfalso; by apply H | done].
    + rewrite upd_ne by done. rewrite decide_False by naive_solver. by apply Hmem.
  - intros j. destruct (decide (j = i)) as [-> | Hji].
    + rewrite upd_eq. eapply removed_chain; [done .. | | done].
      rewrite <- E. apply (lw_nodup _ _ Hwf).
    + rewrite upd_ne by done. eapply (removed_frame m m' i l1 y l2); [done .. | | apply Hmem].
      intros x Hx. split; [by eapply (lw_node _ _ Hwf) |]. rewrite <- E.
      intros H. apply Hji. by eapply (lw_disj _ _ Hwf).
  - intros c Hc. eapply (removed_frame m m' i l1 y l2); [done .. | | by apply Hmem].
    intros x Hx. assert (Hxo : x ∈ concat o) by (apply elem_of_concat; eauto).
    split; [by apply (lw_onode _ _ Hwf) |]. rewrite <- E.
    intros H. by eapply (lw_odisj _ _ Hwf).
Qed.

(** [y] in a lost chain: of the 32-byte class. *)
Context (o1 o2 : list (list Z)) (l1 l2 : list Z).
Context (Hi1 : i = 1) (Ho : o = o1 ++ (l1 ++ y :: l2) :: o2).

Lemma lost_chain : seg m 0 (l1 ++ y :: l2) 0 /\ (forall x, x ∈ l1 ++ y :: l2 -> node x) /\
  NoDup (l1 ++ y :: l2) /\ (forall x, x ∈ l1 ++ y :: l2 -> x ∉ concat (o1 ++ o2)) /\
  (forall j x, x ∈ f j -> x ∉ l1 ++ y :: l2).
Proof.
  assert (Hin : l1 ++ y :: l2 ∈ o) by (rewrite Ho; set_solver).
  assert (Hsub : forall x, x ∈ l1 ++ y :: l2 -> x ∈ concat o) by
    (intros x Hx; apply elem_of_concat; eauto).
  pose proof (lw_onodup _ _ Hwf) as Hnd. rewrite Ho, concat_app in Hnd. cbn [concat] in Hnd.
  apply list.NoDup_app in Hnd as (_ & Hd1 & Hnd). apply list.NoDup_app in Hnd as (Hnd & Hd2 & _).
  split_and!; [by apply (lm_oseg _ _ _ Hmem) | | done | |].
  - intros x Hx. by apply (lw_onode _ _ Hwf), Hsub.
  - intros x Hx. rewrite concat_app, elem_of_app. intros [H | H]; [| by eapply Hd2].
    eapply Hd1; [done |]. set_solver.
  - intros j x Hj Hx. by eapply (lw_odisj _ _ Hwf), Hsub.
Qed.

Lemma lost_other c : c ∈ o1 ++ o2 -> seg m' 0 c 0.
Proof.
  destruct lost_chain as (Hseg & Hnode & _ & Hd & _). intros Hc.
  assert (Hco : c ∈ o) by (rewrite Ho; set_solver).
  eapply (removed_frame m m' i l1 y l2); [done .. | | by apply Hmem].
  intros x Hx. split; [apply (lw_onode _ _ Hwf), elem_of_concat; eauto |].
  intros H. apply (Hd x H), elem_of_concat. eauto.
Qed.

Lemma lost_listed j : seg m' 0 (f j) 0.
Proof.
  destruct lost_chain as (Hseg & Hnode & _ & _ & Hd).
  eapply (removed_frame m m' i l1 y l2); [done .. | | apply Hmem].
  intros x Hx. split; [by eapply (lw_node _ _ Hwf) | by eapply Hd].
Qed.

Lemma unlink_lost_mem : l1 <> [] -> lists_mem m' f (o1 ++ (l1 ++ l2) :: o2).
Proof.
  destruct lost_chain as (Hseg & Hnode & Hnd & _ & _). intros Hl1. split.
  - intros j Hj. rewrite (removed_heads m m' i l1 y l2) by done.
    rewrite decide_False by naive_solver. by apply Hmem.
  - apply lost_listed.
  - intros c Hc. assert (c = l1 ++ l2 \/ c ∈ o1 ++ o2) as [-> | H] by set_solver.
    + by eapply removed_chain.
    + by apply lost_other.
Qed.

Lemma unlink_lost_head_mem : l1 = [] -> lists_mem m' (upd 1 l2 f) (o1 ++ f 1 :: o2).
Proof.
  destruct lost_chain as (Hseg & Hnode & Hnd & _ & _). intros Hl1. split.
  - intros j Hj. rewrite (removed_heads m m' i l1 y l2) by done. unfold upd.
    destruct (Z.eqb_spec j 1); [rewrite decide_True by (split; [done | lia]); done |].
    rewrite decide_False by naive_solver. by apply Hmem.
  - intros j. unfold upd. destruct (Z.eqb_spec j 1); [| apply lost_listed].
    subst l1. by apply (removed_chain m m' i y [] l2).
  - intros c Hc. assert (c = f 1 \/ c ∈ o1 ++ o2) as [-> | H] by set_solver.
    + apply lost_listed.
    + by apply lost_other.
Qed.
End Unlink.

(** The effect of [RemoveBlock] on the chains. *)
Lemma removed_unlink m m' f o i y :
  lists_wf f o -> lists_mem m f o -> removed i y m m' -> 1 <= i <= 72 ->
  y ∈ f i \/ (i = 1 /\ y ∈ concat o) ->
  exists f' o', unlink y f o f' o' /\ lists_mem m' f' o'.
Proof.
  intros Hwf Hmem Hrem Hi [(l1 & l2 & E)%list_elem_of_split | [Hi1 (c & Hc & Hy)%elem_of_concat]].
  - exists (upd i (l1 ++ l2) f), o. split; [by apply unlink_listed |].
    by eapply unlink_listed_mem.
  - apply list_elem_of_split in Hc as (o1 & o2 & Ho).
    apply list_elem_of_split in Hy as (l1 & l2 & ->).
    destruct (decide (l1 = [])) as [-> | Hl1].
    + exists (upd 1 l2 f), (o1 ++ f 1 :: o2). split; [by apply unlink_lost_head |].
      by eapply unlink_lost_head_mem.
    + exists f, (o1 ++ (l1 ++ l2) :: o2). split; [by apply unlink_lost |].
      by eapply unlink_lost_mem.
Qed.

(** *** Pushing in memory *)

Lemma tail_not_hd (l : list Z) y : NoDup l -> y ∈ tail l -> y ∈ l /\ y <> hd 0 l.
Proof.
  destruct l as [|z r]; cbn; [set_solver |]. intros [Hz _]%list.NoDup_cons Hy.
  split; [set_solver |]. by intros ->.
Qed.

Section Push.
Context (m m' : mem) (f : Z -> list Z) (o : list (list Z)) (i x : Z).
Context (Hwf : lists_wf f o) (Hmem : lists_mem m f o).
Context (Hi : 1 <= i <= 72) (Hx : node x) (Hfresh : ~ known f o x).
Context (Hpush : pushed i x (hd 0 (f i)) m m').

Lemma push_head_cases :
  f i = [] /\ hd 0 (f i) = 0 \/ f i <> [] /\ hd 0 (f i) ∈ f i /\ node (hd 0 (f i)) /\
                                hd 0 (f i) <> x.
Proof.
  destruct (decide (f i = [])) as [E | E]; [left; by rewrite E | right].
  pose proof (hd_not_nil _ 0 E) as Hin.
  split_and!; [done | done | by eapply (lw_node _ _ Hwf) |].
  intros Hh. apply Hfresh. left. exists i. by rewrite <- Hh.
Qed.

Lemma pushed_word y : known f o y ->
  rd32 m' (y + 4) = (if decide (y = hd 0 (f i)) then x else rd32 m (y + 4)) /\
  rd32 m' (y + 8) = rd32 m (y + 8).
Proof.
  intros Hk. assert (Hy : node y) by (by eapply known_node).
  assert (y <> x) by (by intros ->).
  destruct (node_words y Hy) as [H4 H8]. unfold pushed in Hpush. rewrite !Hpush by done.
  destruct push_head_cases as [[_ Hh] | (_ & _ & Hh & _)];
    split; repeat case_decide; done || node_lia.
Qed.

Lemma pushed_heads j : 1 <= j <= 72 ->
  rd32 m' (4 * j) = if decide (j = i) then x else rd32 m (4 * j).
Proof.
  intros Hj. unfold pushed in Hpush. rewrite Hpush by (by apply head_word).
  destruct push_head_cases as [[_ Hh] | (_ & _ & Hh & _)];
    repeat case_decide; done || node_lia.
Qed.

Lemma pushed_self : rd32 m' (x + 4) = 0 /\ rd32 m' (x + 8) = hd 0 (f i).
Proof.
  destruct (node_words x Hx) as [H4 H8]. unfold pushed in Hpush. rewrite !Hpush by done.
  destruct push_head_cases as [[_ Hh] | (_ & _ & Hh & ?)];
    split; repeat case_decide; done || node_lia.
Qed.

Lemma pushed_other c : (forall y, y ∈ c -> known f o y /\ y ∉ f i) -> seg m 0 c 0 -> seg m' 0 c 0.
Proof.
  intros Hc. apply seg_ext. intros y Hy. destruct (Hc y Hy) as [Hk Hn].
  destruct (pushed_word y Hk) as [H4 ->]. split; [| done]. rewrite H4.
  rewrite decide_False; [done |]. intros ->.
  destruct push_head_cases as [[_ Hh] | (_ & Hin & _)]; [| done].
  apply (known_node _ _ Hwf) in Hk. rewrite Hh in Hk. node_lia.
Qed.

Lemma pushed_chain : seg m' x (f i) 0.
Proof.
  pose proof (lw_nodup _ _ Hwf i) as Hnd.
  assert (Hk : forall y, y ∈ f i -> known f o y) by (intros; by eapply known_listed).
  eapply seg_reprev; [done | apply Hmem | | |].
  - intros z r E. destruct (pushed_word z) as [-> _]; [apply Hk; rewrite E; set_solver |].
    rewrite decide_True; [done | by rewrite E].
  - intros y Hy. by apply (pushed_word y (Hk y Hy)).
  - intros y Hy. destruct (tail_not_hd _ _ Hnd Hy) as [Hin Hne].
    destruct (pushed_word y (Hk y Hin)) as [-> _]. by rewrite decide_False.
Qed.

Lemma push_mem : lists_mem m' (push i x f) o.
Proof.
  split.
  - intros j Hj. rewrite pushed_heads by done. unfold push, upd.
    destruct (Z.eqb_spec j i); [by rewrite decide_True |].
    rewrite decide_False by done. by apply Hmem.
  - intros j. unfold push, upd. destruct (Z.eqb_spec j i) as [-> | Hji].
    + cbn [seg]. destruct pushed_self as [-> ->]. split_and!; [done | done | apply pushed_chain].
    + apply pushed_other; [| apply Hmem]. intros y Hy. split; [by eapply known_listed |].
      intros H. apply Hji. by eapply (lw_disj _ _ Hwf).
  - intros c Hc. apply pushed_other; [| by apply Hmem]. intros y Hy.
    split; [by eapply known_lost |]. intros H. eapply (lw_odisj _ _ Hwf); [done |].
    apply elem_of_concat. eauto.
Qed.
End Push.

(** *** Losing list 1 *)

Lemma leak_wf f o : lists_wf f o -> lists_wf (upd 1 [] f) (f 1 :: o).
Proof.
  intros Hwf. split.
  - intros j H. destruct (decide (j = 1)) as [-> |]; [done |].
    apply (lw_range _ _ Hwf). by rewrite upd_ne in H.
  - intros j x [[_ Hx] | [_ Hx]]%elem_of_upd; [set_solver | by eapply (lw_node _ _ Hwf)].
  - intros x. cbn. intros [Hx | Hx]%elem_of_app;
      [by eapply (lw_node _ _ Hwf) | by apply (lw_onode _ _ Hwf)].
  - intros j. unfold upd. destruct (Z.eqb_spec j 1); [constructor | apply (lw_nodup _ _ Hwf)].
  - intros j k x [[_ Hx] | [_ Hx]]%elem_of_upd [[_ Hy] | [_ Hy]]%elem_of_upd;
      [set_solver .. | by eapply (lw_disj _ _ Hwf)].
  - cbn. apply list.NoDup_app. split_and!; [apply Hwf | apply (lw_odisj _ _ Hwf) | apply Hwf].
  - intros j x [[_ Hx] | [Hj Hx]]%elem_of_upd; [set_solver |]. cbn. rewrite elem_of_app.
    intros [H | H]; [| by eapply (lw_odisj _ _ Hwf)].
    apply Hj. by eapply (lw_disj _ _ Hwf).
Qed.

Lemma leak_mem m m' f o :
  lists_wf f o -> lists_mem m f o ->
  (forall w, list_word w -> rd32 m' w = if decide (w = 4) then 0 else rd32 m w) ->
  lists_mem m' (upd 1 [] f) (f 1 :: o).
Proof.
  intros Hwf Hmem Hw.
  assert (Hseg : forall c, (forall x, x ∈ c -> node x) -> seg m 0 c 0 -> seg m' 0 c 0).
  { intros c Hc. apply seg_ext. intros x Hx%Hc. destruct (node_words x Hx) as [H4 H8].
    rewrite !Hw by done. split; rewrite decide_False; done || node_lia. }
  split.
  - intros j Hj. rewrite Hw by (by apply head_word). unfold upd.
    destruct (Z.eqb_spec j 1); [by subst |]. rewrite decide_False by lia. by apply Hmem.
  - intros j. unfold upd. destruct (Z.eqb_spec j 1); [done |].
    apply Hseg; [by apply (lw_node _ _ Hwf) | apply Hmem].
  - intros c [-> | Hc]%elem_of_cons; apply Hseg.
    + apply (lw_node _ _ Hwf).
    + apply Hmem.
    + intros x Hx. apply (lw_onode _ _ Hwf), elem_of_concat. eauto.
    + by apply Hmem.
Qed.

(** Writing tags leaves the lists alone. *)
Lemma lists_mem_frame m m' f o :
  lists_wf f o -> lists_mem m f o -> (forall w, list_word w -> rd32 m' w = rd32 m w) ->
  lists_mem m' f o.
Proof.
  intros Hwf Hmem Hw.
  assert (Hseg : forall c, (forall x, x ∈ c -> node x) -> seg m 0 c 0 -> seg m' 0 c 0).
  { intros c Hc. apply seg_ext. intros x Hx%Hc. destruct (node_words x Hx) as [H4 H8].
    by rewrite !Hw by done. }
  split.
  - intros j Hj. rewrite Hw by (by apply head_word). by apply Hmem.
  - intros j. apply Hseg; [apply (lw_node _ _ Hwf) | apply Hmem].
  - intros c Hc. apply Hseg; [| by apply Hmem].
    intros x Hx. apply (lw_onode _ _ Hwf), elem_of_concat. eauto.
Qed.
