(* ===== verification/HeapTiling.v ===== *)
(** * Tilings, tags and membership under the allocator's block changes *)

From S2P Require Import Prelude Nvm Modification Allocator HeapSpec HeapLists.

Ltac consts :=
  change FIRST with 292 in *; change END_ with 67108852 in *;
  change Allocator.kMaxBlockSize with 1152 in *; change Allocator.kNumFreeLists with 73 in *;
  change Allocator.kSize with 67108864 in *.

Lemma block_ok_node a b : block_ok a b -> node a.
Proof. unfold block_ok, node. lia. Qed.

Lemma class_range sz : 32 <= sz -> sz mod 16 = 0 -> 1 <= class sz <= 72.
Proof. unfold class. consts. case_match; lia. Qed.

Lemma class_1 sz : 32 <= sz -> sz mod 16 = 0 -> class sz = 1 -> sz = 32.
Proof. unfold class. consts. case_match; lia. Qed.

(** ** Tilings *)

Section Tiling.
Context (B : gmap Z block) (HB : tiling B).

Lemma tiling_node a b : B !! a = Some b -> node a.
Proof. intros H. by eapply block_ok_node, (ti_ok _ HB). Qed.

(** Two different blocks do not overlap. *)
Lemma tiling_apart a ba c bc :
  B !! a = Some ba -> B !! c = Some bc -> a <> c -> a + bsize ba <= c \/ c + bsize bc <= a.
Proof.
  intros Ha Hc Hne. destruct (Z.lt_total a c) as [H | [H | H]]; [left | done | right];
    by eapply (ti_disj _ HB).
Qed.

(** The block that ends where a block starts is unique. *)
Lemma tiling_pred_unique a ba c bc :
  B !! a = Some ba -> B !! c = Some bc -> a + bsize ba = c + bsize bc -> a = c.
Proof.
  intros Ha Hc E. destruct (decide (a = c)) as [|Hne]; [done |].
  pose proof (ti_ok _ HB _ _ Ha). pose proof (ti_ok _ HB _ _ Hc).
  destruct (tiling_apart _ _ _ _ Ha Hc Hne); unfold block_ok in *; lia.
Qed.

Lemma tiling_status x sz f0 f :
  B !! x = Some (mkBlock sz f0) -> tiling (<[x := mkBlock sz f]> B).
Proof.
  intros Hx.
  assert (Hsz : forall a b, <[x := mkBlock sz f]> B !! a = Some b ->
    exists b', B !! a = Some b' /\ bsize b' = bsize b).
  { intros a b. rewrite lookup_insert. case_decide; [| by eauto].
    intros [= <-]. subst. eauto. }
  assert (Hsome : forall a, is_Some (B !! a) -> is_Some (<[x := mkBlock sz f]> B !! a)).
  { intros a H. rewrite lookup_insert. by case_decide. }
  split.
  - intros a b (b' & H & E)%Hsz. apply (ti_ok _ HB) in H. unfold block_ok in *. by rewrite <- E.
  - apply Hsome, HB.
  - intros a b (b' & H & E)%Hsz. rewrite <- E.
    destruct (ti_next _ HB _ _ H); [by left | right; by apply Hsome].
  - intros a b (b' & H & E)%Hsz. destruct (ti_pred _ HB _ _ H) as [| (p & pb & Hp & Ep)]; [by left |].
    right. destruct (decide (x = p)) as [<- |].
    + exists x, (mkBlock sz f). rewrite lookup_insert_eq. split; [done |]. by rewrite Hx in Hp; simplify_eq/=.
    + exists p, pb. by rewrite lookup_insert_ne.
  - intros a ba c bc (ba' & Ha & Ea)%Hsz (bc' & Hc & _)%Hsz. rewrite <- Ea. by apply (ti_disj _ HB a ba' c bc').
Qed.

Lemma tiling_split x sz f0 n f1 f2 :
  B !! x = Some (mkBlock sz f0) -> 32 <= n -> n mod 16 = 0 -> 32 <= sz - n ->
  tiling (<[x + (sz - n) := mkBlock n f1]> (<[x := mkBlock (sz - n) f2]> B)).
Proof.
  intros Hx Hn Hn16 Hr. set (B' := <[_ := _]> (<[_ := _]> B)).
  pose proof (ti_ok _ HB _ _ Hx) as Hok. unfold block_ok in Hok. cbn in Hok.
  assert (Hlk : forall a b, B' !! a = Some b <->
    (a = x + (sz - n) /\ b = mkBlock n f1) \/ (a = x /\ b = mkBlock (sz - n) f2) \/
    (a <> x + (sz - n) /\ a <> x /\ B !! a = Some b)).
  { intros a b. unfold B'. rewrite !lookup_insert. repeat case_decide; naive_solver lia. }
  assert (Hmid : forall a b, B !! a = Some b -> a <> x -> a + bsize b <= x \/ x + sz <= a).
  { intros a b Ha Hne. by destruct (tiling_apart _ _ _ _ Ha Hx Hne); [left | right]. }
  split.
  - intros a b [[-> ->] | [[-> ->] | (_ & _ & H)]]%Hlk; [unfold block_ok; cbn; lia .. |].
    by apply (ti_ok _ HB).
  - destruct (ti_first _ HB) as [b Hb]. destruct (decide (FIRST = x)) as [<- |].
    + exists (mkBlock (sz - n) f2). apply Hlk. naive_solver.
    + exists b. apply Hlk. pose proof (Hmid _ _ Hb ltac:(done)).
      pose proof (ti_ok _ HB _ _ Hb). unfold block_ok in *. right. right. split_and!; [lia | done | done].
  - assert (Hsome : forall c, is_Some (B !! c) -> is_Some (B' !! c)).
    { intros c [b Hb]. unfold B'. rewrite !lookup_insert. repeat case_decide; eauto. }
    intros a b [[-> ->] | [[-> ->] | (_ & _ & H)]]%Hlk; cbn.
    + replace (x + (sz - n) + n) with (x + sz) by lia.
      destruct (ti_next _ HB _ _ Hx); [by left | right; by apply Hsome].
    + right. exists (mkBlock n f1). apply Hlk. naive_solver.
    + destruct (ti_next _ HB _ _ H); [by left | right; by apply Hsome].
  - intros a b [[-> ->] | [[-> ->] | (Hne1 & Hne2 & H)]]%Hlk.
    + right. exists x, (mkBlock (sz - n) f2). split; [apply Hlk; naive_solver lia | done].
    + destruct (ti_pred _ HB _ _ Hx) as [| (p & pb & Hp & Ep)]; [by left | right].
      pose proof (ti_ok _ HB _ _ Hp). unfold block_ok in *.
      exists p, pb. split; [apply Hlk | done]. naive_solver lia.
    + destruct (ti_pred _ HB _ _ H) as [| (p & pb & Hp & Ep)]; [by left | right].
      destruct (decide (p = x)) as [-> | Hpx].
      * exists (x + (sz - n)), (mkBlock n f1). split; [apply Hlk; naive_solver |].
        rewrite Hx in Hp. simplify_eq/=. lia.
      * exists p, pb. split; [apply Hlk | done]. right. right.
        pose proof (ti_ok _ HB _ _ Hp). pose proof (Hmid _ _ Hp Hpx). unfold block_ok in *.
        split_and!; [lia | done | done].
  - intros a ba c bc Ha%Hlk Hc%Hlk Hac.
    destruct Ha as [[-> ->] | [[-> ->] | (_ & Hax & Ha)]];
      destruct Hc as [[-> ->] | [[-> ->] | (_ & Hcx & Hc)]]; cbn in *; try lia.
    + pose proof (Hmid _ _ Hc Hcx). pose proof (ti_ok _ HB _ _ Hc). unfold block_ok in *. lia.
    + pose proof (Hmid _ _ Hc Hcx). pose proof (ti_ok _ HB _ _ Hc). unfold block_ok in *. lia.
    + pose proof (Hmid _ _ Ha Hax). pose proof (ti_ok _ HB _ _ Ha). unfold block_ok in *. lia.
    + pose proof (Hmid _ _ Ha Hax). pose proof (ti_ok _ HB _ _ Ha). unfold block_ok in *. lia.
    + by apply (ti_disj _ HB a ba c bc).
Qed.
End Tiling.

(** Merging two neighbours. *)
Section Merge.
Context (B : gmap Z block) (HB : tiling B) (a c sa sc : Z) (fa fc f : bool).
Context (Ha : B !! a = Some (mkBlock sa fa)) (Hc : B !! c = Some (mkBlock sc fc)).
Context (Hac : a + sa = c).

Definition merged : gmap Z block := <[a := mkBlock (sa + sc) f]> (delete c B).

Lemma merged_bounds : block_ok a (mkBlock sa fa) /\ block_ok c (mkBlock sc fc).
Proof. split; by apply (ti_ok _ HB). Qed.

Lemma merged_lookup d b : merged !! d = Some b <->
  (d = a /\ b = mkBlock (sa + sc) f) \/ (d <> a /\ d <> c /\ B !! d = Some b).
Proof.
  unfold merged. rewrite lookup_insert, lookup_delete.
  destruct merged_bounds. unfold block_ok in *. cbn in *.
  repeat case_decide; naive_solver lia.
Qed.

Lemma merged_apart d b : B !! d = Some b -> d <> a -> d <> c ->
  d + bsize b <= a \/ a + sa + sc <= d.
Proof.
  intros Hd Hda Hdc. destruct merged_bounds as [Oa Oc]. pose proof (ti_ok _ HB _ _ Hd) as Od.
  destruct (tiling_apart _ HB _ _ _ _ Hd Ha Hda);
    destruct (tiling_apart _ HB _ _ _ _ Hd Hc Hdc); unfold block_ok in *; cbn in *; lia.
Qed.

Lemma tiling_merge : tiling merged.
Proof.
  destruct merged_bounds as [Oa Oc]. unfold block_ok in Oa, Oc. cbn in Oa, Oc.
  split.
  - intros d b [[-> ->] | (_ & _ & H)]%merged_lookup; [unfold block_ok; cbn; lia |].
    by apply (ti_ok _ HB).
  - destruct (ti_first _ HB) as [b Hb]. destruct (decide (FIRST = a)) as [E |].
    + exists (mkBlock (sa + sc) f). apply merged_lookup. left. by rewrite E.
    + exists b. apply merged_lookup. right. split_and!; [done | | done]. intros E.
      unfold block_ok in *. lia.
  - assert (Hsome : forall d, d <> c -> is_Some (B !! d) -> is_Some (merged !! d)).
    { intros d Hd [b Hb]. unfold merged. rewrite lookup_insert, lookup_delete_ne by done.
      case_decide; eauto. }
    intros d b [[-> ->] | (Hda & Hdc & H)]%merged_lookup; cbn.
    + replace (a + (sa + sc)) with (c + sc) by lia.
      destruct (ti_next _ HB _ _ Hc); [by left | right; apply Hsome; [lia | done]].
    + destruct (ti_next _ HB _ _ H); [by left | right]. apply Hsome; [| done].
      intros E. destruct (merged_apart _ _ H Hda Hdc); [lia |].
      pose proof (ti_ok _ HB _ _ H). unfold block_ok in *. lia.
  - intros d b [[-> ->] | (Hda & Hdc & H)]%merged_lookup.
    + destruct (ti_pred _ HB _ _ Ha) as [| (p & pb & Hp & Ep)]; [by left | right].
      pose proof (ti_ok _ HB _ _ Hp). exists p, pb. split; [apply merged_lookup | done].
      unfold block_ok in *. right. split_and!; [lia | lia | done].
    + destruct (ti_pred _ HB _ _ H) as [| (p & pb & Hp & Ep)]; [by left | right].
      destruct (decide (p = a)) as [-> |]; [rewrite Ha in Hp; simplify_eq/=; lia |].
      destruct (decide (p = c)) as [-> |].
      * exists a, (mkBlock (sa + sc) f). split; [apply merged_lookup; naive_solver |].
        rewrite Hc in Hp. simplify_eq/=. lia.
      * exists p, pb. split; [apply merged_lookup | done]. naive_solver.
  - intros d bd e be [[-> ->] | (Hda & Hdc & Hd)]%merged_lookup
      [[-> ->] | (Hea & Hec & He)]%merged_lookup Hde; cbn; [lia | | |].
    + destruct (merged_apart _ _ He Hea Hec); [| lia].
      pose proof (ti_ok _ HB _ _ He). unfold block_ok in *. lia.
    + destruct (merged_apart _ _ Hd Hda Hdc); [lia | lia].
    + by apply (ti_disj _ HB d bd e be).
Qed.
End Merge.

(** ** Tags *)

(** The run [a .. e) has become the one block [a]. *)
Lemma tags_run m m' B B' a e f :
  tiling B -> tags_inv m B -> tiling B' ->
  B' !! a = Some (mkBlock (e - a) f) ->
  (forall d b, d <> a -> B' !! d = Some b -> B !! d = Some b) ->
  rd32 m' a / 2 ^ 31 = rd32 m a / 2 ^ 31 -> rd32 m' a mod 2 ^ 31 = e - a ->
  (f = true -> rd32 m' (e - 4) = e - a) ->
  rd32 m' e mod 2 ^ 31 = rd32 m e mod 2 ^ 31 -> rd32 m' e / 2 ^ 31 = flag f ->
  (forall w, layout_word w -> w <> a -> w <> e - 4 -> w <> e -> rd32 m' w = rd32 m w) ->
  tags_inv m' B'.
Proof.
  intros HB Ht HB' Ha Hsub Wa1 Wa2 Wf We1 We2 Hw.
  pose proof (ti_ok _ HB' _ _ Ha) as Oa. unfold block_ok in Oa. cbn in Oa.
  assert (Hd : forall d b, d <> a -> B' !! d = Some b ->
    block_ok d b /\ B !! d = Some b /\ (d + bsize b <= a \/ e <= d)).
  { intros d b Hne H. split_and!; [by apply (ti_ok _ HB') | by apply Hsub |].
    destruct (tiling_apart _ HB' _ _ _ _ H Ha Hne); cbn in *; lia. }
  split.
  - intros d b H. destruct (decide (d = a)) as [-> | Hne]; [by simplify_eq/= |].
    destruct (Hd d b Hne H) as (O & Hb & _). unfold block_ok in O.
    destruct (decide (d = e)) as [-> |].
    + rewrite We1. by apply (tg_size _ _ Ht).
    + rewrite Hw by (unfold layout_word; lia). by apply (tg_size _ _ Ht).
  - intros d b H. destruct (decide (d = a)) as [-> | Hne].
    { simplify_eq/=. by replace (a + (e - a)) with e by lia. }
    destruct (Hd d b Hne H) as (O & Hb & Hap). unfold block_ok in O.
    pose proof (tg_flag _ _ Ht _ _ Hb) as Hf.
    destruct (decide (d + bsize b = a)) as [E |].
    + rewrite E in *. congruence.
    + by rewrite Hw by (unfold layout_word; lia).
  - intros d b H Hfree. destruct (decide (d = a)) as [-> | Hne].
    { simplify_eq/=. replace (a + (e - a) - 4) with (e - 4) by lia. by apply Wf. }
    destruct (Hd d b Hne H) as (O & Hb & Hap). unfold block_ok in O.
    rewrite Hw by (unfold layout_word; lia). by apply (tg_foot _ _ Ht).
  - destruct (decide (FIRST = a)) as [E | Hne]; [rewrite E, Wa1, <- E; apply Ht |].
    rewrite Hw; [apply Ht | | done | |]; unfold layout_word; consts; lia.
  - destruct (decide (END_ = e)) as [E | Hne]; [rewrite E, We1, <- E; apply Ht |].
    rewrite Hw; [apply Ht | | | |]; unfold layout_word; consts; lia.
Qed.

(** A free block is cut in two free blocks. *)
Lemma tags_cut m m' B x sz n :
  tiling B -> tags_inv m B -> B !! x = Some (mkBlock sz true) ->
  32 <= n -> n mod 16 = 0 -> 32 <= sz - n ->
  rd32 m' x / 2 ^ 31 = rd32 m x / 2 ^ 31 -> rd32 m' x mod 2 ^ 31 = sz - n ->
  rd32 m' (x + (sz - n) - 4) = sz - n ->
  rd32 m' (x + (sz - n)) = 2 ^ 31 + n -> rd32 m' (x + sz - 4) = n ->
  (forall w, layout_word w -> w <> x -> w <> x + (sz - n) - 4 -> w <> x + (sz - n) ->
             w <> x + sz - 4 -> rd32 m' w = rd32 m w) ->
  tags_inv m' (<[x + (sz - n) := mkBlock n true]> (<[x := mkBlock (sz - n) true]> B)).
Proof.
  intros HB Ht Hx Hn Hn16 Hr Wx1 Wx2 Wxf Wy Wyf Hw.
  pose proof (ti_ok _ HB _ _ Hx) as O. unfold block_ok in O. cbn in O.
  assert (Hn31 : n < 2 ^ 31) by (consts; lia).
  assert (Hdm : (2 ^ 31 + n) / 2 ^ 31 = 1 /\ (2 ^ 31 + n) mod 2 ^ 31 = n) by lia.
  assert (Hap : forall d b, d <> x -> B !! d = Some b ->
    block_ok d b /\ (d + bsize b <= x \/ x + sz <= d)).
  { intros d b Hne H. split; [by apply (ti_ok _ HB) |].
    destruct (tiling_apart _ HB _ _ _ _ H Hx Hne); cbn in *; lia. }
  set (B' := <[_ := _]> (<[_ := _]> B)).
  assert (Hlk : forall d b, B' !! d = Some b ->
    (d = x + (sz - n) /\ b = mkBlock n true) \/ (d = x /\ b = mkBlock (sz - n) true) \/
    (d <> x + (sz - n) /\ d <> x /\ B !! d = Some b)).
  { intros d b. unfold B'. rewrite !lookup_insert. repeat case_decide; naive_solver. }
  split.
  - intros d b [[-> ->] | [[-> ->] | (Hdy & Hdx & H')]]%Hlk; cbn; [by rewrite Wy; lia | done |].
    destruct (Hap d b) as [Od Hd]; [done | done |]. unfold block_ok in Od.
    rewrite Hw by (unfold layout_word; lia). by apply (tg_size _ _ Ht).
  - intros d b [[-> ->] | [[-> ->] | (Hdy & Hdx & H')]]%Hlk; cbn.
    + rewrite Hw by (unfold layout_word; lia). replace (x + (sz - n) + n) with (x + sz) by lia.
      by apply (tg_flag _ _ Ht _ _ Hx).
    + rewrite Wy. lia.
    + destruct (Hap d b) as [Od Hd]; [done | done |]. unfold block_ok in Od.
      pose proof (tg_flag _ _ Ht _ _ H') as Hf.
      destruct (decide (d + bsize b = x)) as [E |]; [rewrite E in *; congruence |].
      by rewrite Hw by (unfold layout_word; lia).
  - intros d b [[-> ->] | [[-> ->] | (Hdy & Hdx & H')]]%Hlk Hfree; cbn.
    + by replace (x + (sz - n) + n - 4) with (x + sz - 4) by lia.
    + done.
    + destruct (Hap d b) as [Od Hd]; [done | done |]. unfold block_ok in Od.
      rewrite Hw by (unfold layout_word; lia). by apply (tg_foot _ _ Ht).
  - destruct (decide (FIRST = x)) as [E | Hne]; [rewrite E, Wx1, <- E; apply Ht |].
    rewrite Hw; [apply Ht | | | | |]; unfold layout_word; consts; lia.
  - rewrite Hw; [apply Ht | | | | |]; unfold layout_word; consts; lia.
Qed.

Lemma tags_frame m m' B :
  tiling B -> tags_inv m B -> (forall w, layout_word w -> rd32 m' w = rd32 m w) -> tags_inv m' B.
Proof.
  intros HB Ht Hw.
  assert (Hok : forall a b, B !! a = Some b -> block_ok a b) by apply (ti_ok _ HB).
  split; intros.
  - rewrite Hw by (apply Hok in H; unfold block_ok, layout_word in *; lia). by apply Ht.
  - rewrite Hw by (apply Hok in H; unfold block_ok, layout_word in *; lia). by apply Ht.
  - rewrite Hw by (apply Hok in H; unfold block_ok, layout_word in *; lia). by apply Ht.
  - rewrite Hw by (unfold layout_word; consts; lia). apply Ht.
  - rewrite Hw by (unfold layout_word; consts; lia). apply Ht.
Qed.

(** ** Members *)

(** What [unlink] does to membership. *)
Lemma unlink_elem y f o f' o' :
  lists_wf f o -> unlink y f o f' o' ->
  (forall i x, x ∈ f' i -> x <> y /\ (x ∈ f i \/ (i = 1 /\ x ∈ concat o))) /\
  (forall x, x ∈ concat o' -> x <> y /\ (x ∈ concat o \/ x ∈ f 1)) /\
  (forall i x, x <> y -> x ∈ f i -> x ∈ f' i \/ (i = 1 /\ x ∈ concat o')) /\
  (forall x, x <> y -> x ∈ concat o -> x ∈ concat o' \/ x ∈ f' 1).
Proof.
  intros Hwf Hu. inversion Hu as [i l1 l2 E | o1 o2 l1 l2 E Hl | o1 o2 l2 E]; subst f' o'.
  - pose proof (lw_nodup _ _ Hwf i) as Hnd. rewrite E in Hnd.
    apply NoDup_drop_mid in Hnd as [_ Hy]. split_and!.
    + intros j x [[-> Hx] | [Hj Hx]]%elem_of_upd; [split; [set_solver |]; rewrite E; set_solver |].
      split; [| by left]. intros ->. apply Hj. eapply (lw_disj _ _ Hwf); [done |]. rewrite E. set_solver.
    + intros x Hx. split; [| by left]. intros ->. eapply (lw_odisj _ _ Hwf i); [| done]. rewrite E. set_solver.
    + intros j x Hxy Hx. left. apply elem_of_upd. destruct (decide (j = i)) as [-> |]; [left | by right].
      rewrite E in Hx. set_solver.
    + intros x _ Hx. by left.
  - pose proof (lw_onodup _ _ Hwf) as Hnd. rewrite E in Hnd. rewrite concat_app in Hnd.
    cbn in Hnd. rewrite <- app_assoc in Hnd. cbn in Hnd. rewrite app_assoc in Hnd.
    apply NoDup_drop_mid in Hnd as [_ Hy].
    assert (Hco : forall x, x ∈ concat o <->
      x ∈ concat o1 \/ x ∈ l1 \/ x = y \/ x ∈ l2 \/ x ∈ concat o2).
    { intros x. rewrite E, concat_app. cbn. set_solver. }
    rewrite concat_app; cbn [concat]. setoid_rewrite Hco. split_and!.
    + intros i x Hx. split; [| by left]. intros ->. eapply (lw_odisj _ _ Hwf i); [done |].
      apply Hco. naive_solver.
    + intros x Hx. split; [| set_solver]. intros ->. set_solver.
    + intros i x Hxy Hx. by left.
    + intros x Hxy Hx. set_solver.
  - pose proof (lw_onodup _ _ Hwf) as Hnd. rewrite E in Hnd. rewrite concat_app in Hnd. cbn in Hnd.
    apply NoDup_drop_mid in Hnd as [_ Hy].
    assert (Hco : forall x, x ∈ concat o <-> x ∈ concat o1 \/ x = y \/ x ∈ l2 \/ x ∈ concat o2).
    { intros x. rewrite E, concat_app. cbn. set_solver. }
    assert (Hno : forall i, y ∉ f i).
    { intros i Hi. eapply (lw_odisj _ _ Hwf); [done |]. apply Hco. naive_solver. }
    rewrite concat_app; cbn [concat]. setoid_rewrite Hco. setoid_rewrite elem_of_upd. split_and!.
    + intros i x [[-> Hx] | [Hj Hx]]; split; [set_solver | naive_solver | | by left]. by intros ->; eapply Hno.
    + intros x Hx. split; [| set_solver]. intros ->. pose proof (Hno 1). set_solver.
    + intros i x Hxy Hx. destruct (decide (i = 1)) as [-> |]; set_solver.
    + intros x Hxy Hx. set_solver.
Qed.

Section Members.
Context (B : gmap Z block) (f : Z -> list Z) (o : list (list Z)).
Context (HB : forall a b, B !! a = Some b -> 32 <= bsize b /\ bsize b mod 16 = 0).
Context (Hwf : lists_wf f o) (Hm : members B f o).

Lemma members_known x : known f o x <-> exists sz, B !! x = Some (mkBlock sz true).
Proof using Hm.
  split.
  - intros [[i (sz & Hx & _)%(mb_listed _ _ _ Hm)] | Hx%(mb_lost _ _ _ Hm)]; eauto.
  - intros [sz [Hx | Hx]%(mb_all _ _ _ Hm)]; [left | right]; eauto.
Qed.

Lemma members_unlink y f' o' : unlink y f o f' o' -> members (delete y B) f' o'.
Proof using HB Hwf Hm.
  intros Hu. destruct (unlink_elem _ _ _ _ _ Hwf Hu) as (H1 & H2 & H3 & H4). split.
  - intros i x [Hxy Hx]%H1. rewrite lookup_delete_ne by done.
    destruct Hx as [Hx | [-> Hx]]; [by apply Hm |].
    exists 32. split; [by apply Hm | done].
  - intros x [Hxy Hx]%H2. rewrite lookup_delete_ne by done.
    destruct Hx as [Hx | Hx]; [by apply Hm |]. apply Hm in Hx as (sz & Hx & Hc).
    destruct (HB _ _ Hx) as [Hs1 Hs2]. cbn in *. by rewrite (class_1 sz) in Hx by done.
  - intros x sz [Hxy Hx]%lookup_delete_Some. destruct (mb_all _ _ _ Hm _ _ Hx) as [Hl | Hl].
    + destruct (H3 _ x ltac:(done) Hl) as [H | [E H]]; [by left | by right].
    + destruct (H4 x ltac:(done) Hl) as [H | H]; [by right | left].
      apply (mb_lost _ _ _ Hm) in Hl. rewrite Hx in Hl. by simplify_eq.
Qed.

(** Blocks in use are in no list. *)
Lemma members_delete_used x sz : B !! x = Some (mkBlock sz false) -> members (delete x B) f o.
Proof using Hm.
  intros Hx. split.
  - intros i y Hy. apply Hm in Hy as (sy & Hy & Hc). exists sy.
    rewrite lookup_delete_ne; [done |]. by intros ->; simplify_eq.
  - intros y Hy. apply (mb_lost _ _ _ Hm) in Hy. rewrite lookup_delete_ne; [done |].
    by intros ->; simplify_eq.
  - intros y sy [_ Hy]%lookup_delete_Some. by apply Hm.
Qed.

Lemma members_insert_used x sz : B !! x = None -> members (<[x := mkBlock sz false]> B) f o.
Proof using Hm.
  intros Hx. split.
  - intros i y Hy. apply Hm in Hy as (sy & Hy & Hc). exists sy.
    rewrite lookup_insert_ne; [done |]. by intros ->; simplify_eq.
  - intros y Hy. apply (mb_lost _ _ _ Hm) in Hy. rewrite lookup_insert_ne; [done |].
    by intros ->; simplify_eq.
  - intros y sy. rewrite lookup_insert. case_decide; [by intros [=] | apply Hm].
Qed.

Lemma members_push x sz :
  B !! x = None -> members (<[x := mkBlock sz true]> B) (push (class sz) x f) o.
Proof using Hm.
  intros Hx. unfold push. split.
  - intros i y [[-> [-> | Hy]%elem_of_cons] | [Hi Hy]]%elem_of_upd.
    + exists sz. by rewrite lookup_insert_eq.
    + apply Hm in Hy as (sy & Hy & Hc). exists sy. rewrite lookup_insert_ne; [done |].
      by intros ->; simplify_eq.
    + apply Hm in Hy as (sy & Hy & Hc). exists sy. rewrite lookup_insert_ne; [done |].
      by intros ->; simplify_eq.
  - intros y Hy. apply (mb_lost _ _ _ Hm) in Hy. rewrite lookup_insert_ne; [done |].
    by intros ->; simplify_eq.
  - intros y sy. rewrite lookup_insert. case_decide as E.
    + intros [= ->]. subst. left. rewrite upd_eq. apply elem_of_cons. by left.
    + intros [Hy | Hy]%(mb_all _ _ _ Hm); [left | by right].
      apply elem_of_upd. destruct (decide (class sy = class sz)) as [Ec |]; [left | by right].
      rewrite <- Ec. split; [done |]. apply elem_of_cons. by right.
Qed.

Lemma members_leak : members B (upd 1 [] f) (f 1 :: o).
Proof using HB Hm.
  split.
  - intros i x [[_ Hx%not_elem_of_nil] | [_ Hx]]%elem_of_upd; [done | by apply Hm].
  - intros x. cbn. intros [Hx | Hx]%elem_of_app; [| by apply Hm].
    apply Hm in Hx as (sz & Hx & Hc). destruct (HB _ _ Hx). cbn in *.
    by rewrite (class_1 sz) in Hx by done.
  - intros x sz Hx. cbn. rewrite elem_of_app, elem_of_upd.
    destruct (mb_all _ _ _ Hm _ _ Hx) as [H | H]; [| by right; right].
    destruct (decide (class sz = 1)) as [E |]; [right; left; by rewrite <- E | left; by right].
Qed.
End Members.
