(* ===== verification/AllocatorWp.v ===== *)
(** * Symbolic execution of the allocator

    Rules for the memory accesses of [Allocator] over a [ready] state, and
    the effect of its helper functions on the words of the heap. *)

From S2P Require Import Prelude Nvm Modification Allocator HeapSpec HeapLists HeapTiling.
Import Allocator.

Ltac consts_full :=
  consts; change kSize with 67108864 in *; change kFreeMask with (2 ^ 31) in *;
  change kMaxBlockSize with 1152 in *; change kNumFreeLists with 73 in *;
  change sizeof_u32 with 4 in *; change offsetof_prev with 4 in *;
  change offsetof_next with 8 in *; change GetLastFreeList with 288 in *.

(** The modification list is there and the tablet's data is accessible. *)
Definition ready (s : state) : Prop := is_Some (modifications_ s) /\ kSize <= region s.

(** The environment of the allocator is unchanged. *)
Definition same_env (s s' : state) : Prop := base_ s' = base_ s /\ region s' = region s.

Section Access.
Context (E : error -> state -> Prop).

Lemma wp_Read32 off (Q : Z -> state -> Prop) s :
  0 < off -> off + 4 <= region s -> Q (rd32 (nvm s) off) s -> wp (Read32 off) Q E s.
Proof.
  intros H1 H2 HQ. unfold wp, Read32, Read, OffsetToPtr, bind, assert, guard, get, gets, ret, in_region.
  destruct (Z.eqb_spec off 0); [lia |]. cbn [negb].
  by rewrite (proj2 (Z.leb_le 0 off)), (proj2 (Z.leb_le _ (region s))) by lia.
Qed.

Lemma wp_Write bs off (Q : unit -> state -> Prop) s :
  0 < off -> off + Z.of_nat (length bs) <= region s -> ready s ->
  (forall s', ready s' -> same_env s s' -> nvm s' = store (nvm s) off bs -> Q tt s') ->
  wp (Write off bs) Q E s.
Proof.
  intros H1 H2 [[ms Hms] Hr] HQ.
  unfold wp, Write, OffsetToPtr, emplace_back, bind, assert, guard, get, modify, in_region.
  destruct (Z.eqb_spec off 0); [lia |]. cbn [negb].
  rewrite (proj2 (Z.leb_le 0 off)), (proj2 (Z.leb_le _ (region s))) by lia. cbn.
  rewrite Hms. apply HQ; cbn; [split; [by eexists | done] | done | done].
Qed.

Lemma wp_Write32 off v (Q : unit -> state -> Prop) s :
  0 < off -> off + 4 <= region s -> ready s ->
  (forall s', ready s' -> same_env s s' -> nvm s' = wr32 (nvm s) off v -> Q tt s') ->
  wp (Write32 off v) Q E s.
Proof.
  intros. unfold Write32. apply wp_Write; [done | by rewrite length_le_split | done | done].
Qed.
End Access.

Lemma same_env_refl s : same_env s s.
Proof. done. Qed.

Lemma same_env_trans s1 s2 s3 : same_env s1 s2 -> same_env s2 s3 -> same_env s1 s3.
Proof. unfold same_env. intros [] []. split; congruence. Qed.

#[export] Hint Resolve same_env_refl : core.

(** Side conditions: offsets inside the tablet. *)
Ltac off_side :=
  lazymatch goal with
  | |- ready _ => assumption
  | |- _ <= region ?s =>
      let H := fresh in assert (H : kSize <= region s) by (eapply proj2; eassumption);
      unfold block_ok in *; node_lia || (consts_full; node_lia)
  | |- _ => unfold block_ok in *; consts_full; node_lia
  end.

Ltac norm_u32 := repeat (rewrite u32_small by off_side).

(** One step of symbolic execution. *)
Ltac wp_step :=
  lazymatch goal with
  | |- wp (bind _ _) _ _ _ => apply wp_bind
  | |- wp (ret _) _ _ _ => apply wp_ret
  | |- wp (assert _) _ _ _ => apply wp_assert; [first [done | lia] |]
  | |- wp (Read32 _) _ _ _ => norm_u32; apply wp_Read32; [off_side | off_side |]
  | |- wp (Write32 _ _) _ _ _ =>
      norm_u32; apply wp_Write32;
      [off_side | off_side | off_side |
       let s' := fresh "s" in let Hr := fresh "Hr" in let He := fresh "He" in
       let Hm := fresh "Hm" in intros s' Hr He Hm]
  | |- wp (when _ _) _ _ _ => apply wp_when; intros ?
  | |- wp (if _ then _ else _) _ _ _ => apply wp_if; intros ?
  end.

(** ** Tags *)

Lemma land_free w : 0 <= w < 2 ^ 32 -> (Z.land w kFreeMask =? 0) = negb (w / 2 ^ 31 =? 1).
Proof.
  intros Hw. change kFreeMask with (2 ^ 31). rewrite land_mask31 by done.
  assert (w / 2 ^ 31 = 0 \/ w / 2 ^ 31 = 1) as [-> | ->] by lia; done.
Qed.

Lemma tag_word w : 0 <= w < 2 ^ 32 -> Z.land w kFreeMask = 2 ^ 31 * (w / 2 ^ 31).
Proof. apply land_mask31. Qed.

Lemma size_word w : Z.land w (not32 kFreeMask) = w mod 2 ^ 31.
Proof. apply land_not_mask31. Qed.

Lemma class_list sz (Q : Z -> state -> Prop) E s :
  16 <= sz -> Q (4 * class sz) s -> wp (GetFreeListByBlockSize sz) Q E s.
Proof.
  intros Hsz HQ. unfold GetFreeListByBlockSize. wp_step. wp_step. wp_step.
  unfold class in HQ. consts_full. case_match; [| done].
  replace ((sz / 16 - 1) * 4) with (4 * (sz / 16 - 1)) by lia. done.
Qed.

(** Reading words through writes at the same alignment. *)
Ltac rd_words :=
  repeat (rewrite rd32_wr32 by (unfold list_word, layout_word, node in *; consts_full; lia)).

(** ** [RemoveBlock] *)

(** Bytes of the links of [x], when there is such a node. *)
Definition link_bytes (x b : Z) : Prop := x <> 0 /\ x + 4 <= b < x + 12.

(** The word that points to [y]: its predecessor's [next] or the list head. *)
Definition incoming (sz p : Z) : Z := if decide (p = 0) then 4 * class sz else p + 8.

Lemma wp_RemoveBlock_first y sz (Q : unit -> state -> Prop) E s :
  let m := nvm s in
  let p := rd32 m (y + 4) in
  ready s -> node y -> 32 <= sz -> sz mod 16 = 0 -> (p = 0 \/ node p) ->
  (forall s', ready s' -> same_env s s' ->
     nvm s' = wr32 m (incoming sz p) (rd32 m (y + 8)) -> Q tt s') ->
  wp (if negb (p =? 0) then
        n <- Read32 (u32 (y + offsetof_next)) ;; Write32 (u32 (p + offsetof_next)) n
      else
        free_list <- GetFreeListByBlockSize sz ;;
        n <- Read32 (u32 (y + offsetof_next)) ;; Write32 free_list n) Q E s.
Proof.
  intros m p Hr Hy Hsz Hsz16 Hp HQ. pose proof (class_range sz Hsz Hsz16) as Hc.
  unfold incoming in HQ.
  wp_step; destruct (Z.eqb_spec p 0) as [E0 | E0]; try done.
  - rewrite decide_False in HQ by done. do 3 wp_step. by apply HQ.
  - rewrite decide_True in HQ by done. wp_step. apply class_list; [lia |].
    do 3 wp_step. by apply HQ.
Qed.

Lemma wp_RemoveBlock_second y (Q : unit -> state -> Prop) E s n :
  ready s -> node y -> (n = 0 \/ node n) ->
  (forall s', ready s' -> same_env s s' ->
     nvm s' = (if decide (n = 0) then nvm s else wr32 (nvm s) (n + 4) (rd32 (nvm s) (y + 4))) ->
     Q tt s') ->
  wp (when (negb (n =? 0))
        (p <- Read32 (u32 (y + offsetof_prev)) ;; Write32 (u32 (n + offsetof_prev)) p)) Q E s.
Proof.
  intros Hr Hy Hn HQ. wp_step; destruct (Z.eqb_spec n 0) as [E0 | E0]; try done.
  - rewrite decide_False in HQ by done. do 3 wp_step. by apply HQ.
  - apply HQ; [done | done |]. by rewrite decide_True.
Qed.

Lemma list_word_align w : list_word w -> 0 < w /\ w mod 4 = 0.
Proof. node_lia. Qed.

(** The two writes of [RemoveBlock] as one change of words. *)
Section RemoveWords.
Context (m : mem) (y sz p n : Z).
Context (Hy : node y) (Hc : 1 <= class sz <= 72).
Context (Hp : p = 0 \/ node p) (Hn : n = 0 \/ node n).
Context (Ep : rd32 m (y + 4) = p) (En : rd32 m (y + 8) = n).

Let m1 := wr32 m (incoming sz p) n.
Let m2 := if decide (n = 0) then m1 else wr32 m1 (n + 4) (rd32 m1 (y + 4)).

Lemma incoming_word : list_word (incoming sz p).
Proof.
  unfold incoming. case_decide; [by apply head_word |]. apply node_words. naive_solver.
Qed.

Lemma remove_small : u32 n = n /\ u32 p = p.
Proof. rewrite <- Ep, <- En. split; apply u32_small, rd32_range. Qed.

Lemma remove_prev_kept : rd32 m1 (y + 4) = p.
Proof.
  unfold m1. destruct (list_word_align _ incoming_word).
  rewrite rd32_wr32 by (done || node_lia). rewrite decide_False; [done |].
  unfold incoming. case_decide; [node_lia |]. destruct Hp; [done | node_lia].
Qed.

Lemma remove_removed : removed (class sz) y m m2.
Proof.
  intros w Hw. destruct (list_word_align _ Hw). destruct (list_word_align _ incoming_word).
  destruct remove_small as [Sn Sp]. unfold m2. rewrite remove_prev_kept, Ep, En.
  fold (incoming sz p). unfold m1. case_decide as Hn0.
  - rewrite rd32_wr32 by done. rewrite (decide_False (P := n <> 0 /\ _)) by naive_solver.
    repeat case_decide; naive_solver congruence.
  - destruct Hn as [| Hnn]; [done |]. rewrite !rd32_wr32 by (done || node_lia).
    repeat case_decide; naive_solver congruence.
Qed.

Lemma remove_layout w : layout_word w -> rd32 m2 w = rd32 m w.
Proof.
  intros Hw. pose proof (word_sep _ _ incoming_word Hw). unfold m2, m1.
  case_decide as Hn0; [by rewrite rd32_wr32_ne |].
  destruct Hn as [| Hnn]; [done |].
  pose proof (word_sep _ _ (proj1 (node_words n Hnn)) Hw).
  by rewrite !rd32_wr32_ne.
Qed.

Lemma remove_bytes b :
  ~ (0 <= b < FIRST) -> ~ link_bytes p b -> ~ link_bytes n b -> byte_at m2 b = byte_at m b.
Proof.
  unfold link_bytes. intros Hb Hpb Hnb.
  assert (byte_at m1 b = byte_at m b) as <-.
  { unfold m1, incoming. apply byte_at_wr32. case_decide; [node_lia | lia]. }
  unfold m2. case_decide; [done |]. apply byte_at_wr32. lia.
Qed.
End RemoveWords.

Lemma wp_RemoveBlock y sz (Q : unit -> state -> Prop) E s :
  let m := nvm s in
  let p := rd32 m (y + 4) in
  let n := rd32 m (y + 8) in
  ready s -> node y -> 32 <= sz -> sz mod 16 = 0 -> y + sz <= END_ ->
  rd32 m (y + sz) / 2 ^ 31 = 1 -> (p = 0 \/ node p) -> (n = 0 \/ node n) ->
  (forall s', ready s' -> same_env s s' -> removed (class sz) y m (nvm s') ->
     (forall w, layout_word w -> rd32 (nvm s') w = rd32 m w) ->
     (forall b, ~ (0 <= b < FIRST) -> ~ link_bytes p b -> ~ link_bytes n b ->
                byte_at (nvm s') b = byte_at m b) ->
     Q tt s') ->
  wp (RemoveBlock y sz) Q E s.
Proof.
  intros m p n Hr Hy Hsz Hsz16 Hend Htag Hp Hn HQ.
  pose proof (class_range sz Hsz Hsz16) as Hc.
  unfold RemoveBlock, ReadTheFreeTag.
  do 5 wp_step. fold m. rewrite land_free, Htag by apply rd32_range.
  wp_step. do 4 wp_step. wp_step.
  change (y + offsetof_prev) with (y + 4). change (y + offsetof_next) with (y + 8). fold m p n.
  rewrite <- (u32_small (y + 8)), <- (u32_small (y + 4)) by node_lia.
  apply wp_RemoveBlock_first; [done .. |]. intros s1 Hr1 He1 Hm1.
  apply wp_RemoveBlock_second; [done .. |]. intros s2 Hr2 He2 Hm2.
  rewrite Hm1 in Hm2. apply HQ; [done | by eapply same_env_trans | rewrite Hm2 ..].
  - by apply remove_removed.
  - intros w Hw. by apply remove_layout.
  - intros b. by apply remove_bytes.
Qed.

(** ** Memory changes of [AllocBlock] and [FreeBlock] *)

(** Taking the first node off list [i]. *)
Definition mem_pop (i next : Z) (m : mem) : mem :=
  let m1 := wr32 m (4 * i) next in
  if decide (next = 0) then m1 else wr32 m1 (next + 4) 0.

(** Linking [x] before [head] in list [i], in the order of [SplitBlock]. *)
Definition mem_link_split (i x head : Z) (m : mem) : mem :=
  let m1 := wr32 (wr32 (wr32 m (x + 4) 0) (x + 8) head) (4 * i) x in
  if decide (head = 0) then m1 else wr32 m1 (head + 4) x.

(** The same in the order of [FreeBlock]. *)
Definition mem_link_free (i x head : Z) (m : mem) : mem :=
  let m1 := wr32 (wr32 (wr32 m (4 * i) x) (x + 4) 0) (x + 8) head in
  if decide (head = 0) then m1 else wr32 m1 (head + 4) x.

Definition list_frame (m m' : mem) : Prop := forall w, list_word w -> rd32 m' w = rd32 m w.
Definition layout_frame (m m' : mem) : Prop := forall w, layout_word w -> rd32 m' w = rd32 m w.

Lemma list_frame_refl m : list_frame m m.
Proof. done. Qed.

Lemma layout_frame_refl m : layout_frame m m.
Proof. done. Qed.

Lemma list_frame_wr32 m m' a v :
  list_frame m m' -> layout_word a -> list_frame m (wr32 m' a v).
Proof.
  intros H Ha w Hw. pose proof (word_sep _ _ Hw Ha).
  rewrite rd32_wr32_ne by lia. by apply H.
Qed.

Lemma layout_frame_wr32 m m' a v :
  layout_frame m m' -> list_word a -> layout_frame m (wr32 m' a v).
Proof.
  intros H Ha w Hw. pose proof (word_sep _ _ Ha Hw).
  rewrite rd32_wr32_ne by lia. by apply H.
Qed.

Lemma list_frame_trans m1 m2 m3 : list_frame m1 m2 -> list_frame m2 m3 -> list_frame m1 m3.
Proof. intros H1 H2 w Hw. by rewrite H2, H1. Qed.

Lemma layout_frame_trans m1 m2 m3 : layout_frame m1 m2 -> layout_frame m2 m3 -> layout_frame m1 m3.
Proof. intros H1 H2 w Hw. by rewrite H2, H1. Qed.

#[export] Hint Resolve list_frame_refl layout_frame_refl list_frame_wr32 layout_frame_wr32 : nvds.

Section Pop.
Context (m : mem) (i x next : Z).
Context (Hi : 1 <= i <= 72) (Hx : node x).
Context (Hprev : rd32 m (x + 4) = 0) (Hnext : rd32 m (x + 8) = next).
Context (Hn : next = 0 \/ node next).

Lemma pop_removed : removed i x m (mem_pop i next m).
Proof.
  intros w Hw. destruct (list_word_align _ Hw). rewrite Hprev, Hnext.
  assert (Sn : u32 next = next) by (rewrite <- Hnext; apply u32_small, rd32_range).
  unfold mem_pop. rewrite (decide_True (P := 0 = 0)) by done. case_decide as Hn0.
  - rewrite rd32_wr32 by (done || node_lia). repeat case_decide; naive_solver congruence.
  - destruct Hn as [| Hnn]; [done |]. rewrite !rd32_wr32 by (done || node_lia).
    repeat case_decide; naive_solver congruence.
Qed.

Lemma pop_layout : layout_frame m (mem_pop i next m).
Proof.
  pose proof (head_word i Hi). unfold mem_pop. case_decide; [auto with nvds |].
  destruct Hn as [| Hnn]; [done |]. destruct (node_words _ Hnn).
  auto with nvds.
Qed.

Lemma pop_bytes b : FIRST <= b -> ~ link_bytes next b ->
  byte_at (mem_pop i next m) b = byte_at m b.
Proof.
  unfold link_bytes. intros Hb Hl. unfold mem_pop. case_decide; rewrite !byte_at_wr32 by node_lia; done.
Qed.
End Pop.

Section Link.
Context (m : mem) (i x head : Z).
Context (Hi : 1 <= i <= 72) (Hx : node x) (Hh : head = 0 \/ node head).

Lemma link_small : u32 x = x /\ u32 head = head.
Proof. split; apply u32_small; [node_lia | destruct Hh; [subst; lia | node_lia]]. Qed.

Lemma link_split_pushed : pushed i x head m (mem_link_split i x head m).
Proof.
  intros w Hw. destruct (list_word_align _ Hw). destruct link_small as [Sx Sh].
  unfold mem_link_split. case_decide as Hn0.
  - rewrite !rd32_wr32 by (done || node_lia). rewrite (decide_False (P := head <> 0 /\ _)) by naive_solver.
    repeat case_decide; first [naive_solver congruence | node_lia].
  - destruct Hh as [| Hnn]; [done |]. rewrite !rd32_wr32 by (done || node_lia).
    repeat case_decide; first [naive_solver congruence | node_lia].
Qed.

Lemma link_free_pushed : pushed i x head m (mem_link_free i x head m).
Proof.
  intros w Hw. destruct (list_word_align _ Hw). destruct link_small as [Sx Sh].
  unfold mem_link_free. case_decide as Hn0.
  - rewrite !rd32_wr32 by (done || node_lia). rewrite (decide_False (P := head <> 0 /\ _)) by naive_solver.
    repeat case_decide; first [naive_solver congruence | node_lia].
  - destruct Hh as [| Hnn]; [done |]. rewrite !rd32_wr32 by (done || node_lia).
    repeat case_decide; first [naive_solver congruence | node_lia].
Qed.

Lemma link_split_layout : layout_frame m (mem_link_split i x head m).
Proof.
  pose proof (head_word i Hi). destruct (node_words _ Hx). unfold mem_link_split.
  case_decide; [auto 6 with nvds |].
  destruct Hh as [| Hnn]; [done |]. destruct (node_words _ Hnn). auto 6 with nvds.
Qed.

Lemma link_free_layout : layout_frame m (mem_link_free i x head m).
Proof.
  pose proof (head_word i Hi). destruct (node_words _ Hx). unfold mem_link_free.
  case_decide; [auto 6 with nvds |].
  destruct Hh as [| Hnn]; [done |]. destruct (node_words _ Hnn). auto 6 with nvds.
Qed.

Lemma link_split_bytes b : FIRST <= b -> ~ link_bytes x b -> ~ link_bytes head b ->
  byte_at (mem_link_split i x head m) b = byte_at m b.
Proof.
  unfold link_bytes. intros Hb Hx0 Hl.
  unfold mem_link_split. case_decide; rewrite !byte_at_wr32 by node_lia; done.
Qed.

Lemma link_free_bytes b : FIRST <= b -> ~ link_bytes x b -> ~ link_bytes head b ->
  byte_at (mem_link_free i x head m) b = byte_at m b.
Proof.
  unfold link_bytes. intros Hb Hx0 Hl.
  unfold mem_link_free. case_decide; rewrite !byte_at_wr32 by node_lia; done.
Qed.
End Link.
