(* ===== verification/AllocRefine.v ===== *)
(** * [AllocBlock] refines [abs_alloc]

    From a memory that represents [h], [AllocBlock n] returns what
    [abs_alloc n h] returns, leaves a memory that represents its heap, and
    touches allocator bytes only; it fails an assertion exactly when
    [abs_alloc] has no result. *)

From S2P Require Import Prelude Nvm Modification Allocator HeapSpec HeapLists HeapTiling AllocatorWp.
Import Allocator.

Lemma lists_from_succ i : i <= 72 -> lists_from i = S (lists_from (i + 1)).
Proof. unfold lists_from. consts_full. lia. Qed.

(** ** The search loop *)

Lemma search_lists_spec m f o s fuel i :
  lists_wf f o -> lists_mem m f o -> nvm s = m -> kSize <= region s ->
  1 <= i <= 73 -> (lists_from i < fuel)%nat ->
  search_lists fuel (4 * i) 0 s =
    Ok (match first_nonempty (lists_from i) i f with
        | Some (j, x, _) => (4 * j, x)
        | None => (4 * 73, 0)
        end) s.
Proof.
  intros Hwf Hmem Hs Hr. revert i. induction fuel as [|fuel IH]; intros i Hi Hf; [lia |].
  cbn [search_lists]. change (kNumFreeLists * sizeof_u32) with 292.
  destruct (Z.ltb_spec (4 * i) 292) as [Hlt | Hge].
  - rewrite lists_from_succ in * by lia. cbn [first_nonempty].
    assert (HR : Read32 (4 * i) s = Ok (hd 0 (f i)) s).
    { pose proof (wp_Read32 no_error (4 * i) (fun v s' => v = hd 0 (f i) /\ s' = s) s) as H.
      destruct (wp_total _ _ _ (H ltac:(lia) ltac:(consts_full; lia)
        ltac:(rewrite Hs; split; [by apply Hmem; lia | done]))) as (v & s' & -> & -> & ->). done. }
    rewrite (bind_Ok _ _ _ _ _ HR). destruct (f i) as [|x rest] eqn:Efi; cbn [hd].
    + cbn [Z.eqb]. change (u32 (4 * i + sizeof_u32)) with (u32 (4 * i + 4)).
      rewrite u32_small by lia. replace (4 * i + 4) with (4 * (i + 1)) by lia.
      apply IH; lia.
    + assert (node x) by (eapply (lw_node _ _ Hwf i); rewrite Efi; set_solver).
      destruct (Z.eqb_spec x 0); [node_lia | done].
  - replace i with 73 by lia. done.
Qed.

Lemma first_nonempty_Some k i f j x rest :
  first_nonempty k i f = Some (j, x, rest) ->
  f j = x :: rest /\ i <= j < i + Z.of_nat k /\ forall l, i <= l < j -> f l = [].
Proof.
  revert i. induction k as [|k IH]; intros i; cbn [first_nonempty]; [done |].
  destruct (f i) as [|y r] eqn:E.
  - intros (H1 & H2 & H3)%IH. split_and!; [done | lia | lia |]. intros l Hl.
    destruct (decide (l = i)) as [-> |]; [done | apply H3; lia].
  - intros [= <- <- <-]. split_and!; [done | lia | lia |]. intros. lia.
Qed.

Lemma first_nonempty_None k i f :
  first_nonempty k i f = None -> forall l, i <= l < i + Z.of_nat k -> f l = [].
Proof.
  revert i. induction k as [|k IH]; intros i; cbn [first_nonempty]; [lia |].
  destruct (f i) eqn:E; [| done]. intros H l Hl.
  destruct (decide (l = i)) as [-> |]; [done | apply (IH (i + 1)); [done | lia]].
Qed.

(** ** Bytes of the allocator *)

Lemma meta_node B x b : B !! x = Some (mkBlock b true) -> 32 <= b ->
  forall y, x <= y < x + 32 -> meta B y.
Proof. intros Hx Hb y Hy. right. right. exists x, (mkBlock b true). cbn. split; [done | lia]. Qed.

Lemma meta_links B f o x : tiling B -> members B f o -> (x = 0 \/ known f o x) ->
  forall y, link_bytes x y -> meta B y.
Proof.
  intros HB Hm [-> | Hk] y [Hy0 Hy]; [done |].
  assert (exists sz, B !! x = Some (mkBlock sz true)) as [sz Hx].
  { destruct Hk as [[i Hk] | Hk]; [apply Hm in Hk; naive_solver | apply Hm in Hk; eauto]. }
  eapply meta_node; [done | by apply (ti_ok _ HB) in Hx as (_ & _ & _ & ? & _) | lia].
Qed.

Lemma only_meta_refl B m : only_meta B m m.
Proof. done. Qed.

Lemma only_meta_trans B m1 m2 m3 : only_meta B m1 m2 -> only_meta B m2 m3 -> only_meta B m1 m3.
Proof. intros H1 H2 x Hx. by rewrite H2, H1. Qed.

Lemma only_meta_wr32 B m m' a v : only_meta B m m' ->
  (forall b, a <= b < a + 4 -> meta B b) -> only_meta B m (wr32 m' a v).
Proof.
  intros H Ha b Hb. rewrite byte_at_wr32; [by apply H |].
  destruct (decide (a <= b < a + 4)); [| lia]. exfalso. by apply Hb, Ha.
Qed.

Lemma only_meta_pop B m m' i next : only_meta B m m' -> 1 <= i <= 72 ->
  (forall b, link_bytes next b -> meta B b) -> only_meta B m (mem_pop i next m').
Proof.
  intros H Hi Hl. unfold mem_pop.
  case_decide; repeat (apply only_meta_wr32; [try done |]); try done.
  - intros b Hb. left. consts. lia.
  - intros b Hb. left. consts. lia.
  - intros b Hb. apply Hl. split; [done | lia].
Qed.

Section LinkMeta.
Context (B : gmap Z block) (m m' : mem) (i x head : Z).
Context (H : only_meta B m m') (Hi : 1 <= i <= 72).
Context (Hx : forall b, x + 4 <= b < x + 12 -> meta B b).
Context (Hl : forall b, link_bytes head b -> meta B b).

Lemma only_meta_link_split : only_meta B m (mem_link_split i x head m').
Proof.
  assert (Hh : forall b, 4 * i <= b < 4 * i + 4 -> meta B b) by (intros; left; consts; lia).
  unfold mem_link_split. case_decide; repeat apply only_meta_wr32; try done;
    intros b Hb; first [apply Hx; lia | apply Hl; split; [done | lia]].
Qed.

Lemma only_meta_link_free : only_meta B m (mem_link_free i x head m').
Proof.
  assert (Hh : forall b, 4 * i <= b < 4 * i + 4 -> meta B b) by (intros; left; consts; lia).
  unfold mem_link_free. case_decide; repeat apply only_meta_wr32; try done;
    intros b Hb; first [apply Hx; lia | apply Hl; split; [done | lia]].
Qed.
End LinkMeta.

(** The header of the block after [x], or the sentinel. *)
Lemma meta_next B x b : tiling B -> B !! x = Some b ->
  forall y, x + bsize b <= y < x + bsize b + 4 -> meta B y.
Proof.
  intros HB Hx y Hy. destruct (ti_next _ HB _ _ Hx) as [E | [b' Hb']].
  - right. left. lia.
  - right. right. exists (x + bsize b), b'. split; [done | left; lia].
Qed.

Lemma hd_known f o i : hd 0 (f i) = 0 \/ known f o (hd 0 (f i)).
Proof.
  destruct (f i) eqn:E; [by left | right]. left. exists i. rewrite E. cbn. set_solver.
Qed.

(** ** The first block of a list *)

Lemma alloc_exact_nil n i x rest h : rest = [] ->
  alloc_exact n i x rest h =
    mkHeap (<[x := mkBlock n false]> (blocks h)) (upd 1 [] (upd i rest (fl h)))
           (upd i rest (fl h) 1 :: orph h).
Proof. by intros ->. Qed.

Lemma alloc_exact_cons n i x rest h : rest <> [] ->
  alloc_exact n i x rest h =
    mkHeap (<[x := mkBlock n false]> (blocks h)) (upd i rest (fl h)) (orph h).
Proof. by destruct rest. Qed.

Section First.
Context (m : mem) (h : heap) (i x : Z) (rest : list Z).
Context (Hinv : heap_inv m h) (Hf : fl h i = x :: rest).

Let B := blocks h.
Let next := hd 0 rest.

Lemma first_class : 1 <= i <= 72.
Proof. apply (lw_range _ _ (hi_lists _ _ Hinv)). by rewrite Hf. Qed.

Lemma first_block : exists sz, B !! x = Some (mkBlock sz true) /\ class sz = i.
Proof. apply (mb_listed _ _ _ (hi_members _ _ Hinv)). rewrite Hf. set_solver. Qed.

Lemma first_node : node x.
Proof. apply (lw_node _ _ (hi_lists _ _ Hinv) i). rewrite Hf. set_solver. Qed.

Lemma first_links : rd32 m (x + 4) = 0 /\ rd32 m (x + 8) = next.
Proof. pose proof (lm_seg _ _ _ (hi_links _ _ Hinv) i) as H. rewrite Hf in H. naive_solver. Qed.

Lemma first_next : next = 0 /\ rest = [] \/ node next /\ rest <> [] /\ next <> x /\ next ∈ fl h i.
Proof.
  unfold next. destruct rest as [|z r] eqn:E; cbn; [by left | right].
  pose proof (lw_nodup _ _ (hi_lists _ _ Hinv) i) as Hnd. rewrite Hf in Hnd.
  apply list.NoDup_cons in Hnd as [Hx _]. split_and!.
  - apply (lw_node _ _ (hi_lists _ _ Hinv) i). rewrite Hf. set_solver.
  - done.
  - set_solver.
  - rewrite Hf. set_solver.
Qed.

Lemma first_next_node : next = 0 \/ node next.
Proof. destruct first_next; naive_solver. Qed.

(** Unlinking it is popping the list. *)
Lemma first_unlink : unlink x (fl h) (orph h) (upd i rest (fl h)) (orph h).
Proof. by apply (unlink_listed x (fl h) (orph h) i [] rest). Qed.

Lemma first_pop_mem m1 : removed i x m m1 -> lists_mem m1 (upd i rest (fl h)) (orph h).
Proof.
  intros Hr. apply (unlink_listed_mem m m1 (fl h) (orph h) i x) with (l1 := []); [..| done].
  - apply Hinv.
  - apply Hinv.
  - done.
  - apply first_class.
Qed.

Lemma first_known y : known (upd i rest (fl h)) (orph h) y -> known (fl h) (orph h) y.
Proof.
  intros [[k [[-> Hk] | [_ Hk]]%elem_of_upd] | Hk].
  - left. exists i. rewrite Hf. set_solver.
  - left. by exists k.
  - by right.
Qed.

Lemma blocks_sized a b : B !! a = Some b -> 32 <= bsize b /\ bsize b mod 16 = 0.
Proof. intros H. apply (ti_ok _ (hi_tiling _ _ Hinv)) in H. unfold block_ok in H. lia. Qed.

Lemma first_members : members (delete x B) (upd i rest (fl h)) (orph h).
Proof.
  eapply members_unlink; [apply blocks_sized | apply Hinv | apply Hinv | apply first_unlink].
Qed.

(** *** An exact fit *)

Context (n : Z) (Hx : B !! x = Some (mkBlock n true)).

Definition mem_exact : mem :=
  let m1 := wr32 m (x + n) (rd32 m (x + n) mod 2 ^ 31) in
  wr32 (wr32 m1 (4 * i) next) (next + 4) 0.

Lemma exact_bounds : block_ok x (mkBlock n true).
Proof. by apply (ti_ok _ (hi_tiling _ _ Hinv)). Qed.

Lemma exact_flag_word : layout_word (x + n).
Proof. pose proof exact_bounds. unfold block_ok, layout_word in *. cbn in *. node_lia. Qed.

Lemma exact_popped : exists m1, removed i x m m1 /\ layout_frame (wr32 m (x + n) (rd32 m (x + n) mod 2 ^ 31)) m1 /\
  mem_exact = if decide (next = 0) then wr32 m1 4 0 else m1.
Proof.
  set (m0 := wr32 m (x + n) (rd32 m (x + n) mod 2 ^ 31)).
  assert (Hlf : list_frame m m0) by (unfold m0; auto using exact_flag_word with nvds).
  destruct first_links as [Hp Hn]. destruct (node_words x first_node) as [W4 W8].
  exists (mem_pop i next m0). split_and!.
  - intros w Hw. rewrite (pop_removed m0 i x next first_class); [| | | | done].
    + rewrite !Hlf by done. done.
    + by rewrite Hlf.
    + by rewrite Hlf.
    + apply first_next_node.
  - apply pop_layout; [apply first_class | apply first_next_node].
  - unfold mem_exact, mem_pop. fold m0. case_decide as E; [by rewrite E | done].
Qed.

Lemma exact_layout w : layout_word w ->
  rd32 mem_exact w = if decide (w = x + n) then rd32 m w mod 2 ^ 31 else rd32 m w.
Proof.
  intros Hw. destruct exact_popped as (m1 & _ & Hl & ->).
  assert (rd32 (if decide (next = 0) then wr32 m1 4 0 else m1) w = rd32 m1 w) as ->.
  { case_decide; [| done]. apply layout_frame_wr32; [apply layout_frame_refl | | done].
    apply (head_word 1). lia. }
  rewrite (Hl w Hw). pose proof exact_bounds as O. unfold block_ok in O. cbn in O.
  rewrite rd32_wr32 by (unfold layout_word in *; lia).
  repeat case_decide; subst; try done. apply u32_small.
  pose proof (rd32_range m (x + n)). lia.
Qed.

Lemma exact_foot : rd32 mem_exact (x + n - 4) = n.
Proof.
  pose proof exact_bounds as O. unfold block_ok in O. cbn in O.
  rewrite exact_layout by (unfold layout_word; lia). rewrite decide_False by lia.
  by apply (tg_foot _ _ (hi_tags _ _ Hinv) _ _ Hx).
Qed.

Lemma exact_tags : tags_inv mem_exact (<[x := mkBlock n false]> B).
Proof.
  pose proof exact_bounds as O. unfold block_ok in O. cbn in O.
  eapply (tags_run m _ B _ x (x + n) false).
  - apply Hinv.
  - apply Hinv.
  - eapply tiling_status; [apply Hinv | done].
  - rewrite lookup_insert_eq. by replace (x + n - x) with n by lia.
  - intros d b Hd. by rewrite lookup_insert_ne.
  - rewrite exact_layout by (unfold layout_word; lia). by rewrite decide_False by lia.
  - rewrite exact_layout by (unfold layout_word; lia). rewrite decide_False by lia.
    rewrite (tg_size _ _ (hi_tags _ _ Hinv) _ _ Hx). cbn. lia.
  - done.
  - rewrite exact_layout by apply exact_flag_word. rewrite decide_True by done.
    apply Z.mod_mod. lia.
  - rewrite exact_layout by apply exact_flag_word. rewrite decide_True by done. cbn.
    apply Z.div_small, Z.mod_pos_bound. lia.
  - intros w Hw _ _ Hne. rewrite exact_layout by done. by rewrite decide_False.
Qed.

Lemma exact_inv : heap_inv mem_exact (alloc_exact n i x rest h).
Proof.
  destruct exact_popped as (m1 & Hrem & _ & E).
  pose proof (unlink_wf _ _ _ _ _ (hi_lists _ _ Hinv) first_unlink) as Hwf.
  pose proof (first_pop_mem m1 Hrem) as Hm1.
  assert (HB : tiling (<[x := mkBlock n false]> B)) by (eapply tiling_status; [apply Hinv | done]).
  assert (Hmb : members (<[x := mkBlock n false]> B) (upd i rest (fl h)) (orph h)).
  { rewrite <- (insert_delete_eq B). apply members_insert_used; [apply first_members |].
    apply lookup_delete_eq. }
  destruct first_next as [[Hn Hr] | (Hn & Hne & _)].
  - rewrite alloc_exact_nil by done. rewrite decide_True in E by done. split; cbn.
    + done.
    + apply exact_tags.
    + by apply leak_wf.
    + rewrite E. eapply leak_mem; [done | done |]. intros w Hw.
      rewrite rd32_wr32 by (done || by apply list_word_align).
      repeat case_decide; naive_solver.
    + apply members_leak; [| done]. intros a b Hab. apply (ti_ok _ HB) in Hab. unfold block_ok in Hab. lia.
  - rewrite decide_False in E by (intros E0; rewrite E0 in Hn; node_lia).
    rewrite alloc_exact_cons by done. split; cbn; [done | apply exact_tags | done | by rewrite E | done].
Qed.

Lemma exact_bytes : only_meta B m mem_exact.
Proof.
  pose proof exact_bounds as O. unfold block_ok in O. cbn in O.
  pose proof first_class. unfold mem_exact.
  apply only_meta_wr32; [apply only_meta_wr32; [apply only_meta_wr32; [done |] |] |].
  - by apply (meta_next B x (mkBlock n true) (hi_tiling _ _ Hinv)).
  - intros b Hb. left. consts. lia.
  - destruct first_next as [[-> _] | (Hn & _ & _ & Hin)].
    + intros b Hb. left. consts. lia.
    + intros b Hb. apply (meta_links B (fl h) (orph h) next (hi_tiling _ _ Hinv) (hi_members _ _ Hinv)).
      * right. left. eauto.
      * unfold link_bytes. node_lia.
Qed.
End First.

(** ** Splitting the first block of a list *)

Section Split.
Context (m : mem) (h : heap) (i x : Z) (rest : list Z).
Context (Hinv : heap_inv m h) (Hf : fl h i = x :: rest).
Context (n sz : Z) (Hx : blocks h !! x = Some (mkBlock sz true)).
Context (Hn : 32 <= n <= kMaxBlockSize) (Hn16 : n mod 16 = 0) (Hr : 32 <= sz - n).

Let B := blocks h.
Let next := hd 0 rest.
Let j := class (sz - n).
Let f1 := upd i rest (fl h).

Definition mem_split_tags : mem :=
  let m2 := mem_pop i next m in
  wr32 (wr32 m2 x (Z.lor (Z.land (rd32 m2 x) kFreeMask) (sz - n))) (x + (sz - n) - 4) (sz - n).

Definition mem_split_linked : mem :=
  mem_link_split j x (rd32 mem_split_tags (4 * j)) mem_split_tags.

Definition mem_split_cut : mem :=
  wr32 (wr32 mem_split_linked (x + (sz - n)) (Z.lor kFreeMask n)) (x + sz - 4) n.

Definition mem_split : mem :=
  wr32 mem_split_cut (x + sz) (Z.land (rd32 mem_split_cut (x + sz)) (not32 kFreeMask)).

Lemma split_bounds : block_ok x (mkBlock sz true).
Proof. by apply (ti_ok _ (hi_tiling _ _ Hinv)). Qed.

Ltac bounds := pose proof split_bounds as O; unfold block_ok in O; cbn in O.

Lemma split_class : 1 <= j <= 72.
Proof. bounds. apply class_range; lia. Qed.

Lemma split_words : layout_word x /\ layout_word (x + (sz - n) - 4) /\
  layout_word (x + (sz - n)) /\ layout_word (x + sz - 4) /\ layout_word (x + sz).
Proof. bounds. unfold layout_word. lia. Qed.

(** *** Lists *)

Lemma split_popped : lists_wf f1 (orph h) /\ lists_mem mem_split_tags f1 (orph h).
Proof.
  destruct split_words as (W1 & W2 & _). destruct (first_links m h i x rest Hinv Hf) as [Hp Hnx].
  assert (Hwf : lists_wf f1 (orph h)).
  { eapply unlink_wf; [apply Hinv | by apply first_unlink]. }
  split; [done |]. apply lists_mem_frame with (m := mem_pop i next m).
  - done.
  - eapply first_pop_mem; [done | done |].
    eapply pop_removed; [by eapply first_class | done | done |].
    by apply (first_next_node m h i x).
  - apply list_frame_wr32; [apply list_frame_wr32; [done | done] | done].
Qed.

Lemma split_head : rd32 mem_split_tags (4 * j) = hd 0 (f1 j).
Proof. apply split_popped. apply split_class. Qed.

Lemma split_head_node : hd 0 (f1 j) = 0 \/ node (hd 0 (f1 j)).
Proof.
  destruct split_popped as [Hwf _]. destruct (f1 j) eqn:E; [by left | right].
  rewrite <- E. eapply hd_listed_node; [done | by rewrite E].
Qed.

Lemma split_fresh : ~ known f1 (orph h) x.
Proof.
  pose proof (first_members m h i x rest Hinv Hf) as Hm.
  intros [sz' Hk]%(members_known _ _ _ Hm). by rewrite lookup_delete_eq in Hk.
Qed.

Lemma split_lists : lists_wf (push j x f1) (orph h) /\ lists_mem mem_split (push j x f1) (orph h).
Proof.
  destruct split_popped as [Hwf Hm]. destruct split_words as (W1 & W2 & W3 & W4 & W5).
  assert (Hxn : node x) by (by eapply first_node).
  assert (Hwf' : lists_wf (push j x f1) (orph h)).
  { apply push_wf; [done | apply split_class | done | apply split_fresh]. }
  split; [done |].
  assert (Hl : lists_mem mem_split_linked (push j x f1) (orph h)).
  { eapply push_mem; [done | exact Hm | apply split_class | done | apply split_fresh |].
    unfold mem_split_linked. rewrite split_head.
    apply link_split_pushed; [apply split_class | done | apply split_head_node]. }
  eapply lists_mem_frame; [done | exact Hl |].
  unfold mem_split, mem_split_cut. repeat apply list_frame_wr32; done.
Qed.

(** *** Tags *)

Lemma split_old_tag :
  Z.lor (Z.land (rd32 (mem_pop i next m) x) kFreeMask) (sz - n) =
    2 ^ 31 * (rd32 m x / 2 ^ 31) + (sz - n).
Proof.
  bounds. destruct split_words as (W1 & _).
  rewrite pop_layout; [| by eapply first_class | by apply (first_next_node m h i x) | done].
  rewrite tag_word by apply rd32_range. apply lor_flag_size. node_lia.
Qed.

Lemma split_tags_layout w : layout_word w ->
  rd32 mem_split_tags w =
    if decide (w = x + (sz - n) - 4) then sz - n
    else if decide (w = x) then 2 ^ 31 * (rd32 m x / 2 ^ 31) + (sz - n) else rd32 m w.
Proof.
  intros Hw. bounds. destruct split_words as (W1 & W2 & _).
  pose proof (rd32_range m x) as Rx.
  unfold mem_split_tags. rewrite split_old_tag.
  rewrite !rd32_wr32 by (unfold layout_word in *; lia).
  rewrite pop_layout; [| by eapply first_class | by apply (first_next_node m h i x) | done].
  repeat case_decide; subst; try done; try lia; apply u32_small; node_lia.
Qed.

Lemma split_cut_layout w : layout_word w ->
  rd32 mem_split_cut w =
    if decide (w = x + sz - 4) then n
    else if decide (w = x + (sz - n)) then 2 ^ 31 + n
    else if decide (w = x + (sz - n) - 4) then sz - n
    else if decide (w = x) then 2 ^ 31 * (rd32 m x / 2 ^ 31) + (sz - n) else rd32 m w.
Proof.
  intros Hw. bounds. destruct split_words as (W1 & W2 & W3 & W4 & W5).
  unfold mem_split_cut. rewrite !rd32_wr32 by (unfold layout_word in *; lia).
  replace (Z.lor kFreeMask n) with (2 ^ 31 + n)
    by (symmetry; apply (lor_flag_size 1); consts_full; lia).
  unfold mem_split_linked. rewrite split_head.
  rewrite link_split_layout;
    [| apply split_class | by eapply first_node | apply split_head_node | done].
  rewrite split_tags_layout by done.
  repeat case_decide; subst; try done; try lia; apply u32_small; consts_full; lia.
Qed.

Lemma split_layout w : layout_word w ->
  rd32 mem_split w =
    if decide (w = x + sz) then rd32 mem_split_cut w mod 2 ^ 31 else rd32 mem_split_cut w.
Proof.
  intros Hw. destruct split_words as (_ & _ & _ & _ & W5).
  unfold mem_split. rewrite rd32_wr32 by (unfold layout_word in *; lia).
  rewrite size_word. repeat case_decide; subst; try done. apply u32_small.
  pose proof (rd32_range mem_split_cut (x + sz)). lia.
Qed.

Lemma split_foot : rd32 mem_split (x + sz - 4) = n.
Proof.
  bounds. destruct split_words as (_ & _ & _ & W4 & _).
  rewrite split_layout, split_cut_layout by done. rewrite decide_False by lia.
  by rewrite decide_True.
Qed.

Let B2 (f : bool) := <[x + (sz - n) := mkBlock n f]> (<[x := mkBlock (sz - n) true]> B).

Lemma split_tiling f : tiling (B2 f).
Proof. eapply tiling_split; [apply Hinv | exact Hx | lia | done | done]. Qed.

Lemma split_tags_cut : tags_inv mem_split_cut (B2 true).
Proof.
  bounds. destruct split_words as (W1 & W2 & W3 & W4 & W5).
  eapply (tags_cut m); [apply Hinv | apply Hinv | exact Hx | lia | done | done | | | | | |].
  - rewrite split_cut_layout by done. repeat case_decide; try lia.
    rewrite Z.mul_comm, Z.div_add_l by lia. rewrite (Z.div_small (sz - n)) by node_lia. lia.
  - rewrite split_cut_layout by done. repeat case_decide; try lia.
    rewrite Z.add_comm, Z.mul_comm, Z.mod_add by lia. apply Z.mod_small. node_lia.
  - rewrite split_cut_layout by done. repeat case_decide; lia.
  - rewrite split_cut_layout by done. repeat case_decide; lia.
  - rewrite split_cut_layout by done. repeat case_decide; lia.
  - intros w Hw ????. rewrite split_cut_layout by done. by rewrite !decide_False.
Qed.

Lemma split_tags : tags_inv mem_split (B2 false).
Proof.
  bounds. destruct split_words as (W1 & W2 & W3 & W4 & W5).
  pose proof split_tags_cut as Ht. pose proof (tg_size _ _ Ht (x + (sz - n)) (mkBlock n true)) as Hs.
  assert (Hl : B2 true !! (x + (sz - n)) = Some (mkBlock n true)) by apply lookup_insert_eq.
  eapply (tags_run mem_split_cut _ (B2 true) _ (x + (sz - n)) (x + sz) false).
  - apply split_tiling.
  - done.
  - apply split_tiling.
  - unfold B2. rewrite lookup_insert_eq. do 2 f_equal. lia.
  - intros d b Hd. unfold B2. by rewrite !(lookup_insert_ne _ (x + (sz - n))).
  - rewrite split_layout by done. by rewrite decide_False by lia.
  - rewrite split_layout by done. rewrite decide_False by lia. rewrite (Hs Hl). cbn. lia.
  - done.
  - rewrite split_layout by done. rewrite decide_True by done. apply Z.mod_mod. lia.
  - rewrite split_layout by done. rewrite decide_True by done. cbn.
    apply Z.div_small, Z.mod_pos_bound. lia.
  - intros w Hw _ _ Hne. rewrite split_layout by done. by rewrite decide_False.
Qed.

(** *** The whole heap *)

Lemma split_members : members (B2 false) (push j x f1) (orph h).
Proof.
  bounds. unfold B2. apply members_insert_used.
  - rewrite <- (insert_delete_eq B). apply members_push; [by eapply first_members | apply lookup_delete_eq].
  - rewrite lookup_insert_ne by lia.
    destruct (B !! (x + (sz - n))) as [b|] eqn:E; [| done]. exfalso.
    pose proof (ti_disj _ (hi_tiling _ _ Hinv) _ _ _ _ Hx E ltac:(lia)) as Hd. cbn in Hd. lia.
Qed.

Lemma split_inv : heap_inv mem_split (alloc_split n i x sz rest h).
Proof.
  destruct split_lists as [Hl1 Hl2]. unfold alloc_split. split; cbn.
  - apply split_tiling.
  - apply split_tags.
  - done.
  - done.
  - apply split_members.
Qed.

Lemma split_bytes : only_meta B m mem_split.
Proof.
  bounds. pose proof split_class as Hj.
  pose proof (first_class m h i x rest Hinv Hf) as Hi.
  assert (Hin : forall b, x <= b < x + sz -> meta B b).
  { intros b Hb. right. right. exists x, (mkBlock sz true). cbn. split; [done | lia]. }
  assert (Hlink : forall y, y = 0 \/ known (fl h) (orph h) y ->
    forall b, link_bytes y b -> meta B b).
  { intros y Hk. eapply meta_links; [apply Hinv | apply Hinv | done]. }
  unfold mem_split, mem_split_cut, mem_split_linked. rewrite split_head.
  repeat first [apply only_meta_wr32 | apply only_meta_link_split | unfold mem_split_tags];
    try (intros b Hb; apply Hin; lia); try done.
  - apply only_meta_pop; [done | done |]. apply Hlink.
    destruct (first_next m h i x rest Hinv Hf) as [[? _] | (_ & _ & _ & ?)]; [by left |].
    right. left. eauto.
  - apply Hlink. destruct (hd_known f1 (orph h) j) as [H0 | H1]; [by left | right].
    by eapply first_known.
  - intros b Hb. by apply (meta_next B x (mkBlock sz true) (hi_tiling _ _ Hinv) Hx).
Qed.
End Split.

(** ** Running the code *)

(** [if (h) Write(h + prev, v)] *)
Lemma wp_set_prev h a v (Q : unit -> state -> Prop) E s :
  ready s -> (h = 0 \/ node h) -> a = u32 (h + 4) \/ a = h + 4 ->
  (forall s', ready s' -> same_env s s' ->
     nvm s' = (if decide (h = 0) then nvm s else wr32 (nvm s) (h + 4) v) -> Q tt s') ->
  wp (when (negb (h =? 0)) (Write32 a v)) Q E s.
Proof.
  intros Hr Hh Ha HQ. wp_step; destruct (Z.eqb_spec h 0) as [E0 | E0]; try done.
  - rewrite decide_False in HQ by done. destruct Hh as [| Hh]; [done |].
    assert (a = h + 4) as -> by (destruct Ha as [-> | ->]; [apply u32_small; node_lia | done]).
    wp_step. by apply HQ.
  - apply HQ; [done | done |]. by rewrite decide_True.
Qed.

Section Run.
Context (h : heap) (i x : Z) (rest : list Z) (n sz : Z) (s : state).
Context (Hinv : heap_inv (nvm s) h) (Hrdy : ready s) (Hf : fl h i = x :: rest).
Context (Hx : blocks h !! x = Some (mkBlock sz true)) (Hi : class sz = i).
Context (Hn : 32 <= n <= kMaxBlockSize) (Hn16 : n mod 16 = 0).

Lemma run_ok : block_ok x (mkBlock sz true).
Proof. by apply (ti_ok _ (hi_tiling _ _ Hinv)). Qed.

Lemma wp_SplitBlock (Q : Z -> state -> Prop) E : 32 <= sz - n ->
  (forall s', ready s' -> same_env s s' ->
     nvm s' = mem_split (nvm s) i x rest n sz -> Q (x + (sz - n)) s') ->
  wp (SplitBlock x sz n) Q E s.
Proof.
  intros Hsz HQ. pose proof run_ok as O. unfold block_ok in O. cbn in O.
  pose proof (first_class _ _ _ _ _ Hinv Hf) as Hi72.
  destruct (first_links _ _ _ _ _ Hinv Hf) as [_ Hnext].
  pose proof (split_class _ h i x rest Hinv n sz Hx Hn16 Hsz) as Hj.
  pose proof (split_head _ h i x rest Hinv Hf n sz Hx Hn Hn16 Hsz) as Hhead.
  pose proof (split_head_node _ h i x rest Hinv Hf n sz Hx Hn Hn16 Hsz) as Hhn.
  pose proof (first_next_node _ h i x rest Hinv Hf) as Hnn.
  unfold SplitBlock. do 2 wp_step. wp_step. apply class_list; [lia |]. rewrite Hi.
  do 2 wp_step. wp_step. wp_step.
  change (x + offsetof_next) with (x + 8) in *. rewrite Hnext in *.
  wp_step. apply wp_set_prev; [done | done | by auto |]. intros s1 Hr1 He1 Hm1.
  assert (Hm1' : nvm s1 = mem_pop i (hd 0 rest) (nvm s)) by (rewrite Hm1, Hm; done).
  clear Hm1 Hm.
  wp_step. unfold ReadThePrevFreeTag at 1. do 3 wp_step. wp_step. wp_step. wp_step. wp_step.
  assert (Hm2 : nvm s3 = mem_split_tags (nvm s) i x rest n sz) by (rewrite Hm0, Hm, Hm1'; done).
  clear Hm0 Hm Hm1'.
  wp_step. apply class_list; [lia |].
  do 2 wp_step. rewrite Hm2, Hhead. do 2 wp_step. wp_step. wp_step. wp_step. wp_step.
  wp_step. apply wp_set_prev; [done | done | by auto |]. intros s7 Hr7 He7 Hm7.
  assert (Hm8 : nvm s7 = mem_split_linked (nvm s) i x rest n sz).
  { rewrite Hm7, Hm1, Hm0, Hm, Hm2. unfold mem_split_linked. by rewrite Hhead. }
  clear Hm7 Hm1 Hm0 Hm Hm2 Hhead.
  do 2 wp_step. wp_step. wp_step. norm_u32.
  assert (Hm9 : nvm s9 = mem_split_cut (nvm s) i x rest n sz) by (rewrite Hm0, Hm, Hm8; done).
  unfold ResetTheFreeTag. do 2 wp_step. wp_step.
  replace (x + (sz - n) + n) with (x + sz) in * by lia. wp_step. wp_step.
  apply HQ; [done | by eauto 20 using same_env_trans |].
  rewrite Hm1, Hm9. done.
Qed.

(** The rest would be a 16-byte block: its free list is at offset 0. *)
Lemma wp_SplitBlock_tiny (Q : Z -> state -> Prop) E : sz - n = 16 ->
  (forall s', E AssertFail s') -> wp (SplitBlock x sz n) Q E s.
Proof.
  intros Hsz HE. pose proof run_ok as O. unfold block_ok in O. cbn in O.
  pose proof (first_class _ _ _ _ _ Hinv Hf) as Hi72.
  destruct (first_links _ _ _ _ _ Hinv Hf) as [_ Hnext].
  pose proof (first_next_node _ h i x rest Hinv Hf) as Hnn.
  unfold SplitBlock. do 2 wp_step. wp_step. apply class_list; [lia |]. rewrite Hi.
  do 2 wp_step. wp_step. wp_step.
  change (x + offsetof_next) with (x + 8) in *. rewrite Hnext in *. rewrite Hsz.
  wp_step. apply wp_set_prev; [done | done | by auto |]. intros s1 Hr1 He1 Hm1.
  wp_step. unfold ReadThePrevFreeTag at 1. do 3 wp_step. wp_step. wp_step. wp_step. wp_step.
  wp_step. apply class_list; [lia |]. apply HE.
Qed.

Lemma wp_exact_fit (Q : Z -> state -> Prop) E : sz = n ->
  (forall s', ready s' -> same_env s s' -> nvm s' = mem_exact (nvm s) i x rest n -> Q x s') ->
  wp (next_blk <- Read32 (x + offsetof_next) ;;
      ResetTheFreeTag x sz ;;;
      Write32 (4 * i) next_blk ;;;
      Write32 (u32 (next_blk + offsetof_prev)) 0 ;;;
      ret x) Q E s.
Proof.
  intros Hsz HQ. pose proof run_ok as O. unfold block_ok in O. cbn in O.
  pose proof (first_class _ _ _ _ _ Hinv Hf) as Hi72.
  destruct (first_links _ _ _ _ _ Hinv Hf) as [_ Hnext].
  pose proof (first_next_node _ h i x rest Hinv Hf) as Hnn.
  do 2 wp_step. change (x + offsetof_next) with (x + 8) in *. rewrite Hnext.
  unfold ResetTheFreeTag. wp_step. do 3 wp_step. wp_step. wp_step.
  assert (0 < hd 0 rest + 4 /\ hd 0 rest + 8 < END_) by (destruct Hnn as [-> | ?]; node_lia).
  wp_step. wp_step. wp_step.
  apply HQ; [done | by eauto using same_env_trans |].
  rewrite Hm1, Hm0, Hm. unfold mem_exact. rewrite size_word, Hsz. done.
Qed.
End Run.

(** Lists from the block's class on hold blocks that are large enough. *)
Lemma class_fits n sz : 32 <= n <= kMaxBlockSize -> n mod 16 = 0 -> sz mod 16 = 0 ->
  class n <= class sz -> n <= sz.
Proof. unfold class. consts_full. intros. repeat case_match; lia. Qed.

Lemma class_alloc n : 32 <= n <= kMaxBlockSize -> n mod 16 = 0 -> 1 <= class n <= 71.
Proof. unfold class. consts_full. intros. case_match; lia. Qed.

Definition alloc_post (n : Z) (h : heap) (s : state) (r : Z) (s' : state) : Prop :=
  exists h', abs_alloc n h = Some (r, h') /\ heap_inv (nvm s') h' /\ ready s' /\ same_env s s' /\
    only_meta (blocks h) (nvm s) (nvm s') /\ (r <> 0 -> rd32 (nvm s') (r + n - 4) = n).

Lemma wp_AllocBlock n h s :
  heap_inv (nvm s) h -> ready s -> 32 <= n <= kMaxBlockSize -> n mod 16 = 0 ->
  wp (AllocBlock n) (alloc_post n h s)
     (fun e _ => e = AssertFail /\ abs_alloc n h = None) s.
Proof.
  intros Hinv Hrdy Hn Hn16. pose proof (class_alloc n Hn Hn16) as Hc.
  unfold AllocBlock. wp_step. apply class_list; [lia |]. wp_step.
  unfold wp at 1. rewrite (search_lists_spec (nvm s) (fl h) (orph h)); [| apply Hinv .. | done | apply Hrdy | lia |].
  2: { unfold search_fuel, lists_from. consts_full. lia. }
  unfold alloc_post, abs_alloc.
  destruct (first_nonempty _ _ _) as [[[i x] rest] |] eqn:Hfirst; cbn [fst snd].
  2: { wp_step; [| done]. apply wp_ret. exists h. split_and!; (done || apply only_meta_refl). }
  apply first_nonempty_Some in Hfirst as (Hf & Hi & _).
  destruct (first_block _ _ _ _ _ Hinv Hf) as (sz & Hx & Hcl). rewrite Hx.
  pose proof (run_ok h x sz s Hinv Hx) as O. unfold block_ok in O. cbn in O.
  pose proof (class_fits n sz Hn Hn16 ltac:(lia) ltac:(lia)) as Hfit.
  pose proof (tg_size _ _ (hi_tags _ _ Hinv) _ _ Hx) as Hsize.
  pose proof (tg_flag _ _ (hi_tags _ _ Hinv) _ _ Hx) as Hflag. cbn in Hsize, Hflag.
  wp_step; [destruct (Z.eqb_spec x 0); [node_lia | done] |].
  unfold ReadTheSizeTag, ReadTheFreeTag. do 3 wp_step. wp_step. rewrite size_word, Hsize.
  do 3 wp_step. wp_step. rewrite land_free, Hflag by apply rd32_range. do 2 wp_step. do 2 wp_step.
  cbn [bsize].
  apply wp_if; intros Hsz; rewrite Hsz.
  - apply (wp_exact_fit h i x rest n sz); [done.. | lia |]. intros s' Hr' He' Hm'.
    assert (Hx' : blocks h !! x = Some (mkBlock n true)) by (rewrite Hx; do 2 f_equal; lia).
    eexists. split_and!; [done | | done | done | |]; rewrite Hm'.
    + by apply exact_inv.
    + by apply (exact_bytes _ h).
    + intros _. by apply (exact_foot _ h).
  - destruct (Z.eqb_spec (sz - n) 16) as [H16 | H16].
    + by apply (wp_SplitBlock_tiny h i x rest n sz).
    + apply (wp_SplitBlock h i x rest n sz); [done.. | lia |]. intros s' Hr' He' Hm'.
      eexists. split_and!; [done | | done | done | |]; rewrite Hm'.
      * apply split_inv; done || lia.
      * apply (split_bytes _ h); done || lia.
      * intros _. replace (x + (sz - n) + n - 4) with (x + sz - 4) by lia.
        apply (split_foot _ h); done || lia.
Qed.
