(* ===== verification/FreeRefine.v ===== *)
(** * [FreeBlock] refines [abs_free]

    Freeing a block in use coalesces it with its free neighbours and lists
    the result.  The refinement needs the footer of the block to hold its
    size when nothing is coalesced: [FreeBlock] rewrites the footer only when
    the size changes, and the last four bytes of a block in use belong to the
    user (see [Heap]). *)

From S2P Require Import Prelude Nvm Modification Allocator HeapSpec HeapLists HeapTiling AllocatorWp AllocRefine.
Import Allocator.

(** Memory between the steps of [FreeBlock]: the tags still describe the
    tiling [T], the lists already hold the free blocks of [B] only. *)
Record mid (m : mem) (T B : gmap Z block) (f : Z -> list Z) (o : list (list Z)) : Prop := {
  md_tiling : tiling T;
  md_tags : tags_inv m T;
  md_wf : lists_wf f o;
  md_mem : lists_mem m f o;
  md_members : members B f o;
  md_sub : forall a b, B !! a = Some b -> T !! a = Some b
}.

(** The neighbours in its chain of a listed node. *)
Lemma known_neighbours m f o y : lists_wf f o -> lists_mem m f o -> known f o y ->
  (rd32 m (y + 4) = 0 \/ known f o (rd32 m (y + 4))) /\
  (rd32 m (y + 8) = 0 \/ known f o (rd32 m (y + 8))).
Proof.
  intros Hwf Hm Hy.
  assert (exists c, seg m 0 c 0 /\ y ∈ c /\ forall z, z ∈ c -> known f o z) as (c & Hs & Hc & Hk).
  { destruct Hy as [[i Hi] | (c & Hc & Hy)%elem_of_concat].
    - exists (f i). split_and!; [apply Hm | done | left; eauto].
    - exists c. split_and!; [by apply Hm | done |]. intros z Hz. right. apply elem_of_concat. eauto. }
  apply list_elem_of_split in Hc as (l1 & l2 & ->).
  destruct (chain_neighbours m l1 y l2 Hs) as (-> & -> & _ & HP & HN).
  { intros z Hz. eapply known_node; [done | by apply Hk]. }
  split.
  - destruct HP as [[_ ->] | (_ & H & _)]; [by left | right]. apply Hk. set_solver.
  - destruct HN as [[_ ->] | (_ & H & _)]; [by left | right]. apply Hk. set_solver.
Qed.

(** *** Taking a free neighbour out of its list *)
Section Unlinking.
Context (T B : gmap Z block) (f : Z -> list Z) (o : list (list Z)) (s : state) (y sz : Z).
Context (Hmid : mid (nvm s) T B f o) (Hrdy : ready s) (Hy : B !! y = Some (mkBlock sz true)).

Lemma unlinking_where : y ∈ f (class sz) \/ (class sz = 1 /\ y ∈ concat o).
Proof.
  destruct (mb_all _ _ _ (md_members _ _ _ _ _ Hmid) _ _ Hy) as [H | H]; [by left | right].
  pose proof (mb_lost _ _ _ (md_members _ _ _ _ _ Hmid) _ H) as E. rewrite Hy in E.
  injection E as ->. done.
Qed.

Lemma unlinking_meta z : z = 0 \/ known f o z -> forall b, link_bytes z b -> meta T b.
Proof.
  intros Hz b Hb. destruct Hz as [-> | Hz]; [by destruct Hb |].
  apply (members_known B) in Hz as [zsz Hz]; [| apply Hmid].
  apply (md_sub _ _ _ _ _ Hmid) in Hz.
  eapply meta_node; [done | by apply (ti_ok _ (md_tiling _ _ _ _ _ Hmid)) in Hz as (_ & _ & _ & ? & _) |].
  destruct Hb. lia.
Qed.

Definition unlinked (s' : state) : Prop :=
  ready s' /\ same_env s s' /\ layout_frame (nvm s) (nvm s') /\ only_meta T (nvm s) (nvm s') /\
  exists f' o', unlink y f o f' o' /\ mid (nvm s') T (delete y B) f' o'.

Lemma wp_unlinking E : wp (RemoveBlock y sz) (fun _ => unlinked) E s.
Proof.
  pose proof (md_sub _ _ _ _ _ Hmid _ _ Hy) as HyT.
  pose proof (ti_ok _ (md_tiling _ _ _ _ _ Hmid) _ _ HyT) as O. unfold block_ok in O. cbn in O.
  assert (Hk : known f o y) by (apply (members_known B); [apply Hmid | eauto]).
  destruct (known_neighbours (nvm s) f o y) as [Hp Hn]; [apply Hmid | apply Hmid | done |].
  assert (Hnode : forall z, z = 0 \/ known f o z -> z = 0 \/ node z).
  { intros z [-> | Hz]; [by left | right]. eapply known_node; [apply Hmid | done]. }
  apply wp_RemoveBlock; [done | by eapply known_node, Hk; apply Hmid | lia | lia | lia | | auto | auto |].
  - apply (tg_flag _ _ (md_tags _ _ _ _ _ Hmid) _ _ HyT).
  - intros s' Hr He Hrem Hlay Hbytes.
    destruct (removed_unlink (nvm s) (nvm s') f o (class sz) y) as (f' & o' & Hu & Hm');
      [apply Hmid | apply Hmid | done | apply class_range; lia | apply unlinking_where |].
    split_and!; [done | done | done | |].
    + intros b Hb. apply Hbytes.
      * intros Hlo. apply Hb. by left.
      * intros Hl. by apply Hb, (unlinking_meta _ Hp).
      * intros Hl. by apply Hb, (unlinking_meta _ Hn).
    + exists f', o'. split; [done |]. split.
      * apply Hmid.
      * eapply tags_frame; [apply Hmid | apply Hmid | done].
      * eapply unlink_wf; [apply Hmid | done].
      * done.
      * eapply members_unlink; [| apply Hmid | apply Hmid | done].
        intros a b Hab%(md_sub _ _ _ _ _ Hmid). apply (ti_ok _ (md_tiling _ _ _ _ _ Hmid)) in Hab.
        unfold block_ok in Hab. lia.
      * intros a b [_ Hab]%lookup_delete_Some. by apply (md_sub _ _ _ _ _ Hmid).
Qed.
End Unlinking.

(** ** The three phases *)

Section Free.
Context (h : heap) (x sz : Z) (s0 : state).
Context (Hinv : heap_inv (nvm s0) h) (Hrdy : ready s0).
Context (Hx : blocks h !! x = Some (mkBlock sz false)).

Let T := blocks h.
Let m0 := nvm s0.

(** The freed run is [a .. a + s), the heap without it is [h']; memory
    still has the old tags. *)
Record phase (a s : Z) (h' : heap) (st : state) : Prop := {
  ph_ready : ready st;
  ph_env : same_env s0 st;
  ph_layout : layout_frame m0 (nvm st);
  ph_meta : only_meta (<[x := mkBlock sz true]> T) m0 (nvm st);
  ph_mid : mid (nvm st) T (delete a (delete x (blocks h'))) (fl h') (orph h');
  ph_sub : forall d b, blocks h' !! d = Some b -> T !! d = Some b;
  ph_tiling : forall f, tiling (<[a := mkBlock s f]> (blocks h'))
}.

Lemma free_ok : block_ok x (mkBlock sz false).
Proof. by apply (ti_ok _ (hi_tiling _ _ Hinv)). Qed.

Lemma phase_start : phase x sz h s0.
Proof.
  assert (Hl : layout_frame m0 (nvm s0)) by apply layout_frame_refl.
  split; try done.
  - split; try apply Hinv.
    + rewrite delete_delete_eq. eapply members_delete_used; [apply Hinv | done].
    + by intros a b [_ [_ H]%lookup_delete_Some]%lookup_delete_Some.
  - intros f. eapply tiling_status; [apply Hinv | done].
Qed.

Lemma meta_freed b : meta T b -> meta (<[x := mkBlock sz true]> T) b.
Proof.
  intros [H | [H | (a & c & Ha & Hb)]]; [by left | right; by left | right; right].
  destruct (decide (a = x)) as [-> | Hne].
  - exists x, (mkBlock sz true). rewrite lookup_insert_eq. split; [done |].
    unfold T in Ha. rewrite Hx in Ha. simplify_eq/=. naive_solver.
  - exists a, c. by rewrite lookup_insert_ne.
Qed.

Lemma phase_meta st st' : only_meta (<[x := mkBlock sz true]> T) m0 (nvm st) ->
  only_meta T (nvm st) (nvm st') -> only_meta (<[x := mkBlock sz true]> T) m0 (nvm st').
Proof.
  intros H1 H2. eapply only_meta_trans; [exact H1 |].
  intros b Hb. apply H2. intros H. by apply Hb, meta_freed.
Qed.

(** *** Coalescing with the block before *)

(** What the tags say about the block before [x]. *)
Lemma prev_cases :
  (rd32 m0 x / 2 ^ 31 = 0 /\ forall p psz, T !! p = Some (mkBlock psz true) -> p + psz <> x) \/
  (rd32 m0 x / 2 ^ 31 = 1 /\ exists p, T !! p = Some (mkBlock (rd32 m0 (x - 4)) true) /\
     p + rd32 m0 (x - 4) = x).
Proof.
  pose proof (hi_tags _ _ Hinv) as Ht. pose proof (hi_tiling _ _ Hinv) as HT.
  destruct (ti_pred _ HT _ _ Hx) as [E | (p & [psz pf] & Hp & E)].
  - left. split; [subst x; apply Ht |]. intros p psz Hp Ep.
    apply (ti_ok _ HT) in Hp. unfold block_ok in Hp. cbn in Hp. lia.
  - cbn in E. pose proof (tg_flag _ _ Ht _ _ Hp) as Hf. cbn in Hf. rewrite E in Hf.
    destruct pf; [right | left].
    + split; [done |]. pose proof (tg_foot _ _ Ht _ _ Hp eq_refl) as Hft. cbn in Hft.
      rewrite E in Hft. exists p. unfold m0. rewrite Hft. done.
    + split; [done |]. intros q qsz Hq Eq.
      assert (q = p) as -> by (eapply (tiling_pred_unique _ HT); [done | done | cbn; lia]).
      unfold T in Hq. congruence.
Qed.

Lemma phase_prev p psz st f o :
  T !! p = Some (mkBlock psz true) -> p + psz = x -> unlink p (fl h) (orph h) f o ->
  ready st -> same_env s0 st -> layout_frame m0 (nvm st) -> only_meta T m0 (nvm st) ->
  mid (nvm st) T (delete p (delete x T)) f o ->
  phase p (sz + psz) (mkHeap (delete x T) f o) st.
Proof.
  intros Hp Epx Hu Hr He Hl Hm Hmid. split; cbn; try done.
  - by apply (phase_meta s0).
  - by rewrite delete_delete_eq.
  - by intros d b [_ H]%lookup_delete_Some.
  - intros f'. rewrite Z.add_comm. eapply tiling_merge; [apply Hinv | exact Hp | exact Hx | done].
Qed.

Definition prev_done (bs : Z * Z) (st : state) : Prop :=
  exists h1, merge_prev x sz h bs.1 bs.2 h1 /\ phase bs.1 bs.2 h1 st /\ bs.1 + bs.2 = x + sz /\
    forall d, d <> x -> blocks h1 !! d = T !! d.

Lemma wp_prev E :
  let psz := rd32 m0 (x - 4) in
  wp (if negb (Z.land (rd32 m0 x) kFreeMask =? 0) && (sz <=? kMaxBlockSize)
         && (psz <=? kMaxBlockSize)
      then RemoveBlock (u32 (x - psz)) psz ;;; ret (u32 (x - psz), u32 (sz + psz))
      else ret (x, sz)) prev_done E s0.
Proof.
  intros psz. pose proof free_ok as O. unfold block_ok in O. cbn in O.
  rewrite land_free by apply rd32_range. rewrite negb_involutive.
  assert (Hno : (forall p psz, T !! p = Some (mkBlock psz true) -> p + psz = x ->
      kMaxBlockSize < sz \/ kMaxBlockSize < psz) -> wp (ret (x, sz)) prev_done E s0).
  { intros H. apply wp_ret. exists h. split_and!; [by apply merge_prev_no | apply phase_start | done | done]. }
  pose proof prev_cases as Hpc. fold psz in Hpc. clearbody psz.
  destruct Hpc as [[-> Hn] | [-> (p & Hp & Ep)]]; cbn [Z.eqb Pos.eqb andb].
  { apply Hno. intros q qsz Hq Eq. by destruct (Hn q qsz Hq). }
  destruct (Z.leb_spec sz kMaxBlockSize); cbn [andb].
  2: { apply Hno. intros q qsz Hq Eq. lia. }
  destruct (Z.leb_spec psz kMaxBlockSize).
  2: { apply Hno. intros q qsz Hq Eq. right.
       assert (q = p) as -> by (eapply (tiling_pred_unique T); [apply Hinv | done | done | cbn; lia]).
       rewrite Hp in Hq. injection Hq as Hq. lia. }
  pose proof (ti_ok _ (hi_tiling _ _ Hinv) _ _ Hp) as Op. unfold block_ok in Op. cbn in Op.
  replace (u32 (x - psz)) with p by (rewrite u32_small; off_side).
  rewrite (u32_small (sz + psz)) by off_side.
  assert (Hm : mid (nvm s0) T (delete x T) (fl h) (orph h)).
  { pose proof (ph_mid _ _ _ _ phase_start) as H1. by rewrite delete_delete_eq in H1. }
  apply wp_bind. eapply wp_mono.
  { eapply (wp_unlinking T (delete x T)); [exact Hm | done |].
    rewrite lookup_delete_ne; [done | lia]. }
  intros _ st (Hr & He & Hl & Hb & f & o & Hu & Hmid). apply wp_ret.
  exists (mkHeap (delete x T) f o). split_and!; cbn; [by eapply merge_prev_yes | | lia |].
  - by apply phase_prev.
  - intros d Hd. by rewrite lookup_delete_ne.
Qed.

(** *** Coalescing with the block behind *)

Let c := x + sz.
Let csz := rd32 m0 c mod 2 ^ 31.

Lemma next_cases :
  c + csz <= END_ /\ 0 <= csz /\ layout_word (c + csz) /\
  ((rd32 m0 (c + csz) / 2 ^ 31 = 0 /\ forall z, T !! c <> Some (mkBlock z true)) \/
   (rd32 m0 (c + csz) / 2 ^ 31 = 1 /\ T !! c = Some (mkBlock csz true))).
Proof.
  pose proof (hi_tags _ _ Hinv) as Ht. pose proof (hi_tiling _ _ Hinv) as HT.
  pose proof free_ok as O. unfold block_ok in O. cbn in O.
  destruct (ti_next _ HT _ _ Hx) as [E | [[z cf] Hc]].
  - cbn in E. fold c in E. assert (csz = 0) as ->.
    { unfold csz. rewrite E. apply Ht. }
    rewrite Z.add_0_r. split_and!; [lia | lia | unfold layout_word; lia | left].
    split; [apply (tg_flag _ _ Ht _ _ Hx) |]. intros z Hz.
    apply (ti_ok _ HT) in Hz. unfold block_ok in Hz. cbn in Hz. lia.
  - cbn in Hc. fold c in Hc. pose proof (tg_size _ _ Ht _ _ Hc) as Hz. cbn in Hz.
    fold m0 csz in Hz. clearbody csz. subst z.
    pose proof (ti_ok _ HT _ _ Hc) as Oc. unfold block_ok in Oc. cbn in Oc.
    pose proof (tg_flag _ _ Ht _ _ Hc) as Hf. cbn in Hf.
    split_and!; [lia | lia | unfold layout_word; lia |].
    destruct cf; [right; done | left]. split; [done |]. unfold T. rewrite Hc. by intros z [=].
Qed.

Section Next.
Context (a s : Z) (h1 : heap) (st : state).
Context (Hph : phase a s h1 st) (Has : a + s = c).
Context (Hkeep : forall d, d <> x -> blocks h1 !! d = T !! d).

Lemma next_run_ok : block_ok a (mkBlock s false).
Proof.
  apply (ti_ok _ (ph_tiling _ _ _ _ Hph false)). by rewrite lookup_insert_eq.
Qed.

Lemma phase_next st' f o :
  T !! c = Some (mkBlock csz true) -> unlink c (fl h1) (orph h1) f o ->
  unlinked T (delete a (delete x (blocks h1))) (fl h1) (orph h1) st c st' ->
  mid (nvm st') T (delete c (delete a (delete x (blocks h1)))) f o ->
  phase a (s + csz) (mkHeap (delete c (blocks h1)) f o) st'.
Proof.
  intros Hc Hu (Hr & He & Hl & Hb & _) Hmid. pose proof next_run_ok as O.
  unfold block_ok in O. cbn in O. destruct Hph. split; cbn.
  - done.
  - by eapply same_env_trans.
  - by eapply layout_frame_trans.
  - by apply (phase_meta st).
  - by rewrite (delete_delete _ x), (delete_delete _ a).
  - intros d b [_ H]%lookup_delete_Some. auto.
  - intros f'. pose proof (tiling_merge (<[a := mkBlock s false]> (blocks h1)) (ph_tiling0 false)
      a c s csz false true f') as Htm.
    unfold merged in Htm. rewrite delete_insert_ne, insert_insert_eq in Htm by lia.
    apply Htm; [by rewrite lookup_insert_eq | | done].
    rewrite lookup_insert_ne by lia. rewrite Hkeep; [done |].
    pose proof free_ok as O'. unfold block_ok in O'. cbn in O'. lia.
Qed.

Definition next_done (s' : Z) (st' : state) : Prop :=
  exists h2, merge_next c s h1 s' h2 /\ phase a s' h2 st'.

Lemma wp_next E :
  wp (next_tag <- ReadTheFreeTag c csz ;;
      if negb (next_tag =? 0) && (s <=? kMaxBlockSize) && (csz <=? kMaxBlockSize)
      then RemoveBlock c csz ;;; ret (u32 (s + csz)) else ret s) next_done E st.
Proof.
  pose proof free_ok as O. unfold block_ok in O. cbn in O.
  pose proof next_run_ok as Oa. unfold block_ok in Oa. cbn in Oa.
  destruct next_cases as (Hend & Hcsz & Hw & Hcases).
  pose proof (ph_ready _ _ _ _ Hph) as Hr.
  assert (Hlk : forall z, T !! c = Some (mkBlock z true) <-> blocks h1 !! c = Some (mkBlock z true)).
  { intros z. rewrite Hkeep by lia. done. }
  assert (Hno : (forall z, T !! c = Some (mkBlock z true) ->
    kMaxBlockSize < s \/ kMaxBlockSize < z) -> wp (ret s) next_done E st).
  { intros H. apply wp_ret. exists h1. split; [| done]. apply merge_next_no.
    intros z Hz. by apply H, Hlk. }
  unfold ReadTheFreeTag. wp_step. do 2 wp_step. wp_step.
  rewrite (ph_layout _ _ _ _ Hph) by done. rewrite land_free by apply rd32_range.
  rewrite negb_involutive.
  destruct Hcases as [[-> Hn] | [-> Hc]]; cbn [Z.eqb Pos.eqb andb].
  { apply Hno. intros z Hz. by destruct (Hn z). }
  destruct (Z.leb_spec s kMaxBlockSize); cbn [andb].
  2: { apply Hno. intros z Hz. lia. }
  destruct (Z.leb_spec csz kMaxBlockSize).
  2: { apply Hno. intros z Hz. right. rewrite Hc in Hz. injection Hz as Hz. lia. }
  wp_step. eapply wp_mono.
  { eapply (wp_unlinking T _ _ _ _ _ _ (ph_mid _ _ _ _ Hph)); [done |].
    rewrite !lookup_delete_ne by lia. by apply Hlk. }
  intros u st' Hul. cbn beta in Hul. clear u. apply wp_ret. pose proof Hul as (_ & _ & _ & _ & f & o & Hu & Hmid).
  exists (mkHeap (delete c (blocks h1)) f o). split; [| by apply phase_next].
  apply merge_next_yes; [by apply Hlk | done | done | done].
Qed.
End Next.

(** *** Listing the run *)

Section Last.
Context (a s : Z) (h2 : heap) (st : state).
Context (Hph : phase a s h2 st) (Hsame : s = sz -> a = x) (Hin : a <= x < a + s).
Context (Hfoot : rd32 m0 (x + sz - 4) = sz).

Let m := nvm st.
Let e := a + s.
Let j := class s.

Definition mem_sized : mem :=
  if decide (s = sz) then m
  else wr32 (wr32 m a (Z.lor (Z.land (rd32 m a) kFreeMask) s)) (a + s - 4) s.

Definition mem_marked : mem :=
  wr32 mem_sized (a + s) (Z.lor (rd32 mem_sized (a + s)) kFreeMask).

Definition mem_freed : mem := mem_link_free j a (rd32 mem_marked (4 * j)) mem_marked.

Lemma last_ok : block_ok a (mkBlock s true).
Proof. apply (ti_ok _ (ph_tiling _ _ _ _ Hph true)). by rewrite lookup_insert_eq. Qed.

Ltac last_bounds := pose proof last_ok as O; unfold block_ok in O; cbn in O.

Lemma last_words : layout_word a /\ layout_word (a + s - 4) /\ layout_word e /\ node a /\ 1 <= j <= 72.
Proof.
  last_bounds. unfold layout_word, e, j. split_and!; try lia; try node_lia; by apply class_range; lia.
Qed.

Lemma sized_layout w : layout_word w -> rd32 mem_sized w =
  if decide (w = a + s - 4) then s
  else if decide (w = a) then 2 ^ 31 * (rd32 m0 a / 2 ^ 31) + s else rd32 m0 w.
Proof.
  intros Hw. last_bounds. destruct last_words as (W1 & W2 & _).
  pose proof (rd32_range m0 a) as Ra.
  unfold mem_sized. case_decide as Es.
  - unfold m. rewrite (ph_layout _ _ _ _ Hph w Hw).
    pose proof (tg_size _ _ (hi_tags _ _ Hinv) _ _ Hx) as Hs. cbn in Hs. fold m0 in Hs.
    repeat case_decide; [subst w; rewrite (Hsame Es), Es; done | subst w | done].
    rewrite Es, <- Hs. rewrite (Hsame Es). apply Z.div_mod. lia.
  - unfold m. rewrite (ph_layout _ _ _ _ Hph a W1), tag_word, lor_flag_size by (done || node_lia).
    rewrite !rd32_wr32 by (unfold layout_word in *; lia).
    rewrite (ph_layout _ _ _ _ Hph w Hw).
    repeat case_decide; try done; try lia; apply u32_small; node_lia.
Qed.

Lemma marked_layout w : layout_word w -> rd32 mem_marked w =
  if decide (w = e) then rd32 m0 e mod 2 ^ 31 + 2 ^ 31 else rd32 mem_sized w.
Proof.
  intros Hw. last_bounds. destruct last_words as (W1 & W2 & W3 & _).
  pose proof (rd32_range m0 e) as Re.
  assert (E : rd32 mem_sized e = rd32 m0 e).
  { rewrite sized_layout by done. by rewrite !decide_False by (unfold e; lia). }
  unfold mem_marked. fold e. rewrite E. change kFreeMask with (2 ^ 31). rewrite lor_mask31 by done.
  rewrite rd32_wr32 by (unfold layout_word in *; lia).
  repeat case_decide; try done. apply u32_small. lia.
Qed.

Lemma marked_lists : lists_mem mem_marked (fl h2) (orph h2).
Proof.
  destruct last_words as (W1 & W2 & W3 & _).
  apply lists_mem_frame with (m := m); [apply (ph_mid _ _ _ _ Hph) .. |].
  unfold mem_marked, mem_sized. case_decide; repeat apply list_frame_wr32; done.
Qed.

Lemma marked_head : rd32 mem_marked (4 * j) = hd 0 (fl h2 j).
Proof. apply marked_lists. apply last_words. Qed.

Lemma marked_head_node : hd 0 (fl h2 j) = 0 \/ node (hd 0 (fl h2 j)).
Proof.
  destruct (hd_known (fl h2) (orph h2) j) as [H | H]; [by left | right].
  eapply known_node; [apply (ph_mid _ _ _ _ Hph) | done].
Qed.

Lemma last_fresh : ~ known (fl h2) (orph h2) a.
Proof.
  intros [z Hz]%(members_known _ _ _ (md_members _ _ _ _ _ (ph_mid _ _ _ _ Hph))).
  by rewrite lookup_delete_eq in Hz.
Qed.

Definition freed_heap : heap :=
  mkHeap (<[a := mkBlock s true]> (blocks h2)) (push j a (fl h2)) (orph h2).

Lemma freed_lists :
  lists_wf (fl freed_heap) (orph freed_heap) /\ lists_mem mem_freed (fl freed_heap) (orph freed_heap).
Proof.
  destruct last_words as (_ & _ & _ & Hn & Hj).
  pose proof (md_wf _ _ _ _ _ (ph_mid _ _ _ _ Hph)) as Hwf. split.
  - apply push_wf; [done | done | done | apply last_fresh].
  - cbn. eapply push_mem; [done | apply marked_lists | done | done | apply last_fresh |].
    unfold mem_freed. rewrite marked_head. apply link_free_pushed; [done | done | apply marked_head_node].
Qed.

Lemma freed_layout : layout_frame mem_marked mem_freed.
Proof.
  destruct last_words as (_ & _ & _ & Hn & Hj). unfold mem_freed. rewrite marked_head.
  apply link_free_layout; [done | done | apply marked_head_node].
Qed.

Lemma freed_tags : tags_inv mem_freed (blocks freed_heap).
Proof.
  last_bounds. destruct last_words as (W1 & W2 & W3 & _). pose proof (rd32_range m0 e) as Re.
  eapply (tags_run m0 _ T _ a e true).
  - apply Hinv.
  - apply Hinv.
  - apply (ph_tiling _ _ _ _ Hph).
  - cbn. rewrite lookup_insert_eq. do 2 f_equal. unfold e. lia.
  - intros d b Hd. cbn. rewrite lookup_insert_ne by done. apply (ph_sub _ _ _ _ Hph).
  - rewrite freed_layout, marked_layout, sized_layout by done.
    rewrite !decide_False by (unfold e; lia). rewrite decide_True by done. node_lia.
  - rewrite freed_layout, marked_layout, sized_layout by done.
    rewrite !decide_False by (unfold e; lia). rewrite decide_True by done. unfold e. node_lia.
  - intros _. rewrite freed_layout, marked_layout, sized_layout by done.
    rewrite decide_False by (unfold e; lia). rewrite decide_True by done. unfold e. lia.
  - rewrite freed_layout, marked_layout by done. rewrite decide_True by done. lia.
  - rewrite freed_layout, marked_layout by done. rewrite decide_True by done. cbn. lia.
  - intros w Hw ???. rewrite freed_layout, marked_layout, sized_layout by done.
    by rewrite !decide_False.
Qed.

Lemma freed_inv : heap_inv mem_freed freed_heap.
Proof.
  split.
  - apply (ph_tiling _ _ _ _ Hph).
  - apply freed_tags.
  - apply freed_lists.
  - apply freed_lists.
  - cbn. pose proof (md_members _ _ _ _ _ (ph_mid _ _ _ _ Hph)) as Hmb.
    pose proof (members_push _ _ _ Hmb a s ltac:(by rewrite lookup_delete_eq)) as Hp.
    rewrite insert_delete_eq in Hp. destruct (decide (a = x)) as [<- | Hne].
    + by rewrite insert_delete_eq in Hp.
    + rewrite delete_id in Hp; [done |]. destruct (blocks h2 !! x) as [b |] eqn:Eb; [| done].
      assert (Hb : <[a := mkBlock s true]> (blocks h2) !! x = Some b) by by rewrite lookup_insert_ne.
      pose proof (ti_disj _ (ph_tiling _ _ _ _ Hph true) a _ x b (lookup_insert_eq _ _ _) Hb ltac:(lia)).
      cbn in *. lia.
Qed.

Context (Hrun : forall b, a <= b < a + s + 4 -> meta (<[x := mkBlock sz true]> T) b).

Lemma freed_bytes : only_meta (<[x := mkBlock sz true]> T) m0 mem_freed.
Proof.
  last_bounds. destruct last_words as (_ & _ & _ & _ & Hj).
  unfold mem_freed. rewrite marked_head. apply only_meta_link_free; [| done | |].
  - unfold mem_marked, mem_sized. case_decide; repeat apply only_meta_wr32;
      try apply (ph_meta _ _ _ _ Hph); intros b Hb; apply Hrun; lia.
  - intros b Hb. apply Hrun. lia.
  - intros b Hb. apply meta_freed. eapply (unlinking_meta T _ _ _ _ (ph_mid _ _ _ _ Hph)); [| done].
    apply hd_known.
Qed.

Lemma wp_list E :
  wp (when (negb (s =? sz))
        (tag <- (w <- Read32 a ;; ret (Z.land w kFreeMask)) ;;
         Write32 a (Z.lor tag s) ;;;
         Write32 (u32 (a + s - sizeof_u32)) s) ;;;
      SetTheFreeTag a s ;;;
      free_list <- GetFreeListByBlockSize s ;;
      head <- Read32 free_list ;;
      Write32 free_list a ;;;
      Write32 (u32 (a + offsetof_prev)) 0 ;;;
      Write32 (u32 (a + offsetof_next)) head ;;;
      when (negb (head =? 0)) (Write32 (u32 (head + offsetof_prev)) a))
    (fun _ s' => ready s' /\ same_env st s' /\ nvm s' = mem_freed) E st.
Proof.
  last_bounds. destruct last_words as (_ & _ & _ & _ & Hj).
  pose proof (ph_ready _ _ _ _ Hph) as Hr. pose proof marked_head as Hhead.
  wp_step. apply (wp_mono _ _ (fun _ s1 => ready s1 /\ same_env st s1 /\ nvm s1 = mem_sized)).
  { unfold mem_sized. wp_step; destruct (Z.eqb_spec s sz); try done.
    - rewrite decide_False by done. do 4 wp_step. wp_step. wp_step. wp_step.
      split_and!; [done | by eapply same_env_trans | by rewrite Hm0, Hm].
    - by rewrite decide_True. }
  intros _ s1 (Hr1 & He1 & Hm1). unfold SetTheFreeTag. do 3 wp_step. wp_step.
  wp_step. apply class_list; [lia |]. fold j.
  assert (Hm2 : nvm s2 = mem_marked) by (rewrite Hm, Hm1; done).
  do 2 wp_step. rewrite Hm2, Hhead. do 3 wp_step. wp_step. wp_step. wp_step.
  apply wp_set_prev; [done | apply marked_head_node | by auto |].
  intros s6 Hr6 He6 Hm6. split_and!; [done | by eauto 10 using same_env_trans |].
  rewrite Hm6, Hm4, Hm3, Hm0, Hm2. unfold mem_freed. by rewrite Hhead.
Qed.
End Last.

Lemma freed_span y ysz b : T !! y = Some (mkBlock ysz true) \/ (y = x /\ ysz = sz) ->
  y <= b < y + ysz + 4 -> meta (<[x := mkBlock sz true]> T) b.
Proof.
  intros Hy Hb. destruct (decide (y + ysz <= b)) as [Hend |].
  - apply meta_freed. destruct Hy as [Hy | [-> ->]].
    + eapply (meta_next T y); [apply Hinv | done | cbn; lia].
    + eapply (meta_next T x); [apply Hinv | done | cbn; lia].
  - destruct Hy as [Hy | [-> ->]].
    + apply meta_freed. right. right. exists y, (mkBlock ysz true). cbn. split; [done | lia].
    + right. right. exists x, (mkBlock sz true). rewrite lookup_insert_eq. cbn. split; [done | lia].
Qed.

Lemma merge_facts a s1 s h1 h2 :
  merge_prev x sz h a s1 h1 -> merge_next (x + sz) s1 h1 s h2 ->
  (forall d, d <> x -> blocks h1 !! d = T !! d) ->
  (s = sz -> a = x) /\ a <= x < a + s /\
  forall b, a <= b < a + s + 4 -> meta (<[x := mkBlock sz true]> T) b.
Proof.
  intros Hp Hn Hkeep. pose proof free_ok as O. unfold block_ok in O. cbn in O.
  assert (H32 : forall y ysz, T !! y = Some (mkBlock ysz true) -> 32 <= ysz).
  { intros y ysz Hy. apply (ti_ok _ (hi_tiling _ _ Hinv)) in Hy. unfold block_ok in Hy. cbn in Hy. lia. }
  assert (HP : (a = x /\ s1 = sz) \/ exists psz, T !! a = Some (mkBlock psz true) /\
    a + psz = x /\ s1 = sz + psz) by (inversion Hp; subst; [right; eauto | by left]).
  assert (HN : s = s1 \/ exists csz, T !! (x + sz) = Some (mkBlock csz true) /\ s = s1 + csz).
  { inversion Hn; subst; [right | by left]. rewrite Hkeep in H by lia. eauto. }
  destruct HP as [[-> ->] | (psz & Hpb & Epx & ->)];
    destruct HN as [-> | (z & Hz & ->)];
    repeat match goal with H : T !! _ = Some _ |- _ => pose proof (H32 _ _ H); revert H end; intros.
  - split_and!; [done | lia | lia |]. intros b Hb. eapply (freed_span x sz); [by right | lia].
  - split_and!; [lia | lia | lia |]. intros b Hb. destruct (decide (x + sz <= b)).
    + eapply (freed_span (x + sz)); [by left | lia].
    + eapply (freed_span x sz); [by right | lia].
  - split_and!; [lia | lia | lia |]. intros b Hb. destruct (decide (x <= b)).
    + eapply (freed_span x sz); [by right | lia].
    + eapply (freed_span a); [by left | lia].
  - split_and!; [lia | lia | lia |]. intros b Hb. destruct (decide (x + sz <= b)).
    + eapply (freed_span (x + sz)); [by left | lia].
    + destruct (decide (x <= b)); [eapply (freed_span x sz); [by right | lia] |].
      eapply (freed_span a); [by left | lia].
Qed.
End Free.

(** ** [FreeBlock] *)

Definition free_post (h : heap) (x sz : Z) (s s' : state) : Prop :=
  exists h', abs_free x h h' /\ heap_inv (nvm s') h' /\ ready s' /\ same_env s s' /\
    only_meta (<[x := mkBlock sz true]> (blocks h)) (nvm s) (nvm s').

Lemma wp_FreeBlock h x sz s E :
  heap_inv (nvm s) h -> ready s -> blocks h !! x = Some (mkBlock sz false) ->
  rd32 (nvm s) (x + sz - 4) = sz ->
  wp (FreeBlock x) (fun _ => free_post h x sz s) E s.
Proof.
  intros Hinv Hr Hx Hfoot. pose proof (free_ok h x sz s Hinv Hx) as O. unfold block_ok in O. cbn in O.
  pose proof (tg_size _ _ (hi_tags _ _ Hinv) _ _ Hx) as Hsz. cbn in Hsz.
  unfold FreeBlock, ReadTheSizeTag, ReadThePrevFreeTag.
  do 3 wp_step. wp_step. rewrite size_word, Hsz. cbn zeta. do 2 wp_step.
  do 3 wp_step. wp_step. rewrite size_word. do 3 wp_step. wp_step. wp_step.
  change (x - sizeof_u32) with (x - 4).
  eapply wp_mono; [by apply (wp_prev h x sz s) |].
  intros bs s1 (h1 & Hmp & Hph1 & Hrun1 & Hkeep). destruct bs as [a s1']. cbn [fst snd] in *.
  set (c := x + sz) in *. set (csz := rd32 (nvm s) c mod 2 ^ 31) in *.
  apply wp_assoc, wp_bind.
  eapply wp_mono; [by apply (wp_next h x sz s Hinv Hx a s1' h1 s1) |].
  intros s' s2 (h2 & Hmn & Hph2).
  destruct (merge_facts h x sz s Hinv Hx _ _ _ _ _ Hmp Hmn Hkeep) as (Hsame & Hin & Hmeta).
  eapply wp_mono; [by apply (wp_list h x sz s a s' h2 s2) |].
  intros _ s3 (Hr3 & He3 & Hm3).
  exists (freed_heap a s' h2). unfold free_post. rewrite Hm3. split_and!.
  - by eapply AbsFree.
  - by apply (freed_inv h x sz s).
  - done.
  - eapply same_env_trans; [apply (ph_env _ _ _ _ _ _ _ _ Hph2) | done].
  - by apply (freed_bytes h x sz s) with h2.
Qed.
