(* ===== verification/Heap.v ===== *)
(** * The allocator's contract

    [Alloc] and [Free] against the abstract heap, for every request size; the
    heap [Format] leaves; what a client can rely on: live objects stay apart
    and keep their bytes. *)

From S2P Require Import Prelude Nvm Modification Allocator HeapSpec HeapLists HeapTiling AllocatorWp AllocRefine FreeRefine.
Import Allocator.

(** ** [Format] *)

(** One free block over the whole tablet, in the last list. *)
Definition fresh_size : Z := END_ - FIRST.
Definition fresh_heap : heap :=
  mkHeap {[ FIRST := mkBlock fresh_size true ]} (upd 72 [FIRST] (fun _ => [])) [].

(** The words of [fresh_heap] over zeroes. *)
Definition fresh_mem (m : mem) : mem :=
  wr32 (wr32 (wr32 (wr32 (zero_fill m 0 kSize) 288 FIRST) FIRST fresh_size) (END_ - 4) fresh_size)
       END_ (2 ^ 31).

Lemma rd32_zero_fill m n a : 0 <= a -> a + 4 <= n -> rd32 (zero_fill m 0 n) a = 0.
Proof.
  intros H1 H2. unfold rd32.
  assert (load (zero_fill m 0 n) a 4 = [Byte.x00; Byte.x00; Byte.x00; Byte.x00]) as ->; [| done].
  cbn [load]. rewrite !byte_at_zero_fill. by rewrite !decide_True by lia.
Qed.

Lemma fresh_words m w : 0 <= w <= END_ -> w mod 4 = 0 -> rd32 (fresh_mem m) w =
  if decide (w = END_) then 2 ^ 31 else if decide (w = END_ - 4) then fresh_size
  else if decide (w = FIRST) then fresh_size else if decide (w = 288) then FIRST else 0.
Proof.
  intros Hw Hw4. unfold fresh_mem.
  rewrite !rd32_wr32 by (done || (consts; lia)).
  rewrite rd32_zero_fill by (unfold kSize; consts; lia).
  repeat case_decide; (done || congruence).
Qed.

Lemma fresh_tiling : tiling (blocks fresh_heap).
Proof.
  assert (Hl : forall a b, blocks fresh_heap !! a = Some b <-> a = FIRST /\ b = mkBlock fresh_size true).
  { intros a b. cbn. rewrite lookup_singleton. case_decide; naive_solver. }
  split.
  - intros a b [-> ->]%Hl. done.
  - exists (mkBlock fresh_size true). by apply Hl.
  - intros a b [-> ->]%Hl. by left.
  - intros a b [-> ->]%Hl. by left.
  - intros a ba c bc [-> _]%Hl [-> _]%Hl. lia.
Qed.

Lemma fresh_tags m : tags_inv (fresh_mem m) (blocks fresh_heap).
Proof.
  assert (Hl : forall a b, blocks fresh_heap !! a = Some b -> a = FIRST /\ b = mkBlock fresh_size true).
  { intros a b. cbn. rewrite lookup_singleton. case_decide; naive_solver. }
  split.
  - intros a b [-> ->]%Hl. by rewrite fresh_words.
  - intros a b [-> ->]%Hl. by rewrite fresh_words.
  - intros a b [-> ->]%Hl _. by rewrite fresh_words.
  - by rewrite fresh_words.
  - by rewrite fresh_words.
Qed.

Lemma fresh_inv m : heap_inv (fresh_mem m) fresh_heap.
Proof.
  assert (Hf : forall i x, x ∈ fl fresh_heap i -> i = 72 /\ x = FIRST).
  { intros i x. cbn. intros [[-> ->%list_elem_of_singleton] | [_ H%not_elem_of_nil]]%elem_of_upd; done. }
  split; [apply fresh_tiling | apply fresh_tags | | |].
  - split; try done.
    + intros i. cbn. unfold upd. destruct (Z.eqb_spec i 72); [lia | done].
    + by intros i x [_ ->]%Hf.
    + intros x H. by apply not_elem_of_nil in H.
    + intros i. cbn. unfold upd. case_match; [apply NoDup_singleton | constructor].
    + by intros i j x [-> _]%Hf [-> _]%Hf.
    + constructor.
    + intros i x _ H. by apply not_elem_of_nil in H.
  - split.
    + intros i Hi. rewrite fresh_words by (consts; lia). cbn. unfold upd.
      destruct (Z.eqb_spec i 72) as [-> |]; [done |].
      by rewrite !decide_False by (consts; lia).
    + intros i. cbn. unfold upd. case_match; [| done]. cbn.
      by rewrite !fresh_words.
    + intros c H. by apply not_elem_of_nil in H.
  - split.
    + intros i x [-> ->]%Hf. by exists fresh_size.
    + intros x H. by apply not_elem_of_nil in H.
    + intros x sz. cbn. rewrite lookup_singleton. case_decide; [| done]. subst.
      intros [= <-]. left. cbn. set_solver.
Qed.

(** After [Format] the member pointer [modifications_] dangles; the caller
    sets it before the first operation. *)
Lemma Format_spec s : kSize <= region s ->
  exists s', Format s = Ok tt s' /\ nvm s' = fresh_mem (nvm s) /\ same_env s s' /\ modifications_ s' = None.
Proof.
  intros Hr.
  cut (wp Format (fun _ s' => nvm s' = fresh_mem (nvm s) /\ same_env s s' /\ modifications_ s' = None)
          no_error s).
  { intros H. apply wp_total in H as ([] & s' & H1 & H2). eauto. }
  unfold Format, set_modifications, OffsetToPtr.
  wp_step. apply wp_modify. do 2 wp_step. apply wp_get, wp_guard.
  { unfold in_region. cbn. by rewrite (proj2 (Z.leb_le _ _)) by lia. }
  wp_step. apply wp_modify. set (s1 := with_nvm _ _).
  assert (Hr1 : ready s1) by (split; [by eexists | done]).
  assert (He1 : same_env s s1) by done.
  assert (Hm1 : nvm s1 = zero_fill (nvm s) 0 kSize) by done. clearbody s1.
  change sizeof_FreeListManager with FIRST. cbn zeta.
  replace (Z.land (u32 (kSize - FIRST - sizeof_u32)) (not32 15)) with fresh_size by done.
  replace (Z.land fresh_size (not32 kFreeMask)) with fresh_size by done.
  replace (u32 (FIRST + fresh_size - sizeof_u32)) with (END_ - 4) by done.
  wp_step. wp_step. wp_step. wp_step. wp_step. wp_step.
  wp_step. unfold SetTheFreeTag. change (u32 (FIRST + fresh_size)) with END_. do 2 wp_step. wp_step.
  apply wp_modify.
  assert (nvm s4 = fresh_mem (nvm s)) as Hm4.
  { rewrite Hm3. replace (rd32 (nvm s3) END_) with 0.
    - by rewrite Hm2, Hm0, Hm, Hm1.
    - rewrite Hm2, Hm0, Hm, Hm1. change GetLastFreeList with 288.
      rewrite !rd32_wr32_ne by (consts; lia).
      symmetry. apply rd32_zero_fill; [done | unfold kSize; consts; lia]. }
  split_and!; [done | by eauto 10 using same_env_trans | done].
Qed.

(** ** User bytes *)

Section User.
Context (B : gmap Z block) (HB : tiling B).

(** The payload of a block in use is no allocator byte. *)
Lemma used_not_meta a n b :
  B !! a = Some (mkBlock n false) -> a + 4 <= b < a + n -> ~ meta B b.
Proof.
  intros Ha Hb [H | [H | (c & cb & Hc & H)]];
    pose proof (ti_ok _ HB _ _ Ha) as O; unfold block_ok in O; cbn in O; [node_lia | node_lia |].
  destruct (decide (c = a)) as [-> | Hne].
  - rewrite Ha in Hc. simplify_eq/=. destruct H as [H | [[=] _]]. lia.
  - pose proof (ti_ok _ HB _ _ Hc) as Oc. unfold block_ok in Oc.
    destruct (tiling_apart _ HB _ _ _ _ Ha Hc ltac:(done)) as [H' | H']; cbn in H'; lia.
Qed.

(** Every block lies on allocator bytes and payload; its header and, when
    free, all of it are the allocator's. *)
Lemma header_meta a c b : B !! a = Some c -> a <= b < a + 4 -> meta B b.
Proof. intros Ha Hb. right. right. exists a, c. split; [done | by left]. Qed.

Lemma free_meta a n b : B !! a = Some (mkBlock n true) -> a <= b < a + n -> meta B b.
Proof. intros Ha Hb. right. right. exists a, (mkBlock n true). split; [done | by right]. Qed.
End User.

#[export] Hint Resolve header_meta free_meta : nvds.

(** The invariant reads allocator bytes only: user writes keep it. *)
Lemma heap_inv_user m m' h :
  heap_inv m h -> (forall b, meta (blocks h) b -> byte_at m' b = byte_at m b) -> heap_inv m' h.
Proof.
  intros [HT Ht Hwf Hm Hmb] Hb.
  assert (Hw : forall w, (forall b, w <= b < w + 4 -> meta (blocks h) b) -> rd32 m' w = rd32 m w).
  { intros w Hw. apply rd32_ext. auto. }
  assert (Hhead : forall a c, blocks h !! a = Some c -> rd32 m' a = rd32 m a).
  { intros a c Ha. apply Hw. eauto with nvds. }
  assert (Hlink : forall x, known (fl h) (orph h) x ->
    rd32 m' (x + 4) = rd32 m (x + 4) /\ rd32 m' (x + 8) = rd32 m (x + 8)).
  { intros x Hx. apply (members_known _ _ _ Hmb) in Hx as [sz Hx].
    pose proof (ti_ok _ HT _ _ Hx) as O. unfold block_ok in O. cbn in O.
    split; apply Hw; intros b Hb'; eapply free_meta; (done || lia). }
  split; [done | | done | | done].
  - split.
    + intros a c Ha. rewrite (Hhead a c Ha). by apply Ht.
    + intros a c Ha. rewrite Hw; [by apply Ht |]. by apply meta_next.
    + intros a [n f] Ha Hf. cbn in *. subst f. pose proof (ti_ok _ HT _ _ Ha) as O. unfold block_ok in O.
      cbn in O. rewrite Hw; [by apply (tg_foot _ _ Ht _ _ Ha) |].
      intros b Hb'. eapply free_meta; [done | lia].
    + destruct (ti_first _ HT) as [c Hc]. rewrite (Hhead _ _ Hc). apply Ht.
    + rewrite Hw; [apply Ht |]. intros b Hb'. right. by left.
  - split.
    + intros i Hi. rewrite Hw; [by apply Hm |]. intros b Hb'. left. consts. lia.
    + intros i. eapply seg_ext; [| apply Hm]. intros x Hx. apply Hlink. left. eauto.
    + intros c Hc. eapply seg_ext; [| by apply Hm]. intros x Hx. apply Hlink. right.
      apply elem_of_concat. eauto.
Qed.

(** ** The blocks in use, before and after *)

Definition used (h : heap) (a n : Z) : Prop := blocks h !! a = Some (mkBlock n false).

Lemma abs_alloc_used m n h b h' :
  heap_inv m h -> 32 <= n <= kMaxBlockSize -> n mod 16 = 0 -> abs_alloc n h = Some (b, h') ->
  (b = 0 /\ h' = h) \/
  (b <> 0 /\ (forall c, ~ used h b c) /\
   forall a c, used h' a c <-> (a = b /\ c = n) \/ used h a c).
Proof.
  intros Hinv Hn Hn16. unfold abs_alloc, used.
  destruct (first_nonempty _ _ _) as [[[i x] rest] |] eqn:Hfirst; [| intros [= <- <-]; by left].
  apply first_nonempty_Some in Hfirst as (Hf & Hi & _).
  destruct (first_block _ _ _ _ _ Hinv Hf) as (sz & Hx & Hcl). rewrite Hx. cbn [bsize].
  pose proof (class_alloc n Hn Hn16) as Hc.
  pose proof (ti_ok _ (hi_tiling _ _ Hinv) _ _ Hx) as O. unfold block_ok in O. cbn in O.
  pose proof (class_fits n sz Hn Hn16 ltac:(lia) ltac:(lia)) as Hfit.
  destruct (Z.eqb_spec sz n) as [-> | Hne].
  - intros [= <- <-]. right. split_and!; [node_lia | intros c; congruence |].
    intros a c.
    assert (blocks (alloc_exact n i x rest h) = <[x:=mkBlock n false]> (blocks h)) as ->
      by by destruct rest.
    rewrite lookup_insert. case_decide; naive_solver congruence.
  - destruct (Z.eqb_spec (sz - n) 16); [done |]. intros [= <- <-]. right.
    assert (Hno : blocks h !! (x + (sz - n)) = None).
    { destruct (blocks h !! (x + (sz - n))) as [c |] eqn:E; [| done]. exfalso.
      pose proof (ti_disj _ (hi_tiling _ _ Hinv) _ _ _ _ Hx E ltac:(lia)). cbn in *. lia. }
    split_and!; [node_lia | intros c; congruence |]. intros a c. cbn.
    rewrite !lookup_insert. repeat case_decide; naive_solver congruence.
Qed.

Lemma abs_free_used m x h h' a n :
  heap_inv m h -> abs_free x h h' -> used h' a n <-> a <> x /\ used h a n.
Proof.
  intros Hinv [sz b s h1 s' h2 Hx Hp Hn]. unfold used. cbn.
  assert (H1 : (b = x \/ exists z, blocks h !! b = Some (mkBlock z true)) /\
    (forall c n, blocks h1 !! c = Some (mkBlock n false) -> blocks h !! c = Some (mkBlock n false)) /\
    (forall c n, c <> x -> blocks h !! c = Some (mkBlock n false) -> blocks h1 !! c = Some (mkBlock n false)) /\
    (forall z, blocks h1 !! x = Some z -> b = x)).
  { inversion Hp; subst; cbn; split_and!; eauto.
    - intros c z [_ H']%lookup_delete_Some. done.
    - intros c z Hc Hz. by rewrite lookup_delete_ne.
    - intros z. by rewrite lookup_delete_eq. }
  destruct H1 as (Hb & H11 & H12 & H13).
  assert (H2 : (forall c n, blocks h2 !! c = Some (mkBlock n false) -> blocks h1 !! c = Some (mkBlock n false)) /\
    (forall c n, blocks h1 !! c = Some (mkBlock n false) -> blocks h2 !! c = Some (mkBlock n false))).
  { inversion Hn; subst; cbn; split; try done.
    - intros c z [_ H']%lookup_delete_Some. done.
    - intros c z Hz. rewrite lookup_delete_ne; [done |]. intros <-. congruence. }
  destruct H2 as [H21 H22].
  rewrite lookup_insert. case_decide as E.
  - subst a. split; [by intros [=] |]. intros [Hne Hu].
    destruct Hb as [-> | [z Hz]]; [done | congruence].
  - split.
    + intros Hu. split; [| by auto]. intros ->. apply E. by eapply H13, H21.
    + intros [Hne Hu]. auto.
Qed.

(** ** [Alloc] and [Free] *)

(** Block size for a request. *)
Definition block_for (size : Z) : Z := (size + sizeof_u32 + 16 - 1) / 16 * 16.

(** Requests the allocator serves. *)
Definition servable (size : Z) : Prop := 12 < size <= kMaxBlockSize - 4.

Ltac size_lia := unfold servable in *; consts_full; lia.

Lemma block_for_range size : servable size ->
  32 <= block_for size <= kMaxBlockSize /\ block_for size mod 16 = 0 /\
  size + 4 <= block_for size < size + 20.
Proof. unfold servable, block_for. consts_full. lia. Qed.

Definition alloc_result (b : Z) : Z := if b =? 0 then 0 else b + 4.

Lemma wp_Alloc h s size :
  heap_inv (nvm s) h -> ready s -> servable size ->
  wp (Alloc size)
     (fun r s' => exists b, r = alloc_result b /\ alloc_post (block_for size) h s b s')
     (fun e _ => e = AssertFail /\ abs_alloc (block_for size) h = None) s.
Proof.
  intros Hinv Hr Hsz. destruct (block_for_range size Hsz) as (Hn & Hn16 & _).
  unfold Alloc, RoundupBlockSize. rewrite u32_small by size_lia.
  rewrite (proj2 (Z.leb_le _ _)) by size_lia. do 2 wp_step.
  fold (block_for size). do 2 wp_step. wp_step. wp_step. wp_step.
  unfold wp. pose proof (wp_AllocBlock (block_for size) h s Hinv Hr Hn Hn16) as H. unfold wp in H.
  destruct (AllocBlock _ s) as [b s' | e s']; [| done]. cbn.
  exists b. split; [| done]. unfold alloc_result. destruct (Z.eqb_spec b 0); [done |].
  apply u32_small.
  assert (exists h', abs_alloc (block_for size) h = Some (b, h') /\ heap_inv (nvm s') h')
    as (h' & Ha & Hi') by (destruct H as (h' & ? & ? & _); eauto).
  destruct (abs_alloc_used _ _ _ _ _ Hinv Hn Hn16 Ha) as [[? _] | (_ & _ & Hu)]; [done |].
  assert (used h' b (block_for size)) as Hb by (apply Hu; by left).
  apply (ti_ok _ (hi_tiling _ _ Hi')) in Hb. unfold block_ok in Hb. cbn in Hb. node_lia.
Qed.

Lemma wp_Free h s p n E :
  heap_inv (nvm s) h -> ready s -> used h (p - 4) n -> rd32 (nvm s) (p + n - 8) = n ->
  wp (Free p) (fun _ => free_post h (p - 4) n s) E s.
Proof.
  intros Hinv Hr Hu Hfoot.
  pose proof (ti_ok _ (hi_tiling _ _ Hinv) _ _ Hu) as O. unfold block_ok in O. cbn in O.
  unfold Free. wp_step. apply wp_assert.
  { apply andb_true_intro. split; [apply Z.ltb_lt | apply Z.leb_le]; consts_full; lia. }
  rewrite u32_small by (consts_full; lia). apply wp_FreeBlock; try done.
  by replace (p - 4 + n - 4) with (p + n - 8) by lia.
Qed.

Lemma wp_Memcpy d buf n (Q : unit -> state -> Prop) E s :
  0 <= d -> d + n <= region s -> 0 <= n <= Z.of_nat (length buf) -> ready s ->
  (forall s', ready s' -> same_env s s' -> nvm s' = store (nvm s) d (take (Z.to_nat n) buf) -> Q tt s') ->
  wp (Memcpy d buf n) Q E s.
Proof.
  intros Hd Hr Hn [[ms Hms] Hk] HQ.
  unfold wp, Memcpy, user_bytes, OffsetToPtr, emplace_back, bind, guard, ret, get, modify, in_region.
  rewrite (proj2 (Z.leb_le n _)) by lia. rewrite (proj2 (Z.leb_le 0 d)), (proj2 (Z.leb_le _ (region s))) by lia.
  cbn. rewrite Hms. apply HQ; cbn; [split; [by eexists | done] | done | done].
Qed.

(** ** Clients

    A client allocates, frees what it was given, once, and writes within its
    objects.  [L] are its objects with the sizes asked for.  A request must
    leave room for the block's footer ([fits]): [FreeBlock] reads it back. *)

Definition fits (size : Z) : Prop := servable size /\ size + 8 <= block_for size.

Inductive client : state * gmap Z Z -> state * gmap Z Z -> Prop :=
  | client_alloc s L size p s' :
      fits size -> Alloc size s = Ok p s' -> p <> 0 -> client (s, L) (s', <[p := size]> L)
  | client_full s L size s' :
      fits size -> Alloc size s = Ok 0 s' -> client (s, L) (s', L)
  | client_free s L p size s' :
      L !! p = Some size -> Free p s = Ok tt s' -> client (s, L) (s', delete p L)
  | client_write s L p size d buf n s' :
      L !! p = Some size -> p <= d -> d + n <= p + size -> 0 <= n ->
      Memcpy d buf n s = Ok tt s' -> client (s, L) (s', L).

(** The client's objects are exactly the blocks in use, footers intact. *)
Record session (s : state) (L : gmap Z Z) (h : heap) : Prop := {
  ss_inv : heap_inv (nvm s) h;
  ss_ready : ready s;
  ss_object : forall p size, L !! p = Some size ->
    fits size /\ used h (p - 4) (block_for size) /\
    rd32 (nvm s) (p + block_for size - 8) = block_for size;
  ss_used : forall a n, used h a n -> is_Some (L !! (a + 4))
}.

Section Session.
Context (s : state) (L : gmap Z Z) (h : heap) (Hs : session s L h).

Lemma object_bounds p size : L !! p = Some size ->
  FIRST < p /\ p + size + 4 <= END_ /\ 13 <= size /\ size + 8 <= block_for size /\
  p - 4 + block_for size <= END_.
Proof.
  intros Hp. destruct (ss_object _ _ _ Hs _ _ Hp) as ([Hf1 Hf2] & Hu & _).
  pose proof (ti_ok _ (hi_tiling _ _ (ss_inv _ _ _ Hs)) _ _ Hu) as O. unfold block_ok in O. cbn in O.
  unfold servable in Hf1. lia.
Qed.

(** Two objects do not overlap. *)
Lemma objects_apart p n q k : L !! p = Some n -> L !! q = Some k -> p <> q ->
  p + n <= q \/ q + k <= p.
Proof.
  intros Hp Hq Hne. pose proof (object_bounds p n Hp). pose proof (object_bounds q k Hq).
  destruct (ss_object _ _ _ Hs _ _ Hp) as (_ & Hup & _).
  destruct (ss_object _ _ _ Hs _ _ Hq) as (_ & Huq & _).
  destruct (tiling_apart _ (hi_tiling _ _ (ss_inv _ _ _ Hs)) _ _ _ _ Hup Huq ltac:(lia)) as [H1 | H1];
    cbn in H1; lia.
Qed.

Lemma session_alloc size p s' : fits size -> Alloc size s = Ok p s' -> p <> 0 ->
  L !! p = None /\ exists h', session s' (<[p := size]> L) h'.
Proof.
  intros Hf Ha Hp0. destruct (block_for_range size ltac:(apply Hf)) as (Hn & Hn16 & Hb).
  destruct (wp_of_Ok _ _ _ _ _ _ Ha (wp_Alloc h s size (ss_inv _ _ _ Hs) (ss_ready _ _ _ Hs) (proj1 Hf)))
    as (b & -> & h' & Hab & Hi' & Hr' & He & Hm & Hfoot).
  destruct (abs_alloc_used _ _ _ _ _ (ss_inv _ _ _ Hs) Hn Hn16 Hab) as [[-> _] | (Hb0 & Hfresh & Hu)];
    [done |].
  unfold alloc_result in *. destruct (Z.eqb_spec b 0); [done |].
  split.
  { destruct (L !! (b + 4)) as [k |] eqn:E; [| done]. exfalso.
    destruct (ss_object _ _ _ Hs _ _ E) as (_ & H & _). replace (b + 4 - 4) with b in H by lia.
    by eapply Hfresh. }
  exists h'. split; [done | done | |].
  - intros q k [[<- <-] | [Hne Hq]]%lookup_insert_Some.
    + split_and!; [done | apply Hu; left; split; [lia | done] |].
      etrans; [| exact (Hfoot Hb0)]. f_equal. lia.
    + destruct (ss_object _ _ _ Hs _ _ Hq) as (Hfq & Huq & Hftq). split_and!; [done | by apply Hu; right |].
      etrans; [| exact Hftq]. apply rd32_ext. intros x Hx. apply Hm.
      pose proof (object_bounds q k Hq).
      eapply used_not_meta; [apply (ss_inv _ _ _ Hs) | exact Huq | lia].
  - intros a c [[-> ->] | Hac]%Hu; [by rewrite lookup_insert_eq |].
    apply lookup_insert_is_Some. destruct (decide (b + 4 = a + 4)); [by left | right].
    split; [done | by eapply ss_used].
Qed.

Lemma session_free p size : L !! p = Some size ->
  exists s' h', Free p s = Ok tt s' /\ session s' (delete p L) h'.
Proof.
  intros Hp. destruct (ss_object _ _ _ Hs _ _ Hp) as (Hf & Hu & Hfoot).
  destruct (wp_total _ _ _ (wp_Free h s p (block_for size) no_error (ss_inv _ _ _ Hs)
    (ss_ready _ _ _ Hs) Hu Hfoot)) as ([] & s' & HF & h' & Haf & Hi' & Hr' & He & Hm).
  exists s', h'. split; [done |].
  pose proof (fun a n => abs_free_used _ _ _ _ a n (ss_inv _ _ _ Hs) Haf) as Huse.
  split; [done | done | |].
  - intros q k [Hne Hq]%lookup_delete_Some.
    destruct (ss_object _ _ _ Hs _ _ Hq) as (Hfq & Huq & Hftq).
    pose proof (object_bounds q k Hq).
    split_and!; [done | apply Huse; split; [lia | done] |].
    etrans; [| exact Hftq]. apply rd32_ext. intros x Hx. apply Hm.
    eapply used_not_meta; [| rewrite lookup_insert_ne; [exact Huq | lia] | lia].
    eapply tiling_status; [apply (ss_inv _ _ _ Hs) | exact Hu].
  - intros a c [Hne Hac]%Huse. apply lookup_delete_is_Some. split; [lia | by eapply ss_used].
Qed.

Lemma session_write p size d buf n s' : L !! p = Some size -> p <= d -> d + n <= p + size -> 0 <= n ->
  Memcpy d buf n s = Ok tt s' -> session s' L h.
Proof.
  intros Hp Hd Hdn Hn HM. pose proof (object_bounds p size Hp) as Hb.
  destruct (ss_object _ _ _ Hs _ _ Hp) as (_ & Hu & _).
  pose proof (ss_ready _ _ _ Hs) as Hr.
  assert (Hlen : n <= Z.of_nat (length buf)).
  { unfold Memcpy, user_bytes, bind, guard in HM. destruct (Z.leb_spec n (Z.of_nat (length buf))); [done | by cbn in HM]. }
  assert (Hw : wp (Memcpy d buf n) (fun _ s' => ready s' /\
    nvm s' = store (nvm s) d (take (Z.to_nat n) buf)) no_error s).
  { apply wp_Memcpy; [node_lia | destruct Hr; consts_full; lia | lia | done | auto]. }
  apply (wp_of_Ok _ _ _ _ _ _ HM) in Hw as [Hr' Hm].
  assert (Hkeep : forall x, x < d \/ d + n <= x -> byte_at (nvm s') x = byte_at (nvm s) x).
  { intros x Hx. rewrite Hm. apply byte_at_store_out. rewrite length_take. lia. }
  split; [| done | | apply Hs].
  - eapply heap_inv_user; [apply Hs |]. intros x Hx. apply Hkeep.
    destruct (decide (d <= x < d + n)); [exfalso | lia].
    eapply used_not_meta; [apply (ss_inv _ _ _ Hs) | exact Hu | | exact Hx]. lia.
  - intros q k Hq. destruct (ss_object _ _ _ Hs _ _ Hq) as (Hfq & Huq & Hftq).
    split_and!; [done | done |]. etrans; [| exact Hftq]. apply rd32_ext. intros x Hx. apply Hkeep.
    pose proof (object_bounds q k Hq).
    destruct (decide (p = q)) as [<- | Hne]; [simplify_eq; lia |].
    destruct (tiling_apart _ (hi_tiling _ _ (ss_inv _ _ _ Hs)) _ _ _ _ Hu Huq ltac:(lia)) as [H1 | H1];
      cbn in H1; lia.
Qed.
End Session.

(** The allocator as [Format] leaves it, with a modification list set. *)
Definition started (s : state) : Prop :=
  exists s0 s1, kSize <= region s0 /\ Format s0 = Ok tt s1 /\ s = with_modifications (Some []) s1.

Definition reachable (c : state * gmap Z Z) : Prop :=
  exists s, started s /\ rtc client (s, ∅) c.

Lemma started_session s : started s -> session s ∅ fresh_heap.
Proof.
  intros (s0 & s1 & Hreg & HF & ->). destruct (Format_spec s0 Hreg) as (s1' & HF' & Hm & [_ Hr] & _).
  rewrite HF' in HF. injection HF as <-. split.
  - cbn. rewrite Hm. apply fresh_inv.
  - split; [by eexists | cbn; lia].
  - intros p size. by rewrite lookup_empty.
  - intros a n Hu. unfold used in Hu. cbn in Hu. rewrite lookup_singleton in Hu. by case_decide.
Qed.

Lemma reachable_session c : reachable c -> exists h, session c.1 c.2 h.
Proof.
  intros (s & Hs & Hrtc). apply started_session in Hs. revert Hs. generalize fresh_heap.
  remember (s, ∅) as c0 eqn:E0. intros h Hs.
  assert (Hs0 : session c0.1 c0.2 h) by by rewrite E0. clear E0 Hs s.
  revert h Hs0. induction Hrtc as [c | c1 c2 c3 Hstep _ IH]; intros h Hs; [by exists h |].
  inversion Hstep; subst; cbn in *.
  - destruct (session_alloc _ _ _ Hs _ _ _ H H0 H1) as [_ [h' Hs']]. by eapply IH.
  - destruct (wp_of_Ok _ _ _ _ _ _ H0 (wp_Alloc h s size (ss_inv _ _ _ Hs) (ss_ready _ _ _ Hs) (proj1 H)))
      as (b & Eb & h' & Hab & Hi' & Hr' & He & Hm & _).
    destruct (block_for_range size ltac:(apply H)) as (Hn & Hn16 & _).
    destruct (abs_alloc_used _ _ _ _ _ (ss_inv _ _ _ Hs) Hn Hn16 Hab) as [[-> ->] | (Hb0 & _ & Hu)].
    + apply (IH h). split; [done | done | | apply Hs]. intros q k Hq.
      destruct (ss_object _ _ _ Hs _ _ Hq) as (Hfq & Huq & Hftq). split_and!; [done | done |].
      etrans; [| exact Hftq]. apply rd32_ext. intros x Hx. apply Hm.
      pose proof (object_bounds _ _ _ Hs q k Hq).
      eapply used_not_meta; [apply (ss_inv _ _ _ Hs) | exact Huq | lia].
    + exfalso. unfold alloc_result in Eb. destruct (Z.eqb_spec b 0); [done |].
      assert (used h' b (block_for size)) as Hb by (apply Hu; by left).
      apply (ti_ok _ (hi_tiling _ _ Hi')) in Hb. unfold block_ok in Hb. cbn in Hb. node_lia.
  - destruct (session_free _ _ _ Hs _ _ H) as (s2 & h' & HF & Hs'). rewrite H0 in HF.
    injection HF as <-. by eapply IH.
  - eapply IH, session_write; eauto.
Qed.

(** A concrete start, for the witnesses. *)
Definition s0_example : state := mkState 4096 kSize ∅ 0 None.
Definition s1_example : state :=
  match Format s0_example with Ok _ s => with_modifications (Some []) s | Err _ s => s end.

Lemma started_example : started s1_example.
Proof.
  destruct (Format_spec s0_example (Z.le_refl kSize)) as (s1 & HF & _).
  exists s0_example, s1. split; [apply Z.le_refl |]. split; [exact HF |].
  unfold s1_example. rewrite HF. reflexivity.
Qed.

#[global] Opaque s1_example.

Lemma session_example : session s1_example ∅ fresh_heap.
Proof. apply started_session, started_example. Qed.

(** ** Properties *)

(** C3. [Alloc] implements the abstract allocator: for every request in range
    it returns the block [abs_alloc] picks, leaves a memory that represents
    the abstract heap after the step and changes allocator bytes only; the
    one way it fails is the assertion on a 16-byte remainder. *)
Theorem Alloc_refines h s size :
  heap_inv (nvm s) h -> ready s -> servable size ->
  match abs_alloc (block_for size) h with
  | Some (b, h') => exists s', Alloc size s = Ok (alloc_result b) s' /\ heap_inv (nvm s') h' /\
      ready s' /\ same_env s s' /\ only_meta (blocks h) (nvm s) (nvm s')
  | None => exists s', Alloc size s = Err AssertFail s'
  end.
Proof.
  intros Hinv Hr Hsz. pose proof (wp_Alloc h s size Hinv Hr Hsz) as H. unfold wp in H.
  destruct (Alloc size s) as [r s' | e s'].
  - destruct H as (b & -> & h' & -> & H). exists s'. naive_solver.
  - destruct H as [-> ->]. by exists s'.
Qed.

Lemma fresh_alloc : fst <$> abs_alloc (block_for 40) fresh_heap = Some 67108804.
Proof. vm_compute. reflexivity. Qed.

Lemma Alloc_refines_witness : exists s' h',
  Alloc 40 s1_example = Ok 67108808 s' /\ heap_inv (nvm s') h'.
Proof.
  pose proof (Alloc_refines fresh_heap s1_example 40 (ss_inv _ _ _ session_example)
    (ss_ready _ _ _ session_example) ltac:(done)) as H.
  pose proof fresh_alloc as E. destruct (abs_alloc (block_for 40) fresh_heap) as [[b h'] |]; [| done].
  cbn in E. injection E as ->. destruct H as (s' & H1 & H2 & _). exists s', h'. split; [exact H1 | exact H2].
Defined.

(** C4. [Free] of a block in use whose footer still holds its size coalesces
    and lists it as [abs_free] says, always returns, and changes allocator
    bytes and the freed block only. *)
Theorem Free_refines h s p n :
  heap_inv (nvm s) h -> ready s -> used h (p - 4) n -> rd32 (nvm s) (p + n - 8) = n ->
  exists s' h', Free p s = Ok tt s' /\ abs_free (p - 4) h h' /\ heap_inv (nvm s') h' /\ ready s' /\
    only_meta (<[p - 4 := mkBlock n true]> (blocks h)) (nvm s) (nvm s').
Proof.
  intros Hinv Hr Hu Hf.
  destruct (wp_total _ _ _ (wp_Free h s p n no_error Hinv Hr Hu Hf)) as ([] & s' & HF & h' & H).
  exists s', h'. naive_solver.
Qed.

Lemma fits_40 : fits 40.
Proof. unfold fits, servable, block_for. consts_full. lia. Qed.

(** One object of 40 bytes. *)
Lemma one_object : exists s h, Alloc 40 s1_example = Ok 67108808 s /\ session s {[67108808 := 40]} h.
Proof.
  pose proof (wp_Alloc fresh_heap s1_example 40 (ss_inv _ _ _ session_example)
    (ss_ready _ _ _ session_example) ltac:(done)) as H. unfold wp in H.
  pose proof fresh_alloc as E. destruct (abs_alloc (block_for 40) fresh_heap) as [[b h'] |]; [| discriminate E].
  injection E as ->.
  destruct (Alloc 40 s1_example) as [r s' | e s'] eqn:EA.
  - destruct H as (b & -> & h2 & [= <- <-] & _). change (alloc_result 67108804) with 67108808 in EA |- *.
    destruct (session_alloc s1_example ∅ fresh_heap session_example 40 67108808 s') as (_ & h3 & Hs);
      [exact fits_40 | exact EA | discriminate |].
    exists s', h3. split; [reflexivity | exact Hs].
  - destruct H as [_ H]. discriminate H.
Qed.

Lemma Free_refines_witness : exists s s' h', Alloc 40 s1_example = Ok 67108808 s /\
  Free 67108808 s = Ok tt s' /\ heap_inv (nvm s') h'.
Proof.
  destruct one_object as (s & h & HA & Hs).
  destruct (ss_object _ _ _ Hs 67108808 40) as (_ & Hu & Hf); [by rewrite lookup_singleton_eq |].
  destruct (Free_refines h s 67108808 (block_for 40) (ss_inv _ _ _ Hs) (ss_ready _ _ _ Hs) Hu Hf)
    as (s' & h' & HF & _ & Hi & _).
  exists s, s', h'. split; [exact HA |]. split; [exact HF | exact Hi].
Defined.

(** C5. Along every run of a client that writes only inside its objects and
    allocates only sizes that leave the footer of the block free ([fits]), the
    heap invariant holds, the live objects lie inside the tablet and never
    overlap, an allocation of such a size never returns a live object, and
    freeing a live object always succeeds.  For the other sizes the allocator
    accepts, whose object reaches into the footer, this is false: see
    [footer_overlap_aborts]. *)
Theorem client_runs_sound s L : reachable (s, L) ->
  (exists h, heap_inv (nvm s) h) /\
  (forall p n, L !! p = Some n -> FIRST < p /\ p + n <= END_) /\
  (forall p n q k, L !! p = Some n -> L !! q = Some k -> p <> q -> p + n <= q \/ q + k <= p) /\
  (forall size p s', fits size -> Alloc size s = Ok p s' -> p <> 0 -> L !! p = None) /\
  (forall p n, L !! p = Some n -> exists s', Free p s = Ok tt s').
Proof.
  intros [h Hs]%reachable_session. cbn in Hs. split_and!.
  - exists h. apply Hs.
  - intros p n Hp. pose proof (object_bounds _ _ _ Hs _ _ Hp). lia.
  - apply (objects_apart _ _ _ Hs).
  - intros size p s' Hf Ha Hp. by apply (session_alloc _ _ _ Hs size p s').
  - intros p n Hp. destruct (session_free _ _ _ Hs p n Hp) as (s' & h' & HF & _). eauto.
Qed.

Lemma reachable_one : exists s, reachable (s, {[67108808 := 40]}).
Proof.
  destruct one_object as (s & h & HA & _). exists s. exists s1_example.
  split; [apply started_example |]. apply rtc_once.
  apply (client_alloc s1_example ∅ 40 67108808 s); [exact fits_40 | exact HA | discriminate].
Qed.

Lemma client_runs_sound_witness : exists s s', reachable (s, {[67108808 := 40]}) /\
  Free 67108808 s = Ok tt s'.
Proof.
  destruct reachable_one as [s Hs].
  destruct (client_runs_sound s {[67108808 := 40]} Hs) as (_ & _ & _ & _ & H).
  destruct (H 67108808 40) as [s' HF]; [by rewrite lookup_singleton_eq |].
  exists s, s'. split; [exact Hs | exact HF].
Defined.



(** When [Alloc] reports no memory, every free block is too small for the
    request, or is one of the 32-byte blocks the code lost track of. *)
Theorem Alloc_full h s size s' :
  heap_inv (nvm s) h -> ready s -> servable size -> Alloc size s = Ok 0 s' ->
  forall a n, blocks h !! a = Some (mkBlock n true) ->
    n < block_for size \/ (n = 32 /\ a ∈ concat (orph h)).
Proof.
  intros Hinv Hr Hsz HA a n Ha. destruct (block_for_range size Hsz) as (Hn & Hn16 & _).
  destruct (wp_of_Ok _ _ _ _ _ _ HA (wp_Alloc h s size Hinv Hr Hsz)) as (b & Hb & h' & Hab & Hi' & _).
  pose proof (class_alloc _ Hn Hn16) as Hc.
  pose proof (ti_ok _ (hi_tiling _ _ Hinv) _ _ Ha) as O. unfold block_ok in O. cbn in O.
  destruct (abs_alloc_used _ _ _ _ _ Hinv Hn Hn16 Hab) as [[-> _] | (Hb0 & _ & Hu)].
  2: { exfalso. unfold alloc_result in Hb. destruct (Z.eqb_spec b 0); [done |].
       assert (used h' b (block_for size)) as Hbu by (apply Hu; by left).
       apply (ti_ok _ (hi_tiling _ _ Hi')) in Hbu. unfold block_ok in Hbu. cbn in Hbu. node_lia. }
  destruct (mb_all _ _ _ (hi_members _ _ Hinv) _ _ Ha) as [Hl | Hl].
  2: { right. split; [| done]. apply (mb_lost _ _ _ (hi_members _ _ Hinv)) in Hl. congruence. }
  left. destruct (decide (n < block_for size)) as [| Hge]; [done | exfalso].
  unfold abs_alloc in Hab. destruct (first_nonempty _ _ _) as [[[i x] r] |] eqn:E.
  - apply first_nonempty_Some in E as (Hf & _ & _).
    pose proof (first_node _ _ _ _ _ Hinv Hf) as Hx.
    destruct (first_block _ _ _ _ _ Hinv Hf) as (sz & Hxb & _). rewrite Hxb in Hab. cbn in Hab.
    pose proof (ti_ok _ (hi_tiling _ _ Hinv) _ _ Hxb) as Ox. unfold block_ok in Ox. cbn in Ox.
    repeat case_match; simplify_eq; node_lia.
  - pose proof (first_nonempty_None _ _ _ E (class n)) as Hnil.
    assert (class (block_for size) <= class n).
    { unfold class. consts_full. repeat case_match; lia. }
    pose proof (class_range n ltac:(lia) ltac:(lia)).
    rewrite Hnil in Hl; [by apply not_elem_of_nil in Hl |]. unfold lists_from. consts_full. lia.
Qed.

(** A tablet whose memory is one block in use. *)
Definition full_heap : heap := mkHeap {[ FIRST := mkBlock fresh_size false ]} (fun _ => []) [].
Definition full_state : state := mkState 4096 kSize (wr32 ∅ FIRST fresh_size) 0 (Some []).

Lemma full_words w : 0 <= w -> w mod 4 = 0 ->
  rd32 (nvm full_state) w = if decide (FIRST = w) then fresh_size else 0.
Proof. intros Hw Hw4. cbn. by rewrite rd32_wr32. Qed.

Lemma full_inv : heap_inv (nvm full_state) full_heap.
Proof.
  assert (Hl : forall a b, blocks full_heap !! a = Some b <-> a = FIRST /\ b = mkBlock fresh_size false).
  { intros a b. cbn. rewrite lookup_singleton. case_decide; naive_solver. }
  split.
  - split.
    + intros a b [-> ->]%Hl. done.
    + exists (mkBlock fresh_size false). by apply Hl.
    + intros a b [-> ->]%Hl. by left.
    + intros a b [-> ->]%Hl. by left.
    + intros a ba c bc [-> _]%Hl [-> _]%Hl. lia.
  - split; [intros a b [-> ->]%Hl | intros a b [-> ->]%Hl | intros a b [-> ->]%Hl; done | |];
      by rewrite full_words.
  - split; try done; try (intros; set_solver); intros; constructor.
  - split; [intros i Hi; by rewrite full_words, decide_False by (consts; lia) | done | intros; set_solver].
  - split; [intros; set_solver | intros; set_solver |]. intros x sz H. apply Hl in H as [_ H]. discriminate H.
Qed.

Lemma full_alloc : match Alloc 40 full_state with Ok r _ => r = 0 | Err _ _ => False end.
Proof. vm_compute. reflexivity. Qed.

Lemma Alloc_full_witness : exists s', Alloc 40 full_state = Ok 0 s' /\
  ~ (exists a, blocks full_heap !! a = Some (mkBlock 4096 true)).
Proof.
  pose proof full_alloc as HA. destruct (Alloc 40 full_state) as [r s' | e s'] eqn:E; [| destruct HA].
  subst r. exists s'. split; [reflexivity |]. intros [a Ha].
  assert (Hr : ready full_state) by (split; [eexists; reflexivity | apply Z.le_refl]).
  destruct (Alloc_full full_heap full_state 40 s' full_inv Hr ltac:(size_lia) E a 4096 Ha) as [H | [H _]].
  - unfold block_for in H. consts_full. lia.
  - discriminate H.
Defined.

(** C14. Requests the allocator cannot serve stop the process: at most 12
    bytes (a 16-byte block has its list head at offset 0, which [Read]
    refuses, although the comment in [AllocBlock] allows 16), more than
    [kMaxBlockSize - 4], and those whose size wraps around. *)
Theorem Alloc_refuses s size :
  ready s -> 0 <= size < 2 ^ 32 -> ~ servable size ->
  Alloc size s = Err AssertFail s.
Proof.
  intros [_ Hr] Hsz Hc. unfold servable in Hc. unfold Alloc, RoundupBlockSize.
  destruct (decide (kMaxBlockSize < u32 (size + sizeof_u32))) as [Hbig | Hsmall].
  { by rewrite (proj2 (Z.leb_gt _ _)) by done. }
  rewrite (proj2 (Z.leb_le _ _)) by lia. rewrite bind_ret_l.
  set (z := u32 (size + sizeof_u32)) in *.
  assert (Hz : 0 <= z <= 16).
  { unfold z in *. destruct (decide (size + sizeof_u32 < 2 ^ 32)).
    - rewrite u32_small in * by (consts_full; lia). consts_full. lia.
    - replace (u32 (size + sizeof_u32)) with (size + sizeof_u32 - 2 ^ 32) in *.
      + consts_full. lia.
      + unfold u32. consts_full. lia. }
  assert (Hb : (z + 16 - 1) / 16 * 16 = 0 \/ (z + 16 - 1) / 16 * 16 = 16) by lia.
  destruct Hb as [-> | ->]; reflexivity.
Qed.

Lemma Alloc_refuses_witness :
  Alloc 12 s1_example = Err AssertFail s1_example /\
  Alloc (2 ^ 32 - 1) s1_example = Err AssertFail s1_example.
Proof.
  split; apply Alloc_refuses; try exact (ss_ready _ _ _ session_example); size_lia.
Defined.

(** ** Runs that go wrong *)

(** Runs from the fresh tablet, [None] for a failed one. *)
Definition run {A} (c : M state A) : option A :=
  match c s1_example with Ok a _ => Some a | Err _ _ => None end.

(** An allocation whose best block is 16 bytes larger than needed aborts
    the process: after freeing a 48-byte block a request for 28 bytes asks
    for the free list of a 16-byte block. *)
Theorem split_remainder_16_aborts :
  run (p <- Alloc 40 ;; Free p) = Some tt /\
  run (p <- Alloc 40 ;; Free p ;;; Alloc 28) = None.
Proof. split; vm_compute; reflexivity. Qed.

(** Four objects [a], [x], [d], [y] at falling addresses. *)
Definition leak_run : M state (Z * Z * Z) :=
  a <- Alloc 20 ;; x <- Alloc 60 ;; d <- Alloc 40 ;; y <- Alloc 60 ;;
  Free a ;;; Free d ;;;
  d' <- Alloc 40 ;; a' <- Alloc 20 ;;
  ret (a, a', if (d =? d') then 1 else 0).

(** The same without the exact fit between freeing [a] and asking again. *)
Definition no_leak_run : M state (Z * Z) :=
  a <- Alloc 20 ;; x <- Alloc 60 ;; d <- Alloc 40 ;; y <- Alloc 60 ;;
  Free a ;;; Free d ;;;
  a' <- Alloc 20 ;; ret (a, a').

(** An exact fit that empties its list writes 0 to offset 4, the head of
    the 32-byte list: the freed 32-byte block is reused before such an
    allocation and lost after it. *)
Theorem exact_fit_loses_list :
  (exists a, run no_leak_run = Some (a, a)) /\
  (exists a a', run leak_run = Some (a, a', 1) /\ a' <> a).
Proof.
  split.
  - eexists. vm_compute. reflexivity.
  - do 2 eexists. split; [vm_compute; reflexivity | done].
Qed.

(** Two neighbours of 28 bytes; the lower one is filled with zeroes, as many
    bytes as were asked for. *)
Definition footer_run (n : Z) : M state unit :=
  x <- Alloc 28 ;; y <- Alloc 28 ;;
  Memcpy y (repeat Byte.x00 28) n ;;;
  Free y ;;; Free x.

(** [FreeBlock] does not write the footer of a block it does not
    coalesce, and the footer is payload while the block is in use: filling an
    object with its 28 bytes makes a later [Free] of its neighbour fail. *)
Theorem footer_overlap_aborts : run (footer_run 24) = Some tt /\ run (footer_run 28) = None.
Proof. split; vm_compute; reflexivity. Qed.
