(* ===== verification/Objects.v ===== *)
(** * Rules for code that keeps objects on the allocator's heap

    [Alloc], [Free] and writes as steps on a [session], with what they leave
    alone; the component built on the allocator is verified with these. *)

From S2P Require Import Prelude Nvm Modification Allocator HeapSpec HeapTiling AllocatorWp AllocRefine FreeRefine Heap.
Import Allocator.

(** [x] is a byte of one of the objects [L]. *)
Definition owned (L : gmap Z Z) (x : Z) : Prop :=
  exists p n, L !! p = Some n /\ p <= x < p + n.

(** [m'] agrees with [m] on the objects [L] and behind the heap. *)
Definition frame (L : gmap Z Z) (m m' : mem) : Prop :=
  forall x, owned L x \/ kSize <= x -> byte_at m' x = byte_at m x.

Lemma frame_refl L m : frame L m m.
Proof. done. Qed.

Lemma frame_trans L m1 m2 m3 : frame L m1 m2 -> frame L m2 m3 -> frame L m1 m3.
Proof. intros H1 H2 x Hx. by rewrite H2, H1. Qed.

Lemma frame_sub L L' m m' : (forall p n, L' !! p = Some n -> L !! p = Some n) -> frame L m m' -> frame L' m m'.
Proof.
  intros Hs H x [(p & n & Hp & Hx) | Hx]; apply H; [left | by right].
  exists p, n. auto.
Qed.

Section Rules.
Context (s : state) (L : gmap Z Z) (h : heap) (Hs : session s L h).

Lemma owned_not_meta x : owned L x -> ~ meta (blocks h) x.
Proof using Hs.
  intros (p & n & Hp & Hx). pose proof (object_bounds _ _ _ Hs p n Hp).
  destruct (ss_object _ _ _ Hs _ _ Hp) as (_ & Hu & _).
  eapply used_not_meta; [apply (ss_inv _ _ _ Hs) | exact Hu | lia].
Qed.

Lemma table_not_meta B x : tiling B -> kSize <= x -> ~ meta B x.
Proof.
  intros HB Hx [H | [H | (a & b & Ha & H)]]; [consts_full; lia | consts_full; lia |].
  apply (ti_ok _ HB) in Ha. unfold block_ok in Ha. consts_full. lia.
Qed.

(** Changing objects, or bytes behind the heap, keeps the heap. *)
Lemma session_change s' :
  ready s' -> (forall x, ~ owned L x -> x < kSize -> byte_at (nvm s') x = byte_at (nvm s) x) ->
  session s' L h.
Proof using Hs.
  intros Hr Hb. split; [| done | | apply Hs].
  - eapply heap_inv_user; [apply Hs |]. intros x Hx. apply Hb.
    + intros Ho. by eapply owned_not_meta.
    + destruct (decide (x < kSize)); [done |]. exfalso.
      eapply table_not_meta; [apply (ss_inv _ _ _ Hs) | | exact Hx]. lia.
  - intros p n Hp. destruct (ss_object _ _ _ Hs _ _ Hp) as (Hf & Hu & Hft).
    split_and!; [done | done |]. etrans; [| exact Hft]. apply rd32_ext. intros x Hx.
    pose proof (object_bounds _ _ _ Hs p n Hp). apply Hb; [| consts_full; lia].
    intros (q & k & Hq & Hqx). pose proof (object_bounds _ _ _ Hs q k Hq).
    destruct (decide (p = q)) as [<- |]; [simplify_eq; lia |].
    destruct (ss_object _ _ _ Hs _ _ Hq) as (_ & Huq & _).
    destruct (tiling_apart _ (hi_tiling _ _ (ss_inv _ _ _ Hs)) _ _ _ _ Hu Huq ltac:(lia)) as [H1 | H1];
      cbn in H1; lia.
Qed.

Lemma wp_Free_object p n (Q : unit -> state -> Prop) E :
  L !! p = Some n ->
  (forall s' h', session s' (delete p L) h' -> same_env s s' -> frame (delete p L) (nvm s) (nvm s') -> Q tt s') ->
  wp (Free p) Q E s.
Proof using Hs.
  intros Hp HQ. destruct (ss_object _ _ _ Hs _ _ Hp) as (Hf & Hu & Hft).
  destruct (session_free _ _ _ Hs p n Hp) as (s' & h' & HF & Hs').
  pose proof (wp_Free h s p (block_for n) no_error (ss_inv _ _ _ Hs) (ss_ready _ _ _ Hs) Hu Hft) as Hw.
  unfold wp in *. rewrite HF in *. destruct Hw as (h2 & _ & _ & _ & He & Hm).
  apply (HQ s' h'); [done | done |]. intros x Hx. apply Hm.
  assert (HT : tiling (<[p - 4 := mkBlock (block_for n) true]> (blocks h))).
  { eapply tiling_status; [apply (ss_inv _ _ _ Hs) | exact Hu]. }
  destruct Hx as [(q & k & [Hne Hq]%lookup_delete_Some & Hx) | Hx]; [| by apply table_not_meta].
  pose proof (object_bounds _ _ _ Hs q k Hq).
  destruct (ss_object _ _ _ Hs _ _ Hq) as (_ & Huq & _).
  eapply (used_not_meta _ HT (q - 4) (block_for k)); [| lia].
  rewrite lookup_insert_ne; [exact Huq | lia].
Qed.

Lemma wp_Alloc_object n (Q : Z -> state -> Prop) (E : error -> state -> Prop) :
  fits n -> (forall s', E AssertFail s') ->
  (forall s', (exists h', session s' L h') -> same_env s s' -> frame L (nvm s) (nvm s') -> Q 0 s') ->
  (forall p s' h', p <> 0 -> L !! p = None -> session s' (<[p := n]> L) h' -> same_env s s' ->
     frame L (nvm s) (nvm s') -> Q p s') ->
  wp (Alloc n) Q E s.
Proof using Hs.
  intros Hf HE H0 HQ.
  pose proof (wp_Alloc h s n (ss_inv _ _ _ Hs) (ss_ready _ _ _ Hs) (proj1 Hf)) as Hw.
  unfold wp in *. destruct (Alloc n s) as [p s' | e s'] eqn:EA; [| by destruct Hw as [-> _]].
  destruct Hw as (b & Eb & h' & Hab & Hi' & Hr' & He & Hm & _).
  assert (Hfr : frame L (nvm s) (nvm s')).
  { intros x [Hx | Hx]; apply Hm; [by apply owned_not_meta |].
    eapply table_not_meta; [apply (ss_inv _ _ _ Hs) | done]. }
  destruct (decide (p = 0)) as [-> | Hp].
  - apply H0; [| done | done].
    destruct (block_for_range n ltac:(apply Hf)) as (Hn & Hn16 & _).
    destruct (abs_alloc_used _ _ _ _ _ (ss_inv _ _ _ Hs) Hn Hn16 Hab) as [[-> ->] | (Hb0 & _ & Hu)].
    + exists h. split; [done | done | | apply Hs]. intros q k Hq.
      destruct (ss_object _ _ _ Hs _ _ Hq) as (Hfq & Huq & Hftq). split_and!; [done | done |].
      etrans; [| exact Hftq]. apply rd32_ext. intros x Hx. apply Hm.
      pose proof (object_bounds _ _ _ Hs q k Hq).
      eapply used_not_meta; [apply (ss_inv _ _ _ Hs) | exact Huq | lia].
    + exfalso. unfold alloc_result in Eb. destruct (Z.eqb_spec b 0); [done |].
      assert (used h' b (block_for n)) as Hb by (apply Hu; by left).
      apply (ti_ok _ (hi_tiling _ _ Hi')) in Hb. unfold block_ok in Hb. cbn in Hb.
      change FIRST with 292 in *. lia.
  - destruct (session_alloc _ _ _ Hs n p s' Hf EA Hp) as (HL & h2 & Hs2).
    by apply (HQ p s' h2).
Qed.

(** Writing within an object, or behind the heap. *)
Lemma wp_Write_object off bs (Q : unit -> state -> Prop) E :
  (forall x, off <= x < off + Z.of_nat (length bs) -> owned L x \/ kSize <= x) ->
  0 < off -> off + Z.of_nat (length bs) <= region s ->
  (forall s', session s' L h -> same_env s s' -> nvm s' = store (nvm s) off bs -> Q tt s') ->
  wp (Write off bs) Q E s.
Proof using Hs.
  intros Hin H0 Hreg HQ. apply wp_Write; [done | done | apply Hs |]. intros s' Hr He Hm.
  apply HQ; [| done | done]. apply session_change; [done |]. intros x Hx Hlt. rewrite Hm.
  apply byte_at_store_out. destruct (decide (off <= x < off + Z.of_nat (length bs))) as [Hb |]; [| lia].
  destruct (Hin x Hb); [done | lia].
Qed.

Lemma wp_Memcpy_object d buf n (Q : unit -> state -> Prop) E :
  (forall x, d <= x < d + n -> owned L x) -> 0 <= d -> d + n <= region s ->
  0 <= n <= Z.of_nat (length buf) ->
  (forall s', session s' L h -> same_env s s' -> nvm s' = store (nvm s) d (take (Z.to_nat n) buf) -> Q tt s') ->
  wp (Memcpy d buf n) Q E s.
Proof using Hs.
  intros Hin Hd Hr Hn HQ. apply wp_Memcpy; [done | done | done | apply Hs |]. intros s' Hr' He Hm.
  apply HQ; [| done | done]. apply session_change; [done |]. intros x Hx Hlt. rewrite Hm.
  apply byte_at_store_out. rewrite length_take.
  destruct (decide (d <= x < d + n)) as [Hb |]; [| lia]. by destruct (Hx (Hin x Hb)).
Qed.
End Rules.
