(* ===== verification/Wire.v ===== *)
(** * [common.h], [status.h], [request.h], [response.h]: the wire format

    Cluster constants, and requests and responses as they lie in a message
    buffer.  Buffers are memories of [Nvm] with offsets from [Buffer::buf]. *)

From S2P Require Import Prelude Nvm.

(** ** [common.h] *)

Definition kNumReplicas : Z := 1.
Definition kNumServers : Z := 2.
Definition kNumTabletsPerServer : Z := 1.
Definition kCoordPort : Z := 9090.
Definition kMaxItemSize : Z := 1024.
Definition kNumTabletAndBackupsPerServer : Z := kNumTabletsPerServer * (1 + kNumReplicas).
Definition kNumTablets : Z := kNumTabletsPerServer * kNumServers.
Definition kNumTabletAndBackups : Z := kNumTabletAndBackupsPerServer * kNumServers.
Definition kSendBufSize : Z := 1024 + 128.
Definition kRecvBufSize : Z := 1024 * 2 + 128.
Definition kIBUDPadding : Z := 40.

(** The client has its own, the other way around. *)
Definition Client_kSendBufSize : Z := 1024 * 2 + 128.
Definition Client_kRecvBufSize : Z := 1024 + 128.

(** ** [status.h] *)

Inductive Status := OK | ERROR | NO_MEM.

#[export] Instance Status_eq_dec : EqDecision Status.
Proof. solve_decision. Defined.

Definition Status_code (s : Status) : Z :=
  match s with OK => 0 | ERROR => 1 | NO_MEM => 2 end.
Definition Status_of_code (z : Z) : option Status :=
  if z =? 0 then Some OK else if z =? 1 then Some ERROR else if z =? 2 then Some NO_MEM else None.

(** ** Bytes of integers *)

Definition rd8 (m : mem) (a : Z) : Z := byte.unsigned (byte_at m a).
Definition wr8 (m : mem) (a v : Z) : mem := store m a [byte.of_Z v].
Definition wr16 (m : mem) (a v : Z) : mem := store m a (le_split 2 v).
Definition wr64 (m : mem) (a v : Z) : mem := store m a (le_split 8 v).

(** ** [request.h] *)

Module Request.

Inductive Type_ := PUT | ADD | GET | DEL.

#[export] Instance Type_eq_dec : EqDecision Type_.
Proof. solve_decision. Defined.

Definition Type_code (t : Type_) : Z :=
  match t with PUT => 0 | ADD => 1 | GET => 2 | DEL => 3 end.
Definition Type_of_code (z : Z) : option Type_ :=
  if z =? 0 then Some PUT else if z =? 1 then Some ADD
  else if z =? 2 then Some GET else if z =? 3 then Some DEL else None.

(** [struct Request]: [type] at 0, [key_len] at 2, [val_len] at 4, [key_hash]
    at 8 and the data at 16 under the natural alignment of x86-64.  [type] is
    the byte in the buffer; [data] are the bytes from offset 16 to the end of
    the buffer. *)
Definition offsetof_data : Z := 16.
Definition sizeof_Request : Z := 16.

Record request := mk {
  type : Z;
  key_len : Z;
  val_len : Z;
  key_hash : Z;
  data : list Init.Byte.byte
}.

(** [Request(type, key, key_len, val, val_len, key_hash)] placed at [a] in a
    buffer that ends at [fin]; [val = None] is the null pointer.  The lengths
    are truncated to the fields' 16 bits, the copies use all of [key_len] and
    [val_len].  The constructor does not check the buffer's size. *)
Definition New_Request (a fin : Z) (ty : Type_) (key : list Init.Byte.byte) (key_len : Z)
    (val : option (list Init.Byte.byte)) (val_len hash : Z) : M mem unit :=
  guard (a + sizeof_Request <=? fin) Segv ;;;
  modify (fun m => wr8 m a (Type_code ty)) ;;;
  modify (fun m => wr16 m (a + 2) key_len) ;;;
  modify (fun m => wr16 m (a + 4) val_len) ;;;
  modify (fun m => wr64 m (a + 8) hash) ;;;
  guard (key_len <=? Z.of_nat (length key)) Segv ;;;
  guard (a + offsetof_data + key_len <=? fin) Segv ;;;
  modify (fun m => store m (a + offsetof_data) (take (Z.to_nat key_len) key)) ;;;
  match val with
  | Some v =>
      when (0 <? val_len)
        (guard (val_len <=? Z.of_nat (length v)) Segv ;;;
         guard (a + offsetof_data + key_len + val_len <=? fin) Segv ;;;
         modify (fun m => store m (a + offsetof_data + key_len) (take (Z.to_nat val_len) v)))
  | None => ret tt
  end.

(** [reinterpret_cast<Request*>(buf + a)] *)
Definition MakeRequest (m : mem) (a fin : Z) : request :=
  mk (rd8 m a) (rd16 m (a + 2)) (rd16 m (a + 4)) (rd64 m (a + 8))
     (load m (a + offsetof_data) (Z.to_nat (fin - (a + offsetof_data)))).

Definition ReqLen (r : request) : Z := sizeof_Request + key_len r + val_len r.
Definition Key (r : request) : list Init.Byte.byte := data r.
Definition Val (r : request) : list Init.Byte.byte := drop (Z.to_nat (key_len r)) (data r).

(** The key and the value a request carries. *)
Definition key (r : request) : list Init.Byte.byte := take (Z.to_nat (key_len r)) (data r).
Definition val (r : request) : list Init.Byte.byte := take (Z.to_nat (val_len r)) (Val r).

(** A request that lies wholly in its buffer. *)
Definition complete (r : request) : Prop :=
  0 <= key_len r < 2 ^ 16 /\ 0 <= val_len r < 2 ^ 16 /\ 0 <= key_hash r < 2 ^ 64 /\
  key_len r + val_len r <= Z.of_nat (length (data r)).

End Request.

(** ** [response.h] *)

Module Response.

(** [type] at 0, [status] at 1, [val_len] at 2, the value at 4: two
    one-byte enums and a [uint16_t]. *)
Definition offsetof_val : Z := 4.
Definition sizeof_Response : Z := 4.

Record response := mk {
  type : Z;
  status : Z;
  val_len : Z;
  val : list Init.Byte.byte
}.

(** [Response(t, s)] placed at [a]: [val_len] is 0. *)
Definition New_Response (a fin ty : Z) (s : Status) : M mem unit :=
  guard (a + sizeof_Response <=? fin) Segv ;;;
  modify (fun m => wr8 m a ty) ;;;
  modify (fun m => wr8 m (a + 1) (Status_code s)) ;;;
  modify (fun m => wr16 m (a + 2) 0).

Definition set_status (a : Z) (s : Status) (m : mem) : mem := wr8 m (a + 1) (Status_code s).

Definition MakeResponse (m : mem) (a fin : Z) : response :=
  mk (rd8 m a) (rd8 m (a + 1)) (rd16 m (a + 2))
     (load m (a + offsetof_val) (Z.to_nat (fin - (a + offsetof_val)))).

(** Only a GET response carries a value. *)
Definition RespLen (r : response) : Z :=
  sizeof_Response + (if type r =? Request.Type_code Request.GET then val_len r else 0).

End Response.

(** ** Lemmas *)

Lemma Type_of_Type_code t : Request.Type_of_code (Request.Type_code t) = Some t.
Proof. by destruct t. Qed.

Lemma Status_of_Status_code s : Status_of_code (Status_code s) = Some s.
Proof. by destruct s. Qed.

Lemma rd8_wr8 m a v : 0 <= v < 2 ^ 8 -> rd8 (wr8 m a v) a = v.
Proof.
  intros. unfold rd8, wr8. cbn [store]. rewrite byte_at_insert. rewrite decide_True by done.
  rewrite byte.unsigned_of_Z. unfold byte.wrap. by apply Z.mod_small.
Qed.

Lemma load_wr m a n v b k :
  a + Z.of_nat n <= b \/ b + Z.of_nat k <= a -> load (store m a (le_split n v)) b k = load m b k.
Proof. intros. apply load_store_ne. rewrite length_le_split. lia. Qed.

Lemma rd16_wr16 m a v : rd16 (wr16 m a v) a = u16 v.
Proof.
  unfold rd16, wr16. replace 2%nat with (length (le_split 2 v)) at 1 by done.
  rewrite load_store_eq. apply le_combine_split.
Qed.

Lemma rd64_wr64 m a v : rd64 (wr64 m a v) a = u64 v.
Proof.
  unfold rd64, wr64. replace 8%nat with (length (le_split 8 v)) at 1 by done.
  rewrite load_store_eq. apply le_combine_split.
Qed.

Lemma load_prefix m a k l : (k <= l)%nat -> take k (load m a l) = load m a k.
Proof.
  intros. replace l with (k + (l - k))%nat by lia.
  rewrite load_app, take_app_le by (rewrite load_length; lia).
  apply take_ge. rewrite load_length. lia.
Qed.

Lemma load_drop m a k l : drop k (load m a l) = load m (a + Z.of_nat k) (l - k).
Proof.
  destruct (decide (k <= l)%nat).
  - replace l with (k + (l - k))%nat at 1 by lia. rewrite load_app, drop_app_ge by (rewrite load_length; lia).
    rewrite load_length. by replace (k - k)%nat with 0%nat by lia.
  - rewrite drop_ge by (rewrite load_length; lia). by replace (l - k)%nat with 0%nat by lia.
Qed.

Lemma load_cut m a n bs : length bs = n -> load (store m a bs) a n = bs.
Proof. intros <-. apply load_store_eq. Qed.

(** ** Properties *)

(** What [New] leaves in the buffer. *)
Definition built (m : mem) (a : Z) (ty : Request.Type_) (key val : list Init.Byte.byte) (hash : Z) : mem :=
  store (store (wr64 (wr16 (wr16 (wr8 m a (Request.Type_code ty)) (a + 2) (Z.of_nat (length key)))
    (a + 4) (Z.of_nat (length val))) (a + 8) hash) (a + 16) key) (a + 16 + Z.of_nat (length key)) val.

Lemma New_built m a fin ty key val hash :
  a + 16 + Z.of_nat (length key) + Z.of_nat (length val) <= fin ->
  Request.New_Request a fin ty key (Z.of_nat (length key)) (Some val) (Z.of_nat (length val)) hash m =
    Ok tt (built m a ty key val hash).
Proof.
  intros Hfin. unfold Request.New_Request, Request.sizeof_Request, Request.offsetof_data.
  unfold bind, guard, modify. rewrite !(proj2 (Z.leb_le _ _)) by lia.
  rewrite !Nat2Z.id, !firstn_all. unfold when, built. destruct (Z.ltb_spec 0 (Z.of_nat (length val))).
  - done.
  - destruct val; [reflexivity | cbn in *; lia].
Qed.

(** The fields of a request that was built. *)
Lemma built_read m a fin ty key val hash :
  Z.of_nat (length key) < 2 ^ 16 -> Z.of_nat (length val) < 2 ^ 16 -> 0 <= hash < 2 ^ 64 ->
  a + 16 + Z.of_nat (length key) + Z.of_nat (length val) <= fin ->
  let r := Request.MakeRequest (built m a ty key val hash) a fin in
  Request.type r = Request.Type_code ty /\ Request.key_len r = Z.of_nat (length key) /\ Request.val_len r = Z.of_nat (length val) /\
  Request.key_hash r = hash /\ Request.key r = key /\ Request.val r = val.
Proof.
  intros Hk Hv Hh Hfin. cbn zeta.
  set (m' := built m a ty key val hash).
  assert (Hout : forall b k, b + Z.of_nat k <= a + 16 -> load m' b k =
    load (wr64 (wr16 (wr16 (wr8 m a (Request.Type_code ty)) (a + 2) (Z.of_nat (length key)))
      (a + 4) (Z.of_nat (length val))) (a + 8) hash) b k).
  { intros b k Hb. unfold m', built. rewrite !load_store_ne by lia. done. }
  assert (Ety : Request.type (Request.MakeRequest m' a fin) = Request.Type_code ty).
  { cbn. unfold rd8. replace (byte_at m' a) with (byte_at (wr8 m a (Request.Type_code ty)) a).
    - apply rd8_wr8. by destruct ty.
    - pose proof (Hout a 1%nat ltac:(lia)) as H1. unfold wr64, wr16 in H1.
      rewrite !load_wr in H1 by lia. cbn in H1. by injection H1. }
  assert (Ekl : Request.key_len (Request.MakeRequest m' a fin) = Z.of_nat (length key)).
  { cbn. unfold rd16. rewrite Hout by lia. unfold wr64. rewrite load_wr by lia.
    unfold wr16 at 1. rewrite load_wr by lia. fold (rd16 (wr16 (wr8 m a (Request.Type_code ty)) (a + 2)
      (Z.of_nat (length key))) (a + 2)). rewrite rd16_wr16. apply u16_small. lia. }
  assert (Evl : Request.val_len (Request.MakeRequest m' a fin) = Z.of_nat (length val)).
  { cbn. unfold rd16. rewrite Hout by lia. unfold wr64. rewrite load_wr by lia.
    match goal with |- le_combine (load ?x ?b 2) = _ => fold (rd16 x b) end.
    rewrite rd16_wr16. apply u16_small. lia. }
  assert (Ehh : Request.key_hash (Request.MakeRequest m' a fin) = hash).
  { cbn. unfold rd64. rewrite Hout by lia.
    match goal with |- le_combine (load ?x ?b 8) = _ => fold (rd64 x b) end.
    rewrite rd64_wr64. by apply u64_small. }
  assert (Edata : Request.data (Request.MakeRequest m' a fin) =
    load m' (a + 16) (Z.to_nat (fin - (a + 16)))) by done.
  assert (Ekey : Request.key (Request.MakeRequest m' a fin) = key).
  { unfold Request.key. rewrite Ekl, Edata, Nat2Z.id, load_prefix by lia.
    unfold m', built. rewrite load_store_ne by lia. by apply load_cut. }
  assert (Eval : Request.val (Request.MakeRequest m' a fin) = val).
  { unfold Request.val, Request.Val. rewrite Ekl, Evl, Edata, !Nat2Z.id, load_drop, load_prefix by lia.
    by apply load_cut. }
  by split_and!.
Qed.

(** Part of what was loaded. *)
Lemma load_part m m0 a a0 n i k : load m a n = load m0 a0 n -> (i + k <= n)%nat ->
  load m (a + Z.of_nat i) k = load m0 (a0 + Z.of_nat i) k.
Proof.
  intros H Hn. rewrite <- (load_prefix m (a + Z.of_nat i) k (n - i)), <- (load_prefix m0 (a0 + Z.of_nat i) k (n - i)) by lia.
  by rewrite <- !load_drop, H.
Qed.

Lemma rd8_load m a : rd8 m a = le_combine (load m a 1).
Proof. change (rd8 m a = Z.lor (rd8 m a) 0). by rewrite Z.lor_0_r. Qed.

(** The bytes of a request read as the request wherever they lie. *)
Lemma request_read m a fin m0 a0 ty key val hash :
  Z.of_nat (length key) < 2 ^ 16 -> Z.of_nat (length val) < 2 ^ 16 -> 0 <= hash < 2 ^ 64 ->
  a + 16 + Z.of_nat (length key) + Z.of_nat (length val) <= fin ->
  load m a (16 + length key + length val) = load (built m0 a0 ty key val hash) a0 (16 + length key + length val) ->
  let r := Request.MakeRequest m a fin in
  Request.type r = Request.Type_code ty /\ Request.key r = key /\ Request.val r = val /\
  Request.key_hash r = hash /\ Request.complete r /\
  Request.ReqLen r = 16 + Z.of_nat (length key) + Z.of_nat (length val).
Proof.
  intros Hk Hv Hh Hfin Hload. destruct (built_read m0 a0 _ ty key val hash Hk Hv Hh ltac:(reflexivity)) as (E1 & E2 & E3 & E4 & E5 & E6).
  pose proof (fun i k => load_part _ _ _ _ _ i k Hload) as Hp. clear Hload.
  cbn zeta. set (r := Request.MakeRequest m a fin). set (r0 := Request.MakeRequest (built m0 a0 ty key val hash) _ _) in *.
  assert (Request.type r = Request.type r0) as ->.
  { cbn. pose proof (Hp 0%nat 1%nat ltac:(lia)) as H. rewrite !Z.add_0_r in H. by rewrite !rd8_load, H. }
  assert (Request.key_len r = Request.key_len r0) as Ek by exact (f_equal le_combine (Hp 2%nat 2%nat ltac:(lia))).
  assert (Request.val_len r = Request.val_len r0) as Ev by exact (f_equal le_combine (Hp 4%nat 2%nat ltac:(lia))).
  assert (Request.key_hash r = Request.key_hash r0) as Eh by exact (f_equal le_combine (Hp 8%nat 8%nat ltac:(lia))).
  assert (Request.key r = key) as ->.
  { rewrite <- E5. unfold Request.key. rewrite Ek, E2, Nat2Z.id. cbn. unfold Request.offsetof_data. rewrite !load_prefix by lia. apply (Hp 16%nat). lia. }
  assert (Request.val r = val) as ->.
  { rewrite <- E6. unfold Request.val, Request.Val. rewrite Ek, Ev, E2, E3, !Nat2Z.id. cbn. unfold Request.offsetof_data. rewrite !load_drop, !load_prefix by lia.
    pose proof (Hp (16 + length key)%nat (length val) ltac:(lia)) as H. rewrite Nat2Z.inj_add, !Z.add_assoc in H. exact H. }
  split_and!; try done.
  - by rewrite Eh.
  - unfold Request.complete. rewrite Ek, Ev, Eh, E2, E3, E4. cbn. unfold Request.offsetof_data. rewrite load_length. lia.
  - unfold Request.ReqLen. by rewrite Ek, Ev, E2, E3.
Qed.

(** C13. A request read from the buffer it was built in is the request that
    was asked for. *)
Theorem request_roundtrip m m' a fin ty key val hash :
  Z.of_nat (length key) < 2 ^ 16 -> Z.of_nat (length val) < 2 ^ 16 -> 0 <= hash < 2 ^ 64 ->
  a + 16 + Z.of_nat (length key) + Z.of_nat (length val) <= fin ->
  Request.New_Request a fin ty key (Z.of_nat (length key)) (Some val) (Z.of_nat (length val)) hash m = Ok tt m' ->
  let r := Request.MakeRequest m' a fin in
  Request.Type_of_code (Request.type r) = Some ty /\ Request.key r = key /\ Request.val r = val /\
  Request.key_hash r = hash /\ Request.complete r /\
  Request.ReqLen r = 16 + Z.of_nat (length key) + Z.of_nat (length val).
Proof.
  intros Hk Hv Hh Hfin HN. rewrite New_built in HN by done. injection HN as <-.
  destruct (request_read (built m a ty key val hash) a fin m a ty key val hash) as (E & ? & ? & ? & ? & ?); try done.
  split_and!; try done. by rewrite E, Type_of_Type_code.
Qed.

Lemma request_roundtrip_witness :
  exists m', Request.New_Request 40 2176 Request.PUT [Byte.x6b] 1 (Some [Byte.x76; Byte.x77]) 2 99 ∅ = Ok tt m' /\
  Request.key (Request.MakeRequest m' 40 2176) = [Byte.x6b] /\
  Request.val (Request.MakeRequest m' 40 2176) = [Byte.x76; Byte.x77].
Proof.
  assert (HN : Request.New_Request 40 2176 Request.PUT [Byte.x6b] 1 (Some [Byte.x76; Byte.x77]) 2 99 ∅ =
    Ok tt (built ∅ 40 Request.PUT [Byte.x6b] [Byte.x76; Byte.x77] 99)).
  { apply (New_built ∅ 40 2176 Request.PUT [Byte.x6b] [Byte.x76; Byte.x77] 99). cbn. lia. }
  eexists. split; [exact HN |].
  destruct (request_roundtrip ∅ _ 40 2176 Request.PUT [Byte.x6b] [Byte.x76; Byte.x77] 99
    ltac:(cbn; lia) ltac:(cbn; lia) ltac:(lia) ltac:(cbn; lia) HN) as (_ & Hk & Hv & _).
  split; [exact Hk | exact Hv].
Defined.
