(* ===== verification/Tablet.v ===== *)
(** * [tablet.h], [tablet.cc]: the key-value store in one tablet

    A hash table of singly linked chains of [NVMObject]s, kept behind the
    heap of [Allocator]; [Put], [Add], [Get] and [Del] with every access they
    make.  The modification list the caller passes is the one in the
    allocator's state. *)

From S2P Require Import Prelude Nvm Modification Allocator Wire.

Module Tablet.
Import Allocator.

Definition kHashTableSize : Z := 1000003.

(** [struct NVMObject]: [next], [key_len], [val_len], [key_hash], [data]. *)
Definition off_next : Z := 0.
Definition off_key_len : Z := 4.
Definition off_val_len : Z := 6.
Definition off_key_hash : Z := 8.
Definition off_data : Z := 16.
Definition sizeof_NVMObject : Z := 16.

(** [struct NVMTablet]: the data, then the hash table. *)
Definition offsetof_hash_table : Z := kSize.
Definition kNVMTabletSize : Z := kSize + 4 * kHashTableSize.

(** [OFFSETOF_NVMOBJECT(obj, member)], as the [uint32_t] it is passed as. *)
Definition OFFSETOF_NVMOBJECT (obj member : Z) : Z := u32 (member + obj).

(** [NVMTablet::NVMTablet]; the server maps a tablet without running it. *)
Definition NVMTablet_construct (m : mem) : mem :=
  zero_fill m offsetof_hash_table (4 * kHashTableSize).

Definition slot_of (r : Request.request) : Z :=
  let idx := Request.key_hash r mod kHashTableSize in
  u32 (offsetof_hash_table + sizeof_u32 * idx).

(** [r->key_len == Read(p.key_len) && Memcmp(p.data, r->Key(), r->key_len) == 0];
    the comparison runs only when the lengths agree. *)
Definition same_key (r : Request.request) (p : Z) : M state bool :=
  kl <- Read16 (OFFSETOF_NVMOBJECT p off_key_len) ;;
  if Request.key_len r =? kl then
    c <- Memcmp (OFFSETOF_NVMOBJECT p off_data) (Request.Key r) (Request.key_len r) ;;
    ret (c =? 0)
  else ret false.

(** The loop [while (p)] of [Put]: the object with the key and the one (or
    the slot) that links to it; 0 when the chain ends. *)
Fixpoint find_prev (fuel : nat) (r : Request.request) (q p : Z) : M state (Z * Z) :=
  match fuel with
  | O => fail OutOfFuel
  | S fuel' =>
      if p =? 0 then ret (q, 0)
      else
        same <- same_key r p ;;
        if (same : bool) then ret (q, p)
        else next <- Read32 (OFFSETOF_NVMOBJECT p off_next) ;; find_prev fuel' r p next
  end.

(** The loops of [Add] and [Get]. *)
Fixpoint find (fuel : nat) (r : Request.request) (p : Z) : M state Z :=
  match fuel with
  | O => fail OutOfFuel
  | S fuel' =>
      if p =? 0 then ret 0
      else
        same <- same_key r p ;;
        if (same : bool) then ret p
        else next <- Read32 (OFFSETOF_NVMOBJECT p off_next) ;; find fuel' r next
  end.

(** [NVMObject {next, key_len, val_len, key_hash}] *)
Definition NVMObject_bytes (next key_len val_len key_hash : Z) : list Init.Byte.byte :=
  le_split 4 next ++ le_split 2 key_len ++ le_split 2 val_len ++ le_split 8 key_hash.

(** A new object for [r]: allocate it, write header and data. *)
Definition store_object (r : Request.request) (next : Z) : M state Z :=
  let size := sizeof_NVMObject + Request.key_len r + Request.val_len r in
  p <- Alloc (u32 size) ;;
  assert (negb (p =? 0)) ;;;
  Write p (NVMObject_bytes next (Request.key_len r) (Request.val_len r) (Request.key_hash r)) ;;;
  Memcpy (OFFSETOF_NVMOBJECT p off_data) (Request.data r) (Request.key_len r + Request.val_len r) ;;;
  ret p.

Definition Put (fuel : nat) (r : Request.request) (modifications : ModificationList) : M state Status :=
  set_modifications (Some modifications) ;;;
  assert (Request.type r =? Request.Type_code Request.PUT) ;;;
  let slot := slot_of r in
  head <- Read32 slot ;;
  qp <- find_prev fuel r slot head ;;
  let q := qp.1 in
  let p := qp.2 in
  if negb (p =? 0) then
    (* There is already the same key, overwrite it. *)
    vl <- Read16 (OFFSETOF_NVMOBJECT p off_val_len) ;;
    (if Request.val_len r <? vl then
       Write16 (OFFSETOF_NVMOBJECT p off_val_len) (Request.val_len r) ;;;
       Memcpy (u32 (off_data + p + Request.key_len r)) (Request.Val r) (Request.val_len r)
     else
       next <- Read32 (OFFSETOF_NVMOBJECT p off_next) ;;
       Free p ;;;
       p <- store_object r next ;;
       Write32 (OFFSETOF_NVMOBJECT q off_next) p) ;;;
    ret OK
  else
    p <- store_object r head ;;
    (* Insert the new item to head of the bucket list *)
    Write32 slot p ;;;
    ret OK.

Definition Add (fuel : nat) (r : Request.request) (modifications : ModificationList) : M state Status :=
  set_modifications (Some modifications) ;;;
  assert (Request.type r =? Request.Type_code Request.ADD) ;;;
  let slot := slot_of r in
  head <- Read32 slot ;;
  p <- find fuel r head ;;
  if negb (p =? 0) then ret ERROR
  else
    p <- store_object r head ;;
    Write32 slot p ;;;
    ret OK.

(** The bytes copied to [resp->val], which has room for [cap] bytes. *)
Definition Get (fuel : nat) (cap : Z) (r : Request.request) (modifications : ModificationList) :
    M state (Status * list Init.Byte.byte) :=
  set_modifications (Some modifications) ;;;
  assert (Request.type r =? Request.Type_code Request.GET) ;;;
  p <- Read32 (slot_of r) ;;
  p <- find fuel r p ;;
  if negb (p =? 0) then
    len <- Read16 (OFFSETOF_NVMOBJECT p off_val_len) ;;
    guard (len <=? cap) Segv ;;;
    bs <- Memcpy_to_user (u32 (off_data + p + Request.key_len r)) len ;;
    ret (OK, bs)
  else ret (ERROR, []).

(** The loop of [Del] has no step to the next object: it ends in its first
    iteration or never. *)
Fixpoint Del_loop (fuel : nat) (r : Request.request) (q p : Z) : M state Status :=
  match fuel with
  | O => fail OutOfFuel
  | S fuel' =>
      if p =? 0 then ret ERROR
      else
        same <- same_key r p ;;
        if (same : bool) then
          next <- Read32 (OFFSETOF_NVMOBJECT p off_next) ;;
          Write32 (OFFSETOF_NVMOBJECT q off_next) next ;;;
          Free p ;;;
          ret OK
        else Del_loop fuel' r q p
  end.

Definition Del (fuel : nat) (r : Request.request) (modifications : ModificationList) : M state Status :=
  set_modifications (Some modifications) ;;;
  assert (Request.type r =? Request.Type_code Request.DEL) ;;;
  let q := slot_of r in
  p <- Read32 q ;;
  Del_loop fuel r q p.

End Tablet.
