(* ===== verification/TabletRefine.v ===== *)
(** * The tablet implements a map

    [table s B L] says that the hash table in memory holds the chains [B] of
    objects; [Put], [Add] and [Get] act on it as the operations of a finite
    map do, and every object the allocator handed out is in a chain. *)

From S2P Require Import Prelude Nvm Modification Allocator HeapSpec HeapLists AllocatorWp Heap Objects Wire Tablet.
Import Allocator Tablet.

(** ** Chains of objects *)

Record object := mkObj {
  o_ptr : Z;
  o_key : list Init.Byte.byte;
  o_val : list Init.Byte.byte;
  o_hash : Z
}.

Abbreviation klen o := (Z.of_nat (length (o_key o))).
Abbreviation vlen o := (Z.of_nat (length (o_val o))).

Definition ptr_of (l : list object) : Z := match l with [] => 0 | o :: _ => o_ptr o end.

(** The bytes of an object after its [next] word. *)
Record body (m : mem) (o : object) : Prop := {
  bd_klen : rd16 m (o_ptr o + 4) = klen o;
  bd_vlen : rd16 m (o_ptr o + 6) = vlen o;
  bd_hash : rd64 m (o_ptr o + 8) = o_hash o;
  bd_key : load m (o_ptr o + 16) (length (o_key o)) = o_key o;
  bd_val : load m (o_ptr o + 16 + klen o) (length (o_val o)) = o_val o
}.

Fixpoint chain (m : mem) (l : list object) : Prop :=
  match l with
  | [] => True
  | o :: l' => rd32 m (o_ptr o) = ptr_of l' /\ body m o /\ chain m l'
  end.

Definition osize (o : object) : Z := 16 + klen o + vlen o.

Lemma body_ext m m' o :
  (forall x, o_ptr o + 4 <= x < o_ptr o + osize o -> byte_at m' x = byte_at m x) -> body m o -> body m' o.
Proof.
  unfold osize. intros Hb [H1 H2 H3 H4 H5]. split.
  - etrans; [| exact H1]. unfold rd16. f_equal. apply load_ext. intros. apply Hb. lia.
  - etrans; [| exact H2]. unfold rd16. f_equal. apply load_ext. intros. apply Hb. lia.
  - etrans; [| exact H3]. unfold rd64. f_equal. apply load_ext. intros. apply Hb. lia.
  - etrans; [| exact H4]. apply load_ext. intros. apply Hb. lia.
  - etrans; [| exact H5]. apply load_ext. intros. apply Hb. lia.
Qed.

Lemma chain_ext m m' l :
  (forall o x, o ∈ l -> o_ptr o <= x < o_ptr o + osize o -> byte_at m' x = byte_at m x) ->
  chain m l -> chain m' l.
Proof.
  induction l as [|o l IH]; intros Hb; cbn [chain]; [done |]. intros (H1 & H2 & H3). split_and!.
  - etrans; [| exact H1]. apply rd32_ext. intros x Hx. apply (Hb o); [set_solver | unfold osize; lia].
  - eapply body_ext; [| exact H2]. intros x Hx. apply (Hb o); [set_solver | lia].
  - apply IH; [| done]. intros o' x Ho'. apply Hb. set_solver.
Qed.

Lemma chain_app m l1 l2 : chain m (l1 ++ l2) -> chain m l2.
Proof. induction l1; cbn; naive_solver. Qed.

(** The word that links to what follows [l1] in the chain of [slot]: [next]
    is the first word of an object. *)
Fixpoint link_of (slot : Z) (l1 : list object) : Z :=
  match l1 with
  | [] => slot
  | o :: l1' => link_of (o_ptr o) l1'
  end.

Lemma link_of_cases slot l1 : (l1 = [] /\ link_of slot l1 = slot) \/
  exists o, o ∈ l1 /\ link_of slot l1 = o_ptr o.
Proof.
  revert slot. induction l1 as [|o l1 IH]; intros slot; [by left | right]. cbn.
  destruct (IH (o_ptr o)) as [[-> ->] | (o' & Ho' & ->)]; [exists o | exists o']; set_solver.
Qed.

Lemma link_reads m slot l1 o l2 :
  rd32 m slot = ptr_of (l1 ++ o :: l2) -> chain m (l1 ++ o :: l2) -> rd32 m (link_of slot l1) = o_ptr o.
Proof.
  revert slot. induction l1 as [|a l1 IH]; intros slot Hh Hc; cbn in *; [done |].
  destruct Hc as (Ha & _ & Hc). by apply IH.
Qed.

(** Splicing [o] into the chain behind [l1], in front of [l2]. *)
Lemma chain_splice m m' slot l1 old o l2 :
  rd32 m slot = ptr_of (l1 ++ old) -> chain m (l1 ++ old) -> chain m l2 ->
  NoDup (slot :: (o_ptr <$> l1)) ->
  (forall c x, c ∈ l1 -> o_ptr c + 4 <= x < o_ptr c + osize c -> byte_at m' x = byte_at m x) ->
  (forall c x, c ∈ l2 -> o_ptr c <= x < o_ptr c + osize c -> byte_at m' x = byte_at m x) ->
  (forall w, w ∈ slot :: (o_ptr <$> l1) -> w <> link_of slot l1 -> rd32 m' w = rd32 m w) ->
  rd32 m' (link_of slot l1) = o_ptr o -> rd32 m' (o_ptr o) = ptr_of l2 -> body m' o ->
  rd32 m' slot = ptr_of (l1 ++ o :: l2) /\ chain m' (l1 ++ o :: l2).
Proof.
  intros Hhead Hc Hc2 Hnd Hb1 Hb2 Hw Hlink Ho Hbody. revert slot Hhead Hnd Hw Hlink.
  induction l1 as [|a l1 IH]; intros slot Hhead Hnd Hw Hlink; cbn [app link_of chain ptr_of fmap list_fmap] in *.
  - split_and!; [done | done | done |]. eapply chain_ext; [exact Hb2 | done].
  - apply list.NoDup_cons in Hnd as [Hna Hnd]. destruct Hc as (Ha1 & Ha2 & Hc).
    destruct (IH Hc) with (slot := o_ptr a) as [I1 I2]; [set_solver | done | done | | done |].
    + intros w Hwin. apply Hw. set_solver.
    + assert (slot <> link_of (o_ptr a) l1) as Hne.
      { destruct (link_of_cases (o_ptr a) l1) as [[_ ->] | (b & Hb & ->)]; [set_solver |].
        intros ->. apply Hna. apply elem_of_cons. right. apply list_elem_of_fmap. by exists b. }
      split; [rewrite Hw; [done | set_solver | done] |]. split_and!; [done | | done].
      eapply body_ext; [| done]. intros x. apply Hb1. set_solver.
Qed.

(** ** The table *)

Definition bucket_of (r : Request.request) : Z := Request.key_hash r mod kHashTableSize.

Record table (s : state) (B : Z -> list object) (L : gmap Z Z) : Prop := {
  tb_region : kNVMTabletSize <= region s;
  tb_range : forall i, B i <> [] -> 0 <= i < kHashTableSize;
  tb_head : forall i, 0 <= i < kHashTableSize -> rd32 (nvm s) (kSize + 4 * i) = ptr_of (B i);
  tb_chain : forall i, chain (nvm s) (B i);
  tb_room : forall i o, o ∈ B i -> exists n, L !! o_ptr o = Some n /\ osize o <= n;
  tb_hash : forall i o, o ∈ B i -> o_hash o mod kHashTableSize = i;
  tb_nodup : forall i, NoDup (o_ptr <$> B i);
  tb_apart : forall i j o o', o ∈ B i -> o' ∈ B j -> o_ptr o = o_ptr o' -> i = j;
  tb_keys : forall i, NoDup (o_key <$> B i);
  tb_all : forall p n, L !! p = Some n -> exists i o, o ∈ B i /\ o_ptr o = p
}.

(** The value of a key in a chain. *)
Fixpoint assoc (k : list Init.Byte.byte) (l : list object) : option (list Init.Byte.byte) :=
  match l with
  | [] => None
  | o :: l' => if decide (o_key o = k) then Some (o_val o) else assoc k l'
  end.

Lemma assoc_app k l1 l2 : assoc k (l1 ++ l2) =
  match assoc k l1 with Some v => Some v | None => assoc k l2 end.
Proof. induction l1 as [|o l1 IH]; cbn; [done |]. by case_decide. Qed.

Lemma assoc_None k l : assoc k l = None <-> k ∉ o_key <$> l.
Proof.
  induction l as [|o l IH]; cbn; [set_solver |].
  case_decide; [split; [done | set_solver] |]. rewrite IH. set_solver.
Qed.

(** Keys and values of the store: a key is looked up in its hash's bucket. *)
Definition contents (B : Z -> list object) (i : Z) (k : list Init.Byte.byte) : option (list Init.Byte.byte) :=
  assoc k (B i).

(** ** Finding a key *)

Lemma memcmp_eq a b : length a = length b -> (memcmp a b =? 0) = bool_decide (a = b).
Proof.
  revert b. induction a as [|x a IH]; intros [|y b] Hl; cbn in *; try lia; [done |].
  destruct (Z.eqb_spec (byte.unsigned x) (byte.unsigned y)) as [E | E].
  - apply byte.unsigned_inj in E as ->. rewrite IH by lia.
    apply bool_decide_ext. naive_solver.
  - rewrite bool_decide_eq_false_2 by congruence. by case_match.
Qed.

Lemma Read16_run off s : 0 < off -> off + 2 <= region s -> Read16 off s = Ok (rd16 (nvm s) off) s.
Proof.
  intros H1 H2. unfold Read16, Read, OffsetToPtr, bind, assert, guard, get, gets, ret, in_region.
  destruct (Z.eqb_spec off 0); [lia |]. cbn [negb].
  by rewrite (proj2 (Z.leb_le 0 off)), (proj2 (Z.leb_le _ (region s))) by lia.
Qed.

Lemma Read32_run off s : 0 < off -> off + 4 <= region s -> Read32 off s = Ok (rd32 (nvm s) off) s.
Proof.
  intros H1 H2. unfold Read32, Read, OffsetToPtr, bind, assert, guard, get, gets, ret, in_region.
  destruct (Z.eqb_spec off 0); [lia |]. cbn [negb].
  by rewrite (proj2 (Z.leb_le 0 off)), (proj2 (Z.leb_le _ (region s))) by lia.
Qed.

Lemma Memcmp_run off buf n s :
  0 <= off -> off + n <= region s -> 0 <= n <= Z.of_nat (length buf) ->
  Memcmp off buf n s = Ok (memcmp (load (nvm s) off (Z.to_nat n)) (take (Z.to_nat n) buf)) s.
Proof.
  intros H1 H2 H3. unfold Memcmp, nvm_bytes, user_bytes, OffsetToPtr, bind, guard, get, gets, ret, in_region.
  rewrite (proj2 (Z.leb_le 0 off)), (proj2 (Z.leb_le _ (region s))), (proj2 (Z.leb_le n _)) by lia. done.
Qed.

(** Where an object of the table may lie. *)
Definition placed (o : object) : Prop := 0 < o_ptr o /\ o_ptr o + osize o <= kSize.

Ltac tab_consts :=
  change FIRST with 292 in *;
  change kSize with 67108864 in *; change kHashTableSize with 1000003 in *;
  change kNVMTabletSize with 71108876 in *; change off_next with 0 in *;
  change off_key_len with 4 in *; change off_val_len with 6 in *; change off_data with 16 in *;
  change sizeof_NVMObject with 16 in *.

Ltac offs := unfold OFFSETOF_NVMOBJECT; rewrite ?u32_small by (unfold placed, osize in *; tab_consts; lia).

Section Find.
Context (s : state) (r : Request.request) (Hreg : kNVMTabletSize <= region s) (Hr : Request.complete r).

Lemma request_key_length : Z.of_nat (length (Request.key r)) = Request.key_len r.
Proof using Hr. unfold Request.key. rewrite length_take. destruct Hr. lia. Qed.

Lemma request_val_length : Z.of_nat (length (Request.val r)) = Request.val_len r.
Proof using Hr. unfold Request.val, Request.Val. rewrite length_take, length_drop. destruct Hr. lia. Qed.

Lemma same_key_run o : body (nvm s) o -> placed o ->
  same_key r (o_ptr o) s = Ok (bool_decide (o_key o = Request.key r)) s.
Proof using Hreg Hr.
  intros Hb Hp. unfold same_key. offs. destruct Hp as [Hp1 Hp2]. unfold osize in Hp2.
  pose proof request_key_length as Hkl. destruct Hr as (Hr1 & Hr2 & _ & Hr4).
  rewrite (bind_Ok _ _ _ _ _ (Read16_run (4 + o_ptr o) s ltac:(lia) ltac:(tab_consts; lia))).
  replace (4 + o_ptr o) with (o_ptr o + 4) by lia. rewrite (bd_klen _ _ Hb).
  destruct (Z.eqb_spec (Request.key_len r) (klen o)) as [E | E].
  - assert (HM : Memcmp (16 + o_ptr o) (Request.Key r) (Request.key_len r) s =
      Ok (memcmp (o_key o) (Request.key r)) s).
    { rewrite Memcmp_run by (unfold Request.Key; tab_consts; lia).
      replace (16 + o_ptr o) with (o_ptr o + 16) by lia. rewrite E at 1. rewrite Nat2Z.id.
      by rewrite (bd_key _ _ Hb). }
    rewrite (bind_Ok _ _ _ _ _ HM). unfold ret. rewrite memcmp_eq; [done |]. lia.
  - rewrite bool_decide_eq_false_2; [done |]. intros Ek. rewrite Ek in E. lia.
Qed.

Lemma find_prev_run fuel slot l :
  chain (nvm s) l -> (forall o, o ∈ l -> placed o) -> (length l < fuel)%nat ->
  (find_prev fuel r slot (ptr_of l) s = Ok (link_of slot l, 0) s /\ (Request.key r ∉ o_key <$> l)) \/
  exists l1 o l2, l = l1 ++ o :: l2 /\ o_key o = Request.key r /\ (Request.key r ∉ o_key <$> l1) /\
    find_prev fuel r slot (ptr_of l) s = Ok (link_of slot l1, o_ptr o) s.
Proof using Hreg Hr.
  revert fuel slot. induction l as [|o l IH]; intros fuel slot Hc Hp Hf; (destruct fuel as [|fuel]; [cbn in Hf; lia |]).
  - left. cbn. split; [done | set_solver].
  - destruct Hc as (Hn & Hb & Hc). assert (Ho : placed o) by (apply Hp; set_solver).
    cbn [find_prev ptr_of]. destruct (Z.eqb_spec (o_ptr o) 0); [destruct Ho; lia |].
    rewrite (bind_Ok _ _ _ _ _ (same_key_run o Hb Ho)).
    destruct (decide (o_key o = Request.key r)) as [E | E].
    + rewrite bool_decide_eq_true_2 by done. right. exists [], o, l. cbn. split_and!; [done | done | set_solver | done].
    + rewrite bool_decide_eq_false_2 by done. offs.
      assert (HR : Read32 (0 + o_ptr o) s = Ok (ptr_of l) s).
      { rewrite Read32_run by (destruct Ho; unfold osize in *; tab_consts; lia).
        by rewrite Z.add_0_l, Hn. }
      rewrite (bind_Ok _ _ _ _ _ HR).
      destruct (IH fuel (o_ptr o) Hc) as [[IH1 IH2] | (l1 & o' & l2 & -> & Hk & Hl1 & IH')];
        [intros o' Ho'; apply Hp; set_solver | cbn in Hf; lia | left | right].
      * split; [by rewrite IH1 |]. set_solver.
      * exists (o :: l1), o', l2. split_and!; [done | done | set_solver | done].
Qed.

(** [find] walks like [find_prev]. *)
Lemma find_prev_find fuel q p : forall s',
  find fuel r p s' = match find_prev fuel r q p s' with Ok qp t => Ok qp.2 t | Err e t => Err e t end.
Proof.
  revert q p. induction fuel as [|fuel IH]; intros q p s'; cbn; [done |].
  destruct (p =? 0); [done |]. unfold bind. destruct (same_key r p s') as [[] t | e t]; [done | | done].
  destruct (Read32 _ t); [apply IH | done].
Qed.

Lemma find_run fuel l :
  chain (nvm s) l -> (forall o, o ∈ l -> placed o) -> (length l < fuel)%nat ->
  (find fuel r (ptr_of l) s = Ok 0 s /\ assoc (Request.key r) l = None) \/
  exists o, o ∈ l /\ find fuel r (ptr_of l) s = Ok (o_ptr o) s /\ assoc (Request.key r) l = Some (o_val o) /\
    o_key o = Request.key r.
Proof using Hreg Hr.
  intros Hc Hp Hf. rewrite (find_prev_find fuel 0).
  destruct (find_prev_run fuel 0 l Hc Hp Hf) as [[-> H] | (l1 & o & l2 & -> & Hk & Hl1 & ->)].
  - left. split; [done |]. by apply assoc_None.
  - right. exists o. split_and!; [set_solver | done | | done].
    rewrite assoc_app, (proj2 (assoc_None _ l1)) by done. cbn. by rewrite decide_True.
Qed.
End Find.

(** ** Storing an object *)

Definition request_size (r : Request.request) : Z := 16 + Request.key_len r + Request.val_len r.

Definition request_object (r : Request.request) (p : Z) : object :=
  mkObj p (Request.key r) (Request.val r) (Request.key_hash r).

Lemma request_osize r p : Request.complete r -> osize (request_object r p) = request_size r.
Proof.
  intros Hr. unfold osize, request_size. cbn.
  rewrite request_key_length, request_val_length by done. done.
Qed.

Lemma load_app_store m a bs1 bs2 n1 :
  n1 = length bs1 -> load (store m a (bs1 ++ bs2)) a n1 = bs1.
Proof. intros ->. rewrite store_app, load_store_ne by lia. apply load_store_eq. Qed.

(** Header and data written: the object is in memory. *)
Lemma stored_body m r p next : Request.complete r -> 0 <= next < 2 ^ 32 ->
  let m' := store (store m p (NVMObject_bytes next (Request.key_len r) (Request.val_len r) (Request.key_hash r)))
              (p + 16) (take (Z.to_nat (Request.key_len r + Request.val_len r)) (Request.data r)) in
  rd32 m' p = next /\ body m' (request_object r p).
Proof.
  intros Hr Hnext m'. pose proof (request_key_length r Hr) as Hk. pose proof (request_val_length r Hr) as Hv.
  destruct Hr as (Hr1 & Hr2 & Hr3 & Hr4).
  set (hd := NVMObject_bytes _ _ _ _) in *.
  assert (Hhd : forall o k a, (o + k <= 16)%nat -> a = p + Z.of_nat o -> load m' a k = take k (drop o hd)).
  { intros o k a Hok ->. unfold m'. rewrite load_store_ne by lia. apply load_store_sub.
    unfold hd, NVMObject_bytes. rewrite !length_app, !length_le_split. lia. }
  assert (Hdata : take (Z.to_nat (Request.key_len r + Request.val_len r)) (Request.data r) =
    Request.key r ++ Request.val r).
  { unfold Request.key, Request.val, Request.Val. rewrite Z2Nat.inj_add by lia.
    by rewrite <- take_take_drop. }
  split; [| split; cbn].
  - unfold rd32. rewrite (Hhd 0%nat 4%nat) by lia.
    change (take 4 (drop 0 hd)) with (le_split 4 next). rewrite le_combine_split. by apply Z.mod_small.
  - unfold rd16. rewrite (Hhd 4%nat 2%nat) by lia.
    change (take 2 (drop 4 hd)) with (le_split 2 (Request.key_len r)). rewrite le_combine_split, Hk.
    by apply Z.mod_small.
  - unfold rd16. rewrite (Hhd 6%nat 2%nat) by lia.
    change (take 2 (drop 6 hd)) with (le_split 2 (Request.val_len r)). rewrite le_combine_split, Hv.
    by apply Z.mod_small.
  - unfold rd64. rewrite (Hhd 8%nat 8%nat) by lia.
    change (take 8 (drop 8 hd)) with (le_split 8 (Request.key_hash r)). rewrite le_combine_split.
    by apply Z.mod_small.
  - unfold m'. rewrite Hdata. by apply load_app_store.
  - unfold m'. rewrite Hdata, store_app. apply load_cut. done.
Qed.

(** [store_object] succeeds or stops the process; the new object does not
    overlap the others. *)
Lemma wp_store_object r next s L h (Q : Z -> state -> Prop) (E : error -> state -> Prop) :
  session s L h -> kNVMTabletSize <= region s -> Request.complete r -> fits (request_size r) ->
  0 <= next < 2 ^ 32 -> (forall s', E AssertFail s') ->
  (forall p s' h', p <> 0 -> L !! p = None -> session s' (<[p := request_size r]> L) h' -> same_env s s' ->
     frame L (nvm s) (nvm s') -> rd32 (nvm s') p = next -> body (nvm s') (request_object r p) -> Q p s') ->
  wp (store_object r next) Q E s.
Proof.
  intros Hs Hreg Hr Hf Hnext HE HQ. pose proof Hr as (Hr1 & Hr2 & Hr3 & Hr4).
  unfold store_object. tab_consts. fold (request_size r).
  assert (Hsz : 12 < request_size r < 2 ^ 32) by (destruct Hf as [Hf _]; size_lia).
  rewrite u32_small by lia. apply wp_bind. eapply wp_Alloc_object; [exact Hs | done | done | |].
  - intros s' _ _ _. apply wp_bind. unfold wp. cbn. apply HE.
  - intros p s1 h1 Hp HL Hs1 He1 Hfr1. cbn beta.
    assert (Hlk : <[p := request_size r]> L !! p = Some (request_size r)) by apply lookup_insert_eq.
    pose proof (object_bounds _ _ _ Hs1 _ _ Hlk) as Hb.
    assert (Hp1 : FIRST < p /\ p + request_size r <= kSize) by (consts_full; lia).
    assert (Hreg1 : kNVMTabletSize <= region s1) by (destruct He1 as [_ ->]; done).
    assert (Hown : forall x, p <= x < p + request_size r -> owned (<[p := request_size r]> L) x).
    { intros x Hx. by exists p, (request_size r). }
    wp_step. apply wp_assert; [by destruct (Z.eqb_spec p 0) |].
    assert (Hlen : Z.of_nat (length (NVMObject_bytes next (Request.key_len r) (Request.val_len r)
      (Request.key_hash r))) = 16).
    { unfold NVMObject_bytes. rewrite !length_app, !length_le_split. done. }
    unfold request_size in Hown, Hp1. wp_step. eapply wp_Write_object; [exact Hs1 | | | |]; rewrite ?Hlen.
    { intros x Hx. left. apply Hown. lia. }
    { consts_full. lia. }
    { tab_consts. lia. }
    intros s2 Hs2 He2 Hm2. wp_step. offs. eapply wp_Memcpy_object; [exact Hs2 | | | | |].
    { intros x Hx. apply Hown. lia. }
    { consts_full. lia. }
    { destruct He2 as [_ ->]. tab_consts. lia. }
    { lia. }
    intros s3 Hs3 He3 Hm3. apply wp_ret.
    destruct (stored_body (nvm s1) r p next Hr Hnext) as [Hw Hbody].
    replace (16 + p) with (p + 16) in Hm3 by lia. rewrite <- Hm2, <- Hm3 in Hw, Hbody.
    apply (HQ p s3 h1); [done | done | done | by eauto using same_env_trans | | done | done].
    intros x Hx. rewrite Hm3, Hm2.
    assert (x < p \/ p + request_size r <= x) as Hout.
    { destruct Hx as [(q & k & Hq & Hqx) | Hx]; [| unfold request_size; lia].
      assert (p <> q) by congruence.
      destruct (objects_apart _ _ _ Hs1 p (request_size r) q k Hlk) as [Hpq | Hpq];
        [by rewrite lookup_insert_ne | done | right; lia | left; lia]. }
    unfold request_size in Hout. rewrite !byte_at_store_out; [by apply Hfr1 | rewrite Hlen; lia |].
    rewrite length_take. lia.
Qed.

(** ** Changing one chain *)

(** Replacing the part [l] of a list without duplicates by [x]. *)
Lemma NoDup_splice {A B} (f : A -> B) l1 (l : list A) l2 x :
  NoDup (f <$> (l1 ++ l ++ l2)) -> f x ∉ f <$> (l1 ++ l2) -> NoDup (f <$> (l1 ++ x :: l2)).
Proof.
  rewrite !fmap_app, fmap_cons. intros Hnd Hx.
  rewrite <- Permutation_middle. apply list.NoDup_cons. split; [done |].
  apply list.NoDup_app in Hnd as (H1 & H2 & H3). apply list.NoDup_app in H3 as (_ & _ & H4).
  apply list.NoDup_app. split_and!; [done | | done]. intros y Hy Hy2. apply (H2 y Hy). set_solver.
Qed.

Definition slot_at (i : Z) : Z := kSize + 4 * i.

Section Update.
Context (s s' : state) (B : Z -> list object) (L : gmap Z Z) (h : heap).
Context (Hs : session s L h) (Ht : table s B L).
Context (i : Z) (l1 l2 : list object) (oldo : option object) (o' : object) (n' : Z).
Context (Hi : 0 <= i < kHashTableSize).

(** The chain with the object to replace, if any. *)
Definition old_part : list object := match oldo with Some o => o :: l2 | None => l2 end.
Definition kept_objects : gmap Z Z := match oldo with Some o => delete (o_ptr o) L | None => L end.

Context (HB : B i = l1 ++ old_part).

Let q := link_of (slot_at i) l1.
Let L' := <[o_ptr o' := n']> kept_objects.
Let B' := upd i (l1 ++ o' :: l2) B.

Definition kept (c : object) : Prop := c ∈ l1 \/ c ∈ l2 \/ exists j, j <> i /\ c ∈ B j.

Lemma kept_in c : kept c -> exists j, c ∈ B j.
Proof.
  intros [H | [H | (j & _ & H)]]; [exists i | exists i | by exists j]; rewrite HB; unfold old_part.
  - set_solver.
  - destruct oldo; set_solver.
Qed.

Lemma old_not_kept o c : oldo = Some o -> kept c -> o_ptr c <> o_ptr o.
Proof.
  intros Eo Hc E. pose proof (tb_nodup _ _ _ Ht i) as Hnd. rewrite HB in Hnd. unfold old_part in *.
  assert (Ho : o ∈ B i) by (rewrite HB, Eo; set_solver).
  rewrite Eo, fmap_app, fmap_cons in Hnd. apply NoDup_drop_mid in Hnd as [_ Hnd].
  destruct Hc as [H | [H | (j & Hj & H)]].
  - apply Hnd. rewrite <- E. apply elem_of_app. left. apply list_elem_of_fmap. by exists c.
  - apply Hnd. rewrite <- E. apply elem_of_app. right. apply list_elem_of_fmap. by exists c.
  - by apply Hj, (tb_apart _ _ _ Ht j i c o).
Qed.

Lemma kept_room c : kept c -> exists n, kept_objects !! o_ptr c = Some n /\ osize c <= n.
Proof.
  intros Hc. destruct (kept_in c Hc) as [j Hj]. destruct (tb_room _ _ _ Ht j c Hj) as (n & Hn & Hle).
  exists n. split; [| done]. unfold kept_objects. destruct oldo as [o |] eqn:Eo; [| done].
  rewrite lookup_delete_ne; [done |]. intros E. by apply (old_not_kept o c).
Qed.

Lemma kept_objects_sub p n : kept_objects !! p = Some n -> L !! p = Some n.
Proof. unfold kept_objects. destruct oldo; [by intros [_ H]%lookup_delete_Some | done]. Qed.

Lemma kept_placed c : kept c -> placed c.
Proof.
  intros Hc. destruct (kept_room c Hc) as (n & Hn & Hle).
  pose proof (object_bounds _ _ _ Hs _ _ (kept_objects_sub _ _ Hn)).
  unfold placed. consts_full. lia.
Qed.

(** Only the link word meets a kept object, if it is the object's. *)
Lemma kept_link c x : kept c -> o_ptr c <= x < o_ptr c + osize c -> q <= x < q + 4 -> o_ptr c = q.
Proof.
  intros Hc Hx Hq. pose proof (kept_placed c Hc) as [Hp1 Hp2].
  destruct (link_of_cases (slot_at i) l1) as [[_ E] | (d & Hd & E)]; fold q in E.
  - exfalso. unfold slot_at in E. tab_consts. lia.
  - assert (Hdk : kept d) by by left. destruct (kept_room d Hdk) as (nd & Hnd & Hled).
    destruct (kept_room c Hc) as (nc & Hnc & Hlec). rewrite E in *.
    destruct (decide (o_ptr c = o_ptr d)) as [| Hne]; [done | exfalso].
    assert (4 <= osize d) by (unfold osize; lia).
    destruct (objects_apart _ _ _ Hs _ _ _ _ (kept_objects_sub _ _ Hnc) (kept_objects_sub _ _ Hnd) Hne); lia.
Qed.

Context (Hreg : kNVMTabletSize <= region s').
Context (Hfr : forall x, owned kept_objects x \/ kSize <= x -> ~ (q <= x < q + 4) ->
  byte_at (nvm s') x = byte_at (nvm s) x).
Context (Hlink : rd32 (nvm s') q = o_ptr o') (Hnext : rd32 (nvm s') (o_ptr o') = ptr_of l2).
Context (Hbody : body (nvm s') o') (Hroom : osize o' <= n').
Context (Hnew : kept_objects !! o_ptr o' = None).
Context (Hhash : o_hash o' mod kHashTableSize = i).
Context (Hkey : o_key o' ∉ o_key <$> (l1 ++ l2)).

Lemma kept_bytes c x : kept c -> o_ptr c <= x < o_ptr c + osize c -> o_ptr c <> q \/ o_ptr c + 4 <= x ->
  byte_at (nvm s') x = byte_at (nvm s) x.
Proof.
  intros Hc Hx Hq. apply Hfr.
  - left. destruct (kept_room c Hc) as (n & Hn & Hle). exists (o_ptr c), n. split; [done | lia].
  - intros Hxq. pose proof (kept_link c x Hc Hx Hxq). lia.
Qed.

Lemma q_not c : c ∈ l2 \/ (exists j, j <> i /\ c ∈ B j) -> o_ptr c <> q.
Proof.
  intros Hc E. assert (Hck : kept c) by (destruct Hc; [by right; left | by right; right]).
  destruct (link_of_cases (slot_at i) l1) as [[_ E'] | (d & Hd & E')]; fold q in E'; rewrite E' in E.
  - destruct (kept_placed c Hck) as [Hp1 Hp2]. unfold slot_at in E. unfold osize in Hp2. tab_consts. lia.
  - destruct Hc as [Hc | (j & Hj & Hc)].
    + pose proof (tb_nodup _ _ _ Ht i) as Hnd. rewrite HB, fmap_app in Hnd.
      apply list.NoDup_app in Hnd as (_ & Hnd & _). apply (Hnd (o_ptr d)).
      * apply list_elem_of_fmap. by exists d.
      * rewrite <- E. unfold old_part. apply list_elem_of_fmap. exists c. split; [done |]. destruct oldo; set_solver.
    + assert (d ∈ B i) by (rewrite HB; set_solver). by apply Hj, (tb_apart _ _ _ Ht j i c d).
Qed.

Lemma chain_changed : rd32 (nvm s') (slot_at i) = ptr_of (l1 ++ o' :: l2) /\ chain (nvm s') (l1 ++ o' :: l2).
Proof.
  apply (chain_splice (nvm s) _ _ l1 old_part); try done.
  - rewrite <- HB. by apply (tb_head _ _ _ Ht).
  - rewrite <- HB. apply (tb_chain _ _ _ Ht).
  - apply (chain_app _ (l1 ++ match oldo with Some o => [o] | None => [] end)).
    pose proof (tb_chain _ _ _ Ht i) as Hc. rewrite HB in Hc. unfold old_part in Hc.
    destruct oldo; [by rewrite <- app_assoc | by rewrite app_nil_r].
  - apply list.NoDup_cons. split.
    + intros (c & E & Hc)%list_elem_of_fmap. destruct (kept_placed c ltac:(by left)) as [Hp1 Hp2].
      unfold slot_at, osize in *. tab_consts. lia.
    + pose proof (tb_nodup _ _ _ Ht i) as Hnd. rewrite HB, fmap_app in Hnd.
      by apply list.NoDup_app in Hnd as (Hnd & _ & _).
  - intros c x Hc Hx. apply (kept_bytes c); [by left | lia | lia].
  - intros c x Hc Hx. apply (kept_bytes c); [by right; left | lia | left].
    apply q_not. by left.
  - intros w Hw Hne. apply rd32_ext. intros x Hx.
    apply elem_of_cons in Hw as [-> | (c & -> & Hc)%list_elem_of_fmap].
    + apply Hfr; [right; unfold slot_at in *; tab_consts; lia |]. intros Hxq. fold q in Hne.
      destruct (link_of_cases (slot_at i) l1) as [[_ E] | (d & Hd & E)]; fold q in E; [done |].
      destruct (kept_placed d ltac:(by left)) as [Hp1 Hp2]. unfold slot_at, osize in *. tab_consts. lia.
    + apply (kept_bytes c); [by left | unfold osize; lia | by left].
Qed.

Lemma table_change : table s' B' L'.
Proof using All.
  destruct chain_changed as [Hc1 Hc2].
  assert (Hin : forall j c, c ∈ B' j -> (c = o' /\ j = i) \/ (kept c /\ c ∈ B j)).
  { intros j c [[-> Hc] | [Hj Hc]]%elem_of_upd; [| right; split; [right; right; by exists j | done]].
    apply elem_of_app in Hc as [Hc | [-> | Hc]%elem_of_cons].
    - right. split; [by left | rewrite HB; set_solver].
    - by left.
    - right. split; [by right; left |]. rewrite HB. unfold old_part. destruct oldo; set_solver. }
  assert (Hptr : forall c, kept c -> o_ptr c <> o_ptr o').
  { intros c Hc E. destruct (kept_room c Hc) as (n & Hn & _). congruence. }
  split.
  - done.
  - intros j Hj. destruct (decide (j = i)) as [-> |]; [done |]. apply (tb_range _ _ _ Ht).
    unfold B' in Hj. by rewrite upd_ne in Hj.
  - intros j Hj. unfold B'. destruct (decide (j = i)) as [-> | Hne]; [by rewrite upd_eq |].
    rewrite upd_ne by done. rewrite <- (tb_head _ _ _ Ht j Hj). apply rd32_ext. intros x Hx.
    apply Hfr; [right; tab_consts; lia |]. intros Hxq.
    destruct (link_of_cases (slot_at i) l1) as [[_ E] | (d & Hd & E)]; fold q in E.
    + unfold slot_at in E. lia.
    + destruct (kept_placed d ltac:(by left)) as [Hp1 Hp2]. unfold osize in *. tab_consts. lia.
  - intros j. unfold B'. destruct (decide (j = i)) as [-> | Hne]; [by rewrite upd_eq |].
    rewrite upd_ne by done. eapply chain_ext; [| apply (tb_chain _ _ _ Ht)]. intros c x Hc Hx.
    apply (kept_bytes c); [right; right; by exists j | done | left]. apply q_not. right. by exists j.
  - intros j c [[-> ->] | [Hk Hc]]%Hin.
    + exists n'. unfold L'. by rewrite lookup_insert_eq.
    + destruct (kept_room c Hk) as (n & Hn & Hle). exists n. split; [| done].
      unfold L'. rewrite lookup_insert_ne; [done |]. intros E. by apply (Hptr c).
  - intros j c [[-> ->] | [Hk Hc]]%Hin; [done |]. by apply (tb_hash _ _ _ Ht).
  - intros j. unfold B'. destruct (decide (j = i)) as [-> | Hne];
      [rewrite upd_eq | rewrite upd_ne by done; apply (tb_nodup _ _ _ Ht)].
    apply (NoDup_splice o_ptr l1 (if oldo is Some o then [o] else []) l2).
    + pose proof (tb_nodup _ _ _ Ht i) as Hnd. rewrite HB in Hnd. unfold old_part in Hnd. by destruct oldo.
    + intros (c & E & Hc)%list_elem_of_fmap. apply (Hptr c); [| done].
      apply elem_of_app in Hc as [Hc | Hc]; [by left | by right; left].
  - intros j k c d Hc Hd E. destruct (Hin _ _ Hc) as [[-> ->] | [Hkc Hc']];
      destruct (Hin _ _ Hd) as [[-> ->] | [Hkd Hd']]; [done | | |].
    + by destruct (Hptr d).
    + by destruct (Hptr c).
    + by apply (tb_apart _ _ _ Ht j k c d).
  - intros j. unfold B'. destruct (decide (j = i)) as [-> | Hne];
      [rewrite upd_eq | rewrite upd_ne by done; apply (tb_keys _ _ _ Ht)].
    apply (NoDup_splice o_key l1 (if oldo is Some o then [o] else []) l2); [| done].
    pose proof (tb_keys _ _ _ Ht i) as Hnd. rewrite HB in Hnd. unfold old_part in Hnd. by destruct oldo.
  - intros p n. unfold L'. intros [[<- _] | [Hne Hp]]%lookup_insert_Some.
    + exists i, o'. split; [| done]. unfold B'. rewrite upd_eq. set_solver.
    + destruct (tb_all _ _ _ Ht p n (kept_objects_sub _ _ Hp)) as (j & c & Hc & Ec).
      exists j, c. split; [| done]. unfold B'. destruct (decide (j = i)) as [-> | Hj];
        [rewrite upd_eq | by rewrite upd_ne].
      rewrite HB in Hc. unfold old_part, kept_objects in *. destruct oldo as [o |]; [| set_solver].
      apply lookup_delete_Some in Hp as [Hpo _].
      apply elem_of_app in Hc as [Hc | [-> | Hc]%elem_of_cons]; [set_solver | done | set_solver].
Qed.
End Update.

(** ** [Put] and [Add] *)

(** The store after [r] put its value. *)
Definition updated (r : Request.request) (B : Z -> list object) (s' : state) : Prop :=
  exists B' L' h', session s' L' h' /\ table s' B' L' /\
    forall i k, contents B' i k =
      if decide (i = bucket_of r /\ k = Request.key r) then Some (Request.val r) else contents B i k.

Definition only_assert (e : error) (s' : state) : Prop := e = AssertFail.

Lemma contents_change B i l1 l2 oldo o' : B i = l1 ++ old_part l2 oldo ->
  o_key o' ∉ o_key <$> (l1 ++ l2) -> (forall o, oldo = Some o -> o_key o = o_key o') ->
  forall j k, contents (upd i (l1 ++ o' :: l2) B) j k =
    if decide (j = i /\ k = o_key o') then Some (o_val o') else contents B j k.
Proof.
  intros HB Hk Ho j k. unfold contents. destruct (decide (j = i)) as [-> | Hj].
  2: { rewrite upd_ne by done. by rewrite decide_False by naive_solver. }
  rewrite upd_eq, HB, !assoc_app. rewrite fmap_app, not_elem_of_app in Hk. destruct Hk as [Hk1 Hk2].
  destruct (decide (k = o_key o')) as [-> | Hne].
  - rewrite decide_True by done. rewrite (proj2 (assoc_None _ l1)) by done. cbn. by rewrite decide_True.
  - rewrite decide_False by naive_solver. destruct (assoc k l1); [done |]. cbn. rewrite decide_False by congruence.
    unfold old_part. destruct oldo as [o |]; [| done]. cbn. rewrite decide_False; [done |]. by rewrite (Ho o).
Qed.

Lemma table_placed s B L h i o : session s L h -> table s B L -> o ∈ B i -> placed o.
Proof.
  intros Hs Ht Ho. destruct (tb_room _ _ _ Ht i o Ho) as (n & Hn & Hle).
  pose proof (object_bounds _ _ _ Hs _ _ Hn). unfold placed. consts_full. lia.
Qed.

Lemma bucket_range r : 0 <= bucket_of r < kHashTableSize.
Proof. apply Z.mod_pos_bound. done. Qed.

Lemma slot_of_at r : slot_of r = slot_at (bucket_of r).
Proof.
  pose proof (bucket_range r). unfold slot_of, slot_at. fold (bucket_of r).
  apply u32_small. unfold offsetof_hash_table, sizeof_u32. tab_consts. lia.
Qed.

Lemma with_modifications_session ms s L h : session s L h -> session (with_modifications (Some ms) s) L h.
Proof. intros [H1 [H2 H3] H4 H5]. split; [done | by split | done | done]. Qed.

Lemma with_modifications_table ms s B L : table s B L -> table (with_modifications (Some ms) s) B L.
Proof. by intros []. Qed.

Section Insert.
Context (s : state) (B : Z -> list object) (L : gmap Z Z) (h : heap) (r : Request.request).
Context (Hs : session s L h) (Ht : table s B L) (Hr : Request.complete r) (Hf : fits (request_size r)).
Context (l1 l2 : list object) (oldo : option object).
Context (HB : B (bucket_of r) = l1 ++ old_part l2 oldo).
Context (Hold : forall o, oldo = Some o -> o_key o = Request.key r).
Context (Hkey : Request.key r ∉ o_key <$> (l1 ++ l2)).

Let q := link_of (slot_at (bucket_of r)) l1.
Let K := kept_objects L oldo.

(** The link word lies in an object that stays, or in the hash table. *)
Lemma link_where : (q = slot_at (bucket_of r)) \/
  (exists n, K !! q = Some n /\ 16 <= n /\ 0 < q /\ q + 16 <= kSize).
Proof.
  destruct (link_of_cases (slot_at (bucket_of r)) l1) as [[_ E] | (d & Hd & E)]; [by left | right].
  fold q in E. rewrite E.
  assert (Hk : kept B (bucket_of r) l1 l2 d) by by left.
  destruct (kept_room s B L h Hs Ht _ l1 l2 oldo (request_object r 0) (bucket_range r) HB d Hk) as (n & Hn & Hle).
  destruct (kept_placed s B L h Hs Ht _ l1 l2 oldo (request_object r 0) (bucket_range r) HB d Hk) as [Hp1 Hp2].
  exists n. unfold osize in *. split_and!; [done | lia | lia | lia].
Qed.

Lemma slot_range : kSize <= slot_at (bucket_of r) /\ slot_at (bucket_of r) + 4 <= kNVMTabletSize.
Proof. pose proof (bucket_range r). unfold slot_at. tab_consts. lia. Qed.

Lemma next_range : 0 <= ptr_of l2 < 2 ^ 32.
Proof.
  destruct l2 as [|o l]; cbn; [lia |].
  assert (Ho : o ∈ B (bucket_of r)) by (rewrite HB; unfold old_part; destruct oldo; set_solver).
  destruct (table_placed _ _ _ _ _ _ Hs Ht Ho) as [H1 H2]. unfold osize in H2. tab_consts. lia.
Qed.

Lemma wp_insert s1 h1 : session s1 K h1 -> same_env s s1 -> frame K (nvm s) (nvm s1) ->
  wp (p <- store_object r (ptr_of l2) ;; Write32 (OFFSETOF_NVMOBJECT q off_next) p)
    (fun _ => updated r B) only_assert s1.
Proof.
  intros Hs1 He1 Hfr1. pose proof (tb_region _ _ _ Ht) as Hreg. pose proof slot_range as Hsl.
  pose proof (bucket_range r) as Hbr.
  wp_step. eapply wp_store_object; [exact Hs1 | by destruct He1 as [_ ->] | done | done | apply next_range | done |].
  intros p s2 h2 Hp HK Hs2 He2 Hfr2 Hnext Hbody. cbn beta.
  assert (Hlk : <[p := request_size r]> K !! p = Some (request_size r)) by apply lookup_insert_eq.
  pose proof (object_bounds _ _ _ Hs2 _ _ Hlk) as Hb.
  assert (Hpq : q + 4 <= p \/ p + request_size r <= q).
  { destruct link_where as [E | (n & Hn & Hn16 & _)]; [rewrite E; consts_full; lia |].
    assert (q <> p) by congruence.
    destruct (objects_apart _ _ _ Hs2 q n p (request_size r)) as [H1 | H1];
      [by rewrite lookup_insert_ne | done | done | left; lia | right; lia]. }
  assert (Hq : 0 < q /\ q + 4 <= kNVMTabletSize).
  { destruct link_where as [E | (n & Hn & Hn16 & Hq)]; [rewrite E; tab_consts; lia | tab_consts; lia]. }
  assert (Hp32 : 0 <= p < 2 ^ 32) by (consts_full; lia).
  unfold OFFSETOF_NVMOBJECT. change off_next with 0. rewrite Z.add_0_l, u32_small by (tab_consts; lia).
  eapply wp_Write_object; [exact Hs2 | | lia | |]; rewrite ?length_le_split.
  { intros x Hx. destruct link_where as [E | (n & Hn & Hn16 & _)]; [right; lia | left].
    exists q, n. rewrite lookup_insert_ne by congruence. split; [done | lia]. }
  { destruct He1 as [_ He1], He2 as [_ He2]. rewrite He2, He1. lia. }
  intros s3 Hs3 He3 Hm3. fold (wr32 (nvm s2) q p) in Hm3.
  assert (Hkeep : forall x, p <= x < p + request_size r -> byte_at (nvm s3) x = byte_at (nvm s2) x).
  { intros x Hx. rewrite Hm3. apply byte_at_wr32. lia. }
  pose proof (request_osize r p Hr) as Hos.
  exists (upd (bucket_of r) (l1 ++ request_object r p :: l2) B), (<[p := request_size r]> K), h2.
  split_and!; [done | |].
  - apply (table_change s s3 B L h Hs Ht (bucket_of r) l1 l2 oldo (request_object r p) (request_size r));
      try done.
    + destruct He1 as [_ He1], He2 as [_ He2], He3 as [_ He3]. by rewrite He3, He2, He1.
    + intros x Hx Hxq. rewrite Hm3, byte_at_wr32 by (fold q in Hxq; lia). by rewrite Hfr2, Hfr1.
    + fold q. rewrite Hm3, rd32_wr32_eq. by apply u32_small.
    + etrans; [| exact Hnext]. apply rd32_ext. intros x Hx. apply Hkeep. unfold fits in Hf. cbn in Hx. lia.
    + eapply body_ext; [| exact Hbody]. rewrite Hos. intros x Hx. apply Hkeep. cbn in Hx. lia.
    + rewrite Hos. done.
  - intros i k. rewrite (contents_change B (bucket_of r) l1 l2 oldo (request_object r p)); done.
Qed.
End Insert.

(** The new value is shorter: it is written over the old one. *)
Section Overwrite.
Context (s : state) (B : Z -> list object) (L : gmap Z Z) (h : heap) (r : Request.request).
Context (Hs : session s L h) (Ht : table s B L) (Hr : Request.complete r).
Context (l1 l2 : list object) (o : object).
Context (HB : B (bucket_of r) = l1 ++ o :: l2) (Hok : o_key o = Request.key r).
Context (Hshort : Request.val_len r < vlen o).

Let p := o_ptr o.
Let o' := mkObj p (o_key o) (Request.val r) (o_hash o).

Lemma overwrite_in : o ∈ B (bucket_of r).
Proof. rewrite HB. apply elem_of_app. right. apply elem_of_cons. by left. Qed.

Lemma overwritten_body m :
  body m o -> rd32 m p = ptr_of l2 ->
  let m' := store (store m (p + 6) (le_split 2 (Request.val_len r))) (p + 16 + Request.key_len r)
              (take (Z.to_nat (Request.val_len r)) (Request.Val r)) in
  rd32 m' p = ptr_of l2 /\ body m' o'.
Proof.
  intros [H1 H2 H3 H4 H5] Hn m'. pose proof (request_key_length r Hr) as Hkl.
  pose proof (request_val_length r Hr) as Hvl. rewrite <- Hok in Hkl.
  destruct Hr as (Hr1 & Hr2 & _ & _). fold (Request.val r) in m'.
  assert (Hld : forall b k, b + Z.of_nat k <= p + 6 \/ p + 8 <= b /\ b + Z.of_nat k <= p + 16 + Request.key_len r ->
    load m' b k = load m b k).
  { intros b k Hb. unfold m'. rewrite load_store_ne by lia. apply load_wr. lia. }
  split; [| split; cbn].
  - etrans; [| exact Hn]. unfold rd32. by rewrite Hld by lia.
  - etrans; [| exact H1]. unfold rd16. by rewrite Hld by lia.
  - unfold rd16, m'. rewrite load_store_ne by lia. fold (wr16 m (p + 6) (Request.val_len r)).
    fold (rd16 (wr16 m (p + 6) (Request.val_len r)) (p + 6)). rewrite rd16_wr16, Hvl. by apply u16_small.
  - etrans; [| exact H3]. unfold rd64. by rewrite Hld by lia.
  - etrans; [| exact H4]. by rewrite Hld by lia.
  - unfold m'. rewrite Hkl. by apply load_cut.
Qed.

Lemma wp_overwrite :
  wp (Write16 (OFFSETOF_NVMOBJECT p off_val_len) (Request.val_len r) ;;;
      Memcpy (u32 (off_data + p + Request.key_len r)) (Request.Val r) (Request.val_len r))
    (fun _ => updated r B) only_assert s.
Proof.
  pose proof (tb_region _ _ _ Ht) as Hreg. pose proof (table_placed _ _ _ _ _ _ Hs Ht overwrite_in) as Hpl.
  destruct (tb_room _ _ _ Ht _ _ overwrite_in) as (n & Hn & Hle). fold p in Hn.
  pose proof (object_bounds _ _ _ Hs _ _ Hn) as Hb.
  pose proof (request_key_length r Hr) as Hkl. pose proof (request_val_length r Hr) as Hvl.
  rewrite <- Hok in Hkl. pose proof Hr as (Hr1 & Hr2 & Hr3 & Hr4). unfold placed, osize in Hpl, Hle. fold p in Hpl.
  assert (Hown : forall x, p <= x < p + n -> owned L x) by (intros x Hx; by exists p, n).
  offs. unfold Write16. wp_step. tab_consts. eapply wp_Write_object; [exact Hs | | lia | |]; rewrite ?length_le_split.
  { intros x Hx. left. apply Hown. lia. }
  { lia. }
  intros s1 Hs1 He1 Hm1. rewrite ?u32_small by lia.
  eapply wp_Memcpy_object; [exact Hs1 | | lia | | |].
  { intros x Hx. apply Hown. lia. }
  { destruct He1 as [_ He1]. rewrite He1. lia. }
  { unfold Request.Val. rewrite length_drop. lia. }
  intros s2 Hs2 He2 Hm2.
  assert (Hc : rd32 (nvm s) p = ptr_of l2 /\ body (nvm s) o).
  { pose proof (tb_chain _ _ _ Ht (bucket_of r)) as Hc. rewrite HB in Hc. apply chain_app in Hc. naive_solver. }
  destruct (overwritten_body (nvm s) (proj2 Hc) (proj1 Hc)) as [Hw Hbody].
  replace (6 + p) with (p + 6) in Hm1 by lia. replace (16 + p + Request.key_len r) with (p + 16 + Request.key_len r) in Hm2 by lia.
  rewrite <- Hm1, <- Hm2 in Hw, Hbody.
  assert (HoB : B (bucket_of r) = l1 ++ old_part l2 (Some o)) by done.
  assert (Hnd : Request.key r ∉ o_key <$> (l1 ++ l2)).
  { pose proof (tb_keys _ _ _ Ht (bucket_of r)) as Hnd. rewrite HB, fmap_app, fmap_cons in Hnd.
    apply NoDup_drop_mid in Hnd as [_ Hnd]. by rewrite fmap_app, <- Hok. }
  exists (upd (bucket_of r) (l1 ++ o' :: l2) B), L, h. split_and!; [done | |].
  - rewrite <- (insert_delete_id L p n Hn).
    apply (table_change s s2 B L h Hs Ht (bucket_of r) l1 l2 (Some o) o' n); try done.
    + apply bucket_range.
    + destruct He1 as [_ He1], He2 as [_ He2]. rewrite He2, He1. done.
    + intros x Hx _. rewrite Hm2, Hm1. unfold kept_objects in Hx.
      assert (x < p \/ p + n <= x) as Hout.
      { destruct Hx as [(q & k & [Hne Hq]%lookup_delete_Some & Hx) | Hx]; [| consts_full; lia].
        destruct (objects_apart _ _ _ Hs p n q k Hn Hq Hne); [right | left]; lia. }
      rewrite !byte_at_store_out; [done | rewrite length_le_split; lia | rewrite length_take; lia].
    + assert (Hl : rd32 (nvm s) (link_of (slot_at (bucket_of r)) l1) = p).
      { pose proof (tb_head _ _ _ Ht _ (bucket_range r)) as Hh. pose proof (tb_chain _ _ _ Ht (bucket_of r)) as Hch.
        rewrite HB in Hh, Hch. by apply (link_reads _ _ _ o l2). }
      etrans; [| exact Hl]. apply rd32_ext. intros x Hx. rewrite Hm2, Hm1.
      assert (x < p \/ p + n <= x) as Hout.
      { destruct (link_where s B L h r Hs Ht l1 l2 (Some o) HoB) as [E | (k & Hk & Hk16 & _)];
          [rewrite E in Hx; unfold slot_at in Hx; pose proof (bucket_range r); consts_full; tab_consts; lia |].
        unfold kept_objects in Hk. apply lookup_delete_Some in Hk as [Hne Hk].
        destruct (objects_apart _ _ _ Hs p n _ k Hn Hk Hne); [right | left]; lia. }
      rewrite !byte_at_store_out; [done | rewrite length_le_split; lia | rewrite length_take; lia].
    + unfold osize. cbn. lia.
    + apply lookup_delete_eq.
    + by apply (tb_hash _ _ _ Ht _ o overwrite_in).
    + cbn. by rewrite Hok.
  - intros i k. rewrite (contents_change B (bucket_of r) l1 l2 (Some o) o'); [| done | cbn; by rewrite Hok | naive_solver].
    cbn. by rewrite Hok.
Qed.
End Overwrite.

(** A tablet holding the chains [B]. *)
Definition holds (s : state) (B : Z -> list object) : Prop :=
  exists L h, session s L h /\ table s B L.

Lemma updated_holds r B s' : updated r B s' ->
  exists B', holds s' B' /\ forall i k, contents B' i k =
    if decide (i = bucket_of r /\ k = Request.key r) then Some (Request.val r) else contents B i k.
Proof. intros (B' & L' & h' & Hs & Ht & Hc). exists B'. split; [by exists L', h' | done]. Qed.

Lemma wp_run {A} (c : M state A) s a s' (Q : A -> state -> Prop) E :
  c s = Ok a s' -> Q a s' -> wp c Q E s.
Proof. unfold wp. by intros ->. Qed.

Section Operations.
Context (s : state) (B : Z -> list object) (L : gmap Z Z) (h : heap) (r : Request.request) (fuel : nat).
Context (Hs : session s L h) (Ht : table s B L) (Hr : Request.complete r).
Context (Hfuel : (length (B (bucket_of r)) < fuel)%nat).

Lemma op_slot : Read32 (slot_of r) s = Ok (ptr_of (B (bucket_of r))) s.
Proof using Ht.
  clear Hfuel. pose proof (bucket_range r) as Hb. pose proof (tb_region _ _ _ Ht) as Hreg.
  rewrite slot_of_at. rewrite Read32_run by (unfold slot_at; tab_consts; lia).
  unfold slot_at. by rewrite (tb_head _ _ _ Ht) by done.
Qed.

Lemma op_placed o : o ∈ B (bucket_of r) -> placed o.
Proof. by apply (table_placed s B L h). Qed.

(** The part of [Put] and [Add] that inserts at the head. *)
Lemma wp_insert_head : Request.key r ∉ o_key <$> B (bucket_of r) -> fits (request_size r) ->
  wp (p <- store_object r (ptr_of (B (bucket_of r))) ;; Write32 (slot_of r) p ;;; ret OK)
    (fun st s' => st = OK /\ updated r B s') only_assert s.
Proof.
  intros Hk Hf. apply wp_assoc. wp_step. eapply wp_mono.
  - pose proof (wp_insert s B L h r Hs Ht Hr Hf [] (B (bucket_of r)) None eq_refl ltac:(done) Hk s h Hs
      (same_env_refl s) (frame_refl L (nvm s))) as H.
    cbn [link_of] in H. unfold OFFSETOF_NVMOBJECT in H.
    replace (u32 (off_next + slot_at (bucket_of r))) with (slot_of r) in H; [exact H |].
    pose proof (bucket_range r). rewrite slot_of_at. symmetry. apply u32_small.
    unfold slot_at. tab_consts. lia.
  - intros [] s' Hu. by apply wp_ret.
Qed.

Lemma wp_Put_body : fits (request_size r) ->
  wp (head <- Read32 (slot_of r) ;;
      qp <- find_prev fuel r (slot_of r) head ;;
      if negb (qp.2 =? 0) then
        vl <- Read16 (OFFSETOF_NVMOBJECT qp.2 off_val_len) ;;
        (if Request.val_len r <? vl then
           Write16 (OFFSETOF_NVMOBJECT qp.2 off_val_len) (Request.val_len r) ;;;
           Memcpy (u32 (off_data + qp.2 + Request.key_len r)) (Request.Val r) (Request.val_len r)
         else
           next <- Read32 (OFFSETOF_NVMOBJECT qp.2 off_next) ;;
           Free qp.2 ;;;
           p <- store_object r next ;;
           Write32 (OFFSETOF_NVMOBJECT qp.1 off_next) p) ;;;
        ret OK
      else
        p <- store_object r head ;; Write32 (slot_of r) p ;;; ret OK)
    (fun st s' => st = OK /\ updated r B s') only_assert s.
Proof.
  intros Hf. pose proof (tb_region _ _ _ Ht) as Hreg. wp_step. eapply wp_run; [apply op_slot |]. cbn beta.
  wp_step. rewrite slot_of_at.
  destruct (find_prev_run s r Hreg Hr fuel (slot_at (bucket_of r)) (B (bucket_of r)) (tb_chain _ _ _ Ht _)
    op_placed Hfuel) as [[HF Hk] | (l1 & o & l2 & HB & Hok & Hl1 & HF)].
  - eapply wp_run; [exact HF |]. cbn. rewrite <- slot_of_at. by apply wp_insert_head.
  - eapply wp_run; [exact HF |]. cbn [fst snd].
    assert (Ho : o ∈ B (bucket_of r)) by (rewrite HB; set_solver).
    pose proof (op_placed o Ho) as Hpl. destruct (tb_room _ _ _ Ht _ o Ho) as (n & Hn & _).
    assert (Hc : rd32 (nvm s) (o_ptr o) = ptr_of l2 /\ body (nvm s) o).
    { pose proof (tb_chain _ _ _ Ht (bucket_of r)) as Hc. rewrite HB in Hc. apply chain_app in Hc. naive_solver. }
    destruct Hc as [Hnext Hbody].
    destruct (Z.eqb_spec (o_ptr o) 0); [destruct Hpl; lia |]. cbn [negb].
    wp_step. eapply wp_run.
    { apply Read16_run; unfold placed, osize in Hpl; offs; tab_consts; lia. }
    cbn beta. offs. replace (off_val_len + o_ptr o) with (o_ptr o + 6) by (tab_consts; lia).
    rewrite (bd_vlen _ _ Hbody).
    assert (Hfin : forall s', updated r B s' -> wp (ret OK) (fun st s' => st = OK /\ updated r B s') only_assert s').
    { intros s' Hu. by apply wp_ret. }
    wp_step. destruct (Z.ltb_spec (Request.val_len r) (vlen o)) as [Hlt | Hge].
    + apply (wp_mono _ _ (fun _ => updated r B)); [| intros [] s2 Hu; by apply Hfin].
      pose proof (wp_overwrite s B L h r Hs Ht Hr l1 l2 o HB Hok Hlt) as H.
      unfold OFFSETOF_NVMOBJECT in H. rewrite u32_small in H by (unfold placed, osize in Hpl; tab_consts; lia).
      replace (off_val_len + o_ptr o) with (o_ptr o + 6) in H by (tab_consts; lia). exact H.
    + wp_step. eapply wp_run.
      { apply Read32_run; unfold placed, osize in Hpl; offs; tab_consts; lia. }
      cbn beta. offs. replace (off_next + o_ptr o) with (o_ptr o) by (tab_consts; lia). rewrite Hnext.
      wp_step. eapply wp_Free_object; [exact Hs | exact Hn |]. intros s1 h1 Hs1 He1 Hfr1.
      apply (wp_mono _ _ (fun _ => updated r B)); [| intros [] s2 Hu; by apply Hfin].
      apply (wp_insert s B L h r Hs Ht Hr Hf l1 l2 (Some o) HB) with (h1 := h1); try done.
      * by intros ? [= <-].
      * pose proof (tb_keys _ _ _ Ht (bucket_of r)) as Hnd. rewrite HB, fmap_app, fmap_cons in Hnd.
        apply NoDup_drop_mid in Hnd as [_ Hnd]. by rewrite fmap_app, <- Hok.
Qed.
End Operations.

(** ** [Del] *)

(** Unlinking the first object of a chain. *)
Section Pop.
Context (s s' : state) (B : Z -> list object) (L : gmap Z Z) (h : heap) (i : Z) (o : object) (l : list object).
Context (Hs : session s L h) (Ht : table s B L) (HB : B i = o :: l).
Context (Hreg : kNVMTabletSize <= region s').
Context (Hfr : forall x, owned (delete (o_ptr o) L) x \/ kSize <= x ->
  ~ (slot_at i <= x < slot_at i + 4) -> byte_at (nvm s') x = byte_at (nvm s) x).
Context (Hlink : rd32 (nvm s') (slot_at i) = ptr_of l).

Lemma pop_range : 0 <= i < kHashTableSize.
Proof. apply (tb_range _ _ _ Ht). by rewrite HB. Qed.

Lemma pop_other j c : c ∈ upd i l B j -> c ∈ B j /\ o_ptr c <> o_ptr o.
Proof.
  assert (Ho : o ∈ B i) by (rewrite HB; apply elem_of_cons; by left).
  intros [[-> Hc] | [Hj Hc]]%elem_of_upd.
  - split; [rewrite HB; apply elem_of_cons; by right |]. intros E.
    pose proof (tb_nodup _ _ _ Ht i) as Hnd. rewrite HB, fmap_cons in Hnd.
    apply list.NoDup_cons in Hnd as [Hnd _]. apply Hnd. rewrite <- E. apply list_elem_of_fmap. by exists c.
  - split; [done |]. intros E. by apply Hj, (tb_apart _ _ _ Ht j i c o).
Qed.

Lemma popped_bytes j c x : c ∈ upd i l B j -> o_ptr c <= x < o_ptr c + osize c ->
  byte_at (nvm s') x = byte_at (nvm s) x.
Proof.
  intros [Hc Hne]%pop_other Hx. destruct (tb_room _ _ _ Ht _ _ Hc) as (n & Hn & Hle).
  destruct (table_placed _ _ _ _ _ _ Hs Ht Hc) as [Hp1 Hp2]. pose proof pop_range.
  apply Hfr; [left | unfold slot_at; tab_consts; lia].
  exists (o_ptr c), n. rewrite lookup_delete_ne by done. split; [done | lia].
Qed.

Lemma table_pop : table s' (upd i l B) (delete (o_ptr o) L).
Proof.
  pose proof pop_range as Hi. split.
  - done.
  - intros j Hj. destruct (decide (j = i)) as [-> |]; [done |]. rewrite upd_ne in Hj by done.
    by apply (tb_range _ _ _ Ht).
  - intros j Hj. destruct (decide (j = i)) as [-> | Hne]; [by rewrite upd_eq |].
    rewrite upd_ne by done. rewrite <- (tb_head _ _ _ Ht j Hj). apply rd32_ext. intros x Hx.
    apply Hfr; [right; tab_consts; lia | unfold slot_at; lia].
  - intros j. apply (chain_ext (nvm s)); [intros c x Hc; by apply (popped_bytes j) |].
    destruct (decide (j = i)) as [-> | Hne]; [rewrite upd_eq | rewrite upd_ne by done; apply Ht].
    pose proof (tb_chain _ _ _ Ht i) as Hc. rewrite HB in Hc. by destruct Hc as (_ & _ & Hc).
  - intros j c [Hc Hne]%pop_other. destruct (tb_room _ _ _ Ht _ _ Hc) as (n & Hn & Hle).
    exists n. by rewrite lookup_delete_ne.
  - intros j c [Hc Hne]%pop_other. by apply (tb_hash _ _ _ Ht).
  - intros j. pose proof (tb_nodup _ _ _ Ht j) as Hnd.
    destruct (decide (j = i)) as [-> | Hne]; [rewrite upd_eq | by rewrite upd_ne].
    rewrite HB, fmap_cons in Hnd. by apply list.NoDup_cons in Hnd as [_ Hnd].
  - intros j k c d [Hc _]%pop_other [Hd _]%pop_other. by apply (tb_apart _ _ _ Ht).
  - intros j. pose proof (tb_keys _ _ _ Ht j) as Hnd.
    destruct (decide (j = i)) as [-> | Hne]; [rewrite upd_eq | by rewrite upd_ne].
    rewrite HB, fmap_cons in Hnd. by apply list.NoDup_cons in Hnd as [_ Hnd].
  - intros p n [Hne Hp]%lookup_delete_Some. destruct (tb_all _ _ _ Ht p n Hp) as (j & c & Hc & <-).
    exists j, c. split; [| done]. apply elem_of_upd.
    destruct (decide (j = i)) as [-> | Hj]; [left | by right]. split; [done |].
    rewrite HB in Hc. by apply elem_of_cons in Hc as [-> | Hc].
Qed.
End Pop.

Lemma wp_Del_head s B L h r o l fuel E :
  session s L h -> table s B L -> Request.complete r ->
  B (bucket_of r) = o :: l -> o_key o = Request.key r -> (0 < fuel)%nat ->
  wp (Del_loop fuel r (slot_of r) (o_ptr o))
     (fun st s' => st = OK /\ exists L' h', session s' L' h' /\ table s' (upd (bucket_of r) l B) L') E s.
Proof.
  intros Hs Ht Hr HB Hk Hf. destruct fuel as [|fuel]; [lia |]. cbn [Del_loop].
  assert (Ho : o ∈ B (bucket_of r)) by (rewrite HB; apply elem_of_cons; by left).
  pose proof (table_placed _ _ _ _ _ _ Hs Ht Ho) as Hpl. pose proof (tb_region _ _ _ Ht) as Hreg.
  destruct (tb_room _ _ _ Ht _ o Ho) as (n & Hn & _). pose proof (bucket_range r) as Hbr.
  pose proof (tb_chain _ _ _ Ht (bucket_of r)) as Hc. rewrite HB in Hc. destruct Hc as (Hnext & Hbody & _).
  destruct (Z.eqb_spec (o_ptr o) 0); [destruct Hpl; lia |].
  wp_step. eapply wp_run; [by apply same_key_run |]. rewrite bool_decide_eq_true_2 by done.
  pose proof Hpl as Hpl'. unfold placed, osize in Hpl'.
  assert (HR : Read32 (OFFSETOF_NVMOBJECT (o_ptr o) off_next) s = Ok (ptr_of l) s).
  { unfold OFFSETOF_NVMOBJECT. change off_next with 0. rewrite Z.add_0_l, u32_small by (tab_consts; lia).
    rewrite Read32_run by (tab_consts; lia). by rewrite Hnext. }
  wp_step. eapply wp_run; [exact HR |].
  rewrite slot_of_at. unfold OFFSETOF_NVMOBJECT. change off_next with 0. rewrite Z.add_0_l.
  rewrite u32_small by (unfold slot_at; tab_consts; lia).
  assert (Hl32 : 0 <= ptr_of l < 2 ^ 32) by (rewrite <- Hnext; apply rd32_range).
  wp_step. eapply wp_Write_object; [exact Hs | | | |]; rewrite ?length_le_split.
  { intros x Hx. right. unfold slot_at in Hx. lia. }
  { unfold slot_at. tab_consts. lia. }
  { unfold slot_at. tab_consts. lia. }
  intros s1 Hs1 He1 Hm1. fold (wr32 (nvm s) (slot_at (bucket_of r)) (ptr_of l)) in Hm1.
  wp_step. eapply wp_Free_object; [exact Hs1 | exact Hn |]. intros s2 h2 Hs2 He2 Hfr2.
  apply wp_ret. split; [done |]. exists (delete (o_ptr o) L), h2. split; [done |].
  apply (table_pop s s2 B L h (bucket_of r) o l Hs Ht HB).
  - destruct He1 as [_ He1], He2 as [_ He2]. by rewrite He2, He1.
  - intros x Hx Hns. rewrite Hfr2 by done. rewrite Hm1. apply byte_at_wr32. lia.
  - rewrite <- (u32_small (ptr_of l)), <- (rd32_wr32_eq (nvm s) (slot_at (bucket_of r))) by done.
    rewrite <- Hm1. apply rd32_ext. intros x Hx. apply Hfr2. right. unfold slot_at in Hx. lia.
Qed.

(** Without a step to the next object the loop repeats its first test. *)
Lemma Del_loop_stuck s r q p fuel : p <> 0 -> same_key r p s = Ok false s ->
  Del_loop fuel r q p s = Err OutOfFuel s.
Proof.
  intros Hp Hsk. induction fuel as [|fuel IH]; [done |]. cbn [Del_loop].
  destruct (Z.eqb_spec p 0); [done |]. by rewrite (bind_Ok _ _ _ _ _ Hsk).
Qed.

(** ** A fresh tablet *)

(** [Format] runs when the tablet is constructed; the hash table must hold
    zeroes already: the server maps the tablet without
    running the constructor of [NVMTablet]. *)
Definition zeroed_table (m : mem) : Prop :=
  forall x, kSize <= x < kNVMTabletSize -> byte_at m x = Byte.x00.

Definition fresh_tablet (s : state) : Prop :=
  exists s0 s1, kNVMTabletSize <= region s0 /\ zeroed_table (nvm s0) /\
    Format s0 = Ok tt s1 /\ s = with_modifications (Some []) s1.

Lemma zeroed_word m w : zeroed_table m -> kSize <= w -> w + 4 <= kNVMTabletSize -> rd32 m w = 0.
Proof.
  intros Hz H1 H2. unfold rd32.
  assert (load m w 4 = [Byte.x00; Byte.x00; Byte.x00; Byte.x00]) as ->; [| done].
  cbn [load]. by rewrite !Hz by lia.
Qed.

Lemma fresh_mem_table m x : kSize <= x -> byte_at (fresh_mem m) x = byte_at m x.
Proof.
  intros Hx. unfold fresh_mem. rewrite !byte_at_wr32 by (consts_full; lia).
  rewrite byte_at_zero_fill. rewrite decide_False; [done | lia].
Qed.

Lemma fresh_holds s : fresh_tablet s -> holds s (fun _ => []).
Proof.
  intros (s0 & s1 & Hreg & Hz & HF & ->). exists ∅, fresh_heap.
  assert (Hs : started (with_modifications (Some []) s1)).
  { exists s0, s1. split_and!; [tab_consts; lia | done | done]. }
  split; [by apply started_session |].
  destruct (Format_spec s0 ltac:(tab_consts; lia)) as (s1' & HF' & Hm & [_ Hr] & _).
  rewrite HF' in HF. injection HF as <-.
  split; try (intros; (set_solver || done || constructor)).
  - cbn. lia.
  - intros i Hi. cbn. rewrite Hm. etrans; [| apply (zeroed_word (nvm s0) (kSize + 4 * i))].
    + apply rd32_ext. intros x Hx. apply fresh_mem_table. lia.
    + done.
    + lia.
    + tab_consts. lia.
Qed.

(** An empty tablet for the witnesses. *)
Definition t0_example : state := mkState 4096 kNVMTabletSize ∅ 0 None.
Definition t1_example : state :=
  match Format t0_example with Ok _ s => with_modifications (Some []) s | Err _ s => s end.

Lemma fresh_example : fresh_tablet t1_example.
Proof.
  assert (Hk : kSize <= region t0_example) by (cbn; tab_consts; lia).
  destruct (Format_spec t0_example Hk) as (s1 & HF & _).
  exists t0_example, s1. split; [apply Z.le_refl |]. split; [done |]. split; [exact HF |].
  unfold t1_example. rewrite HF. reflexivity.
Qed.

#[global] Opaque t1_example.

Lemma holds_example : holds t1_example (fun _ => []).
Proof. apply fresh_holds, fresh_example. Qed.

(** The request that puts the key [k] of hash 7 with the value [v]. *)
Definition req (ty : Request.Type_) (k v : list Init.Byte.byte) : Request.request :=
  Request.mk (Request.Type_code ty) (Z.of_nat (length k)) (Z.of_nat (length v)) 7 (k ++ v).

Definition k_example : list Init.Byte.byte := [Byte.x6b; Byte.x65; Byte.x79].
Definition v_example : list Init.Byte.byte := [Byte.x76; Byte.x61; Byte.x6c; Byte.x75; Byte.x65].

(** ** Properties *)

Lemma Put_run s B r fuel mods :
  holds s B -> Request.complete r -> Request.type r = Request.Type_code Request.PUT ->
  fits (request_size r) -> (length (B (bucket_of r)) < fuel)%nat ->
  match Put fuel r mods s with
  | Ok st s' => st = OK /\ exists B', holds s' B' /\ forall i k, contents B' i k =
      if decide (i = bucket_of r /\ k = Request.key r) then Some (Request.val r) else contents B i k
  | Err e _ => e = AssertFail
  end.
Proof.
  intros (L & h & Hs & Ht) Hr Hty Hf Hfuel.
  assert (Hw : wp (Put fuel r mods) (fun st s' => st = OK /\ updated r B s') only_assert s).
  { unfold Put, set_modifications. wp_step. apply wp_modify. wp_step. wp_step.
    apply (wp_Put_body _ B L h); try done.
    - by apply with_modifications_session.
    - by apply with_modifications_table. }
  unfold wp in Hw. destruct (Put fuel r mods s); [| done].
  destruct Hw as [-> Hu]. split; [done |]. by apply updated_holds.
Qed.

(** C8. [Put] makes the store hold the request's value under its key and
    leaves every other key of every bucket alone; whether it overwrites in
    place, reallocates or inserts, all objects stay linked and every
    allocated object is reachable.  It fails only by stopping the process,
    when the heap cannot serve the allocation. *)
Theorem Put_spec s B r fuel mods :
  holds s B -> Request.complete r -> Request.type r = Request.Type_code Request.PUT ->
  fits (request_size r) -> (length (B (bucket_of r)) < fuel)%nat ->
  match Put fuel r mods s with
  | Ok st s' => st = OK /\ exists B', holds s' B' /\ forall i k, contents B' i k =
      if decide (i = bucket_of r /\ k = Request.key r) then Some (Request.val r) else contents B i k
  | Err e _ => e = AssertFail
  end.
Proof. apply Put_run. Qed.

Lemma example_complete ty v : Z.of_nat (length v) <= 64 -> Request.complete (req ty k_example v).
Proof. intros. unfold Request.complete, req. cbn [Request.key_len Request.val_len Request.key_hash Request.data].
  rewrite length_app. change (length k_example) with 3%nat. lia. Qed.

Lemma example_fits ty : fits (request_size (req ty k_example v_example)).
Proof. change (request_size (req ty k_example v_example)) with 24. unfold fits, servable, block_for. consts_full. lia. Qed.

Lemma Put_runs : exists s, Put 1 (req Request.PUT k_example v_example) [] t1_example = Ok OK s.
Proof. eexists. vm_compute. reflexivity. Qed.

Lemma Put_spec_witness : exists s B,
  Put 1 (req Request.PUT k_example v_example) [] t1_example = Ok OK s /\ holds s B /\
  contents B 7 k_example = Some v_example.
Proof.
  destruct Put_runs as [s HP].
  pose proof (Put_spec t1_example (fun _ => []) (req Request.PUT k_example v_example) 1 [] holds_example
    (example_complete _ v_example ltac:(done)) eq_refl (example_fits _) (le_n 1)) as H.
  rewrite HP in H. destruct H as [_ (B & HB & Hc)]. exists s, B. split; [exact HP |]. split; [exact HB |].
  rewrite Hc. reflexivity.
Defined.

Lemma Get_run s B r fuel cap mods :
  holds s B -> Request.complete r -> Request.type r = Request.Type_code Request.GET ->
  (length (B (bucket_of r)) < fuel)%nat ->
  (forall v, contents B (bucket_of r) (Request.key r) = Some v -> Z.of_nat (length v) <= cap) ->
  Get fuel cap r mods s =
    Ok (match contents B (bucket_of r) (Request.key r) with Some v => (OK, v) | None => (ERROR, []) end)
       (with_modifications (Some mods) s).
Proof.
  intros (L & h & Hs0 & Ht0) Hr Hty Hfuel Hcap. unfold Get, set_modifications, modify.
  set (s1 := with_modifications (Some mods) s).
  assert (Hs : session s1 L h) by by apply with_modifications_session.
  assert (Ht : table s1 B L) by by apply with_modifications_table.
  rewrite (bind_Ok _ _ _ tt s1) by done. rewrite Hty, assert_true by done.
  rewrite (bind_Ok _ _ _ _ _ (op_slot s1 B L r Ht)).
  pose proof (tb_region _ _ _ Ht) as Hreg.
  destruct (find_run s1 r Hreg Hr fuel (B (bucket_of r)) (tb_chain _ _ _ Ht _)
    (op_placed s1 B L h r Hs Ht) Hfuel) as [[HF Hn] | (o & Ho & HF & Ha & Hk)];
    rewrite (bind_Ok _ _ _ _ _ HF); unfold contents.
  - by rewrite Hn.
  - pose proof (Hcap (o_val o) Ha) as Hlen.
    pose proof (op_placed s1 B L h r Hs Ht o Ho) as Hpl. unfold placed, osize in Hpl.
    destruct (Z.eqb_spec (o_ptr o) 0); [lia |]. cbn [negb]. rewrite Ha.
    assert (Hb : body (nvm s1) o).
    { apply list_elem_of_split in Ho as (l1 & l2 & E). pose proof (tb_chain _ _ _ Ht (bucket_of r)) as Hc.
      rewrite E in Hc. apply chain_app in Hc. naive_solver. }
    pose proof (request_key_length r Hr) as Hkl. rewrite <- Hk in Hkl.
    assert (HR : Read16 (OFFSETOF_NVMOBJECT (o_ptr o) off_val_len) s1 = Ok (vlen o) s1).
    { offs. replace (off_val_len + o_ptr o) with (o_ptr o + 6) by (tab_consts; lia).
      rewrite Read16_run by (tab_consts; lia). by rewrite (bd_vlen _ _ Hb). }
    rewrite (bind_Ok _ _ _ _ _ HR), guard_true by lia.
    unfold Memcpy_to_user, nvm_bytes, OffsetToPtr, in_region, bind, get, guard, gets, ret.
    rewrite u32_small by (tab_consts; lia).
    rewrite (proj2 (Z.leb_le 0 _)), (proj2 (Z.leb_le _ (region s1))) by (tab_consts; lia). cbn [andb].
    replace (off_data + o_ptr o + Request.key_len r) with (o_ptr o + 16 + klen o) by (tab_consts; lia).
    by rewrite Nat2Z.id, (bd_val _ _ Hb).
Qed.

(** C9. [Get] never fails on a store it can address: it returns the value the
    store holds under the key, [ERROR] when there is none, and does not change
    the memory. *)
Theorem Get_spec s B r fuel cap mods :
  holds s B -> Request.complete r -> Request.type r = Request.Type_code Request.GET ->
  (length (B (bucket_of r)) < fuel)%nat ->
  (forall v, contents B (bucket_of r) (Request.key r) = Some v -> Z.of_nat (length v) <= cap) ->
  Get fuel cap r mods s =
    Ok (match contents B (bucket_of r) (Request.key r) with Some v => (OK, v) | None => (ERROR, []) end)
       (with_modifications (Some mods) s).
Proof. apply Get_run. Qed.

Lemma Get_spec_witness :
  Get 1 1024 (req Request.GET k_example []) [] t1_example = Ok (ERROR, []) (with_modifications (Some []) t1_example).
Proof.
  apply (Get_spec t1_example (fun _ => []) (req Request.GET k_example []) 1 1024 []).
  - exact holds_example.
  - apply example_complete. done.
  - reflexivity.
  - cbn. lia.
  - intros v H. discriminate H.
Defined.

Lemma Add_run s B r fuel mods :
  holds s B -> Request.complete r -> Request.type r = Request.Type_code Request.ADD ->
  fits (request_size r) -> (length (B (bucket_of r)) < fuel)%nat ->
  match contents B (bucket_of r) (Request.key r) with
  | Some _ => Add fuel r mods s = Ok ERROR (with_modifications (Some mods) s)
  | None =>
      match Add fuel r mods s with
      | Ok st s' => st = OK /\ exists B', holds s' B' /\ forall i k, contents B' i k =
          if decide (i = bucket_of r /\ k = Request.key r) then Some (Request.val r) else contents B i k
      | Err e _ => e = AssertFail
      end
  end.
Proof.
  intros (L & h & Hs0 & Ht0) Hr Hty Hf Hfuel. unfold Add, set_modifications, modify.
  set (s1 := with_modifications (Some mods) s).
  assert (Hs : session s1 L h) by by apply with_modifications_session.
  assert (Ht : table s1 B L) by by apply with_modifications_table.
  rewrite (bind_Ok _ _ _ tt s1) by done. rewrite Hty, assert_true by done.
  rewrite (bind_Ok _ _ _ _ _ (op_slot s1 B L r Ht)).
  pose proof (tb_region _ _ _ Ht) as Hreg.
  destruct (find_run s1 r Hreg Hr fuel (B (bucket_of r)) (tb_chain _ _ _ Ht _)
    (op_placed s1 B L h r Hs Ht) Hfuel) as [[HF Hn] | (o & Ho & HF & Ha & Hk)];
    rewrite (bind_Ok _ _ _ _ _ HF); unfold contents at 1.
  - rewrite Hn. cbn [Z.eqb negb].
    pose proof (wp_insert_head s1 B L h r fuel Hs Ht Hr Hfuel (proj1 (assoc_None _ _) Hn) Hf) as Hw. unfold wp in Hw.
    destruct (bind _ _ s1); [| done]. destruct Hw as [-> Hu]. split; [done |]. by apply updated_holds.
  - pose proof (op_placed s1 B L h r Hs Ht o Ho) as Hpl. unfold placed in Hpl. rewrite Ha.
    by destruct (Z.eqb_spec (o_ptr o) 0); [lia |].
Qed.

(** C10. [Add] stores the value only when the key is absent; otherwise it
    reports [ERROR] and leaves the memory as it was. *)
Theorem Add_spec s B r fuel mods :
  holds s B -> Request.complete r -> Request.type r = Request.Type_code Request.ADD ->
  fits (request_size r) -> (length (B (bucket_of r)) < fuel)%nat ->
  match contents B (bucket_of r) (Request.key r) with
  | Some _ => Add fuel r mods s = Ok ERROR (with_modifications (Some mods) s)
  | None =>
      match Add fuel r mods s with
      | Ok st s' => st = OK /\ exists B', holds s' B' /\ forall i k, contents B' i k =
          if decide (i = bucket_of r /\ k = Request.key r) then Some (Request.val r) else contents B i k
      | Err e _ => e = AssertFail
      end
  end.
Proof. apply Add_run. Qed.

Lemma Add_runs : exists s, Add 1 (req Request.ADD k_example v_example) [] t1_example = Ok OK s.
Proof. eexists. vm_compute. reflexivity. Qed.

Lemma Add_spec_witness : exists s B,
  Add 1 (req Request.ADD k_example v_example) [] t1_example = Ok OK s /\ holds s B /\
  contents B 7 k_example = Some v_example.
Proof.
  destruct Add_runs as [s HP].
  pose proof (Add_spec t1_example (fun _ => []) (req Request.ADD k_example v_example) 1 [] holds_example
    (example_complete _ v_example ltac:(done)) eq_refl (example_fits _) (le_n 1)) as H.
  assert (E : forall i k, contents (fun _ => []) i k = None) by reflexivity.
  rewrite E, HP in H. destruct H as [_ (B & HB & Hc)]. exists s, B. split; [exact HP |]. split; [exact HB |].
  rewrite Hc. reflexivity.
Defined.

Lemma Del_run s B r fuel mods :
  holds s B -> Request.complete r -> Request.type r = Request.Type_code Request.DEL -> (0 < fuel)%nat ->
  match B (bucket_of r) with
  | [] => Del fuel r mods s = Ok ERROR (with_modifications (Some mods) s)
  | o :: l =>
      if decide (o_key o = Request.key r)
      then exists s', Del fuel r mods s = Ok OK s' /\ holds s' (upd (bucket_of r) l B)
      else Del fuel r mods s = Err OutOfFuel (with_modifications (Some mods) s)
  end.
Proof.
  intros (L & h & Hs0 & Ht0) Hr Hty Hfuel. unfold Del, set_modifications, modify.
  set (s1 := with_modifications (Some mods) s).
  assert (Hs : session s1 L h) by by apply with_modifications_session.
  assert (Ht : table s1 B L) by by apply with_modifications_table.
  rewrite (bind_Ok _ _ _ tt s1) by done. rewrite Hty, assert_true by done.
  rewrite (bind_Ok _ _ _ _ _ (op_slot s1 B L r Ht)).
  pose proof (tb_region _ _ _ Ht) as Hreg.
  destruct (B (bucket_of r)) as [|o l] eqn:HB; [by destruct fuel; [lia |] |].
  assert (Ho : o ∈ B (bucket_of r)) by (rewrite HB; apply elem_of_cons; by left).
  pose proof (op_placed s1 B L h r Hs Ht o Ho) as Hpl.
  pose proof (tb_chain _ _ _ Ht (bucket_of r)) as Hc. rewrite HB in Hc. destruct Hc as (_ & Hb & _).
  destruct (decide (o_key o = Request.key r)) as [Hk | Hk].
  - destruct (wp_total _ _ _ (wp_Del_head s1 B L h r o l fuel no_error Hs Ht Hr HB Hk Hfuel))
      as (st & s' & HD & -> & L' & h' & H1 & H2).
    exists s'. split; [exact HD |]. by exists L', h'.
  - apply Del_loop_stuck; [destruct Hpl; cbn; lia |].
    cbn [ptr_of]. rewrite (same_key_run s1 r Hreg Hr o Hb Hpl). by rewrite bool_decide_eq_false_2.
Qed.

(** C11. [Del] works on the first object of a chain only: with an empty chain
    it reports [ERROR]; when the first object has the key it unlinks and frees
    it; in every other case its loop, which never moves to the next object,
    does not end, whatever the fuel. *)
Theorem Del_spec s B r fuel mods :
  holds s B -> Request.complete r -> Request.type r = Request.Type_code Request.DEL -> (0 < fuel)%nat ->
  match B (bucket_of r) with
  | [] => Del fuel r mods s = Ok ERROR (with_modifications (Some mods) s)
  | o :: l =>
      if decide (o_key o = Request.key r)
      then exists s', Del fuel r mods s = Ok OK s' /\ holds s' (upd (bucket_of r) l B)
      else Del fuel r mods s = Err OutOfFuel (with_modifications (Some mods) s)
  end.
Proof. apply Del_run. Qed.

Lemma Del_spec_witness :
  Del 5 (req Request.DEL k_example []) [] t1_example = Ok ERROR (with_modifications (Some []) t1_example).
Proof.
  apply (Del_spec t1_example (fun _ => []) (req Request.DEL k_example []) 5 []).
  - exact holds_example.
  - apply example_complete. done.
  - reflexivity.
  - lia.
Defined.
