(* ===== verification/Logged.v ===== *)
(** * The modification log is complete

    A computation is [Logged] when every byte it changes is covered by the
    entries it appends to the modification list, also when it fails midway;
    the property composes, and the operations of the allocator and of the
    tablet have it. *)

From S2P Require Import Prelude Nvm Modification Allocator Wire Tablet TabletRefine.
Import Allocator Tablet.

Definition final {S A} (o : outcome S A) : S := match o with Ok _ s => s | Err _ s => s end.

(** An entry names bytes of the tablet and where to read them back. *)
Definition entry_ok (s : state) (m : Modification) : Prop :=
  0 <= des m /\ 0 <= len m /\ des m + len m <= region s /\ src m = u64 (base_ s + des m).

Definition logs (s s' : state) (l' : ModificationList) : Prop :=
  (forall x, byte_at (nvm s') x <> byte_at (nvm s) x -> covered l' x) /\
  Forall (entry_ok s) l' /\ base_ s' = base_ s /\ region s' = region s.

Class Logged {A} (c : M state A) : Prop :=
  logged : forall s l, modifications_ s = Some l ->
    exists l', modifications_ (final (c s)) = Some (l ++ l') /\ logs s (final (c s)) l'.

Lemma logs_refl s : logs s s [].
Proof. split_and!; [done | constructor | done | done]. Qed.

Lemma logs_trans s1 s2 s3 l1 l2 : logs s1 s2 l1 -> logs s2 s3 l2 -> logs s1 s3 (l1 ++ l2).
Proof.
  intros (H1 & F1 & B1 & R1) (H2 & F2 & B2 & R2). split_and!; [| | congruence | congruence].
  - intros x Hx. apply covered_app.
    destruct (decide (byte_at (nvm s2) x = byte_at (nvm s1) x)) as [E |]; [right | left; auto].
    apply H2. congruence.
  - apply Forall_app. split; [done |]. revert F2. apply List.Forall_impl.
    unfold entry_ok. intros m. by rewrite B1, R1.
Qed.

(** ** Composition *)

#[export] Instance logged_pure {A} (c : M state A) : (forall s, final (c s) = s) -> Logged c | 100.
Proof. intros H s l Hl. exists []. rewrite H, app_nil_r. split; [done | apply logs_refl]. Qed.

#[export] Instance logged_ret {A} (a : A) : Logged (ret a).
Proof. by apply logged_pure. Qed.

#[export] Instance logged_fail {A} e : Logged (fail e : M state A).
Proof. by apply logged_pure. Qed.

#[export] Instance logged_assert b : Logged (assert b).
Proof. apply logged_pure. by destruct b. Qed.

#[export] Instance logged_guard b e : Logged (guard b e).
Proof. apply logged_pure. by destruct b. Qed.

#[export] Instance logged_get : Logged get.
Proof. by apply logged_pure. Qed.

#[export] Instance logged_gets {A} (f : state -> A) : Logged (gets f).
Proof. by apply logged_pure. Qed.

#[export] Instance logged_bind {A B} (c : M state A) (k : A -> M state B) :
  Logged c -> (forall a, Logged (k a)) -> Logged (bind c k).
Proof.
  intros Hc Hk s l Hl. destruct (Hc s l Hl) as (l1 & E1 & H1). unfold bind.
  destruct (c s) as [a s1 | e s1]; cbn [final] in *; [| by exists l1].
  destruct (Hk a s1 _ E1) as (l2 & E2 & H2). exists (l1 ++ l2). rewrite app_assoc. split; [done |].
  by eapply logs_trans.
Qed.

#[export] Instance logged_when b c : Logged c -> Logged (when b c).
Proof. unfold when. destruct b; [done | intros; apply _]. Qed.

#[export] Instance logged_if {A} (b : bool) (c d : M state A) :
  Logged c -> Logged d -> Logged (if b then c else d).
Proof. by destruct b. Qed.

(** ** Accesses *)

#[export] Instance logged_OffsetToPtr o n : Logged (OffsetToPtr o n).
Proof. unfold OffsetToPtr. apply _. Qed.

#[export] Instance logged_user_bytes b n : Logged (user_bytes b n).
Proof. unfold user_bytes. apply _. Qed.

#[export] Instance logged_nvm_bytes o n : Logged (nvm_bytes o n).
Proof. unfold nvm_bytes. apply _. Qed.

#[export] Instance logged_Read32 o : Logged (Read32 o).
Proof. unfold Read32, Read. apply _. Qed.

#[export] Instance logged_Read16 o : Logged (Read16 o).
Proof. unfold Read16, Read. apply _. Qed.

#[export] Instance logged_Memcmp o b n : Logged (Memcmp o b n).
Proof. unfold Memcmp. apply _. Qed.

#[export] Instance logged_Memcpy_to_user o n : Logged (Memcpy_to_user o n).
Proof. unfold Memcpy_to_user. apply _. Qed.

(** A store of [n] bytes with its log entry. *)
Lemma logged_store d bs n s l :
  modifications_ s = Some l -> Z.of_nat (length bs) = n -> in_region s d n = true -> 
  exists l', modifications_ (final ((modify (fun st => with_nvm (store (nvm st) d bs) st) ;;; emplace_back d n) s)) =
      Some (l ++ l') /\
    logs s (final ((modify (fun st => with_nvm (store (nvm st) d bs) st) ;;; emplace_back d n) s)) l'.
Proof.
  intros Hl Hn Hr. exists [mkModification d n (u64 (base_ s + d))].
  unfold bind, modify, emplace_back, bind, get. cbn. rewrite Hl. cbn.
  unfold in_region in Hr. apply andb_prop in Hr as [H1%Z.leb_le H2%Z.leb_le].
  split; [done |]. split_and!; cbn; try done.
  - intros x Hx. apply covered_cons. left. unfold covers. cbn.
    destruct (decide (d <= x < d + n)) as [| Hout]; [done |]. exfalso. apply Hx.
    apply byte_at_store_out. lia.
  - constructor; [| constructor]. unfold entry_ok. cbn. split_and!; (done || lia).
Qed.

Lemma logged_ext {A} (c d : M state A) : (forall s, c s = d s) -> Logged d -> Logged c.
Proof. intros E H s. rewrite E. apply H. Qed.

(** The access check, the store and the log entry. *)
Definition put_bytes (d : Z) (bs : list Init.Byte.byte) (n : Z) : M state unit :=
  OffsetToPtr d n ;;; modify (fun st => with_nvm (store (nvm st) d bs) st) ;;; emplace_back d n.

Lemma logged_put_bytes d bs n : Z.of_nat (length bs) = n -> Logged (put_bytes d bs n).
Proof.
  intros Hn s l Hl.
  assert (E : put_bytes d bs n s = if in_region s d n
    then (modify (fun st => with_nvm (store (nvm st) d bs) st) ;;; emplace_back d n) s else Err Segv s).
  { unfold put_bytes, OffsetToPtr, bind, get, guard. by destruct (in_region s d n). }
  rewrite E. destruct (in_region s d n) eqn:Er.
  - by apply logged_store.
  - exists []. rewrite app_nil_r. split; [done | apply logs_refl].
Qed.

#[export] Instance logged_cnt_writes : Logged (modify (fun s => with_cnt_writes (u64 (cnt_writes_ s + 1)) s)).
Proof.
  intros s l Hl. exists []. rewrite app_nil_r. split; [done |]. split_and!; (done || constructor).
Qed.

Lemma logged_Write o bs : Z.of_nat (length bs) < 2 ^ 32 -> Logged (Write o bs).
Proof.
  intros Hb. apply (logged_ext _ (assert (negb (o =? 0)) ;;;
    (put_bytes o bs (Z.of_nat (length bs)) ;;;
     modify (fun s => with_cnt_writes (u64 (cnt_writes_ s + 1)) s)))).
  - intros s. unfold Write, put_bytes. rewrite (u32_small (Z.of_nat (length bs))) by lia.
    unfold bind, assert. destruct (negb _); [| done].
    by destruct (OffsetToPtr o _ s).
  - pose proof (logged_put_bytes o bs _ eq_refl). apply _.
Qed.

#[export] Instance logged_Write32 o v : Logged (Write32 o v).
Proof. apply logged_Write. by rewrite length_le_split. Qed.

#[export] Instance logged_Write16 o v : Logged (Write16 o v).
Proof. apply logged_Write. by rewrite length_le_split. Qed.

Lemma logged_Memcpy d buf n : 0 <= n -> Logged (Memcpy d buf n).
Proof.
  intros Hn. destruct (decide (n <= Z.of_nat (length buf))) as [Hb | Hb].
  - apply (logged_ext _ (put_bytes d (take (Z.to_nat n) buf) n)).
    + intros s. unfold Memcpy, user_bytes, put_bytes, bind, guard, ret.
      by rewrite (proj2 (Z.leb_le _ _)) by lia.
    + apply logged_put_bytes. rewrite length_take. lia.
  - apply logged_pure. intros s. unfold Memcpy, user_bytes, bind, guard.
    by rewrite (proj2 (Z.leb_gt _ _)) by lia.
Qed.

(** ** The allocator *)

Ltac logged_op d := unfold d; apply _.

#[export] Instance logged_GetFreeListByBlockSize b : Logged (GetFreeListByBlockSize b).
Proof. logged_op GetFreeListByBlockSize. Qed.
#[export] Instance logged_RoundupBlockSize b : Logged (RoundupBlockSize b).
Proof. logged_op RoundupBlockSize. Qed.
#[export] Instance logged_ReadTheSizeTag b : Logged (ReadTheSizeTag b).
Proof. logged_op ReadTheSizeTag. Qed.
#[export] Instance logged_ReadThePrevFreeTag b : Logged (ReadThePrevFreeTag b).
Proof. logged_op ReadThePrevFreeTag. Qed.
#[export] Instance logged_ReadTheFreeTag b n : Logged (ReadTheFreeTag b n).
Proof. logged_op ReadTheFreeTag. Qed.
#[export] Instance logged_SetTheFreeTag b n : Logged (SetTheFreeTag b n).
Proof. logged_op SetTheFreeTag. Qed.
#[export] Instance logged_ResetTheFreeTag b n : Logged (ResetTheFreeTag b n).
Proof. logged_op ResetTheFreeTag. Qed.
#[export] Instance logged_RemoveBlock b n : Logged (RemoveBlock b n).
Proof. logged_op RemoveBlock. Qed.
#[export] Instance logged_SplitBlock b n k : Logged (SplitBlock b n k).
Proof. logged_op SplitBlock. Qed.

#[export] Instance logged_search_lists fuel l h : Logged (search_lists fuel l h).
Proof. revert l h. induction fuel as [|fuel IH]; intros l h; cbn [search_lists]; apply _. Qed.

#[export] Instance logged_AllocBlock n : Logged (AllocBlock n).
Proof. logged_op AllocBlock. Qed.
#[export] Instance logged_FreeBlock b : Logged (FreeBlock b).
Proof. logged_op FreeBlock. Qed.
#[export] Instance logged_Alloc n : Logged (Alloc n).
Proof. logged_op Alloc. Qed.
#[export] Instance logged_Free p : Logged (Free p).
Proof. logged_op Free. Qed.

(** ** The tablet *)

Section Tablet.
Context (r : Request.request) (Hk : 0 <= Request.key_len r) (Hv : 0 <= Request.val_len r).

#[local] Instance logged_copy_all p : Logged (Memcpy p (Request.data r) (Request.key_len r + Request.val_len r)).
Proof. apply logged_Memcpy. lia. Qed.

#[local] Instance logged_copy_val p : Logged (Memcpy p (Request.Val r) (Request.val_len r)).
Proof. by apply logged_Memcpy. Qed.

#[local] Instance logged_header p a b c d : Logged (Write p (NVMObject_bytes a b c d)) | 50.
Proof. apply logged_Write. unfold NVMObject_bytes. by rewrite !length_app, !length_le_split. Qed.

#[local] Instance logged_same_key p : Logged (same_key r p).
Proof. logged_op same_key. Qed.

#[local] Instance logged_find_prev fuel q p : Logged (find_prev fuel r q p).
Proof. revert q p. induction fuel as [|fuel IH]; intros q p; cbn [find_prev]; apply _. Qed.

#[local] Instance logged_find fuel p : Logged (find fuel r p).
Proof. revert p. induction fuel as [|fuel IH]; intros p; cbn [find]; apply _. Qed.

#[local] Instance logged_Del_loop fuel q p : Logged (Del_loop fuel r q p).
Proof. induction fuel as [|fuel IH]; cbn [Del_loop]; apply _. Qed.

#[local] Instance logged_store_object n : Logged (store_object r n).
Proof. logged_op store_object. Qed.

(** An operation that starts by setting the list. *)
Lemma logged_from {A} (c : M state A) mods s : Logged c ->
  exists l', modifications_ (final ((set_modifications (Some mods) ;;; c) s)) = Some (mods ++ l') /\
    logs s (final ((set_modifications (Some mods) ;;; c) s)) l'.
Proof. intros Hc. apply (Hc (with_modifications (Some mods) s) mods eq_refl). Qed.

(** What an operation changed is in the list it leaves behind [mods]. *)
Definition leaves {A} (mods : ModificationList) (s : state) (o : outcome state A) : Prop :=
  exists l', modifications_ (final o) = Some (mods ++ l') /\ logs s (final o) l'.

Lemma Put_logged fuel mods s : leaves mods s (Put fuel r mods s).
Proof using Hk Hv. unfold Put. apply logged_from; apply _. Qed.
Lemma Add_logged fuel mods s : leaves mods s (Add fuel r mods s).
Proof using Hk Hv. unfold Add. apply logged_from; apply _. Qed.
Lemma Del_logged fuel mods s : leaves mods s (Del fuel r mods s).
Proof using Hk Hv. unfold Del. apply logged_from; apply _. Qed.
Lemma Get_logged fuel cap mods s : leaves mods s (Get fuel cap r mods s).
Proof using Hk Hv. unfold Get. apply logged_from; apply _. Qed.

(** C15. Whatever a tablet operation does to the NVM is in the modification
    list it leaves, behind what the caller passed, with entries inside the
    tablet that name the addresses the bytes are read back from; this holds
    for operations that fail as well. *)
Theorem operations_logged fuel cap mods s :
  leaves mods s (Put fuel r mods s) /\ leaves mods s (Add fuel r mods s) /\
  leaves mods s (Del fuel r mods s) /\ leaves mods s (Get fuel cap r mods s).
Proof using Hk Hv. split_and!; [apply Put_logged | apply Add_logged | apply Del_logged | apply Get_logged]. Qed.
End Tablet.

Lemma operations_logged_witness : exists l',
  modifications_ (final (Put 1 (req Request.PUT k_example v_example) [] t1_example)) = Some ([] ++ l') /\
  logs t1_example (final (Put 1 (req Request.PUT k_example v_example) [] t1_example)) l'.
Proof.
  exact (proj1 (operations_logged (req Request.PUT k_example v_example) ltac:(vm_compute; discriminate)
    ltac:(vm_compute; discriminate) 1 0 [] t1_example)).
Defined.
