(* ===== verification/Verbs.v ===== *)
(** * Programs that call the verbs and the C library

    The transport ([infiniband.cc]), the replication in [tablet.cc] and the
    experiments are programs over the verbs, the connection manager and a few
    system calls.  None of those is part of the repository: a call is a node
    of a tree, its reply a parameter; an environment is any function from the
    history and a call to a reply. *)

From S2P Require Import Prelude.

(** ** The data of the verbs the programs use *)

Inductive ibv_qp_type := IBV_QPT_RC | IBV_QPT_UC | IBV_QPT_UD.
Inductive ibv_qp_state := IBV_QPS_RESET | IBV_QPS_INIT | IBV_QPS_RTR | IBV_QPS_RTS | IBV_QPS_ERR.
Inductive ibv_mtu := IBV_MTU_2048 | IBV_MTU_4096.
Inductive ibv_access := IBV_ACCESS_LOCAL_WRITE | IBV_ACCESS_REMOTE_WRITE | IBV_ACCESS_REMOTE_READ.
Inductive ibv_wr_opcode := IBV_WR_SEND | IBV_WR_SEND_WITH_IMM | IBV_WR_RDMA_WRITE | IBV_WR_RDMA_READ.
Inductive ibv_send_flag := IBV_SEND_SIGNALED | IBV_SEND_INLINE.
Inductive ibv_qp_attr_mask :=
  | IBV_QP_STATE | IBV_QP_ACCESS_FLAGS | IBV_QP_PKEY_INDEX | IBV_QP_PORT | IBV_QP_QKEY
  | IBV_QP_AV | IBV_QP_PATH_MTU | IBV_QP_TIMEOUT | IBV_QP_RETRY_CNT | IBV_QP_RNR_RETRY
  | IBV_QP_RQ_PSN | IBV_QP_MAX_QP_RD_ATOMIC | IBV_QP_MIN_RNR_TIMER | IBV_QP_SQ_PSN
  | IBV_QP_MAX_DEST_RD_ATOMIC | IBV_QP_DEST_QPN.

#[export] Instance ibv_qp_type_eq_dec : EqDecision ibv_qp_type.
Proof. solve_decision. Defined.
#[export] Instance ibv_qp_state_eq_dec : EqDecision ibv_qp_state.
Proof. solve_decision. Defined.
#[export] Instance ibv_access_eq_dec : EqDecision ibv_access.
Proof. solve_decision. Defined.
#[export] Instance ibv_wr_opcode_eq_dec : EqDecision ibv_wr_opcode.
Proof. solve_decision. Defined.
#[export] Instance ibv_send_flag_eq_dec : EqDecision ibv_send_flag.
Proof. solve_decision. Defined.
#[export] Instance ibv_qp_attr_mask_eq_dec : EqDecision ibv_qp_attr_mask.
Proof. solve_decision. Defined.

Record ibv_ah_attr := mkAh { is_global : Z; dlid : Z; sl : Z; src_path_bits : Z; ah_port_num : Z }.

(** A field of [struct ibv_qp_attr] and what is stored in it: an attribute is
    the list of its initialisers, so a field that is not in the list was not
    set. *)
Inductive ibv_qp_field :=
  | qp_state (s : ibv_qp_state) | pkey_index (v : Z) | port_num (v : Z) | qkey (v : Z)
  | qp_access_flags (l : list ibv_access) | path_mtu (m : ibv_mtu) | dest_qp_num (v : Z)
  | rq_psn (v : Z) | sq_psn (v : Z) | max_dest_rd_atomic (v : Z) | max_rd_atomic (v : Z)
  | min_rnr_timer (v : Z) | timeout (v : Z) | retry_cnt (v : Z) | rnr_retry (v : Z)
  | ah_attr (a : ibv_ah_attr).

Abbreviation ibv_qp_attr := (list ibv_qp_field).

Record ibv_qp_init_attr := mkInit {
  send_cq : Z; recv_cq : Z; init_type : ibv_qp_type; sq_sig_all : Z;
  max_send_wr : Z; max_recv_wr : Z; max_send_sge : Z; max_recv_sge : Z; max_inline_data : Z }.

Record ibv_mr := mkMr { mr_ptr : Z; lkey : Z; rkey : Z }.
Record ibv_qp := mkQp { qp_num : Z; qp_type : ibv_qp_type }.
Record ibv_port_attr := mkPort { port_lid : Z; active_mtu : Z }.
Record ibv_sge := mkSge { sge_addr : Z; sge_length : Z; sge_lkey : Z }.

(** The union [wr] of [struct ibv_send_wr], by the words its members share:
    [rdma] is {[remote_addr], [rkey]}, [ud] is {[ah], [remote_qpn],
    [remote_qkey]}. *)
Record wr_union := mkUnion { word0 : Z (* 8 bytes *); word1 : Z (* 4 bytes *); word2 : Z (* 4 bytes *) }.
Definition rdma_remote_addr := word0.
Definition rdma_rkey := word1.
Definition ud_ah := word0.
Definition ud_remote_qpn := word1.
Definition ud_remote_qkey := word2.
Definition set_rdma (a k : Z) (u : wr_union) : wr_union := mkUnion a k (word2 u).
Definition set_ud (a q k : Z) (u : wr_union) : wr_union := mkUnion a q k.

Record ibv_send_wr := mkSend {
  s_wr_id : Z; s_sg_list : list ibv_sge; s_opcode : ibv_wr_opcode;
  s_flags : list ibv_send_flag; s_wr : wr_union; s_imm : Z }.
Record ibv_recv_wr := mkRecv { r_wr_id : Z; r_sg_list : list ibv_sge }.

(** A work completion; [wc_recv] is the [IBV_WC_RECV] bit of its opcode. *)
Record ibv_wc := mkWc {
  wc_wr_id : Z; wc_status : Z; wc_recv : bool; wc_byte_len : Z; wc_qp_num : Z;
  wc_slid : Z; wc_src_qp : Z }.
Definition IBV_WC_SUCCESS : Z := 0.

(** What [ibv_poll_cq] returns: a negative number, or the number of entries
    it filled in. *)
Inductive polled := PollFailed (r : positive) | Polled (wcs : list ibv_wc).
Definition poll_ret (p : polled) : Z :=
  match p with PollFailed r => Z.neg r | Polled wcs => Z.of_nat (length wcs) end.
Definition poll_wcs (p : polled) : list ibv_wc :=
  match p with PollFailed _ => [] | Polled wcs => wcs end.

(** Events of the connection manager ([struct rdma_cm_event]). *)
Inductive rdma_cm_event_type :=
  | RDMA_CM_EVENT_ADDR_RESOLVED | RDMA_CM_EVENT_ADDR_ERROR | RDMA_CM_EVENT_ROUTE_ERROR
  | RDMA_CM_EVENT_MULTICAST_JOIN | RDMA_CM_EVENT_MULTICAST_ERROR
  | RDMA_CM_EVENT_DEVICE_REMOVAL | RDMA_CM_EVENT_OTHER.
Record rdma_cm_event := mkEvent {
  ev_id : Z; ev_type : rdma_cm_event_type; ev_status : Z;
  ev_qp_num : Z; ev_qkey : Z; ev_ah_attr : ibv_ah_attr }.

(** ** Calls and their replies *)

Inductive call :=
  (* devices and memory regions *)
  | ibv_get_device_list
  | ibv_free_device_list
  | ibv_get_device_name (dev : Z)
  | ibv_open_device (dev : Z)
  | ibv_close_device (ctx : Z)
  | ibv_query_port (ctx port : Z)
  | ibv_alloc_pd (ctx : Z)
  | ibv_dealloc_pd (pd : Z)
  | ibv_reg_mr (pd addr len : Z) (access : list ibv_access)
  | ibv_dereg_mr (mr : Z)
  (* queues *)
  | ibv_create_comp_channel (ctx : Z)
  | ibv_destroy_comp_channel (ch : Z)
  | ibv_create_cq (ctx cqe : Z)
  | ibv_destroy_cq (cq : Z)
  | ibv_create_qp (pd : Z) (attr : ibv_qp_init_attr)
  | ibv_create_qp_srq (pd : Z) (attr : ibv_qp_init_attr) (srq : Z)   (* with [attr.srq] set *)
  | ibv_create_srq (pd max_wr max_sge : Z)
  | ibv_destroy_srq (srq : Z)
  | ibv_destroy_qp (qp : ibv_qp)
  | ibv_modify_qp (qp : ibv_qp) (attr : ibv_qp_attr) (mask : list ibv_qp_attr_mask)
  | ibv_query_qp (qp : ibv_qp) (mask : list ibv_qp_attr_mask)
  | ibv_create_ah (pd : Z) (attr : ibv_ah_attr)
  | ibv_destroy_ah (ah : Z)
  (* work requests *)
  | ibv_post_send (qp : ibv_qp) (wrs : list ibv_send_wr)
  | ibv_post_recv (qp : ibv_qp) (wr : ibv_recv_wr)
  | ibv_post_srq_recv (srq : Z) (wr : ibv_recv_wr)
  | ibv_poll_cq (cq num_entries : Z)
  | ibv_req_notify_cq (cq solicited : Z)
  | ibv_get_cq_event (ch : Z)
  | ibv_ack_cq_events (cq n : Z)
  (* the connection manager *)
  | rdma_create_event_channel
  | rdma_destroy_event_channel (ch : Z)
  | rdma_create_id (ch node port_space : Z)
  | rdma_destroy_id (id : Z)
  | rdma_bind_addr (id addr : Z)
  | rdma_resolve_addr (id src dst timeout_ms : Z)
  | rdma_create_qp (id pd : Z) (attr : ibv_qp_init_attr)
  | rdma_destroy_qp (id : Z)
  | rdma_join_multicast (id addr : Z)
  | rdma_leave_multicast (id addr : Z)
  | rdma_get_cm_event (ch : Z)
  | rdma_ack_cm_event (ev : rdma_cm_event)
  (* memory *)
  | memalign (align size : Z)
  | malloc (size : Z)
  | free (p : Z)
  | memset (p v n : Z)
  | snprintf (p n : Z) (s : string)
  | load_byte (p : Z)          (* memory the device may write *)
  | store_byte (p v : Z)
  (* sockets and the rest of the system *)
  | socket (domain type : string)
  | setsockopt (fd : Z) (opt : string) (v : Z)
  | bind_ (fd port : Z)
  | listen (fd backlog : Z)
  | accept (fd : Z)
  | inet_pton (name : string)
  | connect (fd : Z) (addr port : Z)
  | getaddrinfo (host : option string) (service : string)
  | freeaddrinfo
  | read (fd n : Z)
  | write (fd : Z) (bs : list Init.Byte.byte)
  | close (fd : Z)
  | clock_gettime
  | clock
  | sleep (us : Z)
  | getpid
  | time_
  | srand48 (seed : Z)
  | lrand48
  | sysconf_pagesize
  | printf (fmt : string) (args : list Z)
  | perror (s : string)
  | os (name : string) (args : list Z).    (* any other call that returns an [int] *)

Definition reply (c : call) : Type :=
  match c with
  | ibv_get_device_list => option (list Z)
  | ibv_get_device_name _ => string
  | ibv_query_port _ _ => Z * ibv_port_attr
  | ibv_reg_mr _ _ _ _ => option ibv_mr
  | ibv_create_qp _ _ | ibv_create_qp_srq _ _ _ => option ibv_qp
  | ibv_query_qp _ _ => Z * ibv_qp_state * Z          (* result, state, dest_qp_num *)
  | ibv_poll_cq _ _ => polled
  | ibv_get_cq_event _ => Z * Z                       (* result, queue *)
  | rdma_create_id _ _ _ => Z * Z                     (* result, id *)
  | rdma_create_qp _ _ _ => Z * ibv_qp                (* result, id->qp *)
  | rdma_get_cm_event _ => Z * rdma_cm_event
  | inet_pton _ => Z * Z                              (* result, address *)
  | getaddrinfo _ _ => Z * list Z                     (* result, addresses *)
  | read _ _ => option (list Init.Byte.byte)          (* [None] for -1 *)
  | clock_gettime => Z * (Z * Z)                      (* result, (tv_sec, tv_nsec) *)
  | ibv_free_device_list | freeaddrinfo | free _ | memset _ _ _ | store_byte _ _ | sleep _
  | srand48 _ | printf _ _ | perror _ | ibv_ack_cq_events _ _ | rdma_destroy_qp _ | rdma_destroy_event_channel _ => unit
  | _ => Z
  end.

(** ** Programs *)

(** How a program stops other than by returning. *)
Inductive stop :=
  | Exit (code : Z)
  | Fault (e : error)
  | Terminate.      (* an exception of the library that nobody catches *)

Inductive prog (A : Type) : Type :=
  | Ret (a : A)
  | Stop (s : stop)
  | Vis (c : call) (k : reply c -> prog A).
Arguments Ret {A}.
Arguments Stop {A}.
Arguments Vis {A}.

Fixpoint pbind {A B} (p : prog A) (k : A -> prog B) : prog B :=
  match p with
  | Ret a => k a
  | Stop s => Stop s
  | Vis c k' => Vis c (fun r => pbind (k' r) k)
  end.

Declare Scope prog_scope.
Delimit Scope prog_scope with prog.
Bind Scope prog_scope with prog.
Notation "x <- p ;; k" := (pbind p (fun x => k)) : prog_scope.
Notation "p ;;; k" := (pbind p (fun _ => k)) : prog_scope.

Section Programs.
#[local] Open Scope prog_scope.

(** A library call. *)
Definition sys (c : call) : prog (reply c) := Vis c Ret.

(** [assert(b)]; [nvds_expect(b, err)] prints the error and exits with -1. *)
Definition check (b : bool) : prog unit := if b then Ret tt else Stop (Fault AssertFail).
Definition throw {A} (errno : Z) : prog A := Stop (Fault (Throw errno)).
Definition exit {A} (code : Z) : prog A := Stop (Exit code).

(** [try { p } catch (TransportException& e) { h(e) }] *)
Fixpoint try_ {A} (p : prog A) (h : Z -> prog A) : prog A :=
  match p with
  | Ret a => Ret a
  | Stop (Fault (Throw errno)) => h errno
  | Stop s => Stop s
  | Vis c k => Vis c (fun r => try_ (k r) h)
  end.

(** An exception of [p] leaves a scope: the destructors of the objects in it
    run before it goes on. *)
Definition unwind {A} (cleanup : prog unit) (p : prog A) : prog A := try_ p (fun errno => cleanup ;;; throw errno).

(** [operator new] of [n] bytes: [std::bad_alloc] when there are none. *)
Definition new_ (n : Z) : prog Z := p <- sys (malloc n) ;; if p =? 0 then Stop Terminate else Ret p.

(** [for (i = 0; i < n; ++i)] over a state. *)
Fixpoint for_ {S} (n : nat) (body : S -> prog S) (s : S) : prog S :=
  match n with
  | O => Ret s
  | S n' => s' <- body s ;; for_ n' body s'
  end.

(** [while (cond)] over a state, cut off after [fuel] iterations. *)
Fixpoint while_ {S} (fuel : nat) (cond : S -> bool) (body : S -> prog S) (s : S) : prog S :=
  match fuel with
  | O => Stop (Fault OutOfFuel)
  | S fuel' => if cond s then s' <- body s ;; while_ fuel' cond body s' else Ret s
  end.

(** [while (ibv_poll_cq(cq, 1, &wc) != 1) {}] *)
Fixpoint poll_one (fuel : nat) (cq : Z) : prog ibv_wc :=
  match fuel with
  | O => Stop (Fault OutOfFuel)
  | S fuel' =>
      p <- sys (ibv_poll_cq cq 1) ;;
      match p with
      | Polled [wc] => Ret wc
      | _ => poll_one fuel' cq
      end
  end.
End Programs.

(** ** Running a program against an environment *)

Record event := mkCall { ev_call : call; ev_reply : reply ev_call }.
Abbreviation trace := (list event).
Definition env := trace -> forall c, reply c.

Inductive result (A : Type) := Returned (a : A) | Stopped (s : stop).
Arguments Returned {A}.
Arguments Stopped {A}.

(** [h] is the history so far, latest first. *)
Fixpoint run {A} (e : env) (h : trace) (p : prog A) : trace * result A :=
  match p with
  | Ret a => (h, Returned a)
  | Stop s => (h, Stopped s)
  | Vis c k => run e (mkCall c (e h c) :: h) (k (e h c))
  end.

Lemma run_bind {A B} e h (p : prog A) (k : A -> prog B) :
  run e h (pbind p k) =
  match run e h p with
  | (h', Returned a) => run e h' (k a)
  | (h', Stopped s) => (h', Stopped s)
  end.
Proof. revert h. induction p as [a | s | c k' IH]; intros h; cbn; auto. Qed.

Lemma pbind_assoc_run {A B C} e h (p : prog A) (k : A -> prog B) (l : B -> prog C) :
  run e h (pbind (pbind p k) l) = run e h (pbind p (fun a => pbind (k a) l)).
Proof. rewrite !run_bind. destruct (run e h p) as [h' [a | s]]; [by rewrite run_bind | done]. Qed.
