(* ===== verification/Merge.v ===== *)
(** * [tablet.cc]: merging the modifications of an operation

    Before the log of an operation is sent, [MergeModifications] sorts it in
    place by offset and joins entries that are at most 16 bytes apart. *)

From stdpp Require Import sorting.
From S2P Require Import Prelude Modification Verbs.
From stdpp Require Import list.

#[local] Open Scope Z_scope.
#[local] Open Scope prog_scope.

(** [std::swap(modifications[j], modifications[i])] *)
Definition swap (i j : nat) (l : ModificationList) : ModificationList :=
  <[i := l !!! j]> (<[j := l !!! i]> l).

(** [for (size_t j = ...; j < n; ++j)] with [k] rounds left. *)
Fixpoint select_min (k i j : nat) (l : ModificationList) : ModificationList :=
  match k with
  | O => l
  | S k' => select_min k' i (S j) (if Modification_lt (l !!! j) (l !!! i) then swap i j l else l)
  end.

Fixpoint sort_from (k i : nat) (l : ModificationList) : ModificationList :=
  match k with
  | O => l
  | S k' => sort_from k' (S i) (select_min (length l - S i) i (S i) l)
  end.

Definition sort_modifications (l : ModificationList) : ModificationList := sort_from (length l) 0 l.

Definition gap : Z := 16.

(** The variables of the second loop; entries are joined in place. *)
Record joining := mkJoining { entries : ModificationList; i_ : nat; src_ : Z; begin_ : Z; end_ : Z }.

Definition push (j : joining) : ModificationList :=
  <[i_ j := mkModification (begin_ j) (u32 (end_ j - begin_ j)) (src_ j)]> (entries j).

Definition join_step (j : joining) (idx : nat) : joining :=
  let m := entries j !!! idx in
  if end_ j + gap <? des m then
    mkJoining (push j) (S (i_ j)) (src m) (des m) (u32 (des m + len m))
  else mkJoining (entries j) (i_ j) (src_ j) (begin_ j) (Z.max (end_ j) (u32 (des m + len m))).

Definition join_modifications (l : ModificationList) : joining :=
  let m := l !!! 0%nat in
  foldl join_step (mkJoining l 0 (src m) (des m) (u32 (des m + len m))) (seq 0 (length l)).

Definition MergeModifications (modifications : ModificationList) : prog ModificationList :=
  check (negb (bool_decide (modifications = []))) ;;;
  let l := sort_modifications modifications in
  let j := join_modifications l in
  if decide (i_ j < length l)%nat then Ret (take (S (i_ j)) (push j)) else Stop (Fault Segv).

(** ** The first loop sorts *)

Definition le_des (a b : Modification) : Prop := des a <= des b.

Lemma swap_perm i j l : (i < length l)%nat -> (j < length l)%nat -> swap i j l ≡ₚ l.
Proof.
  intros Hi Hj. apply Permutation_insert_swap; by apply list_lookup_lookup_total_lt.
Qed.

Lemma swap_length i j l : length (swap i j l) = length l.
Proof. unfold swap. by rewrite !length_insert. Qed.

Lemma swap_at i j l k : (i < length l)%nat -> (j < length l)%nat ->
  swap i j l !!! k = if decide (k = i) then l !!! j else if decide (k = j) then l !!! i else l !!! k.
Proof.
  intros Hi Hj. unfold swap. repeat case_decide; subst.
  - by rewrite list_lookup_total_insert_eq by (rewrite length_insert; lia).
  - rewrite list_lookup_total_insert_ne by done. by rewrite list_lookup_total_insert_eq.
  - by rewrite !list_lookup_total_insert_ne.
Qed.

(** What the inner loop leaves alone and what it achieves. *)
Record selected (i : nat) (l l' : ModificationList) : Prop := {
  sel_perm : l' ≡ₚ l;
  sel_prefix : forall k, (k < i)%nat -> l' !!! k = l !!! k;
  sel_min : forall k, (i < k < length l)%nat -> le_des (l' !!! i) (l' !!! k) }.

Lemma select_min_spec k i j l : (i < j)%nat -> (j + k = length l)%nat ->
  (forall m, (i < m < j)%nat -> le_des (l !!! i) (l !!! m)) -> selected i l (select_min k i j l).
Proof.
  revert j l. induction k as [|k IH]; intros j l Hij Hl Hm; cbn [select_min].
  { split; [done | done |]. intros m Hm'. apply Hm. lia. }
  set (l1 := if Modification_lt _ _ then _ else _).
  assert (l1 ≡ₚ l) as Hp by (unfold l1; case_match; [apply swap_perm; lia | done]).
  assert (length l1 = length l) as Hlen by (by apply Permutation_length).
  destruct (IH (S j) l1) as [H1 H2 H3]; [lia | lia | |].
  - intros m Hm'. unfold l1, Modification_lt, le_des in *.
    destruct (Z.ltb_spec (des (l !!! j)) (des (l !!! i))).
    + rewrite !swap_at by lia. repeat case_decide; try lia. specialize (Hm m). lia.
    + destruct (decide (m = j)) as [-> | ?]; [lia | apply Hm; lia].
  - rewrite Hlen in H3. split; [by rewrite H1 | | exact H3]. intros m Hm'. rewrite H2 by done.
    unfold l1. case_match; [| done]. rewrite swap_at by lia. by rewrite !decide_False by lia.
Qed.

(** Selecting permutes the entries from [i] on. *)
Lemma selected_suffix i l l' : (i <= length l)%nat -> selected i l l' -> drop i l' ≡ₚ drop i l.
Proof.
  intros Hi [Hp Hpre _]. assert (length l' = length l) as Hlen by (by apply Permutation_length).
  assert (take i l' = take i l) as E.
  { apply list_eq_same_length with i; [rewrite length_take; lia | rewrite length_take; lia |].
    intros m x y Hm. rewrite !lookup_take_lt by done.
    intros E1%list_lookup_total_correct E2%list_lookup_total_correct. subst. by apply Hpre. }
  apply (Permutation_app_inv_l (take i l)). rewrite <- E at 1. by rewrite !take_drop.
Qed.

Lemma sort_from_spec k i l : (i + k = length l)%nat ->
  (forall a b, (a < b < length l)%nat -> (a < i)%nat -> le_des (l !!! a) (l !!! b)) ->
  sort_from k i l ≡ₚ l /\
  forall a b, (a < b < length l)%nat -> le_des (sort_from k i l !!! a) (sort_from k i l !!! b).
Proof.
  revert i l. induction k as [|k IH]; intros i l Hl Hs; cbn [sort_from].
  { split; [done |]. intros a b Hab. apply Hs; lia. }
  destruct (select_min_spec (length l - S i) i (S i) l) as [H1 H2 H3]; [lia | lia | lia |].
  set (l1 := select_min _ _ _ _) in *.
  assert (length l1 = length l) as Hlen by (by apply Permutation_length).
  destruct (IH (S i) l1) as [P1 P2]; [lia | |].
  - intros a b Hab Ha. rewrite Hlen in Hab. destruct (decide (a = i)) as [-> | ?]; [by apply H3 |].
    rewrite (H2 a) by lia.
    pose proof (selected_suffix i l l1 ltac:(lia) (Build_selected _ _ _ H1 H2 H3)) as Hd.
    destruct (decide (b < i)%nat); [rewrite H2 by lia; apply Hs; lia |].
    assert (l1 !!! b ∈ drop i l1) as Hin.
    { apply list_elem_of_lookup. exists (b - i)%nat. rewrite lookup_drop.
      replace (i + (b - i))%nat with b by lia. apply list_lookup_lookup_total_lt. lia. }
    rewrite Hd in Hin. apply list_elem_of_lookup in Hin as [m Hm]. rewrite lookup_drop in Hm.
    pose proof (lookup_lt_Some _ _ _ Hm). apply list_lookup_total_correct in Hm. rewrite <- Hm.
    apply Hs; lia.
  - split; [by rewrite P1 |]. intros a b Hab. apply P2. lia.
Qed.

Lemma sorted_of_index l : (forall a b, (a < b < length l)%nat -> le_des (l !!! a) (l !!! b)) -> StronglySorted le_des l.
Proof.
  induction l as [|m l IH]; intros H; constructor.
  - apply IH. intros a b Hab. apply (H (S a) (S b)). cbn. lia.
  - apply Forall_forall. intros x [k Hk]%list_elem_of_lookup.
    pose proof (lookup_lt_Some _ _ _ Hk). apply list_lookup_total_correct in Hk. rewrite <- Hk.
    apply (H 0%nat (S k)). cbn. lia.
Qed.

Lemma sort_modifications_spec l :
  sort_modifications l ≡ₚ l /\ StronglySorted le_des (sort_modifications l).
Proof.
  destruct (sort_from_spec (length l) 0 l) as [H1 H2]; [done | lia |]. split; [exact H1 |].
  apply sorted_of_index. intros a b Hab. apply H2. by rewrite <- (Permutation_length H1).
Qed.

(** The bytes entries span, each with the gap behind it. *)
Definition span (l : ModificationList) : Z := foldr (fun m n => len m + gap + n) 0 l.

Lemma span_app l1 l2 : span (l1 ++ l2) = span l1 + span l2.
Proof. unfold span. induction l1 as [|m l1 IH]; cbn [app foldr]; [done | lia]. Qed.

#[export] Instance span_perm : Proper (Permutation ==> eq) span.
Proof. intros l1 l2. unfold span. induction 1; cbn [foldr]; [done | lia | lia | congruence]. Qed.

(** ** The second loop, without the array *)

(** The entry [{b, s, e - b}] is open; [l] is still to come. *)
Fixpoint runs (s b e : Z) (l : ModificationList) : ModificationList :=
  match l with
  | [] => [mkModification b (u32 (e - b)) s]
  | m :: l' =>
      if e + gap <? des m then mkModification b (u32 (e - b)) s :: runs (src m) (des m) (u32 (des m + len m)) l'
      else runs s b (Z.max e (u32 (des m + len m))) l'
  end.

Lemma take_push j : (i_ j < length (entries j))%nat ->
  take (S (i_ j)) (push j) = take (i_ j) (entries j) ++ [mkModification (begin_ j) (u32 (end_ j - begin_ j)) (src_ j)].
Proof.
  intros H. unfold push. rewrite (take_S_r _ _ (mkModification (begin_ j) (u32 (end_ j - begin_ j)) (src_ j)))
    by (by apply list_lookup_insert_eq). by rewrite take_insert_ge by lia.
Qed.

Lemma join_step_push j m k : entries j !!! k = m -> end_ j + gap < des m ->
  join_step j k = mkJoining (push j) (S (i_ j)) (src m) (des m) (u32 (des m + len m)).
Proof. intros <- H. unfold join_step. by rewrite (proj2 (Z.ltb_lt _ _)) by lia. Qed.

Lemma join_step_join j m k : entries j !!! k = m -> des m <= end_ j + gap ->
  join_step j k = mkJoining (entries j) (i_ j) (src_ j) (begin_ j) (Z.max (end_ j) (u32 (des m + len m))).
Proof. intros <- H. unfold join_step. by rewrite (proj2 (Z.ltb_ge _ _)) by lia. Qed.

Lemma runs_nonempty s b e l : runs s b e l <> [].
Proof. revert s b e. induction l as [|m l IH]; intros s b e; cbn; [done | by case_match]. Qed.

(** Writing the joined entries over the list being read is harmless: the
    write index never catches up with the read index. *)
Lemma join_in_place l k j : length (entries j) = length l -> (k <= length l)%nat ->
  (forall m, (k <= m)%nat -> entries j !!! m = l !!! m) -> (i_ j < k)%nat ->
  let j' := foldl join_step j (seq k (length l - k)) in
  (i_ j' < length l)%nat /\ length (entries j') = length l /\
  take (S (i_ j')) (push j') = take (i_ j) (entries j) ++ runs (src_ j) (begin_ j) (end_ j) (drop k l).
Proof.
  remember (length l - k)%nat as n eqn:En. revert k j En. induction n as [|n IH]; intros k j En Hl Hk Hm Hi; cbn [seq foldl].
  - rewrite drop_ge by lia. cbn [runs]. split; [lia |]. split; [done |]. apply take_push. lia.
  - rewrite (drop_S l (l !!! k) k) by (apply list_lookup_lookup_total_lt; lia). cbn [runs].
    destruct (Z.ltb_spec (end_ j + gap) (des (l !!! k))) as [Hg | Hg].
    + rewrite (join_step_push j (l !!! k) k) by (lia || by apply Hm). specialize (IH (S k) (mkJoining (push j) (S (i_ j)) (src (l !!! k)) (des (l !!! k)) (u32 (des (l !!! k) + len (l !!! k))))).
      cbn in IH. destruct IH as (H1 & H2 & H3); [lia | unfold push; by rewrite length_insert | lia | | lia |].
      { intros m Hm'. unfold push. rewrite list_lookup_total_insert_ne by lia. apply Hm. lia. }
      split; [exact H1 |]. split; [exact H2 |]. rewrite H3, take_push by lia. by rewrite <- app_assoc.
    + rewrite (join_step_join j (l !!! k) k) by (lia || by apply Hm). specialize (IH (S k) (mkJoining (entries j) (i_ j) (src_ j) (begin_ j) (Z.max (end_ j) (u32 (des (l !!! k) + len (l !!! k)))))).
      cbn in IH. apply IH; [lia | done | lia | intros; apply Hm; lia | lia].
Qed.

Lemma MergeModifications_runs l m l' : sort_modifications l = m :: l' -> u32 (des m + len m) + gap >= des m ->
  MergeModifications l = Ret (runs (src m) (des m) (u32 (des m + len m)) l').
Proof.
  intros E Hm. unfold MergeModifications. rewrite E.
  assert (l <> []) as Hne by (intros ->; done). rewrite bool_decide_eq_false_2 by done. cbn [negb check pbind].
  destruct (join_in_place (m :: l') 1 (mkJoining (m :: l') 0 (src m) (des m) (u32 (des m + len m)))) as (H1 & _ & H3);
    [done | cbn; lia | done | cbn; lia |].
  unfold join_modifications. change (length (m :: l') - 1)%nat with (length l' - 0)%nat in *.
  rewrite Nat.sub_0_r in H1, H3. cbn [length seq foldl] in *.
  change ((m :: l') !!! 0%nat) with m. rewrite (join_step_join _ m 0) by (cbn; lia || done).
  cbn [entries i_ src_ begin_ end_]. rewrite Z.max_id.
  rewrite decide_True by exact H1. f_equal. exact H3.
Qed.

(** ** What merging does *)

Section Spec.
(** The local copy of the tablet starts at [base] and has [top] bytes. *)
Variables (base top : Z).
Hypothesis top_32 : top < 2 ^ 32 - gap.

(** An entry inside the tablet that names where its bytes are read from. *)
Definition names (m : Modification) : Prop :=
  0 <= des m /\ 0 <= len m /\ des m + len m <= top /\ src m = u64 (base + des m).

Definition apart (a b : Modification) : Prop := des a + len a + gap < des b.

(** [x] is at most [gap] bytes behind an entry. *)
Definition near (l : ModificationList) (x : Z) : Prop := Exists (fun m => des m <= x < des m + len m + gap) l.

Record merged (b e : Z) (l l' : ModificationList) : Prop := {
  mer_names : Forall names l';
  mer_from : Forall (fun m => b <= des m) l';
  mer_apart : StronglySorted apart l';
  mer_open : forall x, b <= x < e -> covered l' x;
  mer_covers : forall x, covered l x -> covered l' x;
  mer_only : forall x, covered l' x -> b <= x < e + gap \/ near l x }.

Lemma runs_spec l s b e : StronglySorted le_des l -> Forall names l -> Forall (fun m => b <= des m) l ->
  0 <= b <= e -> e <= top -> s = u64 (base + b) -> merged b e l (runs s b e l).
Proof using top_32.
  revert s b e. induction l as [|m l IH]; intros s b e Hs Hn Hf Hb He ->; cbn [runs].
  - rewrite u32_small by (unfold gap in *; lia). split.
    + repeat constructor; cbn; lia.
    + repeat constructor; cbn; lia.
    + repeat constructor.
    + intros x Hx. apply covered_cons. left. unfold covers. cbn. lia.
    + by intros x []%covered_nil.
    + intros x [Hx | Hx]%covered_cons; [| by apply covered_nil in Hx]. unfold covers, gap in *. cbn in Hx. lia.
  - apply StronglySorted_inv in Hs as [Hs Hall]. apply Forall_cons in Hn as [(N1 & N2 & N3 & N4) Hn].
    apply Forall_cons in Hf as [Hbm Hf]. rewrite (u32_small (des m + len m)) by (unfold gap in *; lia).
    destruct (Z.ltb_spec (e + gap) (des m)) as [Hg | Hg].
    + destruct (IH (src m) (des m) (des m + len m)) as [H1 H2 H3 H4 H5 H6]; [done | done | done | lia | lia | done |].
      rewrite u32_small by (unfold gap in *; lia). split.
      * constructor; [repeat split; cbn; lia | done].
      * constructor; [cbn; lia |]. eapply Forall_impl; [exact H2 |]. cbn. unfold gap in *. lia.
      * constructor; [done |]. eapply Forall_impl; [exact H2 |]. unfold apart. cbn. lia.
      * intros x Hx. apply covered_cons. left. unfold covers. cbn. lia.
      * intros x [Hx | Hx]%covered_cons; apply covered_cons; right; [by apply H4 | by apply H5].
      * intros x [Hx | Hx]%covered_cons; [unfold covers, gap in *; cbn in Hx; lia |].
        right. apply Exists_cons. destruct (H6 x Hx) as [? | ?]; [left; lia | by right].
    + destruct (IH (u64 (base + b)) b (Z.max e (des m + len m))) as [H1 H2 H3 H4 H5 H6]; [done.. | lia | lia | done |].
      split; [done | done | done | | |].
      * intros x Hx. apply H4. lia.
      * intros x [Hx | Hx]%covered_cons; [apply H4; unfold covers in Hx; lia | by apply H5].
      * intros x Hx. destruct (H6 x Hx) as [? | ?].
        -- destruct (decide (x < e + gap)); [left; lia |]. right. apply Exists_cons. left. lia.
        -- right. apply Exists_cons. by right.
Qed.

Lemma merge_run l : l <> [] -> Forall names l ->
  exists l', MergeModifications l = Ret l' /\ l' <> [] /\ Forall names l' /\ StronglySorted apart l' /\
    (forall x, covered l x -> covered l' x) /\ (forall x, covered l' x -> near l x).
Proof using top_32.
  intros Hne Hn. destruct (sort_modifications_spec l) as [Hp Hs].
  destruct (sort_modifications l) as [|m ms] eqn:E; [by apply Permutation_nil_l in Hp |].
  rewrite <- Hp in Hn. pose proof Hn as Hn'. apply Forall_cons in Hn as [(N1 & N2 & N3 & N4) Hn].
  apply StronglySorted_inv in Hs as [Hs Hall].
  exists (runs (src m) (des m) (u32 (des m + len m)) ms).
  rewrite u32_small by (unfold gap in *; lia).
  destruct (runs_spec ms (src m) (des m) (des m + len m)) as [H1 H2 H3 H4 H5 H6]; [done | done | done | lia | lia | done |].
  split; [rewrite (MergeModifications_runs l m ms E); rewrite u32_small; [done | unfold gap in *; lia..] |].
  split; [apply runs_nonempty |].
  assert (forall x, covered l x <-> covered (m :: ms) x) as Hc by (intros x; unfold covered; by rewrite Hp).
  split; [done |]. split; [done |]. split.
  - intros x [Hx | Hx]%Hc%covered_cons; [by apply H4 | by apply H5].
  - intros x Hx. unfold near. rewrite <- Hp. apply Exists_cons. destruct (H6 x Hx) as [? | ?]; [left; lia | by right].
Qed.

Lemma span_nonneg l : Forall names l -> 0 <= span l.
Proof.
  unfold span. induction 1 as [|m l (_ & H & _) _ IH]; cbn [foldr]; unfold gap in *; lia.
Qed.

(** The first entry starts where the least entry of the log does and is no
    longer than all of them with their gaps. *)
Lemma runs_first s b e l m ms : Forall names l -> 0 <= b <= e -> e <= top -> runs s b e l = m :: ms ->
  des m = b /\ des m + len m <= e + span l.
Proof using top_32.
  revert s b e. induction l as [|x l IH]; intros s b e Hn Hb He; cbn [runs].
  - intros [= <- _]. cbn. rewrite u32_small by (unfold gap in *; lia). lia.
  - apply Forall_cons in Hn as [(N1 & N2 & N3 & N4) Hn].
    change (span (x :: l)) with (len x + gap + span l).
    pose proof (span_nonneg l Hn) as Hl.
    rewrite (u32_small (des x + len x)) by (unfold gap in *; lia). destruct (Z.ltb_spec (e + gap) (des x)).
    + intros [= <- _]. cbn. rewrite u32_small by (unfold gap in *; lia). unfold gap in *. lia.
    + intros Hr. apply IH in Hr as [-> ?]; [split; [done | unfold gap in *; lia] | done | lia | lia].
Qed.

Lemma merge_first l m ms d : Forall names l -> MergeModifications l = Ret (m :: ms) ->
  Exists (fun x => des x < d) l -> des m < d /\ des m + len m <= des m + span l.
Proof using top_32.
  intros Hn Hm Hd. destruct (sort_modifications_spec l) as [Hp Hs].
  destruct (sort_modifications l) as [|x l'] eqn:E; [apply Permutation_nil_l in Hp; subst; by apply Exists_nil in Hd |].
  assert (span l = span (x :: l')) as -> by (by rewrite <- Hp).
  rewrite <- Hp in Hn, Hd. apply StronglySorted_inv in Hs as [_ Hall].
  apply Forall_cons in Hn as [(N1 & N2 & N3 & N4) Hn].
  rewrite (MergeModifications_runs l x l' E) in Hm by (rewrite u32_small; unfold gap in *; lia).
  rewrite u32_small in Hm by (unfold gap in *; lia). injection Hm as Hm.
  apply runs_first in Hm as [H1 H2]; [| done | lia | lia]. change (span (x :: l')) with (len x + gap + span l').
  split; [| unfold gap; lia]. rewrite H1. apply Exists_cons in Hd as [? | Hd]; [done |].
  apply Exists_exists in Hd as (y & Hy & ?). rewrite Forall_forall in Hall. specialize (Hall y Hy). unfold le_des in Hall. lia.
Qed.

(** C27. Merging the log of an operation loses nothing: it returns entries in
    ascending order, more than the gap apart, that still name the addresses
    their bytes are read from; they cover every byte that was logged, and
    beyond those only bytes less than the gap behind a logged entry.  The
    in-place loops never leave the list. *)
Theorem MergeModifications_spec l : l <> [] -> Forall names l ->
  exists l', MergeModifications l = Ret l' /\ l' <> [] /\ Forall names l' /\ StronglySorted apart l' /\
    (forall x, covered l x -> covered l' x) /\ (forall x, covered l' x -> near l x).
Proof using top_32. apply merge_run. Qed.
End Spec.

(** Three entries out of order, two of them within the gap. *)
Definition log_of_three : ModificationList := [mkModification 100 8 100; mkModification 10 4 10; mkModification 20 6 20].

Lemma MergeModifications_spec_witness : exists l', MergeModifications log_of_three = Ret l' /\ l' <> [] /\
  Forall (names 0 200) l' /\ StronglySorted apart l' /\
  (forall x, covered log_of_three x -> covered l' x) /\ (forall x, covered l' x -> near log_of_three x).
Proof.
  apply (MergeModifications_spec 0 200); [reflexivity | discriminate |].
  repeat constructor; vm_compute; congruence.
Defined.
