(* ===== verification/LogSize.v ===== *)
(** * How much an operation logs, and where

    A [Put] logs little: a bound on the bytes its entries span, through every
    call it makes.  And an allocation that succeeds logs the list head it took
    the block from, at the start of the tablet.  The first of the merged
    entries therefore stays far below the hash table. *)

From S2P Require Import Prelude Nvm Modification Allocator Wire Tablet TabletRefine Logged Verbs Merge.
Import Allocator Tablet.

(** ** Spans *)

(** [c] appends entries that span at most [n] bytes. *)
Class Adds {A} (n : N) (c : M state A) : Prop :=
  adds : forall s l, modifications_ s = Some l ->
    exists l', modifications_ (final (c s)) = Some (l ++ l') /\ span l' <= Z.of_N n.

#[export] Hint Mode Adds - - ! : typeclass_instances.
#[local] Hint Opaque Write Write32 Read32 Memcpy : typeclass_instances.

Lemma adds_le {A} n n' (c : M state A) : Adds n c -> (n <= n')%N -> Adds n' c.
Proof. intros H Hn s l Hl. destruct (H s l Hl) as (l' & E & Hl'). exists l'. split; [done | lia]. Qed.

Lemma adds_quiet {A} (c : M state A) : (forall s, modifications_ (final (c s)) = modifications_ s) -> Adds 0 c.
Proof. intros H s l Hl. exists []. by rewrite H, app_nil_r. Qed.

#[export] Instance adds_ret {A} (a : A) : Adds 0 (ret a).
Proof. by apply adds_quiet. Qed.
#[export] Instance adds_fail {A} e : Adds 0 (fail e : M state A).
Proof. by apply adds_quiet. Qed.
#[export] Instance adds_assert b : Adds 0 (assert b).
Proof. apply adds_quiet. by destruct b. Qed.
#[export] Instance adds_OffsetToPtr o n : Adds 0 (OffsetToPtr o n).
Proof. apply adds_quiet. intros s. unfold OffsetToPtr, bind, get, guard. by destruct (in_region s o n). Qed.
#[export] Instance adds_gets {A} (f : state -> A) : Adds 0 (gets f).
Proof. by apply adds_quiet. Qed.
#[export] Instance adds_user_bytes b n : Adds 0 (user_bytes b n).
Proof. apply adds_quiet. intros s. unfold user_bytes, bind, guard. by destruct (n <=? _). Qed.
#[export] Instance adds_set_nvm (f : state -> mem) : Adds 0 (modify (fun s => with_nvm (f s) s)).
Proof. by apply adds_quiet. Qed.
#[export] Instance adds_cnt_writes (f : state -> Z) : Adds 0 (modify (fun s => with_cnt_writes (f s) s)).
Proof. by apply adds_quiet. Qed.

#[export] Instance adds_emplace_back d n : Adds (Z.to_N n + Z.to_N gap) (emplace_back d n).
Proof.
  intros s l Hl. exists [mkModification d n (u64 (base_ s + d))].
  unfold emplace_back, bind, get. rewrite Hl. unfold span, gap. cbn. split; [done | lia].
Qed.

#[export] Instance adds_bind {A B} n k (c : M state A) (f : A -> M state B) :
  Adds n c -> (forall a, Adds k (f a)) -> Adds (n + k) (bind c f).
Proof.
  intros Hc Hf s l Hl. destruct (Hc s l Hl) as (l1 & E1 & H1). unfold bind.
  destruct (c s) as [a s1 | e s1]; cbn [final] in *; [| exists l1; split; [done | lia]].
  destruct (Hf a s1 _ E1) as (l2 & E2 & H2). exists (l1 ++ l2). rewrite app_assoc, span_app. split; [done | lia].
Qed.

#[export] Instance adds_if {A} n k (b : bool) (c d : M state A) : Adds n c -> Adds k d -> Adds (N.max n k) (if b then c else d).
Proof. intros Hc Hd. destruct b; eapply adds_le; [exact Hc | lia | exact Hd | lia]. Qed.

#[export] Instance adds_when n b c : Adds n c -> Adds n (when b c).
Proof. intros Hc. destruct b; [done |]. eapply adds_le; [apply _ | lia]. Qed.

(** ** What a [Put] adds *)

Ltac adds_op d := unfold d; eapply adds_le; [apply _ | vm_compute; discriminate].

Lemma adds_Write o bs : Adds (Z.to_N (u32 (Z.of_nat (length bs))) + Z.to_N gap) (Write o bs).
Proof. unfold Write. eapply adds_le; [apply _ | lia]. Qed.

#[export] Instance adds_Read32 o : Adds 0 (Read32 o).
Proof. adds_op Read32. Qed.
#[export] Instance adds_Read16 o : Adds 0 (Read16 o).
Proof. adds_op Read16. Qed.
#[export] Instance adds_Write32 o v : Adds 20 (Write32 o v).
Proof. unfold Write32. eapply adds_le; [apply adds_Write | by rewrite length_le_split]. Qed.
#[export] Instance adds_header p a b c d : Adds 32 (Write p (NVMObject_bytes a b c d)).
Proof. eapply adds_le; [apply adds_Write | unfold NVMObject_bytes; by rewrite !length_app, !length_le_split]. Qed.
#[export] Instance adds_Memcpy d buf n : Adds (Z.to_N n + 16) (Memcpy d buf n).
Proof. unfold Memcpy. eapply adds_le; [apply _ | unfold gap; lia]. Qed.

#[export] Instance adds_GetFreeListByBlockSize b : Adds 0 (GetFreeListByBlockSize b).
Proof. adds_op GetFreeListByBlockSize. Qed.
#[export] Instance adds_RoundupBlockSize b : Adds 0 (RoundupBlockSize b).
Proof. adds_op RoundupBlockSize. Qed.
#[export] Instance adds_ReadTheSizeTag b : Adds 0 (ReadTheSizeTag b).
Proof. adds_op ReadTheSizeTag. Qed.
#[export] Instance adds_ReadThePrevFreeTag b : Adds 0 (ReadThePrevFreeTag b).
Proof. adds_op ReadThePrevFreeTag. Qed.
#[export] Instance adds_ReadTheFreeTag b n : Adds 0 (ReadTheFreeTag b n).
Proof. adds_op ReadTheFreeTag. Qed.
#[export] Instance adds_ResetTheFreeTag b n : Adds 20 (ResetTheFreeTag b n).
Proof. adds_op ResetTheFreeTag. Qed.
#[export] Instance adds_SplitBlock b n k : Adds 220 (SplitBlock b n k).
Proof. adds_op SplitBlock. Qed.

#[export] Instance adds_search_lists fuel l h : Adds 0 (search_lists fuel l h).
Proof.
  revert l h. induction fuel as [|fuel IH]; intros l h; cbn [search_lists]; [apply _ |].
  eapply adds_le; [apply _ | reflexivity].
Qed.

#[export] Instance adds_AllocBlock n : Adds 220 (AllocBlock n).
Proof. adds_op AllocBlock. Qed.
#[export] Instance adds_Alloc n : Adds 220 (Alloc n).
Proof. adds_op Alloc. Qed.

#[export] Instance adds_store_object r next :
  Adds (300 + Z.to_N (Request.key_len r + Request.val_len r)) (store_object r next).
Proof. unfold store_object. eapply adds_le; [apply _ | lia]. Qed.

(** ** Where an allocation writes *)

(** When [c] returns, with a value for which [Q] holds, its log has an entry
    in the list heads. *)
Definition low (l : ModificationList) : Prop := Exists (fun m => des m < sizeof_FreeListManager) l.

Definition Low {A} (c : M state A) (Q : A -> Prop) : Prop :=
  forall s l a s', modifications_ s = Some l -> c s = Ok a s' -> Q a -> exists l', modifications_ s' = Some l' /\ low l'.

(** What a computation returns. *)
Definition gives {A} (c : M state A) (P : A -> Prop) : Prop := forall s a s', c s = Ok a s' -> P a.

Lemma adds_Ok {A} n (c : M state A) s l a s' : Adds n c -> modifications_ s = Some l -> c s = Ok a s' ->
  exists l', modifications_ s' = Some (l ++ l') /\ span l' <= Z.of_N n.
Proof. intros Hc Hl E. destruct (Hc s l Hl) as (l' & H). rewrite E in H. by exists l'. Qed.

(** A call that writes the head, with anything behind it that passes on
    what the call must have returned. *)
Lemma low_here {A B} n (c : M state A) (f : A -> M state B) Q R : Low c Q -> (forall a, Adds n (f a)) ->
  (forall a, gives (f a) (fun b => R b -> Q a)) -> Low (bind c f) R.
Proof.
  intros Hc Hf HQ s l b s' Hl (a & s1 & E1 & E2)%bind_inv_Ok HR. destruct (Hc _ _ _ _ Hl E1 (HQ _ _ _ _ E2 HR)) as (l1 & Hl1 & H1).
  destruct (adds_Ok _ _ _ _ _ _ (Hf a) Hl1 E2) as (l2 & Hl2 & _). exists (l1 ++ l2). split; [done |].
  apply Exists_app. by left.
Qed.

(** A call before the one that writes it. *)
Lemma low_later {A B} n P (c : M state A) (f : A -> M state B) Q : Adds n c -> gives c P -> (forall a, P a -> Low (f a) Q) ->
  Low (bind c f) Q.
Proof.
  intros Hc HP Hf s l b s' Hl (a & s1 & E1 & E2)%bind_inv_Ok HQ. destruct (adds_Ok _ _ _ _ _ _ Hc Hl E1) as (l1 & Hl1 & _).
  exact (Hf a (HP _ _ _ E1) _ _ _ _ Hl1 E2 HQ).
Qed.

Lemma low_next {A B} n (c : M state A) (f : A -> M state B) Q : Adds n c -> (forall a, Low (f a) Q) -> Low (bind c f) Q.
Proof. intros Hc Hf. apply (low_later n (fun _ => True)); [done | done | intros; apply Hf]. Qed.

Lemma low_emplace_back d n : d < sizeof_FreeListManager -> Low (emplace_back d n) (fun _ => True).
Proof.
  intros Hd s l a s' Hl. unfold emplace_back, bind, get. rewrite Hl. intros [= _ <-] _. eexists. split; [reflexivity |].
  apply Exists_app. right. by apply Exists_cons_hd.
Qed.

Lemma low_Write32 o v : o < sizeof_FreeListManager -> Low (Write32 o v) (fun _ => True).
Proof.
  intros Ho. unfold Write32, Write. do 3 (eapply low_next; [apply _ | intros ?]).
  eapply low_here; [by apply low_emplace_back | intros ?; apply _ | done].
Qed.

Lemma GetFreeListByBlockSize_low b : gives (GetFreeListByBlockSize b) (fun l => l < sizeof_FreeListManager).
Proof.
  intros s l s' ([] & s1 & _ & [= <- _])%bind_inv_Ok. unfold GetLastFreeList, sizeof_FreeListManager, kNumFreeLists, kMaxBlockSize, sizeof_u32.
  destruct (Z.leb_spec b (1024 + 128)); [| lia].
  assert (b / 16 <= 72) by (apply Z.div_le_upper_bound; lia). change ((1024 + 128) / 16) with 72. lia.
Qed.

Lemma search_lists_low fuel : forall l h, h = 0 -> gives (search_lists fuel l h) (fun r => r.2 = 0 \/ r.1 < sizeof_FreeListManager).
Proof.
  induction fuel as [|fuel IH]; intros l h -> s r s' E; cbn [search_lists] in E; [done |].
  destruct (Z.ltb_spec l (kNumFreeLists * sizeof_u32)) as [Hl |]; [| injection E as <- _; by left].
  apply bind_inv_Ok in E as (h & s1 & _ & E). destruct (Z.eqb_spec h 0); [by apply IH in E |].
  injection E as <- _. right. unfold sizeof_FreeListManager, sizeof_u32 in *. cbn [fst]. lia.
Qed.

Lemma low_SplitBlock b n k : Low (SplitBlock b n k) (fun _ => True).
Proof.
  unfold SplitBlock. eapply low_next; [apply _ | intros next].
  eapply low_later; [apply _ | apply GetFreeListByBlockSize_low | intros l Hl]. cbn beta in Hl.
  eapply low_next; [apply _ | intros _]. eapply low_here; [by apply low_Write32 | intros _; apply _ | done].
Qed.

Lemma low_AllocBlock n : Low (AllocBlock n) (fun p => p <> 0).
Proof.
  unfold AllocBlock. eapply low_next; [apply _ | intros l].
  eapply low_later; [apply _ | by apply search_lists_low | intros [fl h] Hh]. cbn [fst snd] in *.
  destruct (Z.eqb_spec h 0) as [-> | Hne]; [by intros s l0 a s' _ [= <- _] |]. destruct Hh as [? | Hfl]; [done |].
  do 4 (eapply low_next; [apply _ | intros ?]). case_match.
  - do 2 (eapply low_next; [apply _ | intros ?]). eapply low_here; [by apply low_Write32 | intros _; apply _ | done].
  - intros s l0 x s' Hl0 E _. by eapply low_SplitBlock.
Qed.

Lemma low_Alloc n : Low (Alloc n) (fun p => p <> 0).
Proof.
  unfold Alloc. do 3 (eapply low_next; [apply _ | intros ?]). eapply low_here; [apply low_AllocBlock | intros ?; apply _ |].
  intros blk s p s' [= <- _] Hp ->. by apply Hp.
Qed.

Lemma low_store_object r next : Low (store_object r next) (fun _ => True).
Proof.
  unfold store_object. eapply low_here; [apply low_Alloc | intros ?; apply _ |].
  intros p s q s' ([] & ? & E & _)%bind_inv_Ok _. unfold assert in E. by destruct (Z.eqb_spec p 0).
Qed.

(** ** The first put of a chain *)

(** A [Put] into an empty chain. *)
Lemma Put_first fuel r s s' : 0 < slot_of r -> slot_of r + 4 <= region s -> rd32 (nvm s) (slot_of r) = 0 ->
  0 <= Request.key_len r + Request.val_len r -> Put fuel r [] s = Ok OK s' ->
  (0 < fuel)%nat /\ exists l, modifications_ s' = Some l /\ low l /\ span l <= 320 + (Request.key_len r + Request.val_len r).
Proof.
  intros H0 H1 Hz Hlen E. unfold Put in E. apply bind_inv_Ok in E as ([] & s1 & [= <-] & E).
  apply bind_inv_Ok in E as ([] & s2 & Ha & E). unfold assert in Ha. destruct (_ =? _); [injection Ha as <- | done].
  rewrite (bind_Ok _ _ _ _ _ (Read32_run (slot_of r) (with_modifications (Some []) s) H0 H1)) in E.
  cbn [nvm with_modifications] in E. rewrite Hz in E. apply bind_inv_Ok in E as (qp & s3 & Hf & E).
  destruct fuel as [|fuel]; [done |]. split; [lia |]. injection Hf as <- <-. cbn [fst snd Z.eqb negb] in E.
  assert (Low (p <- store_object r 0 ;; Write32 (slot_of r) p ;;; ret OK) (fun _ => True)) as HL
    by (eapply low_here; [apply low_store_object | intros ?; apply _ | done]).
  destruct (HL (with_modifications (Some []) s) [] OK s' eq_refl E I) as (l & Hl & Hlow). exists l. split; [done |]. split; [done |].
  eassert (Adds _ (p <- store_object r 0 ;; Write32 (slot_of r) p ;;; ret OK)) as HA by apply _.
  destruct (adds_Ok _ _ (with_modifications (Some []) s) [] OK s' HA eq_refl E) as (l' & Hl' & Hs).
  rewrite Hl in Hl'. injection Hl' as ->. cbn [app] in *. lia.
Qed.
