(* ===== verification/Protocol.v ===== *)
(** * The rules a verbs program has to follow

    The manual pages of the verbs say which calls are legal when: the state
    machine of a queue pair and the attributes each transition takes, the
    depths of queues, the memory a work request may name, the lifetime of
    memory.  [allowed] is that list of rules, [after] what a call does to the
    state of the device as the manual describes it, [reply_ok] what a reply
    can be.  A history is misused when a call breaks a rule while every reply
    so far was one the manual allows. *)

From S2P Require Import Prelude Verbs.

(** A queue pair: the work requests that are posted and not retired, oldest
    first (for sends: the id and whether it is signaled), and how many sends
    were ever posted. *)
Record qp_info := mkQpInfo {
  q_type : ibv_qp_type;
  q_state : ibv_qp_state;
  q_init : ibv_qp_init_attr;
  q_sends : list (Z * bool);
  q_recvs : list Z;
  q_posted : Z }.

(** The device as the program has set it up: queue pairs by number, the
    capacity of completion queues, memory regions (their key, address and
    length) and allocated memory (address and size). *)
Record device := mkDev {
  qps : gmap Z qp_info;
  cqs : gmap Z Z;
  mrs : gmap Z (Z * Z * Z);
  heap : gmap Z Z }.

Definition empty_device : device := mkDev ∅ ∅ ∅ ∅.

Definition set_qp (d : device) (n : Z) (q : qp_info) : device :=
  mkDev (<[n := q]> (qps d)) (cqs d) (mrs d) (heap d).

(** ** Rules *)

(** The attributes a transition needs, by the type of the queue pair. *)
Definition required (ty : ibv_qp_type) (from to : ibv_qp_state) : option (list ibv_qp_attr_mask) :=
  match ty, from, to with
  | IBV_QPT_RC, IBV_QPS_RESET, IBV_QPS_INIT =>
      Some [IBV_QP_STATE; IBV_QP_PKEY_INDEX; IBV_QP_PORT; IBV_QP_ACCESS_FLAGS]
  | IBV_QPT_RC, IBV_QPS_INIT, IBV_QPS_RTR =>
      Some [IBV_QP_STATE; IBV_QP_AV; IBV_QP_PATH_MTU; IBV_QP_DEST_QPN; IBV_QP_RQ_PSN;
            IBV_QP_MAX_DEST_RD_ATOMIC; IBV_QP_MIN_RNR_TIMER]
  | IBV_QPT_RC, IBV_QPS_RTR, IBV_QPS_RTS =>
      Some [IBV_QP_STATE; IBV_QP_TIMEOUT; IBV_QP_RETRY_CNT; IBV_QP_RNR_RETRY; IBV_QP_SQ_PSN;
            IBV_QP_MAX_QP_RD_ATOMIC]
  | IBV_QPT_UD, IBV_QPS_RESET, IBV_QPS_INIT =>
      Some [IBV_QP_STATE; IBV_QP_PKEY_INDEX; IBV_QP_PORT; IBV_QP_QKEY]
  | IBV_QPT_UD, IBV_QPS_INIT, IBV_QPS_RTR => Some [IBV_QP_STATE]
  | IBV_QPT_UD, IBV_QPS_RTR, IBV_QPS_RTS => Some [IBV_QP_STATE; IBV_QP_SQ_PSN]
  | _, _, _ => None
  end.

(** The mask bit that makes a field of the attribute count. *)
Definition field_mask (f : ibv_qp_field) : ibv_qp_attr_mask :=
  match f with
  | qp_state _ => IBV_QP_STATE | pkey_index _ => IBV_QP_PKEY_INDEX | port_num _ => IBV_QP_PORT
  | qkey _ => IBV_QP_QKEY | qp_access_flags _ => IBV_QP_ACCESS_FLAGS | path_mtu _ => IBV_QP_PATH_MTU
  | dest_qp_num _ => IBV_QP_DEST_QPN | rq_psn _ => IBV_QP_RQ_PSN | sq_psn _ => IBV_QP_SQ_PSN
  | max_dest_rd_atomic _ => IBV_QP_MAX_DEST_RD_ATOMIC | max_rd_atomic _ => IBV_QP_MAX_QP_RD_ATOMIC
  | min_rnr_timer _ => IBV_QP_MIN_RNR_TIMER | timeout _ => IBV_QP_TIMEOUT
  | retry_cnt _ => IBV_QP_RETRY_CNT | rnr_retry _ => IBV_QP_RNR_RETRY | ah_attr _ => IBV_QP_AV
  end.

Definition target_state (attr : ibv_qp_attr) : option ibv_qp_state :=
  head (omap (fun f => match f with qp_state s => Some s | _ => None end) attr).

(** The mask holds what the transition needs and nothing else, and every
    attribute it names was set. *)
Definition transition_ok (q : qp_info) (attr : ibv_qp_attr) (mask : list ibv_qp_attr_mask) : bool :=
  match target_state attr with
  | None => false
  | Some to =>
      match required (q_type q) (q_state q) to with
      | None => false
      | Some req =>
          forallb (fun f => bool_decide (f ∈ mask)) req && forallb (fun f => bool_decide (f ∈ req)) mask &&
          forallb (fun f => bool_decide (f ∈ map field_mask attr)) mask
      end
  end.

Definition opcode_ok (ty : ibv_qp_type) (op : ibv_wr_opcode) : bool :=
  match ty, op with
  | IBV_QPT_UD, (IBV_WR_RDMA_WRITE | IBV_WR_RDMA_READ) => false
  | IBV_QPT_UC, IBV_WR_RDMA_READ => false
  | _, _ => true
  end.

(** The [n] bytes at [p] are inside one allocation. *)
Definition in_heap (d : device) (p n : Z) : Prop :=
  map_Exists (fun b sz => b <= p /\ p + n <= b + sz) (heap d).

(** A gather or scatter element lies in a region with its key. *)
Definition sge_ok (d : device) (s : ibv_sge) : Prop :=
  map_Exists (fun _ r => r.1.1 = sge_lkey s /\ r.1.2 <= sge_addr s /\
    sge_addr s + sge_length s <= r.1.2 + r.2) (mrs d).

#[export] Instance in_heap_dec d p n : Decision (in_heap d p n).
Proof. unfold in_heap. apply _. Defined.
#[export] Instance sge_ok_dec d s : Decision (sge_ok d s).
Proof. unfold sge_ok. apply _. Defined.

Definition signaled (w : ibv_send_wr) : bool := bool_decide (IBV_SEND_SIGNALED ∈ s_flags w).
Definition sg_len (l : list ibv_sge) : Z := foldr (fun s n => sge_length s + n) 0 l.

(** Completions the queue pair can still put on the queue [cq]. *)
Definition cq_load (q : qp_info) (cq : Z) : Z :=
  (if send_cq (q_init q) =? cq then Z.of_nat (length (filter (fun x => x.2 = true) (q_sends q))) else 0) +
  (if recv_cq (q_init q) =? cq then Z.of_nat (length (q_recvs q)) else 0).

Definition cq_room (d : device) (q : qp_info) (cq : Z) : bool :=
  match cqs d !! cq with Some cap => cq_load q cq <? cap | None => false end.

(** Requests can be posted to a queue pair in error, too: they are flushed. *)
Definition can_send (s : ibv_qp_state) : bool :=
  match s with IBV_QPS_RTS | IBV_QPS_ERR => true | _ => false end.

Definition send_ok (d : device) (q : qp_info) (w : ibv_send_wr) : bool :=
  can_send (q_state q) && opcode_ok (q_type q) (s_opcode w) &&
  (if decide (q_type q = IBV_QPT_UD) then negb (ud_ah (s_wr w) =? 0) else true) &&
  (Z.of_nat (length (q_sends q)) <? max_send_wr (q_init q)) &&
  (Z.of_nat (length (s_sg_list w)) <=? max_send_sge (q_init q)) &&
  (if decide (IBV_SEND_INLINE ∈ s_flags w) then sg_len (s_sg_list w) <=? max_inline_data (q_init q)
   else forallb (fun s => bool_decide (sge_ok d s)) (s_sg_list w)) &&
  (negb (signaled w) || cq_room d q (send_cq (q_init q))).

Definition push_send (q : qp_info) (w : ibv_send_wr) : qp_info :=
  mkQpInfo (q_type q) (q_state q) (q_init q) (q_sends q ++ [(s_wr_id w, signaled w)]) (q_recvs q) (q_posted q + 1).

(** A chain of work requests, one after the other. *)
Fixpoint sends_ok (d : device) (q : qp_info) (ws : list ibv_send_wr) : bool :=
  match ws with
  | [] => true
  | w :: ws' => send_ok d q w && sends_ok d (push_send q w) ws'
  end.

Definition recv_ok (d : device) (q : qp_info) (w : ibv_recv_wr) : bool :=
  bool_decide (q_state q <> IBV_QPS_RESET) &&
  (Z.of_nat (length (q_recvs q)) <? max_recv_wr (q_init q)) &&
  (Z.of_nat (length (r_sg_list w)) <=? max_recv_sge (q_init q)) &&
  forallb (fun s => bool_decide (sge_ok d s)) (r_sg_list w) &&
  cq_room d q (recv_cq (q_init q)).

Definition allowed (d : device) (c : call) : bool :=
  match c with
  | ibv_open_device dev => negb (dev =? 0)
  | ibv_create_qp _ a | ibv_create_qp_srq _ a _ | rdma_create_qp _ _ a =>
      bool_decide (is_Some (cqs d !! send_cq a) /\ is_Some (cqs d !! recv_cq a))
  | ibv_modify_qp p attr mask =>
      match qps d !! qp_num p with Some q => transition_ok q attr mask | None => false end
  | ibv_query_qp p _ | ibv_destroy_qp p => bool_decide (is_Some (qps d !! qp_num p))
  | ibv_post_send p ws => match qps d !! qp_num p with Some q => sends_ok d q ws | None => false end
  | ibv_post_recv p w => match qps d !! qp_num p with Some q => recv_ok d q w | None => false end
  | ibv_poll_cq cq _ | ibv_destroy_cq cq => bool_decide (is_Some (cqs d !! cq))
  | ibv_reg_mr _ p n _ => bool_decide (in_heap d p n)
  | ibv_dereg_mr m => bool_decide (is_Some (mrs d !! m))
  | memset p _ n => bool_decide (in_heap d p n)
  | snprintf p n s => bool_decide (in_heap d p (Z.min n (Z.of_nat (String.length s) + 1)))
  | load_byte p | store_byte p _ => bool_decide (in_heap d p 1)
  | free p => (p =? 0) || bool_decide (is_Some (heap d !! p))
  | _ => true
  end.

(** ** Effects *)

(** The send queue after the completion of [id]: requests complete in order,
    an unsignaled one is retired by a later completion; a failed one always
    completes. *)
Fixpoint retire (id : Z) (failed : bool) (l : list (Z * bool)) : option (list (Z * bool)) :=
  match l with
  | [] => None
  | (i, sg) :: l' => if (sg || failed) && (i =? id) then Some l' else if sg then None else retire id failed l'
  end.

(** A signaled request completes the unsignaled ones before it. *)
Lemma retire_batch id m : retire id false (replicate m (id, false) ++ [(id, true)]) = Some [].
Proof. induction m as [|m IH]; cbn; [by rewrite Z.eqb_refl | done]. Qed.

Definition complete (d : device) (cq : Z) (w : ibv_wc) : option device :=
  match qps d !! wc_qp_num w with
  | None => None
  | Some q =>
      let st := if wc_status w =? IBV_WC_SUCCESS then q_state q else IBV_QPS_ERR in
      if wc_recv w then
        match q_recvs q with
        | id :: rest =>
            if (recv_cq (q_init q) =? cq) && (id =? wc_wr_id w) then
              Some (set_qp d (wc_qp_num w) (mkQpInfo (q_type q) st (q_init q) (q_sends q) rest (q_posted q)))
            else None
        | [] => None
        end
      else if send_cq (q_init q) =? cq then
        match retire (wc_wr_id w) (negb (wc_status w =? IBV_WC_SUCCESS)) (q_sends q) with
        | Some rest =>
            Some (set_qp d (wc_qp_num w) (mkQpInfo (q_type q) st (q_init q) rest (q_recvs q) (q_posted q)))
        | None => None
        end
      else None
  end.

Fixpoint completes (d : device) (cq : Z) (ws : list ibv_wc) : option device :=
  match ws with
  | [] => Some d
  | w :: ws' => match complete d cq w with Some d' => completes d' cq ws' | None => None end
  end.

Definition fresh {A} (m : gmap Z A) (p : Z) : bool := negb (p =? 0) && bool_decide (m !! p = None).

(** The [n] bytes at [p] are new memory, apart from all that is allocated. *)
Definition fresh_block (d : device) (p n : Z) : bool :=
  (0 <? p) && fresh (heap d) p && bool_decide (map_Forall (fun b sz => b + sz <= p \/ p + n <= b) (heap d)).

Lemma fresh_spec {A} (m : gmap Z A) p : fresh m p = true -> p <> 0 /\ m !! p = None.
Proof. unfold fresh. intros [H1 H2]%andb_true_iff. apply bool_decide_eq_true in H2. split; [lia | done]. Qed.

Lemma fresh_block_spec d p n : fresh_block d p n = true ->
  0 < p /\ heap d !! p = None /\ forall b sz, heap d !! b = Some sz -> b + sz <= p \/ p + n <= b.
Proof.
  unfold fresh_block. intros [[H1%Z.ltb_lt [_ H2]%fresh_spec]%andb_true_iff H3%bool_decide_eq_true]%andb_true_iff.
  split; [done |]. split; [done |]. intros b sz Hb. by apply (H3 b).
Qed.

(** A queue pair completes its requests to the queue [cq]. *)
Definition feeds (cq : Z) (q : qp_info) : Prop := send_cq (q_init q) = cq \/ recv_cq (q_init q) = cq.

#[export] Instance feeds_dec cq q : Decision (feeds cq q).
Proof. unfold feeds. apply _. Defined.

(** Queue pair numbers have 24 bits. *)
Definition qpn_ok (n : Z) : bool := (0 <=? n) && (n <? 2 ^ 24).

(** Replies the manual allows.  A completion queue hands out at most as many
    entries as it is asked for, each for a request that is outstanding; it is
    not destroyed while a queue pair is associated with it.  An allocation
    returns memory that is not in use.  Three assumptions on the
    machine, which most of the programs do not test: [memalign] and
    [ibv_create_cq] do not fail and a list of devices is not empty. *)
Definition reply_ok (d : device) (c : call) : reply c -> bool :=
  match c return reply c -> bool with
  | ibv_get_device_list => fun l =>
      match l with None => true | Some l => match l with dev :: _ => negb (dev =? 0) | [] => false end end
  | memalign _ n => fun p => fresh_block d p n
  | malloc n => fun p => (p =? 0) || fresh_block d p n
  | ibv_create_cq _ _ => fun p => fresh (cqs d) p
  | ibv_destroy_cq cq => fun r => negb (r =? 0) || bool_decide (map_Forall (fun _ q => ~ feeds cq q) (qps d))
  | ibv_reg_mr _ _ _ _ => fun m => match m with None => true | Some m => fresh (mrs d) (mr_ptr m) end
  | ibv_create_qp _ a | ibv_create_qp_srq _ a _ => fun q =>
      match q with
      | None => true
      | Some q => bool_decide (qps d !! qp_num q = None) && bool_decide (qp_type q = init_type a) && qpn_ok (qp_num q)
      end
  | rdma_create_qp _ _ a => fun r =>
      negb (r.1 =? 0) ||
      (bool_decide (qps d !! qp_num r.2 = None) && bool_decide (qp_type r.2 = init_type a) && qpn_ok (qp_num r.2))
  | ibv_query_qp p _ => fun r =>
      negb (r.1.1 =? 0) || match qps d !! qp_num p with Some q => bool_decide (r.1.2 = q_state q) | None => false end
  | ibv_poll_cq cq n => fun p =>
      (poll_ret p <=? n) && match completes d cq (poll_wcs p) with Some _ => true | None => false end
  | _ => fun _ => true
  end.

Definition new_qp (a : ibv_qp_init_attr) (st : ibv_qp_state) : qp_info :=
  mkQpInfo (init_type a) st a [] [] 0.

Definition after (d : device) (c : call) : reply c -> device :=
  match c return reply c -> device with
  | memalign _ n | malloc n => fun p => if p =? 0 then d else mkDev (qps d) (cqs d) (mrs d) (<[p := n]> (heap d))
  | free p => fun _ => mkDev (qps d) (cqs d) (mrs d) (delete p (heap d))
  | ibv_create_cq _ n => fun p => if p =? 0 then d else mkDev (qps d) (<[p := n]> (cqs d)) (mrs d) (heap d)
  | ibv_destroy_cq cq => fun r => if r =? 0 then mkDev (qps d) (delete cq (cqs d)) (mrs d) (heap d) else d
  | ibv_reg_mr _ p n _ => fun m =>
      match m with
      | None => d
      | Some m => mkDev (qps d) (cqs d) (<[mr_ptr m := (lkey m, p, n)]> (mrs d)) (heap d)
      end
  | ibv_dereg_mr m => fun r => if r =? 0 then mkDev (qps d) (cqs d) (delete m (mrs d)) (heap d) else d
  | ibv_create_qp _ a | ibv_create_qp_srq _ a _ => fun q =>
      match q with None => d | Some q => set_qp d (qp_num q) (new_qp a IBV_QPS_RESET) end
  | rdma_create_qp _ _ a => fun r =>
      (* an unconnected queue pair of the connection manager is ready to send *)
      if r.1 =? 0 then set_qp d (qp_num r.2) (new_qp a IBV_QPS_RTS) else d
  | ibv_destroy_qp p => fun r => if r =? 0 then mkDev (delete (qp_num p) (qps d)) (cqs d) (mrs d) (heap d) else d
  | ibv_modify_qp p attr _ => fun r =>
      match qps d !! qp_num p, target_state attr with
      | Some q, Some to =>
          if r =? 0 then
            set_qp d (qp_num p) (mkQpInfo (q_type q) to (q_init q) (q_sends q) (q_recvs q) (q_posted q))
          else d
      | _, _ => d
      end
  | ibv_post_send p ws => fun r =>
      match qps d !! qp_num p with
      | Some q => if r =? 0 then set_qp d (qp_num p) (foldl push_send q ws) else d
      | None => d
      end
  | ibv_post_recv p w => fun r =>
      match qps d !! qp_num p with
      | Some q =>
          if r =? 0 then
            set_qp d (qp_num p)
              (mkQpInfo (q_type q) (q_state q) (q_init q) (q_sends q) (q_recvs q ++ [r_wr_id w]) (q_posted q))
          else d
      | None => d
      end
  | ibv_poll_cq cq _ => fun p => default d (completes d cq (poll_wcs p))
  | _ => fun _ => d
  end.

(** ** Judging a history *)

Inductive judgement :=
  | Running (d : device)
  | Misused (c : call)      (* the program broke a rule *)
  | Excused.                (* a reply was not one the manual allows *)

Fixpoint judge (h : trace) : judgement :=
  match h with
  | [] => Running empty_device
  | ev :: h' =>
      match judge h' with
      | Running d =>
          if allowed d (ev_call ev) then
            if reply_ok d (ev_call ev) (ev_reply ev) then Running (after d (ev_call ev) (ev_reply ev))
            else Excused
          else Misused (ev_call ev)
      | j => j
      end
  end.

(** ** A program logic

    [safe d p Q E]: from the device [d], [p] makes allowed calls only, ends
    in [Q] when it returns and in [E] when it stops. *)
Fixpoint safe {A} (d : device) (p : prog A) (Q : A -> device -> Prop) (E : stop -> device -> Prop) : Prop :=
  match p with
  | Ret a => Q a d
  | Stop s => E s d
  | Vis c k => allowed d c = true /\ forall r, reply_ok d c r = true -> safe (after d c r) (k r) Q E
  end.

Theorem safe_run {A} e h d (p : prog A) Q E :
  judge h = Running d -> safe d p Q E ->
  match judge (run e h p).1 with
  | Running d' => match (run e h p).2 with Returned a => Q a d' | Stopped s => E s d' end
  | Misused _ => False
  | Excused => True
  end.
Proof.
  revert h d. induction p as [a | s | c k IH]; intros h d Hj Hs; cbn [run safe fst snd] in *; [by rewrite Hj | by rewrite Hj |].
  destruct Hs as [Ha Hk]. destruct (reply_ok d c (e h c)) eqn:Hr.
  - apply (IH _ _ (after d c (e h c))); [| auto]. cbn [judge ev_call ev_reply]. by rewrite Hj, Ha, Hr.
  - assert (judge (mkCall c (e h c) :: h) = Excused) as Hx.
    { cbn [judge ev_call ev_reply]. by rewrite Hj, Ha, Hr. }
    clear IH Hk Ha Hr. revert Hx. generalize (mkCall c (e h c) :: h), (k (e h c)). clear.
    intros h p. revert h. induction p as [a | s | c k IH]; intros h Hx; cbn [run fst]; [by rewrite Hx | by rewrite Hx |].
    apply IH. cbn [judge]. by rewrite Hx.
Qed.

Definition misused (j : judgement) : bool := match j with Misused _ => true | _ => false end.

Lemma safe_not_misused {A} e (p : prog A) Q E :
  safe empty_device p Q E -> misused (judge (run e [] p).1) = false.
Proof.
  intros Hs. pose proof (safe_run e [] empty_device p Q E eq_refl Hs) as H. by destruct (judge _).
Qed.

(** A rule that is broken stays broken. *)
Lemma misused_run {A} e h c (p : prog A) : judge h = Misused c -> judge (run e h p).1 = Misused c.
Proof.
  revert h. induction p as [a | s | c' k IH]; intros h Hj; cbn [run fst]; [done | done |].
  apply IH. cbn [judge]. by rewrite Hj.
Qed.

Lemma misused_bind {A B} e h c (p : prog A) (k : A -> prog B) :
  judge (run e h p).1 = Misused c -> judge (run e h (pbind p k)).1 = Misused c.
Proof. intros Hj. rewrite run_bind. destruct (run e h p) as [h' [a | s]]; [by apply misused_run | done]. Qed.

Section Rules.
Context (E : stop -> device -> Prop).

Lemma safe_bind {A B} d (p : prog A) (k : A -> prog B) Q :
  safe d p (fun a d' => safe d' (k a) Q E) E -> safe d (pbind p k) Q E.
Proof.
  revert d. induction p as [a | s | c k' IH]; intros d; cbn [safe pbind]; [done | done |].
  intros [Ha Hk]. split; [done |]. intros r Hr. apply IH, Hk, Hr.
Qed.

Lemma safe_mono {A} d (p : prog A) (Q Q' : A -> device -> Prop) :
  safe d p Q E -> (forall a d', Q a d' -> Q' a d') -> safe d p Q' E.
Proof.
  intros Hs Hq. revert d Hs. induction p as [a | s | c k' IH]; intros d; cbn [safe]; [auto | done |].
  intros [Ha Hk]. split; [done |]. auto.
Qed.

Lemma safe_sys {B} d (c : call) (k : reply c -> prog B) Q :
  allowed d c = true -> (forall r, reply_ok d c r = true -> safe (after d c r) (k r) Q E) ->
  safe d (pbind (sys c) k) Q E.
Proof. cbn. auto. Qed.

Lemma safe_assoc {A B C} d (p : prog A) (k : A -> prog B) (l : B -> prog C) Q :
  safe d (pbind p (fun a => pbind (k a) l)) Q E -> safe d (pbind (pbind p k) l) Q E.
Proof.
  revert d. induction p as [a | s | c k' IH]; intros d; cbn [safe pbind]; [done | done |].
  intros [Ha Hk]. split; [done |]. auto.
Qed.

Lemma safe_tail {A} d (p : prog A) Q : safe d (pbind p Ret) Q E -> safe d p Q E.
Proof.
  revert d. induction p as [a | s | c k' IH]; intros d; cbn [safe pbind]; [done | done |].
  intros [Ha Hk]. split; [done |]. auto.
Qed.

(** A call that is always allowed and leaves the device alone. *)
Lemma safe_skip {B} d (c : call) (k : reply c -> prog B) Q :
  allowed d c = true -> (forall r, after d c r = d) -> (forall r, safe d (k r) Q E) ->
  safe d (pbind (sys c) k) Q E.
Proof. cbn. intros Ha Hd Hk. split; [done |]. intros r _. by rewrite Hd. Qed.

Lemma safe_check {B} d (b : bool) (k : unit -> prog B) Q :
  E (Fault AssertFail) d -> (b = true -> safe d (k tt) Q E) -> safe d (pbind (check b) k) Q E.
Proof. destruct b; cbn; auto. Qed.

Lemma safe_for {S} n (body : S -> prog S) s d (I : nat -> S -> device -> Prop) :
  I n s d ->
  (forall m s d, I (Datatypes.S m) s d -> safe d (body s) (I m) E) ->
  safe d (for_ n body s) (I O) E.
Proof.
  intros HI Hb. revert s d HI. induction n as [|n IH]; intros s d HI; cbn [for_ safe]; [done |].
  apply safe_bind. eapply safe_mono; [by apply Hb |]. intros s' d'. apply IH.
Qed.

(** A handler that is fine from wherever the exception left the device. *)
Lemma safe_try {A} d (p : prog A) h Q : safe d p Q E -> (forall errno d', safe d' (h errno) Q E) -> safe d (try_ p h) Q E.
Proof.
  intros Hp Hh. revert d Hp. induction p as [a | st | c k IH]; intros d Hp; cbn [try_]; [done | | ].
  - destruct st as [? | [] | ]; by try apply Hh.
  - destruct Hp as [Ha Hk]. split; [done |]. intros r Hr. by apply IH, Hk.
Qed.

(** The same invariant before and after every iteration. *)
Lemma safe_for_inv {S} n (body : S -> prog S) s d (I : S -> device -> Prop) :
  I s d -> (forall s d, I s d -> safe d (body s) I E) -> safe d (for_ n body s) I E.
Proof. intros HI Hb. by apply (safe_for n body s d (fun _ => I)); [| intros ?; apply Hb]. Qed.

Lemma safe_while {S} fuel (cond : S -> bool) (body : S -> prog S) s d (I : S -> device -> Prop) :
  I s d -> (forall d, E (Fault OutOfFuel) d) ->
  (forall s d, I s d -> cond s = true -> safe d (body s) I E) ->
  safe d (while_ fuel cond body s) (fun s d => I s d /\ cond s = false) E.
Proof.
  intros HI HE Hb. revert s d HI. induction fuel as [|fuel IH]; intros s d HI; cbn [while_ safe]; [done |].
  destruct (cond s) eqn:C; [| by cbn]. apply safe_bind. eapply safe_mono; [by apply Hb |]. intros s' d'. apply IH.
Qed.
End Rules.

(** A handler that has to know what the exception left. *)
Lemma safe_try_at {A} (E : stop -> device -> Prop) d (p : prog A) h Q :
  safe d p Q (fun st d' => match st with Fault (Throw errno) => safe d' (h errno) Q E | _ => E st d' end) -> safe d (try_ p h) Q E.
Proof.
  revert d. induction p as [a | s | c k IH]; intros d Hs; cbn [try_ safe] in *; [done | |].
  - by destruct s as [| [] |].
  - destruct Hs as [Ha Hk]. split; [done |]. intros r Hr. by apply IH, Hk.
Qed.

Lemma safe_stop_mono {A} (E E' : stop -> device -> Prop) d (p : prog A) Q :
  (forall st d', E st d' -> E' st d') -> safe d p Q E -> safe d p Q E'.
Proof.
  intros He. revert d. induction p as [a | s | c k IH]; intros d Hs; cbn [safe] in *; [done | by apply He |].
  destruct Hs as [Ha Hk]. split; [done |]. intros r Hr. by apply IH, Hk.
Qed.

(** ** What a program leaves alone *)

(** [p] makes no [bad] call. *)
Fixpoint avoids {A} (bad : call -> bool) (p : prog A) : Prop :=
  match p with
  | Ret _ | Stop _ => True
  | Vis c k => bad c = false /\ forall r, avoids bad (k r)
  end.

Section Avoiding.
Context (bad : call -> bool).

Lemma avoids_bind {A B} (p : prog A) (k : A -> prog B) : avoids bad p -> (forall a, avoids bad (k a)) -> avoids bad (pbind p k).
Proof. intros Hp Hk. induction p as [a | s | c k' IH]; cbn in *; [done.. |]. destruct Hp as [Hc Hp]. split; [done |]. auto. Qed.

Lemma avoids_sys c : bad c = false -> avoids bad (sys c).
Proof. by split. Qed.

Lemma avoids_check b : avoids bad (check b).
Proof. by destruct b. Qed.

Lemma avoids_try {A} (p : prog A) h : avoids bad p -> (forall errno, avoids bad (h errno)) -> avoids bad (try_ p h).
Proof.
  intros Hp Hh. induction p as [a | s | c k IH]; cbn in *; [done | by destruct s as [| [] |] |]. destruct Hp as [Hc Hp]. split; [done |]. auto.
Qed.

Lemma avoids_poll_one fuel cq : bad (ibv_poll_cq cq 1) = false -> avoids bad (poll_one fuel cq).
Proof.
  intros Hc. induction fuel as [|fuel IH]; [done |]. cbn [poll_one]. apply avoids_bind; [by apply avoids_sys |]. intros [r | [|wc [|]]]; done.
Qed.

(** What such calls keep is still there at the end, however that comes. *)
Lemma safe_avoids {A} (R : device -> Prop) (E : stop -> device -> Prop) d (p : prog A) Q :
  (forall d c r, bad c = false -> R d -> R (after d c r)) -> avoids bad p -> R d -> safe d p Q E ->
  safe d p Q (fun st d' => E st d' /\ R d').
Proof.
  intros HR. revert d. induction p as [a | s | c k IH]; intros d Hp Hd Hs; cbn [safe avoids] in *; [done | done |].
  destruct Hp as [Hc Hp], Hs as [Ha Hk]. split; [done |]. intros r Hr. apply IH; [done | by apply HR | by apply Hk].
Qed.
End Avoiding.

Create HintDb avoids.
#[export] Hint Resolve avoids_check avoids_poll_one : avoids.
#[export] Hint Extern 0 (_ = false) => reflexivity : avoids.

(** A program that consists of calls that are not bad and of parts that are
    known to avoid them. *)
Ltac avoid := cbv beta zeta; repeat first
  [ exact I | progress intros
  | match goal with
    | |- avoids _ (pbind _ _) => apply avoids_bind
    | |- avoids _ (sys _) => apply avoids_sys; reflexivity
    | |- avoids _ (match ?x with _ => _ end) => destruct x
    end
  | solve [auto with avoids nocore] ].

(** Memory is given back by two calls, queues by two others. *)
Definition releases_memory (c : call) : bool := match c with free _ | ibv_dereg_mr _ => true | _ => false end.
Definition releases_queues (c : call) : bool := match c with ibv_destroy_qp _ | ibv_destroy_cq _ => true | _ => false end.

Lemma complete_keeps d cq wc d' : complete d cq wc = Some d' ->
  mrs d' = mrs d /\ heap d' = heap d /\ cqs d' = cqs d /\ forall n, is_Some (qps d !! n) -> is_Some (qps d' !! n).
Proof.
  unfold complete. intros H. repeat (case_match; try done); injection H as <-; split_and!; try done; intros n Hn; cbn [qps set_qp];
    apply lookup_insert_is_Some'; by right.
Qed.

Lemma completes_keeps cq wcs : forall d d', completes d cq wcs = Some d' ->
  mrs d' = mrs d /\ heap d' = heap d /\ cqs d' = cqs d /\ forall n, is_Some (qps d !! n) -> is_Some (qps d' !! n).
Proof.
  induction wcs as [|wc wcs IH]; intros d d' H; cbn [completes] in H; [by injection H as <- |].
  destruct (complete d cq wc) as [d1 |] eqn:E; [| done]. destruct (complete_keeps _ _ _ _ E) as (E1 & E2 & E3 & E4).
  destruct (IH _ _ H) as (F1 & F2 & F3 & F4). split_and!; try congruence. auto.
Qed.

Lemma memory_lasts d c r : releases_memory c = false ->
  (forall m, is_Some (mrs d !! m) -> is_Some (mrs (after d c r) !! m)) /\ (forall p, is_Some (heap d !! p) -> is_Some (heap (after d c r) !! p)).
Proof.
  intros Hc. destruct c; try done; cbn [after] in *;
    try (destruct (completes _ _ _) as [d' |] eqn:E; [destruct (completes_keeps _ _ _ _ E) as (E1 & E2 & _); change (default d (Some d')) with d'; rewrite E1, E2; by split | by split]);
    repeat case_match; split; intros x Hx; cbn [mrs heap set_qp]; rewrite ?lookup_insert_is_Some'; auto.
Qed.

Lemma queues_last d c r : releases_queues c = false ->
  (forall n, is_Some (qps d !! n) -> is_Some (qps (after d c r) !! n)) /\ (forall n, is_Some (cqs d !! n) -> is_Some (cqs (after d c r) !! n)).
Proof.
  intros Hc. destruct c; try done; cbn [after] in *;
    try (destruct (completes _ _ _) as [d' |] eqn:E; [destruct (completes_keeps _ _ _ _ E) as (_ & _ & E3 & E4); change (default d (Some d')) with d'; rewrite E3; by split | by split]);
    repeat case_match; split; intros x Hx; cbn [qps cqs set_qp]; rewrite ?lookup_insert_is_Some'; auto.
Qed.

(** Every queue pair has its completion queues. *)
Definition wired (d : device) : Prop :=
  forall m q, qps d !! m = Some q -> is_Some (cqs d !! send_cq (q_init q)) /\ is_Some (cqs d !! recv_cq (q_init q)).

Lemma wired_empty : wired empty_device.
Proof. intros m q Hq. cbn [qps empty_device] in Hq. by rewrite lookup_empty in Hq. Qed.

(** Stopping anywhere is fine. *)
Definition any_stop : stop -> device -> Prop := fun _ _ => True.

(** Polling hands on one completion of an outstanding request. *)
Lemma safe_poll {B} E fuel d cq (k : ibv_wc -> prog B) Q :
  is_Some (cqs d !! cq) -> E (Fault OutOfFuel) d ->
  (forall wc d', complete d cq wc = Some d' -> safe d' (k wc) Q E) ->
  safe d (pbind (poll_one fuel cq) k) Q E.
Proof.
  intros Hc HE Hk. induction fuel as [|fuel IH]; [done |]. cbn [poll_one]. apply safe_assoc, safe_sys.
  - cbn [allowed]. by apply bool_decide_eq_true.
  - intros [r | wcs]; cbn [reply_ok after poll_ret poll_wcs completes default]; [by intros _ |].
    destruct wcs as [|wc [|wc2 wcs]]; [intros _; exact IH | | intros [Hle%Z.leb_le _]%andb_true_iff; cbn [length] in Hle; lia]. cbn [length completes].
    destruct (complete d cq wc) as [d' |] eqn:Ec; [intros _ | by rewrite andb_false_r]. by apply Hk.
Qed.

Lemma safe_poll_one {B} fuel d cq (k : ibv_wc -> prog B) Q :
  is_Some (cqs d !! cq) ->
  (forall wc d', complete d cq wc = Some d' -> safe d' (k wc) Q any_stop) ->
  safe d (pbind (poll_one fuel cq) k) Q any_stop.
Proof. intros Hc. by apply safe_poll. Qed.

(** [vskip] steps over a call that the device does not see, [vassoc] brings
    the next call to the front. *)
Ltac vskip :=
  cbv beta zeta;
  lazymatch goal with |- safe _ (pbind (sys _) _) _ _ => idtac end;
  apply safe_skip; [reflexivity | intros; reflexivity | intros ?].
Ltac vassoc := cbv beta zeta;
  repeat match goal with
         | |- safe _ (pbind (pbind _ _) _) _ _ => apply safe_assoc
         | |- safe ?d (pbind (Ret ?a) ?k) ?Q ?E => change (safe d (k a) Q E); cbv beta
         end.
