(* ===== verification/Parallel.v ===== *)
(** * Programs side by side

    The threads of a process that share a device and nothing else, one call
    at a time.  The rules are local: a program that keeps them alone keeps
    them next to others, whatever the schedule ([safe_interleave]). *)

From S2P Require Import Prelude Verbs Protocol.

(** ** Threads *)

(** One call of the thread the schedule names next; a thread that ended does
    nothing, one that stops takes the process with it.  What is left of the
    threads when the schedule is over is returned. *)
Fixpoint interleave {A} (sched : list nat) (ps : list (prog A)) : prog (list (prog A)) :=
  match sched with
  | [] => Ret ps
  | i :: sched' =>
      match ps !! i with
      | Some (Vis c k) => Vis c (fun r => interleave sched' (<[i := k r]> ps))
      | Some (Stop s) => Stop s
      | _ => interleave sched' ps
      end
  end.

(** ** A device in two parts *)

Record apart (d1 d2 : device) : Prop := {
  ap_qps : qps d1 ##ₘ qps d2; ap_cqs : cqs d1 ##ₘ cqs d2;
  ap_mrs : mrs d1 ##ₘ mrs d2; ap_heap : heap d1 ##ₘ heap d2 }.

Definition both (d1 d2 : device) : device :=
  mkDev (qps d1 ∪ qps d2) (cqs d1 ∪ cqs d2) (mrs d1 ∪ mrs d2) (heap d1 ∪ heap d2).

Lemma apart_comm d1 d2 : apart d1 d2 -> apart d2 d1.
Proof. by intros [H1 H2 H3 H4]. Qed.

Lemma both_comm d1 d2 : apart d1 d2 -> both d1 d2 = both d2 d1.
Proof. intros [H1 H2 H3 H4]. unfold both. f_equal; by apply map_union_comm. Qed.

Section Frame.
Variables (d1 d2 : device).
Hypothesis (Ha : apart d1 d2).
#[local] Abbreviation d := (both d1 d2).

Lemma both_qps n q : qps d1 !! n = Some q -> qps d !! n = Some q.
Proof. apply lookup_union_Some_l. Qed.
Lemma both_cqs n q : cqs d1 !! n = Some q -> cqs d !! n = Some q.
Proof. apply lookup_union_Some_l. Qed.

Lemma both_some {A} (m1 m2 : gmap Z A) n : is_Some (m1 !! n) -> is_Some ((m1 ∪ m2) !! n).
Proof. intros [x Hx]. exists x. by apply lookup_union_Some_l. Qed.

Lemma exists_union {A} (P : Z -> A -> Prop) (m1 m2 : gmap Z A) : map_Exists P m1 -> map_Exists P (m1 ∪ m2).
Proof. intros (n & x & Hn & H). exists n, x. split; [by apply lookup_union_Some_l | done]. Qed.

Lemma room_both q cq : cq_room d1 q cq = true -> cq_room d q cq = true.
Proof. unfold cq_room. destruct (cqs d1 !! cq) eqn:E; [| done]. by rewrite (both_cqs _ _ E). Qed.

Lemma sges_both l : forallb (fun s => bool_decide (sge_ok d1 s)) l = true -> forallb (fun s => bool_decide (sge_ok d s)) l = true.
Proof.
  rewrite !forallb_forall. intros H s Hs. specialize (H s Hs). apply bool_decide_eq_true in H. apply bool_decide_eq_true. by apply exists_union.
Qed.

Lemma send_both q w : send_ok d1 q w = true -> send_ok d q w = true.
Proof.
  unfold send_ok. rewrite !andb_true_iff. intros [[H1 H2] H3]. split; [split; [done |] |].
  - case_decide; [done | by apply sges_both].
  - apply orb_true_iff in H3 as [-> | H3]; [done |]. by rewrite room_both, orb_true_r.
Qed.

Lemma sends_both ws : forall q, sends_ok d1 q ws = true -> sends_ok d q ws = true.
Proof.
  induction ws as [|w ws IH]; intros q; cbn [sends_ok]; [done |]. rewrite !andb_true_iff. intros [H1 H2]. split; [by apply send_both | by apply IH].
Qed.

Lemma recv_both q w : recv_ok d1 q w = true -> recv_ok d q w = true.
Proof. unfold recv_ok. rewrite !andb_true_iff. intros [[H1 H2] H3]. by rewrite sges_both, room_both. Qed.

(** What one program may do it may do next to another. *)
Lemma allowed_both c : allowed d1 c = true -> allowed d c = true.
Proof.
  destruct c; cbn [allowed]; try done; rewrite ?bool_decide_eq_true; try apply both_some; try apply exists_union.
  all: try by (destruct (qps d1 !! _) eqn:E; [rewrite (both_qps _ _ E) |]; first [apply sends_both | apply recv_both | done]).
  all: try (intros [H1 H2]; split; by apply both_some).
  rewrite !orb_true_iff. intros [H | H]; [by left | right]. apply bool_decide_eq_true in H. apply bool_decide_eq_true. by apply both_some.
Qed.
End Frame.

(** ** The wiring is kept *)

Lemma push_sends_init ws : forall q, q_init (foldl push_send q ws) = q_init q.
Proof. induction ws as [|w ws IH]; intros q; [done |]. cbn [foldl]. by rewrite IH. Qed.

Lemma wired_set d n q q' : wired d -> qps d !! n = Some q -> q_init q' = q_init q -> wired (set_qp d n q').
Proof.
  intros Hw Hq E m q0. cbn [qps cqs set_qp]. destruct (decide (m = n)) as [-> | Hne].
  - rewrite lookup_insert_eq. intros [= <-]. rewrite E. by apply (Hw n).
  - rewrite lookup_insert_ne by done. apply Hw.
Qed.

Lemma complete_set d cq w d' : complete d cq w = Some d' -> exists q q', qps d !! wc_qp_num w = Some q /\ feeds cq q /\
  q_init q' = q_init q /\ d' = set_qp d (wc_qp_num w) q'.
Proof.
  unfold complete. destruct (qps d !! wc_qp_num w) as [q |]; [| done]. destruct (wc_recv w).
  - destruct (q_recvs q) as [|id rest]; [done |]. destruct (Z.eqb_spec (recv_cq (q_init q)) cq), (id =? wc_wr_id w); try done; cbn [andb].
    intros [= <-]. exists q. eexists. split; [done |]. split; [by right |]. split; [| reflexivity]. done.
  - destruct (Z.eqb_spec (send_cq (q_init q)) cq); [| done]. destruct (retire _ _ _); [| done].
    intros [= <-]. exists q. eexists. split; [done |]. split; [by left |]. split; [| reflexivity]. done.
Qed.

Lemma completes_wired cq ws : forall d d', completes d cq ws = Some d' -> wired d -> wired d'.
Proof.
  induction ws as [|w ws IH]; intros d d'; cbn [completes]; [by intros [= <-] |]. destruct (complete d cq w) as [d1 |] eqn:E; [| done].
  intros H Hw. eapply IH; [exact H |]. apply complete_set in E as (q & q' & Hq & _ & Ei & ->). by eapply wired_set.
Qed.

Lemma wired_create d n a st : wired d -> is_Some (cqs d !! send_cq a) -> is_Some (cqs d !! recv_cq a) -> wired (set_qp d n (new_qp a st)).
Proof.
  intros Hw H1 H2 m q. cbn [qps cqs set_qp]. destruct (decide (m = n)) as [-> | Hne]; [rewrite lookup_insert_eq; by intros [= <-] |].
  rewrite lookup_insert_ne by done. apply Hw.
Qed.

(** Completion queues outlive the queue pairs that feed them. *)
Lemma wired_step d c r : wired d -> allowed d c = true -> reply_ok d c r = true -> wired (after d c r).
Proof.
  intros Hw. destruct c; try (intros _ _; exact Hw); cbn [allowed reply_ok after].
  all: try by (intros _ _; repeat case_match).
  all: try (intros [H1 H2]%bool_decide_eq_true _; case_match; first [exact Hw | by apply wired_create]).
  - intros _ _. case_match; [done |]. intros m q Hm. destruct (Hw m q Hm). cbn [cqs]. rewrite !lookup_insert_is_Some'. auto.
  - intros _ Hr. destruct (r =? 0); [| done]. cbn [negb orb] in Hr. apply bool_decide_eq_true in Hr. intros m q Hm. destruct (Hw m q Hm) as [S1 S2].
    pose proof (Hr m q Hm) as Hf. unfold feeds in Hf. cbn [cqs]. rewrite !lookup_delete_ne by naive_solver. done.
  - intros _ _. case_match; [| done]. intros m q. cbn [qps cqs]. intros [_ Hm]%lookup_delete_Some. by apply (Hw m).
  - destruct (qps d !! _) as [q |] eqn:E; [| done]. intros _ _. repeat case_match; try done. by eapply wired_set.
  - destruct (qps d !! _) as [q |] eqn:E; [| done]. intros _ _. case_match; [| done]. eapply wired_set; [done | done | by rewrite push_sends_init].
  - destruct (qps d !! _) as [q |] eqn:E; [| done]. intros _ _. case_match; [| done]. by eapply wired_set.
  - intros _ [_ H]%andb_true_iff. destruct (completes _ _ _) as [d' |] eqn:E; [| done]. by eapply completes_wired.
Qed.

(** ** Replies and effects are local *)

Section Local.
Variables (d1 d2 : device).
Hypothesis (Ha : apart d1 d2) (Hw : wired d2).
#[local] Abbreviation d := (both d1 d2).

Lemma fresh_both {A} (m1 m2 : gmap Z A) n : (m1 ∪ m2) !! n = None -> m1 !! n = None /\ m2 !! n = None.
Proof. by rewrite lookup_union_None. Qed.

Lemma fresh_left {A} (m1 m2 : gmap Z A) n : fresh (m1 ∪ m2) n = true -> fresh m1 n = true /\ m2 !! n = None.
Proof.
  intros [Hz [H1 H2]%fresh_both]%fresh_spec. split; [| done]. unfold fresh. apply andb_true_iff. split; [by apply negb_true_iff, Z.eqb_neq |].
  by apply bool_decide_eq_true.
Qed.

Lemma block_left p n : fresh_block d p n = true -> fresh_block d1 p n = true /\ heap d2 !! p = None.
Proof.
  unfold fresh_block. rewrite !andb_true_iff, !bool_decide_eq_true. intros [[H1 [H2 H3]%fresh_left] H4]. split; [split; [by split |] | done].
  intros b sz Hb. apply (H4 b). by apply lookup_union_Some_l.
Qed.

(** A completion of a queue of [d1] is one of a queue pair of [d1]. *)
Lemma complete_left cq w d' : is_Some (cqs d1 !! cq) -> complete d cq w = Some d' ->
  exists d1', complete d1 cq w = Some d1' /\ d' = both d1' d2 /\ apart d1' d2 /\ cqs d1' = cqs d1.
Proof.
  intros Hcq H. destruct (complete_set _ _ _ _ H) as (q & q' & Hq & Hf & _ & ->).
  assert (qps d1 !! wc_qp_num w = Some q) as Hq1.
  { apply lookup_union_Some_raw in Hq as [Hq | [_ Hq]]; [done |]. destruct (Hw _ _ Hq) as [W1 W2]. exfalso.
    assert (is_Some (cqs d2 !! cq)) as [y Hy] by (destruct Hf as [<- | <-]; done). destruct Hcq as [x Hx].
    by apply (map_disjoint_spec (cqs d1) (cqs d2)) with (i := cq) (x := x) (y := y); [apply Ha | |]. }
  exists (set_qp d1 (wc_qp_num w) q'). unfold complete in *. rewrite Hq in H. rewrite Hq1. split; [| split; [| split]].
  - assert (forall q0, Some (set_qp d (wc_qp_num w) q0) = Some (set_qp d (wc_qp_num w) q') -> q0 = q') as Hinj.
    { intros q0 [= E]. pose proof (f_equal (fun m => m !! wc_qp_num w) E) as E'. cbv beta in E'. rewrite !lookup_insert_eq in E'. congruence. }
    repeat case_match; try done; by rewrite (Hinj _ H).
  - unfold set_qp, both. cbn [qps cqs mrs heap]. by rewrite insert_union_l.
  - destruct Ha as [A1 A2 A3 A4]. split; try done. cbn [qps set_qp]. apply map_disjoint_insert_l_2; [| done].
    by apply (map_disjoint_Some_l (qps d1) (qps d2) _ q).
  - done.
Qed.
End Local.

Lemma completes_left d2 cq ws : wired d2 -> forall d1 d', apart d1 d2 -> is_Some (cqs d1 !! cq) -> completes (both d1 d2) cq ws = Some d' ->
  exists d1', completes d1 cq ws = Some d1' /\ d' = both d1' d2 /\ apart d1' d2.
Proof.
  intros Hw. induction ws as [|w ws IH]; intros d1 d' Ha Hcq; cbn [completes].
  - intros [= <-]. by exists d1.
  - destruct (complete (both d1 d2) cq w) as [d0 |] eqn:E; [| done]. destruct (complete_left _ _ Ha Hw _ _ _ Hcq E) as (d1' & E1 & -> & Ha' & Ec).
    rewrite E1. apply IH; [done | by rewrite Ec].
Qed.

Lemma none_right {A} (m1 m2 : gmap Z A) n : m1 ##ₘ m2 -> is_Some (m1 !! n) -> m2 !! n = None.
Proof. intros Hd [x Hx]. by apply (map_disjoint_Some_l m1 m2 n x). Qed.

Lemma delete_left {A} (m1 m2 : gmap Z A) n : m1 ##ₘ m2 -> is_Some (m1 !! n) -> delete n (m1 ∪ m2) = delete n m1 ∪ m2.
Proof. intros Hd Hs. rewrite delete_union, (delete_id m2); [done | by apply (none_right m1)]. Qed.

(** What a step made of the parts: the left one changed, the other did not. *)
Definition stays (d1 d2 d' d1' : device) : Prop := d' = both d1' d2 /\ apart d1' d2.

Section Effects.
Variables (d1 d2 : device).
Hypothesis (Ha : apart d1 d2).
#[local] Abbreviation d := (both d1 d2).
#[local] Abbreviation stays := (stays d1 d2).

Lemma stays_same : stays d d1.
Proof. done. Qed.

#[local] Ltac in_part := destruct Ha as [A1 A2 A3 A4]; intros Hn; split;
  [unfold set_qp, both; cbn [qps cqs mrs heap]; first [by rewrite insert_union_l | by rewrite delete_left] |];
  split; try done; first [by apply map_disjoint_insert_l_2 | by apply map_disjoint_delete_l].

Lemma stays_qp n q : qps d2 !! n = None -> stays (set_qp d n q) (set_qp d1 n q).
Proof. in_part. Qed.
Lemma stays_cq n x : cqs d2 !! n = None -> stays (mkDev (qps d) (<[n := x]> (cqs d)) (mrs d) (heap d)) (mkDev (qps d1) (<[n := x]> (cqs d1)) (mrs d1) (heap d1)).
Proof. in_part. Qed.
Lemma stays_mr n x : mrs d2 !! n = None -> stays (mkDev (qps d) (cqs d) (<[n := x]> (mrs d)) (heap d)) (mkDev (qps d1) (cqs d1) (<[n := x]> (mrs d1)) (heap d1)).
Proof. in_part. Qed.
Lemma stays_block n x : heap d2 !! n = None -> stays (mkDev (qps d) (cqs d) (mrs d) (<[n := x]> (heap d))) (mkDev (qps d1) (cqs d1) (mrs d1) (<[n := x]> (heap d1))).
Proof. in_part. Qed.

Lemma stays_without_qp n : is_Some (qps d1 !! n) -> stays (mkDev (delete n (qps d)) (cqs d) (mrs d) (heap d)) (mkDev (delete n (qps d1)) (cqs d1) (mrs d1) (heap d1)).
Proof. in_part. Qed.
Lemma stays_without_cq n : is_Some (cqs d1 !! n) -> stays (mkDev (qps d) (delete n (cqs d)) (mrs d) (heap d)) (mkDev (qps d1) (delete n (cqs d1)) (mrs d1) (heap d1)).
Proof. in_part. Qed.
Lemma stays_without_mr n : is_Some (mrs d1 !! n) -> stays (mkDev (qps d) (cqs d) (delete n (mrs d)) (heap d)) (mkDev (qps d1) (cqs d1) (delete n (mrs d1)) (heap d1)).
Proof. in_part. Qed.
Lemma stays_without_block n : is_Some (heap d1 !! n) -> stays (mkDev (qps d) (cqs d) (mrs d) (delete n (heap d))) (mkDev (qps d1) (cqs d1) (mrs d1) (delete n (heap d1))).
Proof. in_part. Qed.

Lemma stays_known n q : is_Some (qps d1 !! n) -> stays (set_qp d n q) (set_qp d1 n q).
Proof. intros Hn. apply stays_qp. eapply none_right; [apply Ha | done]. Qed.
End Effects.

(** Null is never allocated. *)
Definition grounded (d : device) : Prop := heap d !! 0 = None.

Lemma completes_heap cq ws : forall d d', completes d cq ws = Some d' -> heap d' = heap d.
Proof.
  induction ws as [|w ws IH]; intros d d'; cbn [completes]; [by intros [= <-] |]. destruct (complete d cq w) as [d1 |] eqn:E; [| done].
  intros H. rewrite (IH _ _ H). by apply complete_set in E as (q & q' & _ & _ & _ & ->).
Qed.

Lemma grounded_step d c r : grounded d -> reply_ok d c r = true -> grounded (after d c r).
Proof.
  unfold grounded. intros Hg. destruct c; try (intros _; exact Hg); cbn [reply_ok after]; try (intros _; by repeat case_match).
  - intros [_ H]%andb_true_iff. destruct (completes _ _ _) as [d' |] eqn:E; [| done]. simpl. by rewrite (completes_heap _ _ _ _ E).
  - intros (Hp & _)%fresh_block_spec. rewrite (proj2 (Z.eqb_neq _ _)) by lia. cbn [heap]. by rewrite lookup_insert_ne by lia.
  - destruct (Z.eqb_spec r 0); [done |]. intros _. cbn [heap]. by rewrite lookup_insert_ne.
  - intros _. cbn [heap]. apply lookup_delete_None. by right.
Qed.

(** A number that is free for a queue pair is free in both parts. *)
Lemma qp_left d1 d2 n ty a : bool_decide (qps (both d1 d2) !! n = None) && bool_decide (ty = init_type a) && qpn_ok n = true ->
  bool_decide (qps d1 !! n = None) && bool_decide (ty = init_type a) && qpn_ok n = true /\ qps d2 !! n = None.
Proof.
  rewrite !andb_true_iff, !bool_decide_eq_true. intros [[[H1 H2]%fresh_both H3] H4]. done.
Qed.

(** A step of one program next to another. *)
Lemma step_left d1 d2 c r : apart d1 d2 -> wired d2 -> grounded d2 -> allowed d1 c = true -> reply_ok (both d1 d2) c r = true ->
  reply_ok d1 c r = true /\ stays d1 d2 (after (both d1 d2) c r) (after d1 c r).
Proof.
  intros Ha Hw Hg. destruct c; cbn [allowed reply_ok after]; try (intros; split; [done | by apply stays_same]); try (destruct (qps d1 !! _) as [q |] eqn:E; [| done]; rewrite (both_qps _ _ _ _ E)).
  - intros _. destruct r as [m |]; [| by split; [| apply stays_same]]. intros [H1 H2]%fresh_left. split; [done | by apply stays_mr].
  - intros Hm%bool_decide_eq_true _. split; [done |]. case_match; [by apply stays_without_mr | by apply stays_same].
  - intros _ [H1 H2]%fresh_left. split; [done |]. case_match; [by apply stays_same | by apply stays_cq].
  - intros Hc%bool_decide_eq_true. destruct (r =? 0); cbn [negb orb]; [| by split; [| apply stays_same]]. rewrite !bool_decide_eq_true. intros Hf. split; [| by apply stays_without_cq].
    intros m q Hq. apply (Hf m). by apply both_qps.
  - intros _. destruct r as [q |]; [| by split; [| apply stays_same]]. intros [H1 H2]%qp_left. split; [done | by apply stays_qp].
  - intros _. destruct r as [q |]; [| by split; [| apply stays_same]]. intros [H1 H2]%qp_left. split; [done | by apply stays_qp].
  - intros Hq%bool_decide_eq_true _. split; [done |]. case_match; [by apply stays_without_qp | by apply stays_same].
  - intros _ _. split; [done |]. repeat case_match; first [by apply stays_same | apply stays_known; [done | by eexists]].
  - intros _ Hr. split; [done | by apply stays_same].
  - intros _ _. split; [done |]. case_match; [apply stays_known; [done | by eexists] | by apply stays_same].
  - intros _ _. split; [done |]. case_match; [apply stays_known; [done | by eexists] | by apply stays_same].
  - intros Hc%bool_decide_eq_true [-> H]%andb_true_iff. destruct (completes (both d1 d2) _ _) as [d' |] eqn:E; [| done].
    destruct (completes_left _ _ _ Hw _ _ Ha Hc E) as (d1' & -> & -> & Ha'). by split.
  - intros _. destruct (r.1 =? 0); cbn [negb orb]; [| by split; [| apply stays_same]]. intros [H1 H2]%qp_left. split; [done | by apply stays_qp].
  - intros _ [H1 H2]%block_left. split; [done |]. case_match; [by apply stays_same | by apply stays_block].
  - intros _. destruct (r =? 0); cbn [orb]; [by split; [| apply stays_same] |]. intros [H1 H2]%block_left. split; [done | by apply stays_block].
  - intros Hp _. split; [done |]. destruct (decide (is_Some (heap d1 !! p))) as [Hs | Hn]; [by apply stays_without_block |].
    rewrite bool_decide_eq_false_2, orb_false_r in Hp by done. apply Z.eqb_eq in Hp as ->. apply eq_None_not_Some in Hn.
    rewrite !delete_id; [split; [done | destruct Ha; by split] | done | apply lookup_union_None; by split].
Qed.

(** ** Any number of parts *)

Inductive parts : list device -> device -> Prop :=
  | parts_nil : parts [] empty_device
  | parts_cons d1 ds d : apart d1 d -> wired d1 -> grounded d1 -> parts ds d -> parts (d1 :: ds) (both d1 d).

Lemma wired_both d1 d2 : apart d1 d2 -> wired d1 -> wired d2 -> wired (both d1 d2).
Proof.
  intros Ha H1 H2 m q Hm. cbn [qps cqs both] in *. apply lookup_union_Some_raw in Hm as [Hm | [_ Hm]].
  - destruct (H1 m q Hm). split; by apply both_some.
  - destruct (H2 m q Hm). rewrite !(map_union_comm (cqs d1)) by apply Ha. split; by apply both_some.
Qed.

Lemma parts_whole ds d : parts ds d -> wired d /\ grounded d.
Proof.
  induction 1 as [|d1 ds d Ha Hw Hg _ [IH1 IH2]]; [split; [apply wired_empty | done] |]. split; [by apply wired_both |].
  unfold grounded. cbn [heap both]. apply lookup_union_None. by split.
Qed.

(** A step of one of them. *)
Lemma parts_step ds d c : parts ds d -> forall i di, ds !! i = Some di -> allowed di c = true ->
  allowed d c = true /\ forall r, reply_ok d c r = true -> reply_ok di c r = true /\ parts (<[i := after di c r]> ds) (after d c r).
Proof.
  induction 1 as [|d1 ds d Ha Hw Hg Hp IH]; intros i di Hi Hc; [done |]. destruct (parts_whole _ _ Hp) as [Wd Gd]. destruct i as [|i].
  - injection Hi as ->. split; [by apply allowed_both |]. intros r Hr. destruct (step_left _ _ _ _ Ha Wd Gd Hc Hr) as [Hr1 [E Ha']].
    split; [done |]. rewrite E. cbn. constructor; [done | by apply wired_step | by apply grounded_step | done].
  - destruct (IH i di Hi Hc) as [Hd Hk]. rewrite both_comm by done. apply apart_comm in Ha. split; [by apply allowed_both |]. intros r Hr.
    destruct (step_left _ _ _ _ Ha Hw Hg Hd Hr) as [Hr1 [E Ha']]. destruct (Hk r Hr1) as [Hr2 Hp']. split; [done |]. rewrite E, both_comm by done.
    apply apart_comm in Ha'. by constructor.
Qed.

Lemma parts_start n : parts (replicate n empty_device) empty_device.
Proof.
  induction n as [|n IH]; [constructor |]. apply (parts_cons empty_device _ empty_device); [split; apply map_disjoint_empty_l | apply wired_empty | done | exact IH].
Qed.

(** ** The threads keep the rules together *)

Lemma safe_interleave {A} (Q : A -> device -> Prop) (E : stop -> device -> Prop) sched : forall ps ds d, parts ds d ->
  Forall2 (fun p di => safe di p Q E) ps ds ->
  safe d (interleave sched ps) (fun ps' d' => exists ds', parts ds' d' /\ Forall2 (fun p di => safe di p Q E) ps' ds')
    (fun s _ => exists di, E s di).
Proof.
  induction sched as [|i sched IH]; intros ps ds d Hp Hs; cbn [interleave safe]; [by exists ds |].
  destruct (ps !! i) as [p |] eqn:Ei; [| by apply (IH _ ds)]. destruct (Forall2_lookup_l _ _ _ _ _ Hs Ei) as (di & Hdi & Hi).
  destruct p as [a | s | c k]; [by apply (IH _ ds) | by exists di |]. destruct Hi as [Hc Hk]. destruct (parts_step _ _ _ Hp _ _ Hdi Hc) as [Hd Hr].
  split; [done |]. intros r Hr'. destruct (Hr r Hr') as [H1 H2]. apply (IH _ (<[i := after di c r]> ds)); [done |].
  apply Forall2_insert; [done | by apply Hk].
Qed.

(** The frame rule: what a program does not touch stays. *)
Lemma safe_frame {A} d2 (p : prog A) (Q : A -> device -> Prop) (E : stop -> device -> Prop) : wired d2 -> grounded d2 -> forall d1, apart d1 d2 ->
  safe d1 p Q E ->
  safe (both d1 d2) p (fun a d' => exists d1', d' = both d1' d2 /\ apart d1' d2 /\ Q a d1') (fun s _ => exists d1', E s d1').
Proof.
  intros Hw Hg. induction p as [a | s | c k IH]; intros d1 Ha Hs; cbn [safe] in *; [by exists d1 | by exists d1 |].
  destruct Hs as [Hc Hk]. split; [by apply allowed_both |]. intros r Hr. destruct (step_left _ _ _ _ Ha Hw Hg Hc Hr) as [Hr1 [-> Ha']].
  apply IH; [done | by apply Hk].
Qed.
