(* ===== verification/Loopback.v ===== *)
(** * A concrete environment

    Every call succeeds: handles and addresses are taken from the length of
    the history, a peer answers every [read] with zeros, and a completion
    queue hands out the oldest completion that is due.  It instantiates the
    parameter of the theorems that need a device which does its part, and
    runs programs on concrete inputs. *)

From S2P Require Import Prelude Verbs Protocol.

(** A completion due on the queue [cq]: the send that is next, with the
    unsignaled ones before it, or the oldest receive. *)
Definition due_send (l : list (Z * bool)) : option Z :=
  head (omap (fun x => if (x.2 : bool) then Some x.1 else None) l).

Definition due (d : device) (cq : Z) : option ibv_wc :=
  head (omap (fun nq : Z * qp_info =>
    let (n, q) := nq in
    match (if send_cq (q_init q) =? cq then due_send (q_sends q) else None) with
    | Some id => Some (mkWc id IBV_WC_SUCCESS false 0 n 0 0)
    | None =>
        match (if recv_cq (q_init q) =? cq then head (q_recvs q) else None) with
        | Some id => Some (mkWc id IBV_WC_SUCCESS true 0 n 0 0)
        | None => None
        end
    end) (map_to_list (qps d))).

Definition loopback : env := fun h c =>
  let handle := Z.of_nat (length h) + 1 in
  match c return reply c with
  | ibv_get_device_list => Some [handle]
  | ibv_get_device_name _ => "lo"%string
  | ibv_open_device _ | ibv_alloc_pd _ | ibv_create_comp_channel _ | ibv_create_cq _ _ | ibv_create_ah _ _ => handle
  | rdma_create_event_channel => handle
  | ibv_query_port _ _ => (0, mkPort 1 5)
  | ibv_reg_mr _ _ _ _ => Some (mkMr handle handle handle)
  | ibv_create_qp _ a | ibv_create_qp_srq _ a _ => Some (mkQp handle (init_type a))
  | ibv_query_qp q _ =>
      match judge h with
      | Running d =>
          match qps d !! qp_num q with Some i => (0, q_state i, 0) | None => (22, IBV_QPS_RESET, 0) end
      | _ => (22, IBV_QPS_RESET, 0)
      end
  | ibv_poll_cq cq _ =>
      match judge h with
      | Running d => match due d cq with Some wc => Polled [wc] | None => Polled [] end
      | _ => Polled []
      end
  | ibv_get_cq_event _ => (0, 0)
  | rdma_create_id _ _ _ => (0, handle)
  | rdma_create_qp _ _ a => (0, mkQp handle (init_type a))
  | rdma_get_cm_event _ => (0, mkEvent 0 RDMA_CM_EVENT_OTHER 0 0 0 (mkAh 0 0 0 0 0))
  | memalign _ _ | malloc _ => handle * 2 ^ 32
  | inet_pton _ => (1, 0)
  | getaddrinfo _ _ => (0, [0])
  | read _ n => Some (repeat Byte.x00 (Z.to_nat n))
  | write _ bs => Z.of_nat (length bs)
  | clock_gettime => (0, (0, 0))
  | ibv_free_device_list | freeaddrinfo | free _ | memset _ _ _ | store_byte _ _ | sleep _
  | srand48 _ | printf _ _ | perror _ | ibv_ack_cq_events _ _ | rdma_destroy_qp _ | rdma_destroy_event_channel _ => tt
  | _ => 0
  end.
