(* ===== verification/Infiniband.v ===== *)
(** * [infiniband.h], [infiniband.cc]: the transport of servers and clients

    A device context with one registered block of memory, queue pairs, pools
    of registered message buffers, and the operations on them.  A pointer to a
    [Buffer] is an address in a store of [Buffer] structures; what the buffer's
    own memory holds is the business of [Wire]. *)

From S2P Require Import Prelude Wire Verbs.

#[local] Open Scope prog_scope.

Module Infiniband.

Definition kPort : Z := 1.
Definition kMaxSendSge : Z := 12.
Definition kMaxRecvSge : Z := 12.
Definition kMaxInlineData : Z := 128.
Definition kDefaultPsn : Z := 33.

(** [struct QueuePairInfo] *)
Record QueuePairInfo := mkQpi { qpi_lid : Z; qpi_qpn : Z; qpi_psn : Z; qpi_rkey : Z; qpi_vaddr : Z }.

#[global] Instance QueuePairInfo_eq_dec : EqDecision QueuePairInfo.
Proof. solve_decision. Defined.

(** [struct Address] *)
Record Address := mkAddress { a_ib_port : Z; a_lid : Z; a_qpn : Z }.

#[global] Instance Address_eq_dec : EqDecision Address.
Proof. solve_decision. Defined.

(** [struct Buffer]; [sizeof(Buffer)] is 48. *)
Record Buffer := mkBuffer {
  next : Z; b_buf : Z; b_size : Z; msg_len : Z; b_mr : ibv_mr; peer_addr : Address; is_recv : bool }.
Definition sizeof_Buffer : Z := 48.

Abbreviation bufs := (gmap Z Buffer).

(** [class Infiniband]; [addr_handlers_] by local id, absent for null. *)
Record t := mkIb {
  ctx_ : Z; pd_ : Z; mr_ : ibv_mr; raw_mem_ : Z; raw_mem_size_ : Z; addr_handlers_ : gmap Z Z }.

(** [Infiniband::Infiniband] *)
Definition construct (registered_mem_size : Z) : prog t :=
  l <- sys ibv_get_device_list ;;
  check (bool_decide (is_Some l)) ;;;
  ctx <- sys (ibv_open_device (hd 0 (default [] l))) ;;
  check (negb (ctx =? 0)) ;;;
  sys ibv_free_device_list ;;;
  pd <- sys (ibv_alloc_pd ctx) ;;
  check (negb (pd =? 0)) ;;;
  raw_mem <- sys (memalign 4096 registered_mem_size) ;;
  check (negb (raw_mem =? 0)) ;;;
  m <- sys (ibv_reg_mr pd raw_mem registered_mem_size
         [IBV_ACCESS_LOCAL_WRITE; IBV_ACCESS_REMOTE_READ; IBV_ACCESS_REMOTE_WRITE]) ;;
  check (bool_decide (is_Some m)) ;;;
  Ret (mkIb ctx pd (default (mkMr 0 0 0) m) raw_mem registered_mem_size ∅).

(** [Infiniband::~Infiniband] *)
Definition destruct_ (ib : t) : prog unit :=
  for_ (size (addr_handlers_ ib)) (fun l : list (Z * Z) =>
    err <- sys (ibv_destroy_ah (hd (0, 0) l).2) ;; check (err =? 0) ;;; Ret (tl l)) (map_to_list (addr_handlers_ ib)) ;;;
  err <- sys (ibv_dereg_mr (mr_ptr (mr_ ib))) ;;
  check (err =? 0) ;;;
  sys (free (raw_mem_ ib)) ;;;
  err <- sys (ibv_dealloc_pd (pd_ ib)) ;;
  check (err =? 0) ;;;
  err <- sys (ibv_close_device (ctx_ ib)) ;;
  check (err =? 0).

(** ** [struct QueuePair] *)

Record QueuePair := mkQueuePair { type : ibv_qp_type; qp : ibv_qp; scq : Z; rcq : Z; psn : Z }.

Definition errno : prog Z := sys (os "errno" []).

Definition init_attr (type : ibv_qp_type) (scq rcq max_send max_recv : Z) : ibv_qp_init_attr :=
  mkInit scq rcq type 0 (* related to unsignaled completion *) max_send max_recv kMaxSendSge kMaxRecvSge kMaxInlineData.

Definition is_RC (type : ibv_qp_type) : bool := bool_decide (type = IBV_QPT_RC).
Definition is_UD (type : ibv_qp_type) : bool := bool_decide (type = IBV_QPT_UD).

(** [QueuePair::QueuePair] *)
Definition QueuePair_construct (ib : t) (type : ibv_qp_type) (max_send max_recv : Z) : prog QueuePair :=
  check (is_RC type || is_UD type) ;;;
  scq <- sys (ibv_create_cq (ctx_ ib) max_send) ;;
  rcq <- sys (ibv_create_cq (ctx_ ib) max_recv) ;;
  check (negb (scq =? 0) && negb (rcq =? 0)) ;;;
  q <- sys (ibv_create_qp (pd_ ib) (init_attr type scq rcq max_send max_recv)) ;;
  match q with
  | None => e <- errno ;; throw e
  | Some q =>
      let attr := [qp_state IBV_QPS_INIT; pkey_index 0; port_num kPort; qkey 0;
                   qp_access_flags [IBV_ACCESS_LOCAL_WRITE; IBV_ACCESS_REMOTE_READ; IBV_ACCESS_REMOTE_WRITE]] in
      let modify := [IBV_QP_STATE; IBV_QP_PORT; IBV_QP_PKEY_INDEX] ++
                    [if is_RC type then IBV_QP_ACCESS_FLAGS else IBV_QP_QKEY] in
      ret <- sys (ibv_modify_qp q attr modify) ;;
      if negb (ret =? 0) then sys (ibv_destroy_qp q) ;;; throw ret
      else Ret (mkQueuePair type q scq rcq kDefaultPsn)
  end.

(** [QueuePair::~QueuePair] *)
Definition QueuePair_destruct (q : QueuePair) : prog unit :=
  err <- sys (ibv_destroy_qp (qp q)) ;;
  check (err =? 0) ;;;
  err <- sys (ibv_destroy_cq (rcq q)) ;;
  check (err =? 0) ;;;
  err <- sys (ibv_destroy_cq (scq q)) ;;
  check (err =? 0).

Definition GetLocalQPNum (q : QueuePair) : Z := qp_num (qp q).

Definition GetPeerQPNum (q : QueuePair) : prog Z :=
  r <- sys (ibv_query_qp (qp q) [IBV_QP_DEST_QPN]) ;;
  let '(err, _, dest) := r in
  if negb (err =? 0) then throw err else Ret dest.

Definition GetState (q : QueuePair) : prog ibv_qp_state :=
  r <- sys (ibv_query_qp (qp q) [IBV_QP_STATE]) ;;
  let '(err, st, _) := r in
  if negb (err =? 0) then throw err else Ret st.

(** [int err = ibv_modify_qp(...); if (err != 0) throw ...] *)
Definition modify_ (q : QueuePair) (attr : ibv_qp_attr) (mask : list ibv_qp_attr_mask) : prog unit :=
  err <- sys (ibv_modify_qp (qp q) attr mask) ;;
  if negb (err =? 0) then throw err else Ret tt.

(** Bring UD queue pair into RTS status *)
Definition Activate (q : QueuePair) : prog unit :=
  check (is_UD (type q)) ;;;
  st <- GetState q ;;
  check (bool_decide (st = IBV_QPS_INIT)) ;;;
  modify_ q [qp_state IBV_QPS_RTR] [IBV_QP_STATE] ;;;
  modify_ q [qp_state IBV_QPS_RTS; sq_psn (psn q)] [IBV_QP_STATE; IBV_QP_SQ_PSN].

Definition SetStateRTR (q : QueuePair) (peer_info : QueuePairInfo) : prog unit :=
  check (is_RC (type q)) ;;;
  st <- GetState q ;;
  check (bool_decide (st = IBV_QPS_INIT)) ;;;
  (* We must set qp into RTR state before RTS *)
  modify_ q
    [qp_state IBV_QPS_RTR; path_mtu IBV_MTU_4096; dest_qp_num (qpi_qpn peer_info); rq_psn (qpi_psn peer_info);
     max_dest_rd_atomic 1; min_rnr_timer 12; ah_attr (mkAh 0 (qpi_lid peer_info) 0 0 kPort)]
    [IBV_QP_STATE; IBV_QP_AV; IBV_QP_PATH_MTU; IBV_QP_DEST_QPN; IBV_QP_RQ_PSN; IBV_QP_MAX_DEST_RD_ATOMIC;
     IBV_QP_MIN_RNR_TIMER].

Definition SetStateRTS (q : QueuePair) (peer_info : QueuePairInfo) : prog unit :=
  SetStateRTR q peer_info ;;;
  modify_ q
    [qp_state IBV_QPS_RTS; timeout 14; retry_cnt 7; rnr_retry 7; sq_psn (psn q); max_rd_atomic 1]
    [IBV_QP_STATE; IBV_QP_TIMEOUT; IBV_QP_RETRY_CNT; IBV_QP_RNR_RETRY; IBV_QP_SQ_PSN; IBV_QP_MAX_QP_RD_ATOMIC].

(** ** [class RegisteredBuffers] *)

Record RegisteredBuffers := mkPool { buf_size_ : Z; buf_num_ : Z; ptr_ : Z; bufs_ : Z; root_ : Z }.

Definition no_address : Address := mkAddress 0 0 0.

(** [new (&bufs_[i]) Buffer(p, buf_size_, mr, is_recv)] and its [next], for
    [i] up to [buf_num]; the constructor leaves [msg_len] and [peer_addr]. *)
Fixpoint init_bufs (n : nat) (i : Z) (pool : RegisteredBuffers) (m : ibv_mr) (is_recv : bool) (st : bufs) : bufs :=
  match n with
  | O => st
  | S n' =>
      let a := bufs_ pool + sizeof_Buffer * i in
      let nx := if i + 1 <? buf_num_ pool then bufs_ pool + sizeof_Buffer * (i + 1) else 0 in
      init_bufs n' (i + 1) pool m is_recv
        (<[a := mkBuffer nx (ptr_ pool + buf_size_ pool * i) (buf_size_ pool) 0 m no_address is_recv]> st)
  end.

(** [RegisteredBuffers::RegisteredBuffers] *)
Definition RegisteredBuffers_construct (pd buf_size buf_num : Z) (is_recv : bool) (st : bufs) :
    prog (RegisteredBuffers * bufs) :=
  let bytes := u32 (buf_size * buf_num) in
  page <- sys sysconf_pagesize ;;
  ptr <- sys (memalign page bytes) ;;
  check (negb (ptr =? 0)) ;;;
  m <- sys (ibv_reg_mr pd ptr bytes [IBV_ACCESS_REMOTE_WRITE; IBV_ACCESS_LOCAL_WRITE]) ;;
  match m with
  | None => e <- errno ;; throw e
  | Some m =>
      a <- new_ (sizeof_Buffer * buf_num) ;;
      let pool := mkPool buf_size buf_num ptr a a in
      Ret (pool, init_bufs (Z.to_nat buf_num) 0 pool m is_recv st)
  end.

(** [RegisteredBuffers::~RegisteredBuffers]; the result of [ibv_dereg_mr] is
    not looked at. *)
Definition RegisteredBuffers_destruct (st : bufs) (pool : RegisteredBuffers) : prog unit :=
  match st !! bufs_ pool with
  | None => Stop (Fault Segv)
  | Some b => sys (ibv_dereg_mr (mr_ptr (b_mr b))) ;;; sys (free (ptr_ pool)) ;;; sys (free (bufs_ pool))
  end.

(** [Alloc], [Free]: both under the pool's lock. *)
Definition Alloc (st : bufs) (pool : RegisteredBuffers) : Z * RegisteredBuffers :=
  let ret := root_ pool in
  (ret, match st !! ret with
        | Some b => if ret =? 0 then pool else mkPool (buf_size_ pool) (buf_num_ pool) (ptr_ pool) (bufs_ pool) (next b)
        | None => pool
        end).

Definition with_next (nx : Z) (b : Buffer) : Buffer :=
  mkBuffer nx (b_buf b) (b_size b) (msg_len b) (b_mr b) (peer_addr b) (is_recv b).

Definition Free (st : bufs) (pool : RegisteredBuffers) (b : Z) : bufs * RegisteredBuffers :=
  (alter (with_next (root_ pool)) b st, mkPool (buf_size_ pool) (buf_num_ pool) (ptr_ pool) (bufs_ pool) b).

(** ** Messages *)

Definition GetLid (ib : t) (port : Z) : prog Z :=
  r <- sys (ibv_query_port (ctx_ ib) port) ;;
  if negb (r.1 =? 0) then throw r.1 else Ret (port_lid r.2).

Definition received (wc : ibv_wc) (b : Buffer) : Buffer :=
  mkBuffer (next b) (b_buf b) (b_size b) (wc_byte_len wc) (b_mr b)
    (mkAddress kPort (wc_slid wc) (wc_src_qp wc)) (is_recv b).

(** [PollCQ] with one entry: null when there is none; the [wr_id] of a
    completion is the address of its buffer, which it fills in. *)
Definition PollCQ (cq num_entries : Z) (st : bufs) : prog (Z * bufs) :=
  p <- sys (ibv_poll_cq cq num_entries) ;;
  match p with
  | PollFailed r => throw (Z.neg r)
  | Polled [] => Ret (0, st)
  | Polled (wc :: _) =>
      if negb (wc_status wc =? IBV_WC_SUCCESS) then throw (wc_status wc) else
      match st !! wc_wr_id wc with
      | None => Stop (Fault Segv)
      | Some b => Ret (wc_wr_id wc, <[wc_wr_id wc := received wc b]> st)
      end
  end.

Definition TryReceive (q : QueuePair) : bufs -> prog (Z * bufs) := PollCQ (rcq q) 1.
Definition TrySend (q : QueuePair) : bufs -> prog (Z * bufs) := PollCQ (scq q) 1.

(** May blocking *)
Fixpoint Receive (fuel : nat) (q : QueuePair) (st : bufs) : prog (Z * bufs) :=
  match fuel with
  | O => Stop (Fault OutOfFuel)
  | S fuel' =>
      r <- TryReceive q st ;;
      if r.1 =? 0 then Receive fuel' q r.2 else Ret r
  end.

Definition PostReceive (q : QueuePair) (b : Z) (buf : Buffer) : prog unit :=
  err <- sys (ibv_post_recv (qp q) (mkRecv b [mkSge (b_buf buf) (b_size buf) (lkey (b_mr buf))])) ;;
  if negb (err =? 0) then throw err else Ret tt.

(** The handle of a peer is made once and kept by its local id. *)
Definition GetAddrHandler (ib : t) (addr : Address) : prog (Z * t) :=
  match addr_handlers_ ib !! a_lid addr with
  | Some ah => Ret (ah, ib)
  | None =>
      ah <- sys (ibv_create_ah (pd_ ib) (mkAh 0 (a_lid addr) 1 0 kPort)) ;;
      check (negb (ah =? 0)) ;;;
      Ret (ah, mkIb (ctx_ ib) (pd_ ib) (mr_ ib) (raw_mem_ ib) (raw_mem_size_ ib) (<[a_lid addr := ah]> (addr_handlers_ ib)))
  end.

Definition PostSend (ib : t) (q : QueuePair) (b : Z) (buf : Buffer) (len : Z) (peer_addr : Address) : prog t :=
  check (is_UD (type q)) ;;;
  r <- GetAddrHandler ib peer_addr ;;
  let (ah, ib) := r in
  check (negb (ah =? 0)) ;;;
  let flags := IBV_SEND_SIGNALED :: (if len <=? kMaxInlineData then [IBV_SEND_INLINE] else []) in
  err <- sys (ibv_post_send (qp q)
    [mkSend b [mkSge (b_buf buf) len (lkey (b_mr buf))] IBV_WR_SEND flags (mkUnion ah (a_qpn peer_addr) 0) 0]) ;;
  if negb (err =? 0) then throw err else Ret ib.

(** [while (ibv_poll_cq(cq, 1, &wc) < 1) {}] *)
Definition wait_one := poll_one.

Definition PostSendAndWait (fuel : nat) (ib : t) (q : QueuePair) (b : Z) (buf : Buffer) (len : Z) (peer_addr : Address) : prog t :=
  check (is_UD (type q)) ;;;
  ib <- PostSend ib q b buf len peer_addr ;;
  (* How can we make sure that the completed work we polled is the one we have just post? *)
  wc <- wait_one fuel (scq q) ;;
  if negb (wc_status wc =? IBV_WC_SUCCESS) then throw (wc_status wc) else Ret ib.

(** The request on the stack is not cleared: [w] is what it held. *)
Definition PostWrite (ib : t) (q : QueuePair) (peer_info : QueuePairInfo) (w : ibv_send_wr) : prog unit :=
  err <- sys (ibv_post_send (qp q)
    [mkSend 3 [mkSge (raw_mem_ ib) 64 (lkey (mr_ ib))] IBV_WR_RDMA_WRITE [IBV_SEND_SIGNALED]
       (set_rdma (qpi_vaddr peer_info) (qpi_rkey peer_info) (s_wr w)) (s_imm w)]) ;;
  if negb (err =? 0) then throw err else Ret tt.

Definition PostWriteAndWait (fuel : nat) (ib : t) (q : QueuePair) (peer_info : QueuePairInfo) (w : ibv_send_wr) : prog unit :=
  PostWrite ib q peer_info w ;;;
  wc <- poll_one fuel (scq q) ;;
  if negb (wc_status wc =? IBV_WC_SUCCESS) then throw (wc_status wc) else Ret tt.

End Infiniband.
