(* ===== verification/Endpoint.v ===== *)
(** * Queue pairs of the transport under the rules of the verbs

    The calls of [Infiniband] keep the rules of [Protocol] as long as a queue
    pair and the message buffers are in the state described here; the lemmas
    say what each call leaves, whatever the device answers. *)

From S2P Require Import Prelude Verbs Protocol Infiniband.
Import Infiniband.

#[local] Open Scope prog_scope.

(** The queue pair [q] on the device: [dep] entries deep in both directions,
    with completion queues of its own. *)
Record endpoint (dep : Z) (d : device) (q : QueuePair) (st : ibv_qp_state) (sends : list (Z * bool)) (recvs : list Z) (n : Z) : Prop := {
  ep_qp : qps d !! qp_num (qp q) =
    Some (mkQpInfo (type q) st (init_attr (type q) (scq q) (rcq q) dep dep) sends recvs n);
  ep_scq : cqs d !! scq q = Some dep;
  ep_rcq : cqs d !! rcq q = Some dep;
  ep_ne : scq q <> rcq q;
  ep_own : forall m qi, qps d !! m = Some qi -> m <> qp_num (qp q) ->
    send_cq (q_init qi) <> scq q /\ recv_cq (q_init qi) <> scq q /\
    send_cq (q_init qi) <> rcq q /\ recv_cq (q_init qi) <> rcq q }.

(** Only the state of queue pairs changes. *)
Definition same_memory (d d' : device) : Prop := mrs d' = mrs d /\ heap d' = heap d.

Section Steps.
Context (dep : Z) (E : stop -> device -> Prop).
#[local] Abbreviation endpoint := (endpoint dep).

Lemma endpoint_set d q st sends recvs n st' sends' recvs' n' : endpoint d q st sends recvs n ->
  endpoint (set_qp d (qp_num (qp q)) (mkQpInfo (type q) st' (init_attr (type q) (scq q) (rcq q) dep dep) sends' recvs' n')) q st' sends' recvs' n'.
Proof.
  intros [H1 H2 H3 H4 H5]. split; try done; cbn [qps set_qp]; [apply lookup_insert_eq |].
  intros m qi Hm Hne. rewrite lookup_insert_ne in Hm by done. by apply (H5 m).
Qed.

(** From [d] to [d'] only the queue pair [q] changed; completion queues may be new. *)
Record beside (q : QueuePair) (d d' : device) : Prop := {
  be_qps : forall m, m <> qp_num (qp q) -> qps d' !! m = qps d !! m; be_cqs : cqs d ⊆ cqs d' }.

Lemma beside_set d q qi : beside q d (set_qp d (qp_num (qp q)) qi).
Proof. split; [| done]. intros m Hm. cbn [qps set_qp]. by rewrite lookup_insert_ne. Qed.

Lemma beside_trans q d d' d'' : beside q d d' -> beside q d' d'' -> beside q d d''.
Proof. intros [A1 A2] [B1 B2]. split; [intros m Hm; by rewrite B1, A1 | by transitivity (cqs d')]. Qed.

(** The other queue pairs are as before, and have their completion queues. *)
Lemma endpoint_beside q d d' st sends recvs n q' st' sends' recvs' n' : beside q d d' -> endpoint d' q st sends recvs n ->
  qp_num (qp q') <> qp_num (qp q) -> endpoint d q' st' sends' recvs' n' -> endpoint d' q' st' sends' recvs' n'.
Proof.
  intros [B1 B2] H Hne [E1 E2 E3 E4 E5]. assert (qps d' !! qp_num (qp q') = Some (mkQpInfo (type q') st' (init_attr (type q') (scq q') (rcq q') dep dep) sends' recvs' n')) as E1' by (by rewrite B1).
  split; [done | by eapply lookup_weaken | by eapply lookup_weaken | done |].
  intros m qi Hm Hmne. destruct (decide (m = qp_num (qp q))) as [-> | Hq].
  - rewrite (ep_qp _ _ _ _ _ _ _ H) in Hm. injection Hm as <-. destruct (ep_own _ _ _ _ _ _ _ H _ _ E1' Hne) as (N1 & N2 & N3 & N4).
    cbn [q_init send_cq recv_cq init_attr] in *. split_and!; congruence.
  - rewrite B1 in Hm by done. by apply (E5 m).
Qed.

Lemma wired_beside q d d' st sends recvs n : beside q d d' -> endpoint d' q st sends recvs n -> wired d -> wired d'.
Proof.
  intros [B1 B2] H Hw m qi Hm. destruct (decide (m = qp_num (qp q))) as [-> | Hq].
  - rewrite (ep_qp _ _ _ _ _ _ _ H) in Hm. injection Hm as <-. cbn [q_init send_cq recv_cq init_attr].
    by rewrite (ep_scq _ _ _ _ _ _ _ H), (ep_rcq _ _ _ _ _ _ _ H).
  - rewrite B1 in Hm by done. destruct (Hw m qi Hm) as [[x Hx] [y Hy]]. split; eexists; by eapply lookup_weaken.
Qed.

(** [modify_] with the attributes a transition takes. *)
Lemma safe_modify {B} d q st to sends recvs n attr mask (k : unit -> prog B) Q : endpoint d q st sends recvs n ->
  target_state attr = Some to ->
  transition_ok (mkQpInfo (type q) st (init_attr (type q) (scq q) (rcq q) dep dep) sends recvs n) attr mask = true ->
  (forall err, E (Fault (Throw err)) d) ->
  (forall d', mrs d' = mrs d -> heap d' = heap d -> beside q d d' -> endpoint d' q to sends recvs n -> safe d' (k tt) Q E) ->
  safe d (pbind (modify_ q attr mask) k) Q E.
Proof.
  intros H Ht Hok HE Hk. unfold modify_. apply safe_assoc, safe_sys.
  - cbn [allowed]. by rewrite (ep_qp _ _ _ _ _ _ _ H).
  - intros r _. cbn [after]. rewrite (ep_qp _ _ _ _ _ _ _ H), Ht. destruct (Z.eqb_spec r 0) as [-> | E0]; cbn [negb pbind throw]; [| apply HE].
    by apply Hk; [.. | apply beside_set | eapply endpoint_set].
Qed.

Lemma safe_GetState {B} d q st sends recvs n (k : ibv_qp_state -> prog B) Q : endpoint d q st sends recvs n ->
  (forall err, E (Fault (Throw err)) d) -> safe d (k st) Q E -> safe d (pbind (GetState q) k) Q E.
Proof.
  intros H HE Hk. unfold GetState. apply safe_assoc, safe_sys.
  - cbn [allowed]. apply bool_decide_eq_true. by rewrite (ep_qp _ _ _ _ _ _ _ H).
  - intros [[err s] dest] Hr. cbn [after reply_ok fst snd] in *. rewrite (ep_qp _ _ _ _ _ _ _ H) in Hr. cbn [q_state] in Hr.
    destruct (err =? 0); cbn [negb pbind throw orb] in *; [| apply HE]. by apply bool_decide_eq_true in Hr as ->.
Qed.

(** ** Posting *)

Lemma safe_PostReceive {B} d q st sends recvs n b buf (k : unit -> prog B) Q : endpoint d q st sends recvs n -> st <> IBV_QPS_RESET ->
  Z.of_nat (length recvs) < dep -> sge_ok d (mkSge (b_buf buf) (b_size buf) (lkey (b_mr buf))) ->
  (forall err, E (Fault (Throw err)) d) ->
  (forall d', mrs d' = mrs d -> heap d' = heap d -> beside q d d' -> endpoint d' q st sends (recvs ++ [b]) n -> safe d' (k tt) Q E) ->
  safe d (pbind (PostReceive q b buf) k) Q E.
Proof.
  intros H Hst Hlen Hsge HE Hk. unfold PostReceive. apply safe_assoc, safe_sys.
  - cbn [allowed]. rewrite (ep_qp _ _ _ _ _ _ _ H). unfold recv_ok. cbn [q_state q_recvs q_init max_recv_wr max_recv_sge recv_cq init_attr r_sg_list].
    rewrite (bool_decide_eq_true_2 (st <> _)) by done. rewrite (proj2 (Z.ltb_lt _ _)) by lia. cbn [forallb length].
    rewrite (bool_decide_eq_true_2 (sge_ok _ _)) by done. cbn. unfold cq_room. rewrite (ep_rcq _ _ _ _ _ _ _ H). apply Z.ltb_lt.
    unfold cq_load. cbn. rewrite Z.eqb_refl, (proj2 (Z.eqb_neq _ _)) by apply (ep_ne _ _ _ _ _ _ _ H). lia.
  - intros r _. cbn [after]. rewrite (ep_qp _ _ _ _ _ _ _ H). destruct (r =? 0); cbn [negb pbind throw]; [| apply HE].
    by apply Hk; [.. | apply beside_set | cbn [q_type q_state q_init q_sends q_recvs q_posted r_wr_id]; eapply endpoint_set].
Qed.

(** A work request the rules allow: one element, inline when it is small. *)
Definition sendable_wr (d : device) (q : QueuePair) (w : ibv_send_wr) : Prop :=
  opcode_ok (type q) (s_opcode w) = true /\ (type q = IBV_QPT_UD -> ud_ah (s_wr w) <> 0) /\
  exists g, s_sg_list w = [g] /\ if decide (IBV_SEND_INLINE ∈ s_flags w) then sge_length g <= kMaxInlineData else sge_ok d g.

Lemma sends_ok_one d q st sends recvs n w : endpoint d q st sends recvs n -> can_send st = true -> sendable_wr d q w -> Z.of_nat (length sends) < dep ->
  sends_ok d (mkQpInfo (type q) st (init_attr (type q) (scq q) (rcq q) dep dep) sends recvs n) [w] = true.
Proof.
  intros H Hst (Hop & Hah & g & Hg & Hin) Hlen. cbn [sends_ok]. unfold send_ok. cbn [q_state q_type q_sends q_init max_send_wr max_send_sge send_cq init_attr].
  rewrite Hst, Hop, Hg. assert ((if decide (type q = IBV_QPT_UD) then negb (ud_ah (s_wr w) =? 0) else true) = true) as ->
    by (destruct (decide (type q = IBV_QPT_UD)) as [Hty |]; [apply Hah, Z.eqb_neq in Hty; by rewrite Hty | done]).
  rewrite (proj2 (Z.ltb_lt _ _)) by lia. cbn [length andb]. change (Z.of_nat 1 <=? kMaxSendSge) with true. cbn [andb].
  assert ((if decide (IBV_SEND_INLINE ∈ s_flags w) then sg_len [g] <=? max_inline_data (init_attr (type q) (scq q) (rcq q) dep dep)
    else forallb (fun s => bool_decide (sge_ok d s)) [g]) = true) as ->.
  { destruct (decide (IBV_SEND_INLINE ∈ s_flags w)); [cbn [sg_len foldr max_inline_data init_attr]; apply Z.leb_le; lia | cbn; by rewrite bool_decide_eq_true_2]. }
  unfold cq_room. rewrite (ep_scq _ _ _ _ _ _ _ H). unfold cq_load. cbn [q_init send_cq recv_cq q_sends init_attr].
  rewrite Z.eqb_refl, (proj2 (Z.eqb_neq (rcq q) _)) by (intros Ee; by apply (ep_ne _ _ _ _ _ _ _ H)).
  pose proof (length_filter (fun x : Z * bool => x.2 = true) sends). rewrite (proj2 (Z.ltb_lt _ _)) by lia. by destruct (signaled w).
Qed.

Lemma safe_post_one {B} d q st sends recvs n w (k : Z -> prog B) Q : endpoint d q st sends recvs n -> can_send st = true -> sendable_wr d q w ->
  Z.of_nat (length sends) < dep -> (forall r, r <> 0 -> safe d (k r) Q E) ->
  (forall d', mrs d' = mrs d -> heap d' = heap d -> beside q d d' -> endpoint d' q st (sends ++ [(s_wr_id w, signaled w)]) recvs (n + 1) -> safe d' (k 0) Q E) ->
  safe d (pbind (sys (ibv_post_send (qp q) [w])) k) Q E.
Proof.
  intros H Hst Hw Hlen Hf Hk. apply safe_sys.
  - cbn [allowed]. rewrite (ep_qp _ _ _ _ _ _ _ H). by apply sends_ok_one.
  - intros r _. cbn [after]. rewrite (ep_qp _ _ _ _ _ _ _ H). destruct (Z.eqb_spec r 0) as [-> | E0]; [| by apply Hf].
    apply Hk; [done | done | apply beside_set |]. cbn [foldl push_send q_type q_state q_init q_sends q_recvs q_posted]. by eapply endpoint_set.
Qed.

(** ** Completions *)

(** A completion on one of the two queues; one that failed leaves the queue
    pair in error. *)
Lemma endpoint_complete d q st sends recvs n cq wc d' : endpoint d q st sends recvs n -> cq = scq q \/ cq = rcq q ->
  complete d cq wc = Some d' -> same_memory d d' /\ beside q d d' /\
  let good := wc_status wc =? IBV_WC_SUCCESS in
  exists sends' recvs', endpoint d' q (if good then st else IBV_QPS_ERR) sends' recvs' n /\
    (cq = scq q -> retire (wc_wr_id wc) (negb good) sends = Some sends' /\ recvs' = recvs) /\
    (cq = rcq q -> recvs = wc_wr_id wc :: recvs' /\ sends' = sends).
Proof.
  intros H Hcq Hd. unfold complete in Hd. destruct (qps d !! wc_qp_num wc) as [qi |] eqn:Hq; [| done].
  assert (same_memory d d') as Hm by (unfold same_memory; repeat (case_match; try done); by injection Hd as <-).
  split; [done |].
  destruct (decide (wc_qp_num wc = qp_num (qp q))) as [En | Hne].
  2:{ exfalso. destruct (ep_own _ _ _ _ _ _ _ H _ _ Hq Hne) as (N1 & N2 & N3 & N4). destruct (wc_recv wc).
      - destruct (q_recvs qi); [done |]. destruct Hcq as [-> | ->];
          [by rewrite (proj2 (Z.eqb_neq _ _) N2) in Hd | by rewrite (proj2 (Z.eqb_neq _ _) N4) in Hd].
      - destruct Hcq as [-> | ->]; [by rewrite (proj2 (Z.eqb_neq _ _) N1) in Hd | by rewrite (proj2 (Z.eqb_neq _ _) N3) in Hd]. }
  pose proof (ep_ne _ _ _ _ _ _ _ H) as Hne. rewrite En, (ep_qp _ _ _ _ _ _ _ H) in Hq. injection Hq as <-.
  cbn [q_recvs q_sends q_init recv_cq send_cq q_type q_state q_posted init_attr] in Hd. rewrite En in Hd. cbv zeta. destruct (wc_recv wc).
  - destruct recvs as [|id recvs]; [done |]. destruct (Z.eqb_spec (rcq q) cq) as [<- |]; [| done]. cbn [andb] in Hd.
    destruct (Z.eqb_spec id (wc_wr_id wc)) as [-> |]; [| done]. injection Hd as <-. split; [apply beside_set |]. exists sends, recvs.
    split; [by eapply endpoint_set |]. split; [congruence | done].
  - destruct (Z.eqb_spec (scq q) cq) as [<- |]; [| done]. destruct (retire _ _ _) as [rest |] eqn:Hr; [| done]. injection Hd as <-.
    split; [apply beside_set |]. exists rest, recvs. split; [by eapply endpoint_set |]. split; [done | congruence].
Qed.

(** Polling for one completion, without waiting. *)
Lemma safe_PollCQ {B} d q st sends recvs n cq bs (k : Z * bufs -> prog B) Q : endpoint d q st sends recvs n -> cq = scq q \/ cq = rcq q ->
  (forall err d', E (Fault (Throw err)) d') -> (forall d', same_memory d d' -> E (Fault Segv) d') -> safe d (k (0, bs)) Q E ->
  (forall wc b d' sends' recvs', bs !! wc_wr_id wc = Some b -> same_memory d d' -> beside q d d' -> endpoint d' q st sends' recvs' n ->
    (cq = scq q -> retire (wc_wr_id wc) false sends = Some sends' /\ recvs' = recvs) ->
    (cq = rcq q -> recvs = wc_wr_id wc :: recvs' /\ sends' = sends) ->
    safe d' (k (wc_wr_id wc, <[wc_wr_id wc := received wc b]> bs)) Q E) ->
  safe d (pbind (PollCQ cq 1 bs) k) Q E.
Proof.
  intros H Hcq HE1 HE3 Hnone Hk. unfold PollCQ. vassoc. apply safe_sys.
  { cbn [allowed]. apply bool_decide_eq_true. destruct Hcq as [-> | ->]; [by rewrite (ep_scq _ _ _ _ _ _ _ H) | by rewrite (ep_rcq _ _ _ _ _ _ _ H)]. }
  intros [r | wcs]; cbn [reply_ok after poll_ret poll_wcs completes default]; [intros _; apply HE1 |].
  destruct wcs as [|wc [|wc2 wcs]]; [by intros _ | | intros [Hle%Z.leb_le _]%andb_true_iff; cbn [length] in Hle; lia]. cbn [length completes].
  destruct (complete d cq wc) as [d' |] eqn:Ec; [intros _ | by rewrite andb_false_r]. cbn [default].
  destruct (endpoint_complete _ _ _ _ _ _ _ _ _ H Hcq Ec) as (Hm & Hb & sends' & recvs' & H' & Hs & Hr).
  destruct (wc_status wc =? IBV_WC_SUCCESS); cbn [negb] in *; [| apply HE1].
  destruct (bs !! wc_wr_id wc) as [b |] eqn:Eb; [| by apply HE3]. by eapply Hk.
Qed.
End Steps.

(** ** Message buffers *)

(** A buffer of the store [st]: its memory is registered, as large as its kind
    says, and its [next] names a buffer of the same kind. *)
Definition buf_ok (ks kr : Z) (d : device) (st : bufs) (b : Buffer) : Prop :=
  sge_ok d (mkSge (b_buf b) (b_size b) (lkey (b_mr b))) /\ b_size b = (if is_recv b then kr else ks) /\
  (next b = 0 \/ exists b', st !! next b = Some b' /\ is_recv b' = is_recv b).

Record store_ok (ks kr : Z) (d : device) (st : bufs) : Prop := {
  so_null : st !! 0 = None;
  so_bufs : forall a b, st !! a = Some b -> buf_ok ks kr d st b }.

(** The address [a] names a buffer of one kind, or is null. *)
Definition names (rc : bool) (st : bufs) (a : Z) : Prop := a = 0 \/ exists b, st !! a = Some b /\ is_recv b = rc.

Definition kind (b : Buffer) : bool * ibv_mr := (is_recv b, b_mr b).
Definition same_kinds (st st' : bufs) : Prop := forall a, kind <$> st' !! a = kind <$> st !! a.

Lemma names_kinds rc st st' a : same_kinds st st' -> names rc st a -> names rc st' a.
Proof.
  intros Hk [-> | (b & Hb & Hr)]; [by left | right]. specialize (Hk a). rewrite Hb in Hk. destruct (st' !! a) as [b' |]; [| done].
  injection Hk as Hk _. exists b'. split; [done | congruence].
Qed.

Lemma sge_ok_mrs d d' g : mrs d' = mrs d -> sge_ok d g -> sge_ok d' g.
Proof. unfold sge_ok. by intros ->. Qed.

Lemma sge_ok_prefix d a n m l : sge_ok d (mkSge a n l) -> m <= n -> sge_ok d (mkSge a m l).
Proof.
  intros (k & r & Hr & H1 & H2 & H3) Hm. exists k, r. cbn [sge_addr sge_length sge_lkey] in *. split; [done |].
  split; [done |]. split; [done | lia].
Qed.

(** A change of one buffer that leaves its memory alone. *)
Lemma store_update ks kr d st a b b' : store_ok ks kr d st -> st !! a = Some b ->
  b_buf b' = b_buf b -> b_size b' = b_size b -> b_mr b' = b_mr b -> is_recv b' = is_recv b ->
  names (is_recv b) st (next b') -> same_kinds st (<[a := b']> st) /\ store_ok ks kr d (<[a := b']> st).
Proof.
  intros [Hz Hs] Ha E1 E2 E3 E4 Hn. assert (same_kinds st (<[a := b']> st)) as Hk.
  { intros c. destruct (decide (c = a)) as [-> | Hne]; [rewrite lookup_insert_eq, Ha; cbn; unfold kind; by rewrite E3, E4 | by rewrite lookup_insert_ne]. }
  split; [done |]. split; [rewrite lookup_insert_ne; [done | intros ->; congruence] |]. intros c x Hc. destruct (decide (c = a)) as [-> | Hne].
  - rewrite lookup_insert_eq in Hc. injection Hc as <-. destruct (Hs a b Ha) as (S1 & S2 & _). unfold buf_ok. rewrite E1, E2, E3, E4.
    split; [done |]. split; [done |]. destruct (names_kinds _ _ _ _ Hk Hn) as [-> | (y & Hy & Hr)]; [by left | right; by exists y].
  - rewrite lookup_insert_ne in Hc by done. destruct (Hs c x Hc) as (S1 & S2 & S3). split; [done |]. split; [done |].
    assert (names (is_recv x) st (next x)) as Hx by exact S3. exact (names_kinds _ _ _ _ Hk Hx).
Qed.

Lemma store_received ks kr d st a b wc : store_ok ks kr d st -> st !! a = Some b ->
  same_kinds st (<[a := received wc b]> st) /\ store_ok ks kr d (<[a := received wc b]> st).
Proof. intros Hs Ha. apply (store_update _ _ _ _ _ b); try done. exact (proj2 (proj2 (so_bufs _ _ _ _ Hs a b Ha))). Qed.

Lemma store_free ks kr d st pool a b : store_ok ks kr d st -> st !! a = Some b -> names (is_recv b) st (root_ pool) ->
  same_kinds st (Free st pool a).1 /\ store_ok ks kr d (Free st pool a).1 /\ root_ (Free st pool a).2 = a.
Proof.
  intros Hs Ha Hr. cbn [Free fst snd root_].
  assert (alter (with_next (root_ pool)) a st = <[a := with_next (root_ pool) b]> st) as -> by (by apply alter_alt_Some).
  destruct (store_update ks kr d st a b (with_next (root_ pool) b) Hs Ha) as [H1 H2]; done.
Qed.

Lemma names_next ks kr d st rc pool : store_ok ks kr d st -> names rc st (root_ pool) -> names rc st (root_ (Alloc st pool).2).
Proof.
  intros Hs Hr. cbn [Alloc snd]. destruct (st !! root_ pool) as [b|] eqn:Hb; [| done].
  destruct (root_ pool =? 0); [done |]. cbn [root_]. destruct Hr as [E | (b' & Hb' & <-)]; [rewrite E, (so_null _ _ _ _ Hs) in Hb; done |].
  assert (b' = b) as -> by congruence. exact (proj2 (proj2 (so_bufs _ _ _ _ Hs _ _ Hb))).
Qed.

Lemma store_mrs ks kr d d' st : mrs d' = mrs d -> store_ok ks kr d st -> store_ok ks kr d' st.
Proof.
  intros Hm [Hz Hs]. split; [done |]. intros a b Hb. destruct (Hs a b Hb) as (S1 & S2 & S3). split; [by apply (sge_ok_mrs d) | done].
Qed.

(** ** Messages *)

(** The program reads through a wild pointer only when [P]. *)
Definition orderly (P : Prop) : stop -> device -> Prop := fun st _ => st = Fault Segv -> P.

Section Messages.
Context (dep : Z) (P : Prop).
#[local] Abbreviation orderly := (orderly P).
#[local] Abbreviation endpoint := (endpoint dep).

Lemma safe_GetAddrHandler {B} d ib addr (k : Z * t -> prog B) Q :
  (forall ah ib', raw_mem_ ib' = raw_mem_ ib -> mr_ ib' = mr_ ib -> safe d (k (ah, ib')) Q orderly) ->
  safe d (pbind (GetAddrHandler ib addr) k) Q orderly.
Proof.
  intros Hk. unfold GetAddrHandler. destruct (addr_handlers_ ib !! a_lid addr) as [ah |]; [by apply Hk |].
  vassoc. vskip. vassoc. apply safe_check; [done |]. intros _. by apply Hk.
Qed.

(** A datagram, posted. *)
Lemma safe_PostSend {B} d ib q sends recvs n b buf len peer (k : t -> prog B) Q :
  endpoint d q IBV_QPS_RTS sends recvs n -> Z.of_nat (length sends) < dep ->
  sge_ok d (mkSge (b_buf buf) (b_size buf) (lkey (b_mr buf))) -> len <= b_size buf ->
  (forall ib' d', raw_mem_ ib' = raw_mem_ ib -> mr_ ib' = mr_ ib -> same_memory d d' -> beside q d d' ->
    endpoint d' q IBV_QPS_RTS (sends ++ [(b, true)]) recvs (n + 1) -> safe d' (k ib') Q orderly) ->
  safe d (pbind (PostSend ib q b buf len peer) k) Q orderly.
Proof.
  intros H Hdep Hsge Hlen Hk. unfold PostSend. vassoc. apply safe_check; [done |]. intros Hud%bool_decide_eq_true.
  vassoc. apply safe_GetAddrHandler. intros ah ib' Er Em. vassoc. apply safe_check; [done |].
  intros Hah%negb_true_iff%Z.eqb_neq. vassoc. set (w := mkSend _ _ _ _ _ _).
  assert (signaled w = true) as Hsig by (apply bool_decide_eq_true; cbn; set_solver). eapply (safe_post_one _ _ _ _ _ _ _ _ w); [exact H | done | | exact Hdep | |].
  - split; [by rewrite Hud |]. split; [done |]. eexists. split; [reflexivity |]. cbn [s_flags sge_length w].
    destruct (Z.leb_spec len kMaxInlineData).
    + rewrite decide_True by set_solver. lia.
    + rewrite decide_False by set_solver. by eapply sge_ok_prefix.
  - intros r Hr. rewrite (proj2 (Z.eqb_neq _ _) Hr). done.
  - intros d1 M1 M2 B1 H1. rewrite Hsig in H1. cbn [negb Z.eqb]. vassoc. by apply Hk.
Qed.

(** A datagram, sent and waited for. *)
Lemma safe_PostSendAndWait {B} fuel d ib q recvs n b buf len peer (k : t -> prog B) Q :
  endpoint d q IBV_QPS_RTS [] recvs n -> 0 < dep ->
  sge_ok d (mkSge (b_buf buf) (b_size buf) (lkey (b_mr buf))) -> len <= b_size buf ->
  (forall ib' d', raw_mem_ ib' = raw_mem_ ib -> mr_ ib' = mr_ ib -> same_memory d d' ->
    endpoint d' q IBV_QPS_RTS [] recvs (n + 1) -> safe d' (k ib') Q orderly) ->
  safe d (pbind (PostSendAndWait fuel ib q b buf len peer) k) Q orderly.
Proof.
  intros H Hdep Hsge Hlen Hk. unfold PostSendAndWait. vassoc. apply safe_check; [done |]. intros _.
  vassoc. eapply safe_PostSend; [exact H | done | done | done |]. intros ib' d1 Er Em [M1 M2] _ H1. vassoc. unfold wait_one.
  apply safe_poll; [by rewrite (ep_scq _ _ _ _ _ _ _ H1) | done |].
  intros wc d2 Hd. destruct (endpoint_complete _ _ _ _ _ _ _ _ _ _ H1 (or_introl eq_refl) Hd) as ([M3 M4] & _ & s' & r' & H2 & Hs & _).
  destruct (wc_status wc =? IBV_WC_SUCCESS); cbn [negb] in *; [| done].
  destruct (Hs eq_refl) as [Hret ->]. cbn in Hret. assert (s' = []) as -> by (repeat case_match; congruence).
  apply Hk; [done | done | split; congruence | done].
Qed.

(** The message that is due arrives in the oldest buffer. *)
Lemma safe_Receive {B} fuel d q b buf n st (k : Z * bufs -> prog B) Q :
  endpoint d q IBV_QPS_RTS [] [b] n -> st !! b = Some buf -> b <> 0 ->
  (forall wc d', same_memory d d' -> endpoint d' q IBV_QPS_RTS [] [] n -> safe d' (k (b, <[b := received wc buf]> st)) Q orderly) ->
  safe d (pbind (Receive fuel q st) k) Q orderly.
Proof.
  intros H Hb Hz Hk. induction fuel as [|fuel IH]; [done |]. cbn [Receive]. unfold TryReceive, PollCQ. vassoc. apply safe_sys.
  { cbn [allowed]. apply bool_decide_eq_true. by rewrite (ep_rcq _ _ _ _ _ _ _ H). }
  intros [r | wcs]; cbn [reply_ok after poll_ret poll_wcs completes default]; [done |].
  destruct wcs as [|wc [|wc2 wcs]]; [intros _; exact IH | | intros [Hle%Z.leb_le _]%andb_true_iff; cbn [length] in Hle; lia]. cbn [length completes].
  destruct (complete d (rcq q) wc) as [d' |] eqn:Ec; [intros _ | by rewrite andb_false_r]. cbn [default].
  destruct (endpoint_complete _ _ _ _ _ _ _ _ _ _ H (or_intror eq_refl) Ec) as ([M1 M2] & _ & s' & r' & H2 & _ & Hs).
  destruct (wc_status wc =? IBV_WC_SUCCESS); cbn [negb] in *; [| done]. destruct (Hs eq_refl) as [Hr ->]. injection Hr as Eid <-. rewrite <- Eid, Hb. vassoc. cbn [fst].
  rewrite (proj2 (Z.eqb_neq _ _) Hz). apply (Hk wc d'); [by split | done].
Qed.
End Messages.

(** ** Setting up *)

(** What exists stays; queue pairs and completion queues are left alone. *)
Record grows (d d' : device) : Prop := {
  gr_qps : qps d' = qps d; gr_cqs : cqs d' = cqs d; gr_mrs : mrs d ⊆ mrs d'; gr_heap : heap d ⊆ heap d' }.

(** The memory and the regions that are still to be released. *)
Record owns (d : device) (ps ms : list Z) : Prop := {
  ow_ps : NoDup ps; ow_heap : Forall (fun p => is_Some (heap d !! p)) ps;
  ow_ms : NoDup ms; ow_mrs : Forall (fun m => is_Some (mrs d !! m)) ms }.

(** The buffers lie in allocated memory. *)
Definition store_in (d : device) (st : bufs) : Prop :=
  forall a b, st !! a = Some b -> 0 < a /\ exists p sz, heap d !! p = Some sz /\ p <= a /\ a + sizeof_Buffer <= p + sz.

Lemma sge_ok_mono d d' g : mrs d ⊆ mrs d' -> sge_ok d g -> sge_ok d' g.
Proof. intros Hm (k & r & Hk & Hr). exists k, r. split; [by eapply lookup_weaken | done]. Qed.

Lemma store_mono ks kr d d' st : mrs d ⊆ mrs d' -> store_ok ks kr d st -> store_ok ks kr d' st.
Proof.
  intros Hm [Hz Hs]. split; [done |]. intros a b Hb. destruct (Hs a b Hb) as (S1 & S2 & S3). split; [by apply (sge_ok_mono d) | done].
Qed.

Lemma store_in_mono d d' st : heap d ⊆ heap d' -> store_in d st -> store_in d' st.
Proof.
  intros Hh Hs a b Hb. destruct (Hs a b Hb) as (Ha & p & sz & Hp & H1 & H2). split; [done |]. exists p, sz. split; [by eapply lookup_weaken | done].
Qed.

Lemma grows_heap d p n : heap d !! p = None -> grows d (mkDev (qps d) (cqs d) (mrs d) (<[p := n]> (heap d))).
Proof. intros H. split; try done; by apply insert_subseteq. Qed.

Lemma grows_mr d m r : mrs d !! m = None -> grows d (mkDev (qps d) (cqs d) (<[m := r]> (mrs d)) (heap d)).
Proof. intros H. split; try done; by apply insert_subseteq. Qed.

Lemma grows_trans d d' d'' : grows d d' -> grows d' d'' -> grows d d''.
Proof. intros [A1 A2 A3 A4] [B1 B2 B3 B4]. split; [congruence | congruence | by transitivity (mrs d') | by transitivity (heap d')]. Qed.

Lemma owns_heap d ps ms p n : owns d ps ms -> heap d !! p = None ->
  owns (mkDev (qps d) (cqs d) (mrs d) (<[p := n]> (heap d))) (p :: ps) ms.
Proof.
  intros [H1 H2 H3 H4] Hp. split; try done; cbn [heap].
  - apply list.NoDup_cons. split; [| done]. intros Hin. rewrite list.Forall_forall in H2. destruct (H2 p Hin). congruence.
  - apply list.Forall_cons. split; [rewrite lookup_insert_eq; by eexists |]. eapply list.Forall_impl; [exact H2 |]. cbv beta. intros q Hq.
    apply lookup_insert_is_Some. destruct (decide (p = q)); [by left | by right].
Qed.

Lemma owns_mr d ps ms m r : owns d ps ms -> mrs d !! m = None ->
  owns (mkDev (qps d) (cqs d) (<[m := r]> (mrs d)) (heap d)) ps (m :: ms).
Proof.
  intros [H1 H2 H3 H4] Hp. split; try done; cbn [mrs].
  - apply list.NoDup_cons. split; [| done]. intros Hin. rewrite list.Forall_forall in H4. destruct (H4 m Hin). congruence.
  - apply list.Forall_cons. split; [rewrite lookup_insert_eq; by eexists |]. eapply list.Forall_impl; [exact H4 |]. cbv beta. intros q Hq.
    apply lookup_insert_is_Some. destruct (decide (m = q)); [by left | by right].
Qed.

(** The [j]-th buffer of a pool, and where it is. *)
Definition buf_addr (pool : RegisteredBuffers) (j : Z) : Z := bufs_ pool + sizeof_Buffer * j.
Definition nth_buf (pool : RegisteredBuffers) (m : ibv_mr) (rc : bool) (j : Z) : Buffer :=
  mkBuffer (if j + 1 <? buf_num_ pool then buf_addr pool (j + 1) else 0) (ptr_ pool + buf_size_ pool * j) (buf_size_ pool) 0 m no_address rc.

Lemma init_bufs_lookup n pool m rc : forall i st a,
  (forall j, i <= j < i + Z.of_nat n -> a = buf_addr pool j -> init_bufs n i pool m rc st !! a = Some (nth_buf pool m rc j)) /\
  ((forall j, i <= j < i + Z.of_nat n -> a <> buf_addr pool j) -> init_bufs n i pool m rc st !! a = st !! a).
Proof.
  induction n as [|n IH]; intros i st a; cbn [init_bufs]; [split; [lia | done] |].
  set (st' := <[_ := _]> st). destruct (IH (i + 1) st' a) as [IH1 IH2]. split.
  - intros j Hj Ea. destruct (decide (j = i)) as [-> | Hne]; [| apply IH1; [lia | done]].
    rewrite IH2; [subst st' a; by rewrite lookup_insert_eq |]. intros j Hj' E. unfold buf_addr, sizeof_Buffer in *. lia.
  - intros Hn. rewrite IH2 by (intros j Hj; apply Hn; lia). subst st'. rewrite lookup_insert_ne; [done |]. intros E. apply (Hn i); [lia | done].
Qed.

Section Setup.
Context {B : Type} (P : Prop) (Q : B -> device -> Prop) (ks kr : Z).
#[local] Abbreviation orderly := (orderly P).

Lemma safe_new d ps ms n (k : Z -> prog B) : owns d ps ms ->
  (forall p d', p = 0 \/ (grows d d' /\ owns d' (p :: ps) ms /\ mrs d' = mrs d /\ 0 < p /\ heap d' !! p = Some n /\
      forall b sz, heap d !! b = Some sz -> b + sz <= p \/ p + n <= b) -> (p = 0 -> d' = d) -> safe d' (k p) Q orderly) ->
  safe d (pbind (sys (malloc n)) k) Q orderly.
Proof.
  intros Ho Hk. apply safe_sys; [done |]. intros p. cbn [reply_ok after]. destruct (Z.eqb_spec p 0) as [-> | E]; cbn [orb].
  - intros _. apply Hk; [by left | done].
  - intros (Hp & Hf & Ha)%fresh_block_spec. apply Hk; [right | done]. split; [by apply grows_heap |]. split; [by apply owns_heap |].
    split; [done |]. split; [done |]. split; [apply lookup_insert_eq | done].
Qed.

(** [Infiniband::Infiniband] *)
Lemma safe_construct d ps ms (n : Z) (k : t -> prog B) : owns d ps ms ->
  (forall ib d', grows d d' -> owns d' (raw_mem_ ib :: ps) (mr_ptr (mr_ ib) :: ms) -> safe d' (k ib) Q orderly) ->
  safe d (pbind (construct n) k) Q orderly.
Proof.
  intros Ho Hk. unfold construct. vassoc. apply safe_sys; [done |]. intros l Hl. cbn [after]. vassoc. apply safe_check; [done |]. intros Hs.
  destruct l as [[|dev l] |]; [done | | done]. cbn [reply_ok default hd] in *. vassoc. apply safe_skip; [done | done |]. intros ctx.
  vassoc. apply safe_check; [done |]. intros _. vassoc. vskip. vassoc. vskip. vassoc. apply safe_check; [done |]. intros _.
  vassoc. apply safe_sys; [done |]. intros p (Hp & Hf & Ha)%fresh_block_spec. cbn [after]. rewrite (proj2 (Z.eqb_neq _ _)) by lia.
  set (d1 := mkDev _ _ _ _). vassoc. apply safe_check; [done |]. intros _.
  vassoc. apply safe_sys; [cbn [allowed]; apply bool_decide_eq_true; exists p, n; split; [apply lookup_insert_eq | lia] |].
  intros m Hm. vassoc. apply safe_check; [done |]. intros Hsm. destruct m as [m|]; [| done]. cbn [reply_ok after default] in *.
  apply fresh_spec in Hm as [_ Hm]. vassoc. apply Hk; cbn [raw_mem_ mr_].
  - eapply grows_trans; [by apply grows_heap | by apply (grows_mr d1)].
  - apply (owns_mr d1); [by apply owns_heap | done].
Qed.

(** A new pool: its buffers one behind the other, linked in this order. *)
Record laid (st : bufs) (pool : RegisteredBuffers) (rc : bool) (num : Z) : Prop := {
  ld_root : root_ pool = bufs_ pool; ld_pos : 0 < bufs_ pool;
  ld_at : forall j, 0 <= j < num -> exists b, st !! buf_addr pool j = Some b /\ is_recv b = rc /\
    next b = if j + 1 <? num then buf_addr pool (j + 1) else 0 }.

Lemma laid_mono st st' pool rc num : (forall a b, st !! a = Some b -> st' !! a = Some b) -> laid st pool rc num -> laid st' pool rc num.
Proof. intros Hs [H1 H2 H3]. split; [done | done |]. intros j Hj. destruct (H3 j Hj) as (b & Hb & ?). exists b. split; [by apply Hs | done]. Qed.

(** [RegisteredBuffers::RegisteredBuffers] *)
Lemma safe_RegisteredBuffers d ps ms (pd num : Z) (rc : bool) st (k : RegisteredBuffers * bufs -> prog B) :
  let size := if rc then kr else ks in
  owns d ps ms -> store_ok ks kr d st -> store_in d st -> 0 < num -> 0 <= size -> size * num < 2 ^ 32 ->
  (forall pool st' m d', grows d d' -> owns d' (bufs_ pool :: ptr_ pool :: ps) (mr_ptr m :: ms) ->
    store_ok ks kr d' st' -> store_in d' st' -> names rc st' (root_ pool) ->
    (forall a b, st !! a = Some b -> st' !! a = Some b) -> (exists b, st' !! bufs_ pool = Some b /\ b_mr b = m) ->
    laid st' pool rc num -> safe d' (k (pool, st')) Q orderly) ->
  safe d (pbind (RegisteredBuffers_construct pd size num rc st) k) Q orderly.
Proof.
  intros size Ho Hst Hin Hnum Hsize Hbytes Hk. unfold RegisteredBuffers_construct. rewrite u32_small by nia.
  vassoc. vskip. vassoc. apply safe_sys; [done |]. intros p (Hp & Hf & Ha)%fresh_block_spec. cbn [after]. rewrite (proj2 (Z.eqb_neq _ _)) by lia.
  set (d1 := mkDev _ _ _ _). vassoc. apply safe_check; [done |]. intros _.
  vassoc. apply safe_sys; [cbn [allowed]; apply bool_decide_eq_true; exists p, (size * num); split; [apply lookup_insert_eq | lia] |].
  intros m Hm. cbn [reply_ok after]. destruct m as [m|]; [| vassoc; unfold errno; vskip; done]. apply fresh_spec in Hm as [_ Hm].
  set (d2 := mkDev _ _ _ _). assert (owns d2 (p :: ps) (mr_ptr m :: ms)) as Ho2 by (apply (owns_mr d1); [by apply owns_heap | done]).
  assert (grows d d2) as Hg2 by (eapply grows_trans; [by apply grows_heap | by apply (grows_mr d1)]).
  unfold new_. vassoc. eapply safe_new; [exact Ho2 |]. intros a d3 [-> | (Hg3 & Ho3 & Em & Hap & Hat & Hdis)] Ez; [done |].
  rewrite (proj2 (Z.eqb_neq _ _)) by lia. vassoc. set (pool := mkPool size num p a a).
  assert (grows d d3) as Hg by (by eapply grows_trans).
  assert (forall c b, st !! c = Some b -> forall j, 0 <= j < 0 + Z.of_nat (Z.to_nat num) -> c <> buf_addr pool j) as Hapart.
  { intros c b Hb j Hj E. destruct (Hin c b Hb) as (_ & q & sz & Hq & H1 & H2). unfold buf_addr, sizeof_Buffer in *. cbn [bufs_ pool] in E.
    destruct (Hdis q sz) as [? | ?]; [eapply lookup_weaken; [exact Hq | apply Hg2] | lia | lia]. }
  set (st' := init_bufs _ _ _ _ _ _).
  assert (forall j, 0 <= j < num -> st' !! buf_addr pool j = Some (nth_buf pool m rc j)) as Hnew
    by (intros j Hj; apply init_bufs_lookup; [lia | done]).
  assert (forall c b, st !! c = Some b -> st' !! c = Some b) as Hold.
  { intros c b Hb. unfold st'. rewrite (proj2 (init_bufs_lookup _ _ _ _ _ _ _)); [done |]. by apply (Hapart c b). }
  assert (forall c b, st' !! c = Some b -> st !! c = Some b \/ exists j, 0 <= j < num /\ c = buf_addr pool j /\ b = nth_buf pool m rc j) as Hinv.
  { intros c b Hb. destruct (decide (Exists (fun j => c = buf_addr pool (Z.of_nat j)) (seq 0 (Z.to_nat num)))) as [He | Hne].
    - apply Exists_exists in He as (j & Hj%in_seq & ->). right. exists (Z.of_nat j). split; [lia |]. split; [done |]. rewrite Hnew in Hb by lia. congruence.
    - left. unfold st' in Hb. rewrite (proj2 (init_bufs_lookup _ _ _ _ _ _ _)) in Hb; [done |]. intros j Hj Ec. apply Hne, Exists_exists.
      exists (Z.to_nat j). split; [apply in_seq; lia |]. by rewrite Z2Nat.id by lia. }
  assert (store_in d3 st') as Hin3.
  { intros c b [Hb | (j & Hj & -> & ->)]%Hinv; [by apply (store_in_mono d _ st (gr_heap _ _ Hg) Hin c b) |].
    unfold buf_addr, sizeof_Buffer. cbn [bufs_ pool]. split; [lia |]. exists a, (48 * num). split; [exact Hat | lia]. }
  apply (Hk pool st' m d3); [done | done | | done | | done | |].
  - split; [destruct (st' !! 0) eqn:E; [apply Hin3 in E as [? _]; lia | done] |]. intros c b [Hb | (j & Hj & -> & ->)]%Hinv.
    + destruct (so_bufs _ _ _ _ Hst c b Hb) as (S1 & S2 & S3). split; [by eapply sge_ok_mono; [apply Hg |] |]. split; [done |].
      destruct S3 as [? | (b' & Hb' & Hr)]; [by left | right]. exists b'. split; [by apply Hold | done].
    + split; [| split; [done |]].
      * exists (mr_ptr m), (lkey m, p, size * num). rewrite Em. split; [apply lookup_insert_eq |]. cbn. split; [done |]. nia.
      * cbn [next nth_buf is_recv buf_num_ pool]. destruct (Z.ltb_spec (j + 1) num); [right | by left]. eexists. split; [apply Hnew; lia | done].
  - right. cbn [root_ pool]. exists (nth_buf pool m rc 0). split; [| done]. rewrite <- Hnew by lia. unfold buf_addr, sizeof_Buffer. cbn. f_equal. lia.
  - exists (nth_buf pool m rc 0). split; [| done]. rewrite <- Hnew by lia. unfold buf_addr, sizeof_Buffer. cbn. f_equal. lia.
  - split; [done | done |]. intros j Hj. eexists. split; [by apply Hnew |]. done.
Qed.
End Setup.

Section Queues.
Context {B : Type} (P : Prop) (Q : B -> device -> Prop).
#[local] Abbreviation orderly := (orderly P).

(** [QueuePair::QueuePair] *)
Lemma safe_QueuePair_construct d ib ty dep (k : QueuePair -> prog B) : wired d ->
  (forall q d', type q = ty -> wired d' -> same_memory d d' -> cqs d ⊆ cqs d' -> endpoint dep d' q IBV_QPS_INIT [] [] 0 -> psn q = kDefaultPsn ->
    qps d !! qp_num (qp q) = None -> beside q d d' ->
    safe d' (k q) Q orderly) ->
  safe d (pbind (QueuePair_construct ib ty dep dep) k) Q orderly.
Proof.
  intros Hw Hk. unfold QueuePair_construct. vassoc. apply safe_check; [done |]. intros Hty.
  vassoc. apply safe_sys; [done |]. intros sc [Hsc Hscf]%fresh_spec. cbn [after]. rewrite (proj2 (Z.eqb_neq _ _) Hsc).
  vassoc. apply safe_sys; [done |]. intros rc [Hrc Hrcf]%fresh_spec. cbn [after]. rewrite (proj2 (Z.eqb_neq _ _) Hrc). cbn [qps cqs mrs heap] in *.
  assert (sc <> rc) as Hne by (intros ->; by rewrite lookup_insert_eq in Hrcf). rewrite lookup_insert_ne in Hrcf by done.
  vassoc. apply safe_check; [done |]. intros _. set (d2 := mkDev _ _ _ _).
  assert (cqs d2 !! sc = Some dep) as E1 by (cbn [cqs d2]; by rewrite lookup_insert_ne, lookup_insert_eq by done).
  assert (cqs d2 !! rc = Some dep) as E2 by apply lookup_insert_eq.
  vassoc. apply safe_sys; [cbn [allowed]; apply bool_decide_eq_true; split; eexists; [exact E1 | exact E2] |].
  intros q Hq. cbn [reply_ok after] in *. destruct q as [q|]; [| vassoc; unfold errno; vskip; done]. cbn [qps d2] in Hq.
  apply andb_true_iff in Hq as [[Hq%bool_decide_eq_true Hqt%bool_decide_eq_true]%andb_true_iff _].
  set (qr := mkQueuePair ty q sc rc kDefaultPsn). set (d3 := set_qp d2 _ _).
  assert (endpoint dep d3 qr IBV_QPS_RESET [] [] 0) as H3.
  { split; cbn [scq rcq qp type qr]; [apply lookup_insert_eq | done | done | done |]. intros m qi Hm Hmne. cbn [qps d3 set_qp] in Hm.
    rewrite lookup_insert_ne in Hm by done. destruct (Hw m qi Hm) as [[? W1] [? W2]]. split_and!; congruence. }
  assert (cqs d ⊆ cqs d2) as Hsub.
  { transitivity (<[sc := dep]> (cqs d)); [by apply insert_subseteq |]. apply insert_subseteq. by rewrite lookup_insert_ne. }
  pose proof (ep_qp _ _ _ _ _ _ _ H3) as E3. cbn [qp type scq rcq qr] in E3.
  vassoc. apply safe_sys; [cbn [allowed]; rewrite E3; by destruct ty |].
  intros r _. cbn [after]. rewrite E3. cbn [target_state omap head list_omap]. destruct (Z.eqb_spec r 0) as [-> | Er]; cbn [negb].
  - vassoc. apply Hk; [done | | by split | | eapply (endpoint_set _ _ _ _ _ _ _ _ _ _ _ H3) | done | done |].
    + intros m qi. cbn [qps set_qp d3]. rewrite insert_insert_eq. destruct (decide (m = qp_num q)) as [-> | Hm].
      * rewrite lookup_insert_eq. intros [= <-]. split; eexists; [exact E1 | exact E2].
      * rewrite lookup_insert_ne by done. intros Hqi. destruct (Hw m qi Hqi) as [W1 W2].
        assert (forall c, is_Some (cqs d !! c) -> is_Some (cqs d2 !! c)) as Hc.
        { intros c Hc. cbn [cqs d2]. rewrite !lookup_insert_is_Some. destruct (decide (rc = c)); [by left | right; split; [done |]].
          destruct (decide (sc = c)); [by left | by right]. }
        split; by apply Hc.
    + exact Hsub.
    + split; [| exact Hsub]. intros m Hm. cbn [qps set_qp d3 qp qr] in *. by rewrite !lookup_insert_ne by done.
  - vassoc. apply safe_sys; [cbn [allowed]; by rewrite E3 | done].
Qed.

Lemma safe_Activate dep d q n (k : unit -> prog B) : endpoint dep d q IBV_QPS_INIT [] [] n ->
  (forall d', same_memory d d' -> beside q d d' -> endpoint dep d' q IBV_QPS_RTS [] [] n -> safe d' (k tt) Q orderly) ->
  safe d (pbind (Activate q) k) Q orderly.
Proof.
  intros H Hk. unfold Activate. vassoc. apply safe_check; [done |]. intros Hud%bool_decide_eq_true.
  vassoc. eapply safe_GetState; [exact H | done |]. vassoc. apply safe_check; [done |]. intros _.
  vassoc. eapply safe_modify; [exact H | done | by rewrite Hud | done |]. intros d1 M1 M2 B1 H1.
  eapply safe_modify; [exact H1 | done | by rewrite Hud | done |]. intros d2 M3 M4 B2 H2.
  apply Hk; [split; congruence | by apply (beside_trans _ _ d1) | done].
Qed.

(** Connecting a queue pair of a tablet.  When a call fails the queue pair is
    in some state, with nothing posted. *)
Lemma safe_SetStateRTR (E : stop -> device -> Prop) dep d q n peer (k : unit -> prog B) : endpoint dep d q IBV_QPS_INIT [] [] n ->
  (forall d', E (Fault AssertFail) d') ->
  (forall err st d', same_memory d d' -> beside q d d' -> endpoint dep d' q st [] [] n -> E (Fault (Throw err)) d') ->
  (forall d', same_memory d d' -> beside q d d' -> endpoint dep d' q IBV_QPS_RTR [] [] n -> safe d' (k tt) Q E) ->
  safe d (pbind (SetStateRTR q peer) k) Q E.
Proof.
  intros H HE1 HE2 Hk. assert (forall err, E (Fault (Throw err)) d) as HE by (intros err; by eapply HE2).
  unfold SetStateRTR. vassoc. apply safe_check; [done |]. intros Hrc%bool_decide_eq_true.
  vassoc. eapply safe_GetState; [exact H | done |]. vassoc. apply safe_check; [done |]. intros _.
  eapply safe_modify; [exact H | done | by rewrite Hrc | done |]. intros d1 M1 M2 B1 H1. by apply Hk.
Qed.

Lemma safe_SetStateRTS (E : stop -> device -> Prop) dep d q n peer (k : unit -> prog B) : type q = IBV_QPT_RC -> endpoint dep d q IBV_QPS_INIT [] [] n ->
  (forall d', E (Fault AssertFail) d') ->
  (forall err st d', same_memory d d' -> beside q d d' -> endpoint dep d' q st [] [] n -> E (Fault (Throw err)) d') ->
  (forall d', same_memory d d' -> beside q d d' -> endpoint dep d' q IBV_QPS_RTS [] [] n -> safe d' (k tt) Q E) ->
  safe d (pbind (SetStateRTS q peer) k) Q E.
Proof.
  intros Hrc H HE1 HE2 Hk. unfold SetStateRTS. apply safe_assoc. eapply safe_SetStateRTR; [exact H | done | done |]. intros d1 [M1 M2] B1 H1.
  eapply safe_modify; [exact H1 | done | by rewrite Hrc | intros err; by eapply HE2 |]. intros d2 M3 M4 B2 H2.
  apply Hk; [split; congruence | by apply (beside_trans _ _ d1) | done].
Qed.

End Queues.

(** ** Taking down *)

(** An assertion may fail: the process ends. *)
Class Tolerant (E : stop -> device -> Prop) : Prop := tolerates d : E (Fault AssertFail) d.

#[export] Instance orderly_tolerant P : Tolerant (orderly P).
Proof. by intros d. Qed.

(** When an exception leaves, what is still to be released is there. *)
Definition keeping (P : Prop) (ps ms : list Z) : stop -> device -> Prop := fun st d =>
  match st with Fault (Throw _) => owns d ps ms | _ => orderly P st d end.

#[export] Instance keeping_tolerant P ps ms : Tolerant (keeping P ps ms).
Proof. by intros d. Qed.

Lemma keeping_orderly P ps ms st d : keeping P ps ms st d -> orderly P st d.
Proof. by destruct st as [| [] |]. Qed.

Lemma owns_after d c r ps ms : releases_memory c = false -> owns d ps ms -> owns (after d c r) ps ms.
Proof.
  intros Hc [H1 H2 H3 H4]. destruct (memory_lasts d c r Hc) as [Hm Hh]. split; try done; by (eapply list.Forall_impl; [eassumption |]).
Qed.

(** Part of it. *)
Lemma owns_sub d ps ps' ms ms' : ps' ⊆+ ps -> ms' ⊆+ ms -> owns d ps ms -> owns d ps' ms'.
Proof.
  intros [kp Ep]%submseteq_Permutation [km Em]%submseteq_Permutation [H1 H2 H3 H4]. rewrite Ep in H1, H2. rewrite Em in H3, H4.
  apply list.NoDup_app in H1 as [? _], H3 as [? _]. apply list.Forall_app in H2 as [? _], H4 as [? _]. by split.
Qed.

Lemma safe_keeping {A} P ps ms d (p : prog A) Q : avoids releases_memory p -> owns d ps ms ->
  safe d p Q (orderly P) -> safe d p Q (keeping P ps ms).
Proof.
  intros Hp Ho Hs. eapply safe_stop_mono; [| by apply (safe_avoids releases_memory (fun d => owns d ps ms)); [intros ? ? ?; apply owns_after | ..]].
  by intros [? | [] |] d' [H1 H2].
Qed.

(** A scope whose objects [cleanup] takes down. *)
Lemma safe_scope {A} P d cleanup (p : prog A) ps ms ps' ms' Q : safe d p Q (keeping P ps ms) ->
  (forall errno d', owns d' ps ms -> safe d' (cleanup ;;; throw errno) Q (keeping P ps' ms')) ->
  safe d (unwind cleanup p) Q (keeping P ps' ms').
Proof.
  intros Hp Hc. unfold unwind. apply safe_try_at. eapply safe_stop_mono; [| exact Hp]. intros [? | [] |] d' H; try done. by apply Hc.
Qed.

Section Release.
Context {B : Type} {E : stop -> device -> Prop} `{!Tolerant E} (Q : B -> device -> Prop).

Lemma owns_free d ps ms p : owns d (p :: ps) ms -> owns (mkDev (qps d) (cqs d) (mrs d) (delete p (heap d))) ps ms.
Proof.
  intros [[Hp H1]%list.NoDup_cons [_ H2]%list.Forall_cons H3 H4]. split; try done. cbn [heap]. rewrite list.Forall_forall in *. intros q Hq.
  rewrite lookup_delete_ne; [by apply H2 | by intros ->].
Qed.

Lemma owns_dereg d ps ms m : owns d ps (m :: ms) -> owns (mkDev (qps d) (cqs d) (delete m (mrs d)) (heap d)) ps ms.
Proof.
  intros [H1 H2 [Hm H3]%list.NoDup_cons [_ H4]%list.Forall_cons]. split; try done. cbn [mrs]. rewrite list.Forall_forall in *. intros q Hq.
  rewrite lookup_delete_ne; [by apply H4 | by intros ->].
Qed.

Lemma owns_perm d ps ps' ms ms' : ps ≡ₚ ps' -> ms ≡ₚ ms' -> owns d ps ms -> owns d ps' ms'.
Proof. intros Hp Hm [H1 H2 H3 H4]. split; by rewrite <- ?Hp, <- ?Hm. Qed.

(** The queue pairs and completion queues are as before, but for those of [q]. *)
Definition same_queues (d d' : device) : Prop := qps d' = qps d /\ cqs d' = cqs d.
Definition spares (q : QueuePair) (d d' : device) : Prop :=
  qps d' = delete (qp_num (qp q)) (qps d) /\ forall c, c <> scq q -> c <> rcq q -> cqs d' !! c = cqs d !! c.

Lemma same_queues_trans d d' d'' : same_queues d d' -> same_queues d' d'' -> same_queues d d''.
Proof. intros [A1 A2] [B1 B2]. split; congruence. Qed.

Lemma safe_free d ps ms p (k : unit -> prog B) : owns d (p :: ps) ms ->
  (forall d', same_queues d d' -> owns d' ps ms -> safe d' (k tt) Q E) -> safe d (pbind (sys (free p)) k) Q E.
Proof.
  intros H Hk. apply safe_sys.
  - cbn [allowed]. apply orb_true_iff. right. apply bool_decide_eq_true. by destruct H as [_ [? _]%list.Forall_cons _ _].
  - intros [] _. cbn [after]. by apply Hk; [| apply owns_free].
Qed.

(** A region that is not given back is only there still. *)
Lemma safe_dereg d ps ms m (k : Z -> prog B) : owns d ps (m :: ms) ->
  (forall r d', same_queues d d' -> owns d' ps ms -> safe d' (k r) Q E) -> safe d (pbind (sys (ibv_dereg_mr m)) k) Q E.
Proof.
  intros H Hk. apply safe_sys.
  - cbn [allowed]. apply bool_decide_eq_true. by destruct H as [_ _ _ [? _]%list.Forall_cons].
  - intros r _. cbn [after]. apply Hk; destruct (r =? 0); [done | done | by apply owns_dereg |].
    destruct H as [H1 H2 [_ H3]%list.NoDup_cons [_ H4]%list.Forall_cons]. by split.
Qed.

(** The queue pair and its completion queues exist. *)
Record present (q : QueuePair) (d : device) : Prop := {
  pr_qp : is_Some (qps d !! qp_num (qp q)); pr_scq : is_Some (cqs d !! scq q); pr_rcq : is_Some (cqs d !! rcq q); pr_ne : scq q <> rcq q }.

Lemma endpoint_present dep d q st sends recvs n : endpoint dep d q st sends recvs n -> present q d.
Proof. intros [H1 H2 H3 H4 _]. split; by eauto. Qed.

Lemma present_after q d c r : releases_queues c = false -> present q d -> present q (after d c r).
Proof. intros Hc [H1 H2 H3 H4]. destruct (queues_last d c r Hc) as [Hq Hcq]. split; auto. Qed.

Lemma safe_QueuePair_release d q (k : unit -> prog B) ps ms : present q d -> owns d ps ms ->
  (forall d', spares q d d' -> owns d' ps ms -> safe d' (k tt) Q E) -> safe d (pbind (QueuePair_destruct q) k) Q E.
Proof.
  intros [H1 H2 H3 H4] Ho Hk. unfold QueuePair_destruct. vassoc.
  apply safe_sys; [cbn [allowed]; by apply bool_decide_eq_true |]. intros r0 _. cbn [after].
  vassoc. apply safe_check; [apply tolerates |]. intros E0. rewrite E0.
  vassoc. apply safe_sys; [cbn [allowed cqs]; by apply bool_decide_eq_true |]. intros r1 _. cbn [after qps cqs mrs heap].
  vassoc. apply safe_check; [apply tolerates |]. intros E1. rewrite E1. set (d1 := mkDev _ _ _ _). vassoc. apply safe_sys.
  { cbn [allowed]. apply bool_decide_eq_true. cbn [cqs d1]. by rewrite lookup_delete_ne. }
  intros r2 _. cbn [after]. apply safe_check; [apply tolerates |]. intros E2. rewrite E2. apply Hk; [| by destruct Ho].
  split; [done |]. intros c N1 N2. cbn [cqs d1]. by rewrite !lookup_delete_ne by done.
Qed.

Lemma safe_QueuePair_destruct dep d q st sends recvs n (k : unit -> prog B) ps ms : endpoint dep d q st sends recvs n -> owns d ps ms ->
  (forall d', spares q d d' -> owns d' ps ms -> safe d' (k tt) Q E) -> safe d (pbind (QueuePair_destruct q) k) Q E.
Proof. intros H. by eapply safe_QueuePair_release, endpoint_present. Qed.

Lemma safe_RegisteredBuffers_destruct d st pool b ps ms (k : unit -> prog B) : st !! bufs_ pool = Some b ->
  owns d (bufs_ pool :: ptr_ pool :: ps) (mr_ptr (b_mr b) :: ms) ->
  (forall d', same_queues d d' -> owns d' ps ms -> safe d' (k tt) Q E) ->
  safe d (pbind (RegisteredBuffers_destruct st pool) k) Q E.
Proof.
  intros Hb Ho Hk. unfold RegisteredBuffers_destruct. rewrite Hb. vassoc. eapply safe_dereg; [exact Ho |]. intros _ d1 S1 H1.
  vassoc. eapply safe_free; [eapply owns_perm; [apply Permutation_swap | done | exact H1] |]. intros d2 S2 H2.
  eapply safe_free; [exact H2 |]. intros d3 S3 H3. apply Hk; [| done]. eapply same_queues_trans; [exact S1 |]. by eapply same_queues_trans.
Qed.

Lemma safe_destruct d ib ps ms (k : unit -> prog B) : owns d (raw_mem_ ib :: ps) (mr_ptr (mr_ ib) :: ms) ->
  (forall d', same_queues d d' -> owns d' ps ms -> safe d' (k tt) Q E) -> safe d (pbind (destruct_ ib) k) Q E.
Proof.
  intros Ho Hk. unfold destruct_. apply safe_assoc, safe_bind. eapply safe_mono; [apply (safe_for_inv _ _ _ _ _ (fun _ d' => same_queues d d' /\ owns d' (raw_mem_ ib :: ps) (mr_ptr (mr_ ib) :: ms))) |].
  - by split.
  - intros l d1 H1. vskip. apply safe_check; [apply tolerates |]. by intros _.
  - intros l0 d0 [S0 H0]. vassoc. eapply safe_dereg; [exact H0 |]. intros r1 d1 S1 H1. vassoc. apply safe_check; [apply tolerates |]. intros _.
    vassoc. eapply safe_free; [exact H1 |]. intros d2 S2 H2. vassoc. vskip. vassoc. apply safe_check; [apply tolerates |]. intros _. vassoc. vskip.
    apply safe_check; [apply tolerates |]. intros _. apply Hk; [| done]. eapply same_queues_trans; [exact S0 |]. by eapply same_queues_trans.
Qed.
End Release.

(** The scopes of a transport and of a pool. *)
Lemma safe_ib_scope {A} P d ib (p : prog A) ps ms Q : safe d p Q (keeping P (raw_mem_ ib :: ps) (mr_ptr (mr_ ib) :: ms)) ->
  safe d (unwind (destruct_ ib) p) Q (keeping P ps ms).
Proof. intros Hp. eapply safe_scope; [exact Hp |]. intros errno d' Ho. eapply safe_destruct; [exact Ho |]. by intros d'' _ Ho'. Qed.

Lemma safe_pool_scope {A} P d st pool b (p : prog A) ps ms Q : st !! bufs_ pool = Some b ->
  safe d p Q (keeping P (bufs_ pool :: ptr_ pool :: ps) (mr_ptr (b_mr b) :: ms)) ->
  safe d (unwind (RegisteredBuffers_destruct st pool) p) Q (keeping P ps ms).
Proof. intros Hb Hp. eapply safe_scope; [exact Hp |]. intros errno d' Ho. eapply safe_RegisteredBuffers_destruct; [exact Hb | exact Ho |]. by intros d'' _ Ho'. Qed.

(** A step inside such a scope. *)
Lemma safe_step_keeping {A B} P d (p : prog A) (k : A -> prog B) ps ms Q : avoids releases_memory p -> owns d ps ms ->
  safe d (pbind p Ret) (fun a d' => safe d' (k a) Q (keeping P ps ms)) (orderly P) -> safe d (pbind p k) Q (keeping P ps ms).
Proof. intros Hp Ho Hs. apply safe_bind, safe_keeping; [done | done | by apply safe_tail]. Qed.

(** ** What is not released on the way *)

Lemma avoids_RegisteredBuffers pd sz num rc st : avoids releases_memory (RegisteredBuffers_construct pd sz num rc st).
Proof. unfold RegisteredBuffers_construct, errno, throw, new_. avoid. Qed.

Lemma avoids_QueuePair ib ty a b : avoids releases_memory (QueuePair_construct ib ty a b).
Proof. unfold QueuePair_construct, errno, throw. avoid. Qed.

Lemma avoids_Activate q : avoids releases_memory (Activate q).
Proof. unfold Activate, GetState, modify_, throw. avoid. Qed.

Lemma avoids_GetLid ib port : avoids releases_memory (GetLid ib port).
Proof. unfold GetLid, throw. avoid. Qed.

Lemma avoids_construct n : avoids releases_memory (construct n).
Proof. unfold construct. avoid. Qed.

#[export] Hint Resolve avoids_construct avoids_RegisteredBuffers avoids_QueuePair avoids_Activate avoids_GetLid : avoids.

(** ** Several queue pairs *)

(** Idle queue pairs of one device, each in its state. *)
Definition crew (dep : Z) (d : device) (l : list (QueuePair * ibv_qp_state)) : Prop :=
  NoDup (map (fun x => qp_num (qp x.1)) l) /\ Forall (fun x => endpoint dep d x.1 x.2 [] [] 0) l.

Lemma endpoint_spares dep d d' q st sends recvs n : qps d' ⊆ qps d -> qps d' !! qp_num (qp q) = qps d !! qp_num (qp q) ->
  (forall c, c = scq q \/ c = rcq q -> cqs d' !! c = cqs d !! c) ->
  endpoint dep d q st sends recvs n -> endpoint dep d' q st sends recvs n.
Proof.
  intros Hs Eq Ec [H1 H2 H3 H4 H5]. split; rewrite ?Eq, ?Ec by auto; [done.. |]. intros m qi Hm. apply H5. by eapply lookup_weaken.
Qed.

Lemma crew_queues dep d d' l : same_queues d d' -> crew dep d l -> crew dep d' l.
Proof.
  intros [Eq Ec] [H1 H2]. split; [done |]. eapply list.Forall_impl; [exact H2 |]. intros x Hx.
  eapply endpoint_spares; [by rewrite Eq | by rewrite Eq | intros c _; by rewrite Ec | done].
Qed.

Lemma crew_perm dep d l l' : l ≡ₚ l' -> crew dep d l -> crew dep d l'.
Proof. intros E [H1 H2]. split; [by rewrite <- (Permutation_map _ E) | by rewrite <- E]. Qed.

Lemma crew_keep dep d d' l q st sends recvs n : beside q d d' -> endpoint dep d' q st sends recvs n ->
  Forall (fun x => qp_num (qp x.1) <> qp_num (qp q)) l -> crew dep d l -> crew dep d' l.
Proof.
  intros Hb Hq Hne [H1 H2]. rewrite list.Forall_forall in *. split; [done |]. apply list.Forall_forall. intros x Hx.
  eapply endpoint_beside; [done | done | by apply Hne | by apply H2].
Qed.

Lemma crew_beside dep d d' l q st : beside q d d' -> endpoint dep d' q st [] [] 0 ->
  Forall (fun x => qp_num (qp x.1) <> qp_num (qp q)) l -> crew dep d l -> crew dep d' ((q, st) :: l).
Proof.
  intros Hb Hq Hne Hc. destruct (crew_keep _ _ _ _ _ _ _ _ _ Hb Hq Hne Hc) as [H1 H2]. split; cbn [map]; [| by constructor].
  apply list.NoDup_cons. split; [| done]. intros (x & E & Hx)%list_elem_of_fmap. rewrite list.Forall_forall in Hne. by apply (Hne x Hx).
Qed.

Lemma crew_new dep d d' l q st : crew dep d l -> beside q d d' -> qps d !! qp_num (qp q) = None ->
  endpoint dep d' q st [] [] 0 -> crew dep d' ((q, st) :: l).
Proof.
  intros Hc Hb Hf Hq. apply (crew_beside _ d); [done | done | | done]. eapply list.Forall_impl; [apply Hc |]. intros x Hx E.
  rewrite <- E, (ep_qp _ _ _ _ _ _ _ Hx) in Hf. done.
Qed.

Lemma crew_step dep d d' l q st st' : crew dep d ((q, st) :: l) -> beside q d d' -> endpoint dep d' q st' [] [] 0 ->
  crew dep d' ((q, st') :: l).
Proof.
  intros [[N1 N2]%list.NoDup_cons [_ H]%list.Forall_cons] Hb Hq. apply (crew_beside _ d); [done | done | | by split].
  apply list.Forall_forall. intros x Hx E. apply N1. apply list_elem_of_fmap. by exists x.
Qed.

(** Without the queue pair that is taken down. *)
Lemma crew_spares dep d d' l q st : crew dep d ((q, st) :: l) -> spares q d d' -> crew dep d' l.
Proof.
  intros [[N1 N2]%list.NoDup_cons [Hq H]%list.Forall_cons] [Eq Ec]. split; [done |]. rewrite list.Forall_forall in *. intros x Hx. cbn [fst snd] in *.
  assert (qp_num (qp x.1) <> qp_num (qp q)) as Hne by (intros E; apply N1, list_elem_of_fmap; by exists x).
  eapply endpoint_spares; [rewrite Eq; apply delete_subseteq | by rewrite Eq, lookup_delete_ne | | by apply H]. intros c Hc.
  destruct (ep_own _ _ _ _ _ _ _ Hq _ _ (ep_qp _ _ _ _ _ _ _ (H x Hx)) Hne) as (A1 & A2 & A3 & A4). cbn [q_init send_cq recv_cq init_attr] in *.
  apply Ec; destruct Hc as [-> | ->]; congruence.
Qed.
