(* ===== verification/WorkQueue.v ===== *)
(** * The work queue of a worker (server.h, spinlock.h)

    A linked list through the [next] fields of the message buffers, which the
    buffer pools use as well; a buffer keeps the [next] it had when it is
    enqueued.  Every operation runs under a spinlock.

    The first part has the operations as functions and shows that they are
    those of a list.  The second part runs any number of threads one memory
    access at a time: the spinlock lets one thread in, and the results are
    those of a queue that serves in the order of the lock. *)

From S2P Require Import Prelude Wire Verbs Infiniband.
From stdpp Require Import functions list.
#[local] Open Scope Z_scope.

Import Infiniband.

Module WorkQueue.

Record t := mkQueue { head_ : Z; tail_ : Z }.
Definition empty : t := mkQueue 0 0.

(** [work->next] *)
Definition next_of (st : bufs) (a : Z) : Z := match st !! a with Some b => next b | None => 0 end.

Definition Enqueue (st : bufs) (q : t) (work : Z) : bufs * t :=
  if head_ q =? 0 then (st, mkQueue work work)
  else (alter (with_next work) (tail_ q) st, mkQueue (head_ q) work).

Definition Dequeue (st : bufs) (q : t) : Z * t :=
  if head_ q =? 0 then (0, q)
  else if head_ q =? tail_ q then (head_ q, mkQueue 0 0)
  else (head_ q, mkQueue (next_of st (head_ q)) (tail_ q)).

(** ** One memory access at a time *)

Inductive op := Enq (work : Z) | Deq.

(** Where a thread is in [Enqueue] or [Dequeue]. *)
Inductive pc :=
  | Idle
  | Lock (o : op)          (* while (flag_.test_and_set(...)) {} *)
  | Enq_test (work : Z)    (* if (head_ == nullptr) *)
  | Enq_tail0 (work : Z)   (* tail_ = work, the queue being empty *)
  | Enq_head0 (work : Z)   (* head_ = work *)
  | Enq_link (work : Z)    (* tail_->next = work *)
  | Enq_tail (work : Z)    (* tail_ = work *)
  | Deq_test               (* if (head_ == nullptr) *)
  | Deq_cmp                (* else if (head_ == tail_) *)
  | Deq_tail0 (ans : Z)    (* tail_ = nullptr *)
  | Deq_head0 (ans : Z)    (* head_ = nullptr *)
  | Deq_next (ans : Z)     (* head_ = head_->next *)
  | Unlock (o : op) (ans : Z).   (* flag_.clear(...) *)

(** What the threads share; the log of the calls that are done with the
    queue, latest first, is not in the program. *)
Record shared := mkShared { flag_ : bool; queue : t; store : bufs; log : list (op * Z) }.

Definition finish (o : op) (ans : Z) (s : shared) : pc * shared :=
  (Unlock o ans, mkShared (flag_ s) (queue s) (store s) ((o, ans) :: log s)).
Definition set_queue (q : t) (s : shared) : shared := mkShared (flag_ s) q (store s) (log s).

Definition tick (p : pc) (s : shared) : pc * shared :=
  let q := queue s in
  match p with
  | Idle => (Idle, s)
  | Lock o =>
      if flag_ s then (Lock o, s)
      else (match o with Enq w => Enq_test w | Deq => Deq_test end, mkShared true q (store s) (log s))
  | Enq_test w => (if head_ q =? 0 then Enq_tail0 w else Enq_link w, s)
  | Enq_tail0 w => (Enq_head0 w, set_queue (mkQueue (head_ q) w) s)
  | Enq_head0 w => finish (Enq w) 0 (set_queue (mkQueue w (tail_ q)) s)
  | Enq_link w => (Enq_tail w, mkShared (flag_ s) q (alter (with_next w) (tail_ q) (store s)) (log s))
  | Enq_tail w => finish (Enq w) 0 (set_queue (mkQueue (head_ q) w) s)
  | Deq_test => if head_ q =? 0 then finish Deq 0 s else (Deq_cmp, s)
  | Deq_cmp => (if head_ q =? tail_ q then Deq_tail0 (head_ q) else Deq_next (head_ q), s)
  | Deq_tail0 a => (Deq_head0 a, set_queue (mkQueue (head_ q) 0) s)
  | Deq_head0 a => finish Deq a (set_queue (mkQueue 0 (tail_ q)) s)
  | Deq_next a => finish Deq a (set_queue (mkQueue (next_of (store s) (head_ q)) (tail_ q)) s)
  | Unlock o a => (Idle, mkShared false q (store s) (log s))
  end.

(** The buffer a call in progress is about to put into the queue. *)
Definition pending (p : pc) : option Z :=
  match p with
  | Lock (Enq w) | Enq_test w | Enq_tail0 w | Enq_head0 w | Enq_link w | Enq_tail w => Some w
  | _ => None
  end.

(** ** The specification: a first-in first-out queue *)

Fixpoint replay (log : list (op * Z)) : option (list Z) :=
  match log with
  | [] => Some []
  | (o, ans) :: log' =>
      match o, replay log' with
      | _, None => None
      | Enq w, Some l => Some (l ++ [w])
      | Deq, Some [] => if ans =? 0 then Some [] else None
      | Deq, Some (a :: l') => if ans =? a then Some l' else None
      end
  end.

Definition state : Type := (nat -> pc) * shared.

(** A thread calls an operation, makes one access, or somebody changes the
    [next] of a buffer that is not the queue's.  Only a buffer that is not
    in the queue and not on its way is enqueued. *)
Inductive step : state -> state -> Prop :=
  | step_enqueue i w ps s l : ps i = Idle -> replay (log s) = Some l -> w <> 0 -> is_Some (store s !! w) ->
      w ∉ l -> (forall j, pending (ps j) <> Some w) -> step (ps, s) (<[i := Lock (Enq w)]> ps, s)
  | step_dequeue i ps s : ps i = Idle -> step (ps, s) (<[i := Lock Deq]> ps, s)
  | step_tick i ps s : step (ps, s) (<[i := (tick (ps i) s).1]> ps, (tick (ps i) s).2)
  | step_other w n ps s l : replay (log s) = Some l -> w ∉ l -> (forall j, pending (ps j) <> Some w) ->
      step (ps, s) (ps, mkShared (flag_ s) (queue s) (alter (with_next n) w (store s)) (log s)).

Definition start (st : bufs) : state := (fun _ => Idle, mkShared false empty st []).

(** The thread is between [lock()] and [unlock()]. *)
Definition inside (p : pc) : bool := match p with Idle | Lock _ => false | _ => true end.

End WorkQueue.

Import WorkQueue.

(** ** Linked lists of buffers *)

(** [l] is linked through [next], except that the last [next] is anything. *)
Record linked (st : bufs) (l : list Z) : Prop := mkLinked {
  linked_real a : a ∈ l -> a <> 0 /\ is_Some (st !! a);
  linked_once : NoDup l;
  linked_next i a b : l !! i = Some a -> l !! S i = Some b -> next_of st a = b }.

(** The queue [q] in the store [st] holds the buffers [l], oldest first. *)
Record queue_of (st : bufs) (q : t) (l : list Z) : Prop := mkQueueOf {
  queue_linked : linked st l;
  queue_head : head_ q = default 0 (head l);
  queue_tail : l <> [] -> Some (tail_ q) = last l }.

Lemma next_of_alter st a b nx : is_Some (st !! a) ->
  next_of (alter (with_next nx) a st) b = if decide (a = b) then nx else next_of st b.
Proof.
  intros [x Hx]. unfold next_of. case_decide as E.
  - subst b. by rewrite lookup_alter_eq, Hx.
  - by rewrite lookup_alter_ne.
Qed.

Lemma alter_is_Some (st : bufs) a b (f : Buffer -> Buffer) : is_Some (alter f a st !! b) <-> is_Some (st !! b).
Proof. apply lookup_alter_is_Some. Qed.

(** A change to a buffer that is not in the list. *)
Lemma linked_frame st l w n : linked st l -> w ∉ l -> linked (alter (with_next n) w st) l.
Proof.
  intros [H1 H2 H3] Hw. split; [| done |].
  - intros a Ha. rewrite alter_is_Some. auto.
  - intros i a b Ha Hb. unfold next_of. rewrite lookup_alter_ne; [by apply (H3 i) |].
    intros ->. apply Hw. by eapply list_elem_of_lookup_2.
Qed.

Lemma queue_frame st q l w n : queue_of st q l -> w ∉ l -> queue_of (alter (with_next n) w st) q l.
Proof. intros [? ? ?] Hw. by split; [apply linked_frame | |]. Qed.

Lemma linked_snoc st l a w : linked st l -> last l = Some a -> w ∉ l -> w <> 0 -> is_Some (st !! w) ->
  linked (alter (with_next w) a st) (l ++ [w]).
Proof.
  intros [H1 H2 H3] Hl Hw H0 Hs. apply last_Some in Hl as [l0 ->].
  assert (is_Some (st !! a)) as Ha by (apply H1, elem_of_app; right; by apply list_elem_of_singleton).
  split.
  - intros b. rewrite elem_of_app, list_elem_of_singleton, alter_is_Some. intros [Hb | ->]; auto.
  - apply NoDup_app. split_and!; [done | | apply NoDup_singleton]. intros b Hb. rewrite list_elem_of_singleton. by intros ->.
  - intros i b c Hb Hc. rewrite next_of_alter by done. apply lookup_lt_Some in Hc as Hlt. rewrite !length_app in Hlt. cbn in Hlt.
    destruct (decide (i = length l0)) as [-> | Hi].
    + rewrite lookup_app_l, list_lookup_middle in Hb by (rewrite ?length_app; cbn; lia || done). injection Hb as <-.
      rewrite decide_True by done. replace (S (length l0)) with (length (l0 ++ [a])) in Hc by (rewrite length_app; cbn; lia).
      rewrite list_lookup_middle in Hc by done. by injection Hc.
    + rewrite lookup_app_l in Hb, Hc by (rewrite length_app; cbn; lia).
      case_decide as E; [| by apply (H3 i)]. subst b. exfalso. apply Hi.
      eapply (NoDup_lookup _ i (length l0) a H2); [done |]. by rewrite list_lookup_middle.
Qed.

Lemma linked_tail st a l : linked st (a :: l) -> linked st l.
Proof.
  intros [H1 H2 H3]. split.
  - intros b Hb. apply H1. by right.
  - by apply NoDup_cons in H2 as [_ H2].
  - intros i. apply (H3 (S i)).
Qed.

Lemma linked_nil st : linked st [].
Proof. split; [by intros a Ha%not_elem_of_nil | apply NoDup_nil_2 | done]. Qed.

Section Sequential.
Variables (st : bufs) (q : t) (l : list Z).
Hypothesis Hq : queue_of st q l.

Lemma queue_is_empty : (head_ q =? 0) = bool_decide (l = []).
Proof.
  destruct Hq as [Hl Hh _]. rewrite Hh. destruct l as [|a l']; [done |]. cbn. apply Z.eqb_neq.
  apply (linked_real _ _ Hl). by left.
Qed.

(** The head is the tail exactly when there is one buffer. *)
Lemma queue_is_single a l' : l = a :: l' -> (head_ q =? tail_ q) = bool_decide (l' = []).
Proof.
  intros ->. destruct Hq as [Hl Hh Ht]. cbn in Hh. specialize (Ht ltac:(done)).
  destruct l' as [|b l'].
  - cbn in Ht. injection Ht as Ht. rewrite Hh, Ht. cbn. apply Z.eqb_refl.
  - rewrite bool_decide_false by done. apply Z.eqb_neq. intros E. pose proof (linked_once _ _ Hl) as [Hn _]%NoDup_cons.
    rewrite last_cons_cons in Ht. symmetry in Ht. apply last_Some_elem_of in Ht. apply Hn. congruence.
Qed.

Lemma Enqueue_queue w : w ∉ l -> w <> 0 -> is_Some (st !! w) ->
  queue_of (Enqueue st q w).1 (Enqueue st q w).2 (l ++ [w]).
Proof.
  intros Hw H0 Hs. unfold Enqueue. rewrite queue_is_empty. destruct Hq as [Hl Hh Ht]. case_bool_decide as E.
  - subst l. split; [| done | done]. cbn. pose proof (linked_nil st).
    split; [| apply NoDup_singleton | by intros [|?] ?].
    intros a. rewrite list_elem_of_singleton. by intros ->.
  - specialize (Ht E). split; cbn [fst snd].
    + by apply linked_snoc.
    + rewrite Hh. by destruct l.
    + intros _. cbn. by rewrite last_snoc.
Qed.

Lemma Dequeue_queue : (Dequeue st q).1 = default 0 (head l) /\ queue_of st (Dequeue st q).2 (tail l).
Proof.
  unfold Dequeue. rewrite queue_is_empty. pose proof queue_is_single as Hs. destruct Hq as [Hl Hh Ht]. destruct l as [|a l']; cbn [bool_decide]; [done |].
  rewrite bool_decide_false by done. rewrite (Hs a l' eq_refl). cbn in Hh.
  destruct l' as [|b l']; cbn.
  - split; [done |]. by split; [apply linked_nil | |].
  - split; [done |]. split; [by eapply linked_tail | | by intros _; apply Ht].
    cbn. rewrite Hh. by apply (linked_next _ _ Hl 0%nat).
Qed.
End Sequential.

(** ** Threads *)

(** What holds while a thread is inside, by where it is; [l] is what the log
    says the queue holds. *)
Definition at_pc (p : pc) (st : bufs) (q : t) (l : list Z) : Prop :=
  match p with
  | Idle | Lock _ => False
  | Enq_test _ | Deq_test | Unlock _ _ => queue_of st q l
  | Enq_tail0 _ => queue_of st q l /\ l = []
  | Enq_head0 w => l = [] /\ tail_ q = w
  | Enq_link _ | Deq_cmp => queue_of st q l /\ l <> []
  | Enq_tail w => linked st (l ++ [w]) /\ l <> [] /\ head_ q = default 0 (head l)
  | Deq_tail0 a => l = [a] /\ head_ q = a
  | Deq_head0 a => l = [a] /\ tail_ q = 0
  | Deq_next a => queue_of st q l /\ exists b l', l = a :: b :: l'
  end.

(** The buffers on their way are real and not in the queue, each is on its
    way once. *)
Record on_the_way (ps : nat -> pc) (st : bufs) (l : list Z) : Prop := mkOnTheWay {
  way_real i w : pending (ps i) = Some w -> w <> 0 /\ is_Some (st !! w) /\ w ∉ l;
  way_once i j w : pending (ps i) = Some w -> pending (ps j) = Some w -> i = j }.

Definition lock_inv (ps : nat -> pc) (s : shared) (l : list Z) : Prop :=
  if flag_ s then
    exists i, at_pc (ps i) (store s) (queue s) l /\ forall j, inside (ps j) = true -> j = i
  else queue_of (store s) (queue s) l /\ forall j, inside (ps j) = false.

Definition inv (x : state) : Prop :=
  exists l, replay (log x.2) = Some l /\ on_the_way x.1 (store x.2) l /\ lock_inv x.1 x.2 l.

Lemma single_queue st w q : w <> 0 -> is_Some (st !! w) -> head_ q = w -> tail_ q = w -> queue_of st q [w].
Proof.
  intros H0 Hs Hh Ht. split; [split | done | cbn; congruence].
  - intros a. rewrite list_elem_of_singleton. by intros ->.
  - apply NoDup_singleton.
  - by intros [|?] ?.
Qed.

Lemma nil_queue st q : head_ q = 0 -> queue_of st q [].
Proof. intros H. by split; [apply linked_nil | |]. Qed.

(** One access of the thread that is inside. *)
Lemma tick_inside p s l : at_pc p (store s) (queue s) l -> replay (log s) = Some l ->
  (forall w, pending p = Some w -> w <> 0 /\ is_Some (store s !! w) /\ w ∉ l) ->
  let p' := (tick p s).1 in let s' := (tick p s).2 in
  (forall w, is_Some (store s' !! w) <-> is_Some (store s !! w)) /\
  exists l', replay (log s') = Some l' /\
    (forall w, w ∈ l' -> w ∈ l \/ pending p = Some w /\ pending p' = None) /\ (forall w, pending p' = Some w -> pending p = Some w) /\
    if inside p' then flag_ s' = flag_ s /\ at_pc p' (store s') (queue s') l'
    else p' = Idle /\ flag_ s' = false /\ queue_of (store s') (queue s') l'.
Proof.
  intros Ha Hr Hp. destruct p; cbn in Ha; try done; cbn.
  - (* Enq_test *) rewrite (queue_is_empty _ _ _ Ha). split; [done |]. exists l. case_bool_decide; cbn; split_and!; auto.
  - (* Enq_tail0 *) destruct Ha as [Ha ->]. split; [done |]. exists []. by split_and!; auto.
  - (* Enq_head0 *) destruct Ha as [-> Ht]. destruct (Hp _ eq_refl) as (H0 & Hs & _). split; [done |].
    exists [work]. rewrite Hr. split_and!; try done.
    + intros w. rewrite list_elem_of_singleton. intros ->. by right.
    + by apply single_queue.
  - (* Enq_link *) destruct Ha as [Ha Hl]. destruct (Hp _ eq_refl) as (H0 & Hs & Hw).
    split; [intros w; apply alter_is_Some |]. exists l. split_and!; auto.
    + destruct Ha as [H1 H2 H3]. apply linked_snoc; auto. by rewrite <- H3.
    + by apply Ha.
  - (* Enq_tail *) destruct Ha as (Hl & Hn & Hh). split; [done |]. exists (l ++ [work]). rewrite Hr. split_and!; try done.
    + intros w. rewrite elem_of_app, list_elem_of_singleton. intros [? | ->]; auto.
    + split; [done | |]; cbn; [| by rewrite last_snoc]. rewrite Hh. by destruct l.
  - (* Deq_test *) rewrite (queue_is_empty _ _ _ Ha). case_bool_decide as E; cbn.
    + subst l. split; [done |]. exists []. rewrite Hr. by split_and!; auto.
    + split; [done |]. exists l. by split_and!; auto.
  - (* Deq_cmp *) destruct Ha as [Ha Hl]. split; [done |]. exists l. destruct l as [|a l']; [done |].
    rewrite (queue_is_single _ _ _ Ha a l' eq_refl). pose proof (queue_head _ _ _ Ha) as Hh. cbn in Hh.
    case_bool_decide as E; cbn; split_and!; auto.
    + subst l'. by rewrite Hh.
    + destruct l' as [|b l']; [done |]. rewrite Hh. eauto.
  - (* Deq_tail0 *) destruct Ha as [-> Hh]. split; [done |]. exists [ans]. by split_and!; auto.
  - (* Deq_head0 *) destruct Ha as [-> Ht]. split; [done |]. exists []. rewrite Hr, Z.eqb_refl.
    split_and!; try done.
    + by intros w Hw%not_elem_of_nil.
    + by apply nil_queue.
  - (* Deq_next *) destruct Ha as (Ha & b & l' & ->). split; [done |]. exists (b :: l'). rewrite Hr, Z.eqb_refl. destruct Ha as [H1 H2 H3].
    split_and!; try done.
    + intros w Hw. left. by right.
    + split; [by eapply linked_tail | | intros _; by apply H3]. cbn. rewrite H2. by apply (linked_next _ _ H1 0%nat).
  - (* Unlock *) split; [done |]. exists l. by split_and!; auto.
Qed.

Lemma way_update ps st l i p' (st' : bufs) l' : on_the_way ps st l ->
  (forall w, is_Some (st' !! w) <-> is_Some (st !! w)) ->
  (forall w, w ∈ l' -> w ∈ l \/ pending (ps i) = Some w /\ pending p' = None) ->
  (forall w, pending p' = Some w -> pending (ps i) = Some w) ->
  on_the_way (<[i := p']> ps) st' l'.
Proof.
  intros [H1 H2] Hs Hl Hp.
  assert (forall j w, pending (<[i := p']> ps j) = Some w -> pending (ps j) = Some w) as Hj.
  { intros j w. destruct (decide (i = j)) as [<- | Hne]; [rewrite fn_lookup_insert | rewrite fn_lookup_insert_ne by done]; auto. }
  split.
  - intros j w E. destruct (H1 j w (Hj j w E)) as (? & ? & Hw). split_and!; [done | by apply Hs |].
    intros [? | [Ei En]]%Hl; [done |]. pose proof (H2 _ _ _ Ei (Hj j w E)) as <-. rewrite fn_lookup_insert in E. congruence.
  - intros j k w Ej Ek. eapply H2; by apply Hj.
Qed.

(** A thread that moves outside of the lock. *)
Lemma lock_inv_outside ps s l i p' : inside (ps i) = false -> inside p' = false ->
  lock_inv ps s l -> lock_inv (<[i := p']> ps) s l.
Proof.
  intros H1 H2. unfold lock_inv. destruct (flag_ s).
  - intros (k & Hk & Hu). assert (k <> i) as Hne by (intros ->; destruct (ps i); done).
    exists k. rewrite fn_lookup_insert_ne by done. split; [done |]. intros j.
    destruct (decide (i = j)) as [<- | Hj]; [rewrite fn_lookup_insert; congruence | rewrite fn_lookup_insert_ne by done; auto].
  - intros [Hq Hu]. split; [done |]. intros j.
    destruct (decide (i = j)) as [<- | Hj]; [by rewrite fn_lookup_insert | by rewrite fn_lookup_insert_ne].
Qed.

Lemma inv_call ps s i p' : ps i = Idle -> inside p' = false -> pending p' = None -> inv (ps, s) -> inv (<[i := p']> ps, s).
Proof.
  intros Hi Hp Hn (l & Hr & Hw & Hl). exists l. split_and!; [done | |].
  - by apply (way_update ps (store s) l); [| | auto | rewrite Hn].
  - apply lock_inv_outside; cbn; auto. by rewrite Hi.
Qed.

Lemma inv_tick ps s i : inv (ps, s) -> inv (<[i := (tick (ps i) s).1]> ps, (tick (ps i) s).2).
Proof.
  intros (l & Hr & Hw & Hl). cbn in *. destruct (inside (ps i)) eqn:Hin.
  - unfold lock_inv in Hl. destruct (flag_ s) eqn:Hf; [| destruct Hl as [_ Hl]; by rewrite Hl in Hin].
    destruct Hl as (k & Hk & Hu). pose proof (Hu i Hin) as ->.
    pose proof (tick_inside (ps k) s l Hk Hr (way_real _ _ _ Hw k)) as [Hs (l' & Hr' & Hl' & Hp' & Ht)].
    exists l'. split_and!; [done | by apply (way_update ps (store s) l) |]. unfold lock_inv. cbn.
    destruct (inside (tick (ps k) s).1) eqn:E; destruct Ht as [Ht1 Ht2].
    + rewrite Ht1, Hf. exists k. rewrite fn_lookup_insert. split; [done |]. intros j.
      destruct (decide (k = j)) as [<- | Hj]; [done | rewrite fn_lookup_insert_ne by done; auto].
    + destruct Ht2 as [-> Ht2]. split; [done |]. intros j.
      destruct (decide (k = j)) as [<- | Hj]; [by rewrite fn_lookup_insert |].
      rewrite fn_lookup_insert_ne by done. destruct (inside (ps j)) eqn:Ej; [| done]. by rewrite (Hu j Ej) in Hj.
  - assert (forall p', pending p' = pending (ps i) -> on_the_way (<[i := p']> ps) (store s) l) as Hway
      by (intros p' E; by apply (way_update ps (store s) l); [| | auto | rewrite E]).
    destruct (ps i) as [| o | | | | | | | | | | |] eqn:Ei; try done; cbn.
    + exists l. split_and!; [done | by apply Hway | by apply lock_inv_outside; rewrite ?Ei].
    + destruct (flag_ s) eqn:Hf; cbn.
      * exists l. split_and!; [done | by apply Hway | by apply lock_inv_outside; rewrite ?Ei].
      * exists l. split_and!; [done | apply Hway; by destruct o |]. unfold lock_inv in *. rewrite Hf in Hl. cbn.
        destruct Hl as [Hq Hu]. exists i. rewrite fn_lookup_insert. split; [by destruct o |]. intros j.
        destruct (decide (i = j)) as [<- | Hj]; [done |]. rewrite fn_lookup_insert_ne by done. by rewrite Hu.
Qed.

(** A buffer that is not the queue's changes. *)
Lemma at_pc_frame p st q l w n : at_pc p st q l -> w ∉ l -> pending p <> Some w -> at_pc p (alter (with_next n) w st) q l.
Proof.
  intros H Hw Hp. assert (forall q, queue_of st q l -> queue_of (alter (with_next n) w st) q l) as Hq
    by (intros q' ?; by apply queue_frame).
  destruct p; cbn in *; auto; try (destruct H; split; auto).
  apply linked_frame; [done |]. rewrite elem_of_app, list_elem_of_singleton. intros [? | ->]; done.
Qed.

Lemma inv_step x y : step x y -> inv x -> inv y.
Proof.
  intros H. destruct H as [i w ps s l0 Hi Hr0 Hw0 Hs Hl0 Hfresh | i ps s Hi | i ps s | w n ps s l0 Hr0 Hl0 Hfresh].
  - intros (l & Hr & Hw & Hl). cbn in *. assert (l0 = l) as -> by congruence. exists l. split_and!; [done | | by apply lock_inv_outside; rewrite ?Hi].
    destruct Hw as [H1 H2]. split; cbn [fst snd].
    + intros j v. destruct (decide (i = j)) as [<- | Hj]; [rewrite fn_lookup_insert; intros [= <-]; auto |].
      rewrite fn_lookup_insert_ne by done. apply H1.
    + intros j k v. destruct (decide (i = j)) as [<- | Hj], (decide (i = k)) as [<- | Hk];
        rewrite ?fn_lookup_insert, ?fn_lookup_insert_ne by done; try done.
      * intros [= <-] E. by destruct (Hfresh k).
      * intros E [= <-]. by destruct (Hfresh j).
      * apply H2.
  - by apply inv_call.
  - apply inv_tick.
  - intros (l & Hr & [H1 H2] & Hl). cbn in *. assert (l0 = l) as -> by congruence. exists l. split_and!; [done | |].
    + split; [| done]. intros i v E. destruct (H1 i v E) as (? & ? & ?). split_and!; [done | by apply alter_is_Some | done].
    + unfold lock_inv in *. cbn. destruct (flag_ s).
      * destruct Hl as (i & Hi & Hu). exists i. split; [by apply at_pc_frame | done].
      * destruct Hl as [? Hu]. split; [by apply queue_frame | done].
Qed.

Lemma inv_start st : inv (start st).
Proof.
  exists []. split_and!; [done | by split |]. by split; [apply nil_queue |].
Qed.

(** C36. Whatever threads call [Enqueue] and [Dequeue], interleaved at every
    memory access, and whatever is done meanwhile to the [next] of buffers
    that are not in the queue: at most one thread is between [lock] and
    [unlock], every answer is that of a first-in first-out queue that serves
    the calls in the order in which they held the lock, and when the lock is
    free the linked list holds exactly what that queue holds. *)
Theorem queue_is_fifo st ps s : rtc step (start st) (ps, s) ->
  (forall i j, inside (ps i) = true -> inside (ps j) = true -> i = j) /\
  exists l, replay (log s) = Some l /\ (flag_ s = false -> queue_of (store s) (queue s) l).
Proof.
  intros H. assert (inv (ps, s)) as (l & Hr & _ & Hl).
  { generalize (inv_start st). revert H. generalize (start st) (ps, s). intros x y H.
    induction H as [| ? ? ? Hs _ IH]; [done |]. intros Hi. apply IH. by eapply inv_step. }
  unfold lock_inv in Hl. cbn in *. destruct (flag_ s).
  - destruct Hl as (k & _ & Hu). split; [| by exists l]. intros i j Hi%Hu Hj%Hu. congruence.
  - destruct Hl as [Hq Hu]. split; [| by exists l]. intros i j Hi. by rewrite Hu in Hi.
Qed.

(** Threads that are scheduled in turn. *)
Fixpoint schedule (l : list nat) (x : state) : state :=
  match l with
  | [] => x
  | i :: l' => schedule l' (<[i := (tick (x.1 i) x.2).1]> x.1, (tick (x.1 i) x.2).2)
  end.

Lemma schedule_steps l x : rtc step x (schedule l x).
Proof.
  revert x. induction l as [|i l IH]; intros [ps s]; [done |]. eapply rtc_l; [apply (step_tick i) | apply IH].
Qed.

Definition two_buffers : bufs :=
  {[ 48 := mkBuffer 96 0 0 0 (mkMr 0 0 0) no_address false; 96 := mkBuffer 48 0 0 0 (mkMr 0 0 0) no_address false ]}.

(** Two threads enqueue and a third dequeues, with stale [next] fields. *)
Definition example_calls : state := (<[2%nat := Lock Deq]> (<[1%nat := Lock (Enq 96)]> (<[0%nat := Lock (Enq 48)]> (start two_buffers).1)),
  (start two_buffers).2).
Definition example_run : list nat := [0; 1; 0; 2; 0; 0; 1; 0; 1; 2; 1; 1; 1; 2; 1; 2; 2; 2; 2; 2]%nat.

Lemma queue_is_fifo_witness :
  let x := schedule example_run example_calls in
  log x.2 = [(Deq, 48); (Enq 96, 0); (Enq 48, 0)] /\ flag_ x.2 = false /\ exists l, replay (log x.2) = Some l /\ l = [96].
Proof.
  intros x. split; [reflexivity |]. split; [reflexivity |].
  assert (rtc step (start two_buffers) (x.1, x.2)) as H.
  { eapply rtc_l; [apply (step_enqueue 0 48 (start two_buffers).1 (start two_buffers).2 [] eq_refl eq_refl ltac:(done) ltac:(by eexists) (not_elem_of_nil _) ltac:(done)) |].
    eapply rtc_l; [apply (step_enqueue 1 96 (<[0%nat := Lock (Enq 48)]> (start two_buffers).1) (start two_buffers).2 [] eq_refl eq_refl ltac:(done) ltac:(by eexists) (not_elem_of_nil _) ltac:(by intros [|[|j]])) |].
    eapply rtc_l; [by apply (step_dequeue 2 (<[1%nat := Lock (Enq 96)]> (<[0%nat := Lock (Enq 48)]> (start two_buffers).1)) (start two_buffers).2) |]. apply (schedule_steps example_run example_calls). }
  destruct (proj2 (queue_is_fifo _ _ _ H)) as (l & Hl & _). exists l. split; [exact Hl |]. vm_compute in Hl. by injection Hl.
Defined.
