(* ===== verification/Handoff.v ===== *)
(** * Handing work to a worker (server.h, server.cc)

    The poller runs [Worker::Enqueue]; the worker's thread takes work in
    [Serve], first spinning in [TryPollWork] for about 50 microseconds and
    then waiting on a condition variable.  A step is one operation on the
    mutex, the condition variable or the queue, which is a list here: its
    operations are atomic and first-in first-out by [WorkQueue.queue_is_fifo].
    How long the worker spins is left open, and either thread may be delayed
    between any two steps.  A wait may also end without a notification: that is
    a step of the environment, which no thread can count on. *)

From S2P Require Import Prelude.

Module Handoff.

Inductive thread := Poller | Slave.

(** Who makes a step: a thread, or the library that ends a wait for nothing. *)
Inductive actor := By (t : thread) | Spurious.

(** [Worker::Enqueue] *)
Inductive poller_pc :=
  | P_idle
  | P_lock (work : Z)       (* std::unique_lock<std::mutex> lock(mtx_) *)
  | P_enqueue (work : Z)    (* wq_.Enqueue(work) *)
  | P_notify                (* cond_var_.notify_one() *)
  | P_unlock.               (* ~unique_lock *)

(** The head of the loop of [Serve] *)
Inductive slave_pc :=
  | C_poll                  (* ans = Dequeue() in TryPollWork *)
  | C_time                  (* ans == nullptr: m.cur_period() < 50 ? *)
  | C_lock                  (* std::unique_lock<std::mutex> lock(mtx_) *)
  | C_check                 (* the predicate: work || (work = wq_.Dequeue()) *)
  | C_wait                  (* blocked in cond_var_.wait, the mutex released *)
  | C_woken                 (* woken, taking the mutex again *)
  | C_unlock (work : Z)     (* ~unique_lock *)
  | C_work (work : Z).      (* the rest of the loop *)

(** [sent] and [got] record what was enqueued and what was dequeued. *)
Record state := mk {
  mtx : option thread; queue : list Z; poller : poller_pc; slave : slave_pc; sent : list Z; got : list Z }.

Definition init : state := mk None [] P_idle C_poll [] [].

(** A notification wakes the worker if it waits, and is lost if it does not. *)
Definition notified (p : slave_pc) : slave_pc := match p with C_wait => C_woken | _ => p end.

Inductive step : actor -> state -> state -> Prop :=
  | p_call w m q c sn g : step (By Poller) (mk m q P_idle c sn g) (mk m q (P_lock w) c sn g)
  | p_lock w q c sn g : step (By Poller) (mk None q (P_lock w) c sn g) (mk (Some Poller) q (P_enqueue w) c sn g)
  | p_enqueue w m q c sn g : step (By Poller) (mk m q (P_enqueue w) c sn g) (mk m (q ++ [w]) P_notify c (sn ++ [w]) g)
  | p_notify m q c sn g : step (By Poller) (mk m q P_notify c sn g) (mk m q P_unlock (notified c) sn g)
  | p_unlock m q c sn g : step (By Poller) (mk m q P_unlock c sn g) (mk None q P_idle c sn g)
  | c_poll_some m w q p sn g : step (By Slave) (mk m (w :: q) p C_poll sn g) (mk m q p (C_work w) sn (g ++ [w]))
  | c_poll_none m p sn g : step (By Slave) (mk m [] p C_poll sn g) (mk m [] p C_time sn g)
  | c_again m q p sn g : step (By Slave) (mk m q p C_time sn g) (mk m q p C_poll sn g)
  | c_timeout m q p sn g : step (By Slave) (mk m q p C_time sn g) (mk m q p C_lock sn g)
  | c_lock q p sn g : step (By Slave) (mk None q p C_lock sn g) (mk (Some Slave) q p C_check sn g)
  | c_check_some m w q p sn g : step (By Slave) (mk m (w :: q) p C_check sn g) (mk m q p (C_unlock w) sn (g ++ [w]))
  | c_check_none m p sn g : step (By Slave) (mk m [] p C_check sn g) (mk None [] p C_wait sn g)
  | c_spurious m q p sn g : step Spurious (mk m q p C_wait sn g) (mk m q p C_woken sn g)
  | c_woken q p sn g : step (By Slave) (mk None q p C_woken sn g) (mk (Some Slave) q p C_check sn g)
  | c_unlock m w q p sn g : step (By Slave) (mk m q p (C_unlock w) sn g) (mk None q p (C_work w) sn g)
  | c_done m w q p sn g : step (By Slave) (mk m q p (C_work w) sn g) (mk m q p C_poll sn g).

(** Runs, with the number of steps the worker makes in them. *)
Inductive steps : nat -> state -> state -> Prop :=
  | steps_refl s : steps 0 s s
  | steps_poller n s s' s'' : step (By Poller) s s' -> steps n s' s'' -> steps n s s''
  | steps_slave n s s' s'' : step (By Slave) s s' -> steps n s' s'' -> steps (S n) s s''
  | steps_spurious n s s' s'' : step Spurious s s' -> steps n s' s'' -> steps n s s''.

Definition reachable (s : state) : Prop := exists n, steps n init s.

Definition in_hand (c : slave_pc) : option Z :=
  match c with C_unlock w | C_work w => Some w | _ => None end.

End Handoff.

Import Handoff.

(** Who is inside the mutex. *)
Definition poller_inside (p : poller_pc) : bool := match p with P_enqueue _ | P_notify | P_unlock => true | _ => false end.
Definition slave_inside (c : slave_pc) : bool := match c with C_check | C_unlock _ => true | _ => false end.

(** The mutex has one holder; nothing is lost or taken twice; when the worker
    waits although there is work, the poller has yet to notify it. *)
Record handoff_inv (s : state) : Prop := mkInv {
  inv_mtx : mtx s = if poller_inside (poller s) then Some Poller else if slave_inside (slave s) then Some Slave else None;
  inv_one : ~ (poller_inside (poller s) = true /\ slave_inside (slave s) = true);
  inv_sent : sent s = got s ++ queue s;
  inv_wake : slave s = C_wait -> queue s <> [] -> poller s = P_notify }.

Lemma handoff_step t s s' : step t s s' -> handoff_inv s -> handoff_inv s'.
Proof.
  intros H [H1 H2 H3 H4]. destruct H; cbn in *; split; cbn in *;
    try first [done | by rewrite H3, <- app_assoc | by destruct c | by destruct p | destruct c; naive_solver | destruct p; naive_solver].
Qed.

Lemma handoff_init : handoff_inv init.
Proof. split; try done. by intros [? _]. Qed.

Lemma handoff_steps n s s' : steps n s s' -> handoff_inv s -> handoff_inv s'.
Proof. induction 1; eauto using handoff_step. Qed.

(** At most how many of its own steps the worker is from taking the work that
    is there. *)
Definition distance (c : slave_pc) : nat :=
  match c with C_poll | C_check => 1 | C_lock | C_woken | C_wait => 2 | C_time => 3 | C_unlock _ | C_work _ => 0 end.

Definition waiting_for (w : Z) (g : list Z) (k : nat) (s : state) : Prop :=
  (exists r, got s = g ++ w :: r) \/
  got s = g /\ head (queue s) = Some w /\ in_hand (slave s) = None /\ (distance (slave s) <= k)%nat.

Lemma waiting_other w g k a s s' : a <> By Slave -> step a s s' -> waiting_for w g k s -> waiting_for w g k s'.
Proof.
  intros Ha H [Hr | (Hg & Hq & Hh & Hd)]; inversion H; subst; cbn in *; first [done | by left | right; cbn].
  all: split_and!; first [done | by destruct q | by destruct c | lia | destruct c; cbn in *; lia].
Qed.

Lemma waiting_slave w g k s s' : step (By Slave) s s' -> waiting_for w g (S k) s -> waiting_for w g k s'.
Proof.
  intros H [[r Hr] | (Hg & Hq & Hh & Hd)]; inversion H; subst; cbn in *; try done;
    try (left; rewrite Hr; first [by exists r | eexists; by rewrite <- app_assoc]);
    try (right; cbn; split_and!; first [done | lia]).
  all: injection Hq as ->; left; by exists [].
Qed.

(** Enough steps of the worker take the work; those of the poller do not
    matter. *)
Lemma waiting_steps w g k n s s' : steps n s s' -> waiting_for w g k s -> (k <= n)%nat -> exists r, got s' = g ++ w :: r.
Proof.
  intros Hs. revert k. induction Hs as [s | n s s1 s' Hs _ IH | n s s1 s' Hs _ IH | n s s1 s' Hs _ IH]; intros k Hw Hn.
  - destruct Hw as [? | (_ & _ & Hh & Hd)]; [done |]. destruct (slave s); cbn in *; try done; lia.
  - apply (IH k); [eapply waiting_other; [| exact Hs | exact Hw]; done | done].
  - destruct k as [|k]; [destruct Hw as [Hw | (_ & _ & Hh & Hd)]; [| destruct (slave s); cbn in *; try done; lia] |].
    + apply (IH 0%nat); [| lia]. eapply waiting_slave; [exact Hs |]. by left.
    + apply (IH k); [by eapply waiting_slave | lia].
  - apply (IH k); [eapply waiting_other; [| exact Hs | exact Hw]; done | done].
Qed.

(** C37. No wake-up is lost, and none has to come for nothing.  When there is
    work and the worker is not busy, one of the threads can make a step of its
    own: the worker, or the poller, which is then inside the mutex.  When the
    worker sleeps, the poller is about to notify it, and whatever it does next
    wakes it.  Once the worker has made three steps, whatever the poller and the
    library did in between, it has taken the oldest work.  Everything that was
    enqueued is taken once and in order. *)
Theorem no_lost_wakeup s w q : reachable s -> queue s = w :: q -> in_hand (slave s) = None ->
  sent s = got s ++ queue s /\
  (exists t s', step (By t) s s' /\ (t = Slave \/ mtx s = Some Poller)) /\
  (slave s = C_wait -> (exists s', step (By Poller) s s') /\ forall s', step (By Poller) s s' -> slave s' = C_woken) /\
  forall n s', steps n s s' -> (3 <= n)%nat -> exists r, got s' = got s ++ w :: r.
Proof.
  intros [n0 Hr] Hq Hh. pose proof (handoff_steps _ _ _ Hr handoff_init) as [H1 H2 H3 H4].
  assert (slave s = C_wait -> poller s = P_notify) as Hn by (intros E; apply H4; [done | by rewrite Hq]).
  split_and!; [done | | |].
  - destruct s as [m q0 p c sn g]. cbn in *. subst q0.
    destruct c; cbn in *; try done; try (by do 2 eexists; split; [constructor | by left]).
    2: { rewrite (Hn eq_refl) in *. cbn in *. subst m. do 2 eexists. split; [constructor | by right]. }
    all: destruct p; cbn in *; subst m; try (by do 2 eexists; split; [constructor | by left]);
      try (by do 2 eexists; split; [constructor | by right]).
  - intros E. specialize (Hn E). destruct s as [m q0 p c sn g]. cbn in *. subst p c. split; [eexists; constructor |].
    intros s' Hs. by inversion Hs.
  - intros n s' Hs Hn3. apply (waiting_steps w (got s) 3 n s s' Hs); [| done].
    right. rewrite Hq. split_and!; try done. destruct (slave s); cbn; lia.
Qed.

(** The worker sleeps, the poller has just enqueued 7. *)
Definition asleep : state := mk (Some Poller) [7] P_notify C_wait [7] [].

Lemma asleep_reachable : reachable asleep.
Proof.
  exists 4%nat. eapply steps_slave; [apply c_poll_none |]. eapply steps_slave; [apply c_timeout |].
  do 2 (eapply steps_slave; [constructor |]). do 3 (eapply steps_poller; [constructor |]). apply steps_refl.
Qed.

Lemma no_lost_wakeup_witness :
  reachable asleep /\ (forall s', step (By Poller) asleep s' -> slave s' = C_woken) /\
  (exists r, got (mk None [] P_idle (C_unlock 7) [7] [7]) = [] ++ 7 :: r).
Proof.
  split; [exact asleep_reachable |].
  destruct (no_lost_wakeup asleep 7 [] asleep_reachable eq_refl eq_refl) as (_ & _ & Hw & Hn).
  split; [exact (proj2 (Hw eq_refl)) |]. apply (Hn 3%nat (mk None [] P_idle (C_work 7) [7] [7])); [| lia].
  do 2 (eapply steps_poller; [constructor |]). do 3 (eapply steps_slave; [constructor |]). apply steps_refl.
Defined.
