(* ===== verification/Hash.v ===== *)
(** * The hash functions (MurmurHash2.cc, hash.h)

    Every function of MurmurHash2.cc as it computes on the little-endian
    target.  [data] is the list of the bytes at a pointer and [data += n] drops
    [n] of them; [len] is the C [int] that counts the bytes left.  [Hash] of
    hash.h is the hash that routes a key to its tablet and bucket.

    The second half shows that the variants are the functions they claim to
    be: the aligned and the byte-wise variant compute [MurmurHash2], the
    incremental class computes [MurmurHash2A] of the concatenated input, and
    on the keys of eight bytes the hash of the store is onto. *)

From S2P Require Import Prelude.

Module Hash.

(** The byte [data[i]]. *)
Definition ix (data : list Init.Byte.byte) (i : nat) : Z :=
  match data !! i with Some b => byte.unsigned b | None => 0 end.

(** [*(uint32_t* )data] and [*(uint64_t* )data]. *)
Definition word32 (data : list Init.Byte.byte) : Z := le_combine (take 4 data).
Definition word64 (data : list Init.Byte.byte) : Z := le_combine (take 8 data).

(** [while (len >= w) { h = body(h, data); data += w; len -= w; }] *)
Fixpoint while_words {S} (w : nat) (body : S -> list Init.Byte.byte -> S) (fuel : nat)
    (h : S) (data : list Init.Byte.byte) (len : Z) : S * list Init.Byte.byte * Z :=
  match fuel with
  | O => (h, data, len)
  | Datatypes.S fuel' =>
      if Z.of_nat w <=? len then while_words w body fuel' (body h data) (drop w data) (len - Z.of_nat w)
      else (h, data, len)
  end.

(** Every round takes at least one of the [len] bytes. *)
Definition while4 {S} (body : S -> list Init.Byte.byte -> S) h data len :=
  while_words 4 body (Z.to_nat len) h data len.
Definition while8 {S} (body : S -> list Init.Byte.byte -> S) h data len :=
  while_words 8 body (Z.to_nat len) h data len.

Definition m : Z := 0x5bd1e995.

(** [mmix(h,k)] and [MIX(h,k,m)] assign to both of their arguments. *)
Definition mmix_k (k : Z) : Z :=
  let k := u32 (k * m) in
  let k := Z.lxor k (Z.shiftr k 24) in
  u32 (k * m).
Definition mmix_h (h k : Z) : Z := Z.lxor (u32 (h * m)) (mmix_k k).

(** [h ^= h >> 13; h *= m; h ^= h >> 15;] *)
Definition avalanche (h : Z) : Z :=
  let h := Z.lxor h (Z.shiftr h 13) in
  let h := u32 (h * m) in
  Z.lxor h (Z.shiftr h 15).

(** [switch(len) { case 3: h ^= data[2] << 16; case 2: h ^= data[1] << 8;
    case 1: h ^= data[0]; }], the cases falling through. *)
Definition xor_tail (h : Z) (data : list Init.Byte.byte) (len : Z) : Z :=
  let h := if len =? 3 then Z.lxor h (Z.shiftl (ix data 2) 16) else h in
  let h := if (len =? 3) || (len =? 2) then Z.lxor h (Z.shiftl (ix data 1) 8) else h in
  if (len =? 3) || (len =? 2) || (len =? 1) then Z.lxor h (ix data 0) else h.

(** The same with [h *= m] at the end of [case 1]. *)
Definition tail_mix (h : Z) (data : list Init.Byte.byte) (len : Z) : Z :=
  if (len =? 3) || (len =? 2) || (len =? 1) then u32 (xor_tail h data len * m) else h.

Definition MurmurHash2 (key : list Init.Byte.byte) (len seed : Z) : Z :=
  let h := Z.lxor seed (u32 len) in
  let '(h, data, len) := while4 (fun h data => mmix_h h (word32 data)) h key len in
  avalanche (tail_mix h data len).

Definition m64 : Z := 0xc6a4a7935bd1e995.

(** [k *= m; k ^= k >> r; k *= m; h ^= k; h *= m;] *)
Definition mix64 (h k : Z) : Z :=
  let k := u64 (k * m64) in
  let k := Z.lxor k (Z.shiftr k 47) in
  let k := u64 (k * m64) in
  u64 (Z.lxor h k * m64).

(** [case 7: h ^= uint64_t(data2[6]) << 48; ... case 1: h ^= data2[0];] *)
Definition xor_tail64 (h : Z) (data : list Init.Byte.byte) (n : nat) : Z :=
  foldr (fun i h => Z.lxor h (Z.shiftl (ix data i) (8 * Z.of_nat i))) h (seq 0 n).

Definition MurmurHash64A (key : list Init.Byte.byte) (len seed : Z) : Z :=
  let h := Z.lxor seed (u64 (len * m64)) in
  let '(h, data, len') := while8 (fun h data => mix64 h (word64 data)) h key len in
  let rest := Z.land len 7 in
  let h := if rest =? 0 then h else u64 (xor_tail64 h data (Z.to_nat rest) * m64) in
  let h := Z.lxor h (Z.shiftr h 47) in
  let h := u64 (h * m64) in
  Z.lxor h (Z.shiftr h 47).

(** Two words a round, the first into [h1] and the second into [h2]. *)
Definition mix_pair (h : Z * Z) (data : list Init.Byte.byte) : Z * Z :=
  (mmix_h h.1 (word32 data), mmix_h h.2 (word32 (drop 4 data))).

(** [h1 ^= h2 >> 18; h1 *= m; h2 ^= h1 >> 22; ...] *)
Definition finish64B (h1 h2 : Z) : Z :=
  let h1 := u32 (Z.lxor h1 (Z.shiftr h2 18) * m) in
  let h2 := u32 (Z.lxor h2 (Z.shiftr h1 22) * m) in
  let h1 := u32 (Z.lxor h1 (Z.shiftr h2 17) * m) in
  let h2 := u32 (Z.lxor h2 (Z.shiftr h1 19) * m) in
  Z.lor (u64 (Z.shiftl h1 32)) h2.

Definition MurmurHash64B (key : list Init.Byte.byte) (len seed : Z) : Z :=
  let h1 := Z.lxor (u32 seed) (u32 len) in
  let h2 := u32 (Z.shiftr seed 32) in
  let '((h1, h2), data, len) := while8 mix_pair (h1, h2) key len in
  let '(h1, data, len) :=
    if 4 <=? len then (mmix_h h1 (word32 data), drop 4 data, len - 4) else (h1, data, len) in
  let h2 := tail_mix h2 data len in
  finish64B h1 h2.

Definition MurmurHash2A (key : list Init.Byte.byte) (len seed : Z) : Z :=
  let l := u32 len in
  let '(h, data, len) := while4 (fun h data => mmix_h h (word32 data)) seed key len in
  let t := xor_tail 0 data len in
  let h := mmix_h h t in
  let h := mmix_h h l in
  avalanche h.

(** ** The incremental variant *)
Record CMurmurHash2A := mkHasher { m_hash : Z; m_tail : Z; m_count : Z; m_size : Z }.

Definition Begin (seed : Z) : CMurmurHash2A := mkHasher seed 0 0 0.

(** The body of the loop of [MixTail] on the byte [b]. *)
Definition mix_byte (c : CMurmurHash2A) (b : Z) : CMurmurHash2A :=
  let tail := Z.lor (m_tail c) (u32 (Z.shiftl b (m_count c * 8))) in
  let count := u32 (m_count c + 1) in
  if count =? 4 then mkHasher (mmix_h (m_hash c) tail) 0 0 (m_size c)
  else mkHasher (m_hash c) tail count (m_size c).

Fixpoint MixTail_loop (fuel : nat) (c : CMurmurHash2A) (data : list Init.Byte.byte) (len : Z) :
    CMurmurHash2A * list Init.Byte.byte * Z :=
  match fuel with
  | O => (c, data, len)
  | S fuel' =>
      if negb (len =? 0) && ((len <? 4) || negb (m_count c =? 0))
      then MixTail_loop fuel' (mix_byte c (ix data 0)) (drop 1 data) (len - 1)
      else (c, data, len)
  end.

Definition MixTail (c : CMurmurHash2A) (data : list Init.Byte.byte) (len : Z) :=
  MixTail_loop (Z.to_nat len) c data len.

Definition with_hash (h : Z) (c : CMurmurHash2A) := mkHasher h (m_tail c) (m_count c) (m_size c).

Definition Add (c : CMurmurHash2A) (data : list Init.Byte.byte) (len : Z) : CMurmurHash2A :=
  let c := mkHasher (m_hash c) (m_tail c) (m_count c) (u32 (m_size c + len)) in
  let '(c, data, len) := MixTail c data len in
  let '(c, data, len) := while4 (fun c data => with_hash (mmix_h (m_hash c) (word32 data)) c) c data len in
  (MixTail c data len).1.1.

(** The macros also change [m_tail] and [m_size]. *)
Definition End (c : CMurmurHash2A) : Z * CMurmurHash2A :=
  let h := mmix_h (m_hash c) (m_tail c) in
  let h := mmix_h h (m_size c) in
  let h := avalanche h in
  (h, mkHasher h (mmix_k (m_tail c)) (m_count c) (mmix_k (m_size c))).

(** ** The endian-neutral and the aligned variants *)

(** [k = data[0]; k |= data[1] << 8; k |= data[2] << 16; k |= data[3] << 24;] *)
Definition bytes32 (data : list Init.Byte.byte) : Z :=
  let k := ix data 0 in
  let k := Z.lor k (Z.shiftl (ix data 1) 8) in
  let k := Z.lor k (Z.shiftl (ix data 2) 16) in
  Z.lor k (u32 (Z.shiftl (ix data 3) 24)).

Definition MurmurHashNeutral2 (key : list Init.Byte.byte) (len seed : Z) : Z :=
  let h := Z.lxor seed (u32 len) in
  let '(h, data, len) := while4 (fun h data => mmix_h h (bytes32 data)) h key len in
  avalanche (tail_mix h data len).

(** [switch(n) { case 3: t |= data[2] << 16; case 2: ...; case 1: ... }] *)
Definition or_bytes (n : Z) (t : Z) (data : list Init.Byte.byte) : Z :=
  let t := if n =? 3 then Z.lor t (Z.shiftl (ix data 2) 16) else t in
  let t := if (n =? 3) || (n =? 2) then Z.lor t (Z.shiftl (ix data 1) 8) else t in
  if (n =? 3) || (n =? 2) || (n =? 1) then Z.lor t (ix data 0) else t.

(** The body of the main loop: [(h, t)] on the aligned word at [data]. *)
Definition mix_shifted (sl sr : Z) (ht : Z * Z) (data : list Init.Byte.byte) : Z * Z :=
  let d := word32 data in
  let t := Z.lor (Z.shiftr ht.2 sr) (u32 (Z.shiftl d sl)) in
  (mmix_h ht.1 t, d).

(** [align] is the low two bits of the address of the key. *)
Definition MurmurHashAligned2 (align : Z) (key : list Init.Byte.byte) (len seed : Z) : Z :=
  let h := Z.lxor seed (u32 len) in
  if negb (align =? 0) && (4 <=? len) then
    (* case 1: three bytes, case 2: two, case 3: one *)
    let t := u32 (Z.shiftl (or_bytes (4 - align) 0 key) (8 * align)) in
    let data := drop (Z.to_nat (4 - align)) key in
    let len := len - (4 - align) in
    let sl := 8 * (4 - align) in
    let sr := 8 * align in
    let '((h, t), data, len) := while4 (mix_shifted sl sr) (h, t) data len in
    let h :=
      if align <=? len then
        let d := or_bytes align 0 data in
        let k := Z.lor (Z.shiftr t sr) (u32 (Z.shiftl d sl)) in
        let h := mmix_h h k in
        tail_mix h (drop (Z.to_nat align) data) (len - align)
      else
        let d := or_bytes len 0 data in
        u32 (Z.lxor h (Z.lor (Z.shiftr t sr) (u32 (Z.shiftl d sl))) * m) in
    avalanche h
  else
    let '(h, data, len) := while4 (fun h data => mmix_h h (word32 data)) h key len in
    avalanche (tail_mix h data len).

(** ** The hash of a key (hash.h): the length, a [size_t], becomes an [int] *)
Definition int_of (z : Z) : Z := if u32 z <? 2 ^ 31 then u32 z else u32 z - 2 ^ 32.

Definition Hash (key : list Init.Byte.byte) (key_len : Z) : Z := MurmurHash64B key (int_of key_len) 103.

End Hash.

Import Hash.

Abbreviation len l := (Z.of_nat (length l)).

(** ** Reading bytes *)

Lemma ix_cons b l : ix (b :: l) 0 = byte.unsigned b.
Proof. reflexivity. Qed.

(** Lists are taken four bytes at a time. *)
Lemma list_ind4 (P : list Init.Byte.byte -> Prop) :
  (forall l, (length l < 4)%nat -> P l) ->
  (forall a b c d l, P l -> P (a :: b :: c :: d :: l)) -> forall l, P l.
Proof.
  intros Hs Hi l. remember (length l) as n eqn:E. revert l E.
  induction (lt_wf n) as [n _ IH]. intros l ->.
  destruct l as [|a [|b [|c [|d l]]]]; try (apply Hs; cbn; lia).
  apply Hi. by apply (IH (length l)); cbn; [lia |].
Qed.

Lemma shiftl_add_small a b k : 0 <= a < 2 ^ k -> 0 <= b -> 0 <= k -> Z.lor a (Z.shiftl b k) = Z.lxor a (Z.shiftl b k).
Proof.
  intros Ha Hb Hk. symmetry. apply Z.bits_inj'. intros i Hi. rewrite Z.lxor_spec, Z.lor_spec, Z.shiftl_spec by lia.
  destruct (Z.ltb_spec i k) as [H | H].
  - rewrite (Z.testbit_neg_r b) by lia. by rewrite xorb_false_r, orb_false_r.
  - rewrite <- (Z.mod_small a (2 ^ k)) by lia. rewrite Z.mod_pow2_bits_high by lia. by destruct (Z.testbit b (i - k)).
Qed.

Lemma unsigned_range b : 0 <= byte.unsigned b < 2 ^ 8.
Proof. apply byte.unsigned_range. Qed.

Lemma combine_cons b l : le_combine (b :: l) = Z.lor (byte.unsigned b) (Z.shiftl (le_combine l) 8).
Proof. reflexivity. Qed.

(** Evaluation of the tail switches at a length that is known. *)
Ltac eval_tail :=
  cbn [length]; change (Z.of_nat 0) with 0; change (Z.of_nat 1) with 1; change (Z.of_nat 2) with 2;
  change (Z.of_nat 3) with 3; change (Z.to_nat 1) with 1%nat; change (Z.to_nat 2) with 2%nat;
  change (Z.to_nat 3) with 3%nat; unfold xor_tail, or_bytes, ix; cbn -[Z.lxor Z.lor Z.shiftl le_combine];
  rewrite ?combine_cons, ?le_combine_nil, ?Z.shiftl_0_l, ?Z.lor_0_l, ?Z.lor_0_r.

(** The tail switches read the bytes that are left. *)
Lemma xor_tail_combine h l : (length l < 4)%nat -> xor_tail h l (len l) = Z.lxor h (le_combine l).
Proof.
  intros H. destruct l as [|a [|b [|c [|]]]]; cbn in H; try lia; eval_tail.
  - by rewrite Z.lxor_0_r.
  - done.
  - pose proof (unsigned_range a). pose proof (unsigned_range b).
    rewrite shiftl_add_small by lia. by rewrite Z.lxor_assoc, (Z.lxor_comm (byte.unsigned a)).
  - pose proof (unsigned_range a). pose proof (unsigned_range b). pose proof (unsigned_range c).
    assert (0 <= Z.lor (byte.unsigned b) (Z.shiftl (byte.unsigned c) 8)) by (apply Z.lor_nonneg; rewrite Z.shiftl_nonneg; lia).
    rewrite (shiftl_add_small (byte.unsigned a)), (shiftl_add_small (byte.unsigned b)) by lia.
    rewrite Z.shiftl_lxor, Z.shiftl_shiftl by lia. change (8 + 8) with 16.
    rewrite !Z.lxor_assoc. f_equal. by rewrite Z.lxor_comm, Z.lxor_assoc, <- Z.lxor_assoc, (Z.lxor_comm (Z.shiftl _ 8)), Z.lxor_assoc.
Qed.

Lemma or_bytes_combine n l : 0 <= n < 4 -> (Z.to_nat n <= length l)%nat -> or_bytes n 0 l = le_combine (take (Z.to_nat n) l).
Proof.
  intros Hn Hl. assert (n = 0 \/ n = 1 \/ n = 2 \/ n = 3) as Hc by lia.
  destruct l as [|a [|b [|c l]]]; destruct Hc as [-> | [-> | [-> | ->]]]; cbn in Hl; try lia; eval_tail; try done;
    rewrite ?Z.shiftl_lor, ?Z.shiftl_shiftl by lia; try (by rewrite Z.lor_comm).
  change (8 + 8) with 16. by rewrite (Z.lor_comm (Z.shiftl _ 16)), Z.lor_comm.
Qed.

(** ** The loops over words *)

(** What the four-byte loops compute: the mixed groups and the bytes left. *)
Fixpoint mix_all (h : Z) (l : list Init.Byte.byte) : Z * list Init.Byte.byte :=
  match l with
  | a :: b :: c :: d :: l' => mix_all (mmix_h h (le_combine [a; b; c; d])) l'
  | _ => (h, l)
  end.

Lemma mix_all_short h l : (length l < 4)%nat -> mix_all h l = (h, l).
Proof. intros H. destruct l as [|a [|b [|c [|]]]]; cbn in H; try lia; reflexivity. Qed.

Lemma mix_all_group h w l : length w = 4%nat -> mix_all h (w ++ l) = mix_all (mmix_h h (le_combine w)) l.
Proof. intros H. destruct w as [|a [|b [|c [|d [|]]]]]; cbn in H; try lia. reflexivity. Qed.

Lemma mix_all_rest h l : (length (mix_all h l).2 < 4)%nat.
Proof.
  revert h. induction l as [l H | a b c d l IH] using list_ind4; intros h; [by rewrite mix_all_short |].
  cbn [mix_all]. apply IH.
Qed.

Lemma mix_all_app h s t : mix_all h (s ++ t) = mix_all (mix_all h s).1 ((mix_all h s).2 ++ t).
Proof.
  revert h. induction s as [s H | a b c d s IH] using list_ind4; intros h; [by rewrite (mix_all_short h s) |].
  cbn [mix_all app]. apply IH.
Qed.

Lemma while_words_ext {S} w (f g : S -> list Init.Byte.byte -> S) fuel h data :
  (forall h data, (w <= length data)%nat -> f h data = g h data) ->
  while_words w f fuel h data (len data) = while_words w g fuel h data (len data).
Proof.
  intros E. revert h data. induction fuel as [|fuel IH]; intros h data; [done |]. cbn [while_words].
  destruct (Z.leb_spec (Z.of_nat w) (len data)) as [Hl | _]; [| done]. rewrite E by lia.
  replace (len data - Z.of_nat w) with (len (drop w data)) by (rewrite length_drop; lia). apply IH.
Qed.

Lemma while_words_map {S T} (f : S -> T) w (g : S -> list Init.Byte.byte -> S) (g' : T -> list Init.Byte.byte -> T) fuel h data n :
  (forall h data, f (g h data) = g' (f h) data) ->
  let r := while_words w g fuel h data n in
  while_words w g' fuel (f h) data n = (f r.1.1, r.1.2, r.2).
Proof.
  intros E r. subst r. revert h data n. induction fuel as [|fuel IH]; intros h data n; [done |]. cbn [while_words].
  case_match; [| done]. rewrite <- E. apply IH.
Qed.

Lemma while4_step {S} (body : S -> list Init.Byte.byte -> S) fuel h w l : length w = 4%nat ->
  while_words 4 body (Datatypes.S fuel) h (w ++ l) (len (w ++ l)) = while_words 4 body fuel (body h (w ++ l)) l (len l).
Proof.
  intros Hw. cbn [while_words]. rewrite (proj2 (Z.leb_le _ _)) by (rewrite length_app; lia).
  rewrite drop_app_length' by done. f_equal. rewrite length_app. lia.
Qed.

Lemma while4_short {S} (body : S -> list Init.Byte.byte -> S) fuel h l : (length l < 4)%nat ->
  while_words 4 body fuel h l (len l) = (h, l, len l).
Proof. intros Hl. destruct fuel; [done |]. cbn [while_words]. by rewrite (proj2 (Z.leb_gt _ _)) by lia. Qed.

Lemma while4_mix h l :
  while4 (fun h data => mmix_h h (word32 data)) h l (len l) =
    ((mix_all h l).1, (mix_all h l).2, len (mix_all h l).2).
Proof.
  unfold while4. assert (length l <= Z.to_nat (len l))%nat as Hf by lia. revert Hf. generalize (Z.to_nat (len l)) as fuel.
  revert h. induction l as [l H | a b c d l IH] using list_ind4; intros h fuel Hf.
  - by rewrite mix_all_short, while4_short.
  - destruct fuel as [|fuel]; [cbn in Hf; lia |].
    rewrite (while4_step _ fuel h [a; b; c; d] l eq_refl). apply IH. cbn in Hf. lia.
Qed.

(** ** The endian-neutral variant *)

Lemma bytes32_word32 l : (4 <= length l)%nat -> bytes32 l = word32 l.
Proof.
  intros H. destruct l as [|a [|b [|c [|d l]]]]; cbn in H; try lia.
  unfold bytes32, word32. cbn [take]. eval_tail. rewrite u32_small.
  - rewrite !Z.shiftl_lor, !Z.shiftl_shiftl by lia. by rewrite !Z.lor_assoc.
  - pose proof (unsigned_range d). rewrite Z.shiftl_mul_pow2 by lia. lia.
Qed.

Lemma neutral_is_MurmurHash2 key seed : MurmurHashNeutral2 key (len key) seed = MurmurHash2 key (len key) seed.
Proof.
  unfold MurmurHashNeutral2, MurmurHash2, while4. erewrite while_words_ext; [reflexivity |].
  intros h data H. cbn beta. by rewrite bytes32_word32.
Qed.

(** ** The aligned variant *)

Lemma combine_range l : 0 <= le_combine l < 2 ^ (8 * len l).
Proof. pose proof (le_combine_bound l). lia. Qed.

Lemma combine_take_range n l : 0 <= le_combine (take n l) < 2 ^ (8 * Z.of_nat n).
Proof.
  pose proof (combine_range (take n l)) as R. rewrite length_take in R.
  assert (2 ^ (8 * Z.of_nat (n `min` length l)) <= 2 ^ (8 * Z.of_nat n)) by (apply Z.pow_le_mono_r; lia). lia.
Qed.

Lemma combine_app s t : le_combine (s ++ t) = Z.lor (le_combine s) (Z.shiftl (le_combine t) (8 * len s)).
Proof. rewrite le_combine_app. do 2 f_equal. lia. Qed.

(** [d << sl] keeps the low bytes of [d]. *)
Lemma shift_low d a : 0 < a < 4 ->
  u32 (Z.shiftl (le_combine d) (8 * (4 - a))) = Z.shiftl (le_combine (take (Z.to_nat a) d)) (8 * (4 - a)).
Proof.
  intros Ha. rewrite !Z.shiftl_mul_pow2 by lia. unfold u32.
  replace (2 ^ 32) with (2 ^ (8 * a) * 2 ^ (8 * (4 - a))) by (rewrite <- Z.pow_add_r by lia; f_equal; lia).
  rewrite Z.mul_mod_distr_r by lia. f_equal. rewrite le_combine_firstn. f_equal. f_equal. lia.
Qed.

(** [(t >> sr) | (d << sl)] joins the pending bytes of [w] with the first of [d]. *)
Lemma shift_join w d a : length w = 4%nat -> 0 < a < 4 ->
  Z.lor (Z.shiftr (le_combine w) (8 * a)) (u32 (Z.shiftl (le_combine d) (8 * (4 - a)))) =
    le_combine (drop (Z.to_nat a) w ++ take (Z.to_nat a) d).
Proof.
  intros Hw Ha. rewrite shift_low, combine_app by lia.
  replace (8 * len (drop (Z.to_nat a) w)) with (8 * (4 - a)) by (rewrite length_drop; lia). f_equal.
  rewrite <- (take_drop (Z.to_nat a) w) at 1. rewrite combine_app.
  replace (8 * len (take (Z.to_nat a) w)) with (8 * a) by (rewrite length_take; lia).
  rewrite Z.shiftr_lor, Z.shiftr_shiftl_l, Z.sub_diag, Z.shiftl_0_r by lia.
  pose proof (combine_take_range (Z.to_nat a) w) as R. replace (8 * Z.of_nat (Z.to_nat a)) with (8 * a) in R by lia.
  rewrite Z.shiftr_div_pow2, Z.div_small by lia. apply Z.lor_0_l.
Qed.

Lemma combine_zeros n : le_combine (replicate n Byte.x00) = 0.
Proof. induction n as [|n IH]; [done |]. cbn [replicate]. by rewrite combine_cons, IH. Qed.

Lemma shift_loop a h w data : 0 < a < 4 -> length w = 4%nat ->
  exists h' w' data', while4 (mix_shifted (8 * (4 - a)) (8 * a)) (h, le_combine w) data (len data) =
      ((h', le_combine w'), data', len data') /\
    length w' = 4%nat /\ (length data' < 4)%nat /\
    mix_all h (drop (Z.to_nat a) w ++ data) = mix_all h' (drop (Z.to_nat a) w' ++ data').
Proof.
  intros Ha. unfold while4. assert (length data <= Z.to_nat (len data))%nat as Hf by lia.
  revert Hf. generalize (Z.to_nat (len data)) as fuel. revert h w.
  induction data as [l H | b0 b1 b2 b3 l IH] using list_ind4; intros h w fuel Hf Hw.
  - exists h, w, l. by rewrite while4_short.
  - destruct fuel as [|fuel]; [cbn in Hf; lia |]. set (d := [b0; b1; b2; b3]).
    change (b0 :: b1 :: b2 :: b3 :: l) with (d ++ l). rewrite (while4_step _ fuel _ d l eq_refl).
    unfold mix_shifted at 2. cbn [fst snd]. change (word32 (d ++ l)) with (le_combine d). rewrite shift_join by done.
    destruct (IH (mmix_h h (le_combine (drop (Z.to_nat a) w ++ take (Z.to_nat a) d))) d fuel ltac:(cbn in Hf; lia) eq_refl)
      as (h' & w' & data' & E & H1 & H2 & H3).
    exists h', w', data'. split_and!; [exact E | done | done |]. rewrite <- H3, <- mix_all_group.
    + by rewrite <- app_assoc, (app_assoc (take _ d)), take_drop.
    + rewrite length_app, length_drop, length_take. subst d. cbn [length]. lia.
Qed.

Lemma tail_mix_combine h l : (length l < 4)%nat ->
  tail_mix h l (len l) = if decide (l = []) then h else u32 (Z.lxor h (le_combine l) * m).
Proof.
  intros H. unfold tail_mix. rewrite xor_tail_combine by done.
  destruct l as [|a [|b [|c [|]]]]; cbn in H; try lia; reflexivity.
Qed.

(** The pointer's alignment does not matter. *)
Lemma aligned_is_MurmurHash2 align key seed : 0 <= align < 4 ->
  MurmurHashAligned2 align key (len key) seed = MurmurHash2 key (len key) seed.
Proof.
  intros Ha. unfold MurmurHashAligned2, MurmurHash2. set (h0 := Z.lxor seed (u32 (len key))).
  rewrite while4_mix. destruct (Z.eqb_spec align 0) as [-> | Hne]; cbn [negb andb]; [done |].
  destruct (Z.leb_spec 4 (len key)) as [Hl | _]; [| done].
  set (p := take (Z.to_nat (4 - align)) key). set (data := drop (Z.to_nat (4 - align)) key).
  set (w := replicate (Z.to_nat align) Byte.x00 ++ p).
  assert (length p = Z.to_nat (4 - align)) as Hp by (subst p; rewrite length_take; lia).
  assert (length w = 4%nat) as Hw by (subst w; rewrite length_app, length_replicate; lia).
  assert (drop (Z.to_nat align) w = p) as Hd by (subst w; by rewrite drop_app_length' by (by rewrite length_replicate)).
  assert (u32 (Z.shiftl (or_bytes (4 - align) 0 key) (8 * align)) = le_combine w) as ->.
  { rewrite or_bytes_combine by lia. fold p. subst w. rewrite combine_app, length_replicate.
    rewrite combine_zeros, Z.lor_0_l.
    replace (8 * Z.of_nat (Z.to_nat align)) with (8 * (4 - (4 - align))) by lia.
    replace (8 * align) with (8 * (4 - (4 - align))) by lia. rewrite shift_low by lia.
    by rewrite <- Hp, firstn_all. }
  replace (len key - (4 - align)) with (len data) by (subst data; rewrite length_drop; lia).
  destruct (shift_loop align h0 w data ltac:(lia) Hw) as (h' & w' & data' & -> & Hw' & Hs & E).
  rewrite Hd in E. subst p data. rewrite take_drop in E. rewrite E. clear E Hd Hp Hw w. f_equal.
  destruct (Z.leb_spec align (len data')) as [Hle | Hlt].
  - rewrite or_bytes_combine by lia. rewrite shift_join by lia.
    rewrite take_take, Nat.min_id.
    replace (drop (Z.to_nat align) w' ++ data') with
      ((drop (Z.to_nat align) w' ++ take (Z.to_nat align) data') ++ drop (Z.to_nat align) data')
      by (by rewrite <- app_assoc, take_drop).
    rewrite mix_all_group by (rewrite length_app, length_drop, length_take; lia).
    rewrite mix_all_short by (rewrite length_drop; lia). cbn [fst snd]. f_equal. rewrite length_drop. lia.
  - rewrite mix_all_short by (rewrite length_app, length_drop; lia). cbn [fst snd].
    rewrite tail_mix_combine by (rewrite length_app, length_drop; lia).
    rewrite decide_False by (intros E%(f_equal length); rewrite length_app, length_drop in E; cbn in E; lia).
    do 2 f_equal. rewrite or_bytes_combine by lia. rewrite shift_join by lia.
    do 3 f_equal. rewrite take_take, take_ge by lia. done.
Qed.

(** ** The incremental variant *)

(** The hasher after the bytes [s], with the size counted apart. *)
Definition hasher_after (size seed : Z) (s : list Init.Byte.byte) : CMurmurHash2A :=
  mkHasher (mix_all seed s).1 (le_combine (mix_all seed s).2) (len (mix_all seed s).2) size.

Lemma mix_byte_after size seed s b :
  mix_byte (hasher_after size seed s) (byte.unsigned b) = hasher_after size seed (s ++ [b]).
Proof.
  unfold mix_byte, hasher_after. cbn [m_hash m_tail m_count m_size]. rewrite mix_all_app.
  set (h := (mix_all seed s).1). set (r := (mix_all seed s).2). pose proof (mix_all_rest seed s) as Hr. fold r in Hr.
  assert (u32 (Z.shiftl (byte.unsigned b) (len r * 8)) = Z.shiftl (byte.unsigned b) (8 * len r)) as ->.
  { rewrite (Z.mul_comm (len r)). apply u32_small. rewrite Z.shiftl_mul_pow2 by lia. pose proof (unsigned_range b).
    assert (0 < 2 ^ (8 * len r)) by (apply Z.pow_pos_nonneg; lia).
    assert (2 ^ (8 * len r) <= 2 ^ 24) by (apply Z.pow_le_mono_r; lia). nia. }
  assert (le_combine (r ++ [b]) = Z.lor (le_combine r) (Z.shiftl (byte.unsigned b) (8 * len r))) as <-
    by (by rewrite combine_app, le_combine_1).
  rewrite u32_small by lia. destruct (Z.eqb_spec (len r + 1) 4) as [E | E].
  - pose proof (mix_all_group h (r ++ [b]) [] ltac:(rewrite length_app; cbn; lia)) as ->%(eq_trans (f_equal _ (eq_sym (app_nil_r _)))).
    done.
  - rewrite mix_all_short by (rewrite length_app; cbn; lia). cbn [fst snd]. rewrite length_app. cbn [length]. f_equal. lia.
Qed.

(** [MixTail] takes bytes until a group is complete, and all of them when
    fewer than four are left. *)
Lemma MixTail_after size seed s data :
  exists d1 d2, data = d1 ++ d2 /\ MixTail (hasher_after size seed s) data (len data) = (hasher_after size seed (s ++ d1), d2, len d2) /\
    (d2 = [] \/ 4 <= len d2 /\ (mix_all seed (s ++ d1)).2 = []).
Proof.
  unfold MixTail. assert (length data <= Z.to_nat (len data))%nat as Hf by lia. revert Hf.
  generalize (Z.to_nat (len data)) as fuel. revert s. induction data as [|b data IH]; intros s fuel Hf.
  { exists [], []. rewrite (app_nil_r s). split_and!; [done | by destruct fuel | by left]. }
  destruct fuel as [|fuel]; [cbn in Hf; lia |]. cbn [MixTail_loop].
  destruct (negb (len (b :: data) =? 0) && ((len (b :: data) <? 4) || negb (m_count (hasher_after size seed s) =? 0))) eqn:C.
  - rewrite ix_cons, mix_byte_after. change (drop 1 (b :: data)) with data.
    replace (len (b :: data) - 1) with (len data) by (cbn [length]; lia).
    destruct (IH (s ++ [b]) fuel ltac:(cbn in Hf; lia)) as (d1 & d2 & -> & E & H).
    exists (b :: d1), d2. rewrite <- app_assoc in E, H. by split_and!.
  - exists [], (b :: data). rewrite (app_nil_r s). split_and!; [done | done | right].
    apply andb_false_iff in C. destruct C as [C | C]; [apply negb_false_iff, Z.eqb_eq in C; cbn in C; lia |].
    apply orb_false_iff in C. destruct C as [C1%Z.ltb_ge C2%negb_false_iff%Z.eqb_eq]. split; [done |].
    apply length_zero_iff_nil. cbn in C2. lia.
Qed.

(** The groups mixed are a prefix of the input. *)
Lemma mix_all_prefix h l : exists u, l = u ++ (mix_all h l).2 /\ mix_all h u = ((mix_all h l).1, []).
Proof.
  revert h. induction l as [l H | a b c d l IH] using list_ind4; intros h.
  - exists []. by rewrite mix_all_short.
  - cbn [mix_all]. destruct (IH (mmix_h h (le_combine [a; b; c; d]))) as (u & E & Eh).
    exists (a :: b :: c :: d :: u). cbn [app mix_all]. rewrite <- Eh. split; [by rewrite <- E | done].
Qed.

Lemma with_hash_loop c l :
  while4 (fun c data => with_hash (mmix_h (m_hash c) (word32 data)) c) c l (len l) =
    (with_hash (mix_all (m_hash c) l).1 c, (mix_all (m_hash c) l).2, len (mix_all (m_hash c) l).2).
Proof.
  pose proof (while_words_map (fun h => with_hash h c) 4 (fun h data => mmix_h h (word32 data))
    (fun c data => with_hash (mmix_h (m_hash c) (word32 data)) c) (Z.to_nat (len l)) (m_hash c) l (len l) ltac:(done)) as E.
  cbn zeta in E. fold (while4 (fun h data => mmix_h h (word32 data)) (m_hash c) l (len l)) in E. rewrite while4_mix in E.
  cbn [fst snd] in E. destruct c. exact E.
Qed.

Lemma Add_after seed s data :
  Add (hasher_after (u32 (len s)) seed s) data (len data) = hasher_after (u32 (len (s ++ data))) seed (s ++ data).
Proof.
  unfold Add. cbn [m_hash m_tail m_count m_size hasher_after].
  assert (u32 (u32 (len s) + len data) = u32 (len (s ++ data))) as ->
    by (rewrite length_app; unfold u32; rewrite Zplus_mod_idemp_l; f_equal; lia).
  set (z := u32 (len (s ++ data))). fold (hasher_after z seed s).
  destruct (MixTail_after z seed s data) as (d1 & d2 & -> & -> & H). rewrite app_assoc.
  set (s1 := s ++ d1) in *. destruct H as [-> | [_ Hr]]; [by rewrite app_nil_r |].
  rewrite with_hash_loop. cbn [fst snd m_hash hasher_after].
  destruct (mix_all_prefix (mix_all seed s1).1 d2) as (u & Eu & Em).
  assert (mix_all seed (s1 ++ u) = ((mix_all (mix_all seed s1).1 d2).1, [])) as Eh by (by rewrite mix_all_app, Hr).
  set (r := (mix_all (mix_all seed s1).1 d2).2) in *.
  assert (with_hash (mix_all (mix_all seed s1).1 d2).1 (hasher_after z seed s1) = hasher_after z seed (s1 ++ u)) as ->
    by (unfold hasher_after, with_hash; by rewrite Eh, Hr).
  destruct (MixTail_after z seed (s1 ++ u) r) as (e1 & e2 & Er & -> & [-> | [Hl _]]).
  - cbn [fst]. rewrite Eu, Er. f_equal. by rewrite app_nil_r, !app_assoc.
  - exfalso. pose proof (mix_all_rest (mix_all seed s1).1 d2) as Hs. fold r in Hs. rewrite Er, length_app in Hs. lia.
Qed.

(** C34. The incremental class computes [MurmurHash2A] of the concatenation of
    the blocks it is given, however the input is cut into blocks. *)
Theorem incremental_is_MurmurHash2A seed (blocks : list (list Init.Byte.byte)) :
  (End (foldl (fun c d => Add c d (len d)) (Begin seed) blocks)).1 = MurmurHash2A (concat blocks) (len (concat blocks)) seed.
Proof.
  assert (forall s, foldl (fun c d => Add c d (len d)) (hasher_after (u32 (len s)) seed s) blocks =
    hasher_after (u32 (len (s ++ concat blocks))) seed (s ++ concat blocks)) as E.
  { induction blocks as [|d blocks IH]; intros s; cbn [foldl concat]; [by rewrite app_nil_r |].
    by rewrite Add_after, IH, <- app_assoc. }
  specialize (E []). change (hasher_after (u32 (len [])) seed []) with (Begin seed) in E. rewrite E. cbn [app].
  unfold End, MurmurHash2A, hasher_after. cbn [fst m_hash m_tail m_size]. rewrite while4_mix.
  rewrite xor_tail_combine by apply mix_all_rest. by rewrite Z.lxor_0_l.
Qed.

(** The aligned and the endian-neutral variant compute [MurmurHash2],
    whatever the alignment of the key. *)
Lemma variants_agree align key seed : 0 <= align < 4 ->
  MurmurHashAligned2 align key (len key) seed = MurmurHash2 key (len key) seed /\
  MurmurHashNeutral2 key (len key) seed = MurmurHash2 key (len key) seed.
Proof. intros Ha. split; [by apply aligned_is_MurmurHash2 | apply neutral_is_MurmurHash2]. Qed.

Definition fox : list Init.Byte.byte := map byte.of_Z [116; 104; 101; 32; 113; 117; 105; 99; 107; 32; 102; 111; 120].

Lemma variants_agree_witness : 0 <= 3 < 4 /\ MurmurHashAligned2 3 fox (len fox) 7 = MurmurHash2 fox (len fox) 7.
Proof. split; [lia | exact (proj1 (variants_agree 3 fox 7 ltac:(lia)))]. Defined.

Example murmur_values :
  MurmurHash2 [] 0 0 = 0 /\ MurmurHash2 fox 13 0 = MurmurHashAligned2 2 fox 13 0 /\
  MurmurHash64A [] 0 0 = 0 /\ MurmurHash64B [] 0 0 = 0.
Proof. vm_compute. done. Qed.

(** ** The hash of the store on keys of eight bytes

    Every step of [MurmurHash64B] on a key of eight bytes can be undone. *)

(** The inverse of [m] modulo 2^32. *)
Definition m_inv : Z := 0xe59b19bd.

Definition unmix_k (k : Z) : Z :=
  let k := u32 (k * m_inv) in
  let k := Z.lxor k (Z.shiftr k 24) in
  u32 (k * m_inv).

Definition unfinish (h : Z) : Z * Z :=
  let h1 := Z.shiftr h 32 in let h2 := u32 h in
  let h2 := Z.lxor (u32 (h2 * m_inv)) (Z.shiftr h1 19) in
  let h1 := Z.lxor (u32 (h1 * m_inv)) (Z.shiftr h2 17) in
  let h2 := Z.lxor (u32 (h2 * m_inv)) (Z.shiftr h1 22) in
  let h1 := Z.lxor (u32 (h1 * m_inv)) (Z.shiftr h2 18) in
  (h1, h2).

(** A key of eight bytes with the given hash. *)
Definition key_of_hash (h : Z) : list Init.Byte.byte :=
  let '(h1, h2) := unfinish h in
  let k1 := unmix_k (Z.lxor h1 (u32 (Z.lxor 103 8 * m))) in
  let k2 := unmix_k h2 in
  le_split 4 k1 ++ le_split 4 k2.

Lemma unmul k : 0 <= k < 2 ^ 32 -> u32 (u32 (k * m_inv) * m) = k.
Proof.
  intros Hk. unfold u32. rewrite Zmult_mod_idemp_l, <- Z.mul_assoc. change (m_inv * m) with (1 + (m_inv * m / 2 ^ 32) * 2 ^ 32).
  rewrite Z.mul_add_distr_l, Z.mul_1_r, Z.mul_assoc, Z_mod_plus_full. apply Z.mod_small. lia.
Qed.

Lemma lxor_range n a b : 0 <= n -> 0 <= a < 2 ^ n -> 0 <= b < 2 ^ n -> 0 <= Z.lxor a b < 2 ^ n.
Proof.
  intros Hn Ha Hb. assert (Z.lxor a b mod 2 ^ n = Z.lxor a b) as <-.
  { apply Z.bits_inj'. intros i Hi. destruct (Z.ltb_spec i n); [by rewrite Z.mod_pow2_bits_low by lia |].
    rewrite Z.mod_pow2_bits_high by lia. rewrite Z.lxor_spec, <- (Z.mod_small a (2 ^ n)), <- (Z.mod_small b (2 ^ n)) by lia.
    by rewrite !Z.mod_pow2_bits_high by lia. }
  apply Z.mod_pos_bound. lia.
Qed.

Lemma lor_range n a b : 0 <= n -> 0 <= a < 2 ^ n -> 0 <= b < 2 ^ n -> 0 <= Z.lor a b < 2 ^ n.
Proof.
  intros Hn Ha Hb. assert (Z.lor a b mod 2 ^ n = Z.lor a b) as <-.
  { apply Z.bits_inj'. intros i Hi. destruct (Z.ltb_spec i n); [by rewrite Z.mod_pow2_bits_low by lia |].
    rewrite Z.mod_pow2_bits_high by lia. rewrite Z.lor_spec, <- (Z.mod_small a (2 ^ n)), <- (Z.mod_small b (2 ^ n)) by lia.
    by rewrite !Z.mod_pow2_bits_high by lia. }
  apply Z.mod_pos_bound. lia.
Qed.

Lemma u32_in_u64 z : 0 <= u32 z < 2 ^ 64.
Proof. pose proof (u32_range z). lia. Qed.

(** A hash fits its type. *)
Lemma Hash_range key n : 0 <= Hash key n < 2 ^ 64.
Proof.
  unfold Hash, MurmurHash64B. generalize (int_of n). intros len. cbv zeta.
  repeat match goal with |- context [let '(_, _) := ?x in _] => destruct x end.
  repeat case_match; apply lor_range; (lia || apply u32_in_u64 || (split; [apply Z.mod_pos_bound; lia | apply Z.mod_pos_bound; lia])).
Qed.

Lemma shiftr_range a k n : 0 <= k -> 0 <= a < 2 ^ n -> 0 <= Z.shiftr a k < 2 ^ n.
Proof.
  intros Hk Ha. rewrite Z.shiftr_div_pow2 by lia. assert (0 < 2 ^ k) by (apply Z.pow_pos_nonneg; lia).
  split; [apply Z.div_pos; lia |]. apply Z.le_lt_trans with a; [| lia]. apply Z.div_le_upper_bound; nia.
Qed.

Lemma lxor_cancel a b : Z.lxor (Z.lxor a b) b = a.
Proof. by rewrite Z.lxor_assoc, Z.lxor_nilpotent, Z.lxor_0_r. Qed.

Lemma xorshift_twice x : 0 <= x < 2 ^ 32 ->
  Z.lxor (Z.lxor x (Z.shiftr x 24)) (Z.shiftr (Z.lxor x (Z.shiftr x 24)) 24) = x.
Proof.
  intros Hx. rewrite Z.shiftr_lxor, Z.shiftr_shiftr by lia. change (24 + 24) with 48.
  rewrite (Z.shiftr_div_pow2 x 48), (Z.div_small x (2 ^ 48)) by lia. rewrite Z.lxor_0_r. apply lxor_cancel.
Qed.

Lemma mmix_unmix k : 0 <= k < 2 ^ 32 -> mmix_k (unmix_k k) = k.
Proof.
  intros Hk. unfold mmix_k, unmix_k. pose proof (u32_range (k * m_inv)) as Hx.
  rewrite unmul by (apply lxor_range; [lia | done | apply shiftr_range; [lia | done]]).
  rewrite xorshift_twice by done. by apply unmul.
Qed.

(** One step of the final mixing and its inverse. *)
Lemma undo x y k : 0 <= x < 2 ^ 32 -> u32 (Z.lxor (Z.lxor (u32 (x * m_inv)) (Z.shiftr y k)) (Z.shiftr y k) * m) = x.
Proof. intros Hx. by rewrite lxor_cancel, unmul. Qed.

Lemma undo_range x y k : 0 <= k -> 0 <= y < 2 ^ 32 -> 0 <= Z.lxor (u32 (x * m_inv)) (Z.shiftr y k) < 2 ^ 32.
Proof. intros Hk Hy. apply lxor_range; [lia | apply u32_range | by apply shiftr_range]. Qed.

Lemma unfinish_spec h : 0 <= h < 2 ^ 64 ->
  0 <= (unfinish h).1 < 2 ^ 32 /\ 0 <= (unfinish h).2 < 2 ^ 32 /\ finish64B (unfinish h).1 (unfinish h).2 = h.
Proof.
  intros Hh. unfold unfinish. cbv zeta. cbn [fst snd].
  assert (0 <= Z.shiftr h 32 < 2 ^ 32) as H1
    by (rewrite Z.shiftr_div_pow2 by lia; split; [apply Z.div_pos; lia | apply Z.div_lt_upper_bound; lia]).
  pose proof (u32_range h) as H2. remember (Z.shiftr h 32) as h1 eqn:E1. remember (u32 h) as h2 eqn:E2.
  remember (Z.lxor (u32 (h2 * m_inv)) (Z.shiftr h1 19)) as a2 eqn:A2.
  remember (Z.lxor (u32 (h1 * m_inv)) (Z.shiftr a2 17)) as a1 eqn:A1.
  remember (Z.lxor (u32 (a2 * m_inv)) (Z.shiftr a1 22)) as b2 eqn:B2.
  remember (Z.lxor (u32 (a1 * m_inv)) (Z.shiftr b2 18)) as b1 eqn:B1.
  assert (0 <= a2 < 2 ^ 32) as R2 by (subst a2; by apply undo_range).
  assert (0 <= a1 < 2 ^ 32) as R1 by (subst a1; by apply undo_range).
  assert (0 <= b2 < 2 ^ 32) as Q2 by (subst b2; by apply undo_range).
  assert (0 <= b1 < 2 ^ 32) as Q1 by (subst b1; by apply undo_range).
  split_and!; try lia. unfold finish64B. cbv zeta.
  replace (u32 (Z.lxor b1 (Z.shiftr b2 18) * m)) with a1 by (subst b1; by rewrite undo).
  replace (u32 (Z.lxor b2 (Z.shiftr a1 22) * m)) with a2 by (subst b2; by rewrite undo).
  replace (u32 (Z.lxor a1 (Z.shiftr a2 17) * m)) with h1 by (subst a1; by rewrite undo).
  replace (u32 (Z.lxor a2 (Z.shiftr h1 19) * m)) with h2 by (subst a2; by rewrite undo).
  rewrite (u64_small (Z.shiftl _ 32)) by (rewrite Z.shiftl_mul_pow2 by lia; lia).
  subst h1 h2. unfold u32. rewrite <- Z.land_ones by lia. clear.
  apply Z.bits_inj'. intros i Hi. rewrite Z.lor_spec, Z.land_spec, Z.testbit_ones, Z.shiftl_spec by lia.
  destruct (Z.ltb_spec i 32) as [H | H].
  - rewrite (Z.testbit_neg_r (Z.shiftr h 32)) by lia. rewrite (proj2 (Z.leb_le 0 i)) by lia. by rewrite andb_true_r.
  - rewrite Z.shiftr_spec by lia. rewrite !andb_false_r, orb_false_r. f_equal. lia.
Qed.

(** C35. The hash of the store is onto on the keys of eight bytes: the function
    [key_of_hash] finds a key of that length for every 64-bit hash, so in
    particular for the hashes that select no tablet. *)
Theorem Hash_onto h : 0 <= h < 2 ^ 64 -> length (key_of_hash h) = 8%nat /\ Hash (key_of_hash h) 8 = h.
Proof.
  intros Hh. destruct (unfinish_spec h Hh) as (R1 & R2 & E).
  unfold key_of_hash. destruct (unfinish h) as [h1 h2]. cbn [fst snd] in *.
  split; [by rewrite length_app, !length_le_split |].
  set (k1 := unmix_k _). set (k2 := unmix_k h2). rewrite <- E. unfold Hash, MurmurHash64B.
  change (int_of 8) with 8. change (u32 8) with 8. change (u32 103) with 103. change (u32 (Z.shiftr 103 32)) with 0.
  unfold while8. change (Z.to_nat 8) with 8%nat. cbn [while_words].
  change (Z.of_nat 8 <=? 8) with true. cbv iota. change (8 - Z.of_nat 8) with 0. change (Z.of_nat 8 <=? 0) with false. cbv iota.
  change (4 <=? 0) with false. cbv iota. change (tail_mix ?x ?d 0) with x. unfold mix_pair, word32. cbn [fst snd].
  rewrite drop_app_length', !take_app_length', take_ge, !le_combine_split by (rewrite ?length_le_split; lia || done).
  change (Z.of_nat 4 * 8) with 32.
  assert (forall k, unmix_k k mod 2 ^ 32 = unmix_k k) as Es by (intros k; apply Z.mod_small, u32_range).
  subst k1 k2. rewrite !Es. unfold mmix_h. rewrite !mmix_unmix by (done || (apply lxor_range; [lia | done | apply u32_range])).
  change (u32 (0 * m)) with 0. rewrite Z.lxor_0_l. rewrite Z.lxor_comm, lxor_cancel. done.
Qed.

Definition lost_key : list Init.Byte.byte := key_of_hash (2 ^ 64 - 1).

Lemma Hash_onto_witness : 0 <= 2 ^ 64 - 1 < 2 ^ 64 /\ Hash lost_key 8 = 2 ^ 64 - 1.
Proof. split; [lia | exact (proj2 (Hash_onto (2 ^ 64 - 1) ltac:(lia)))]. Defined.
