(* ===== verification/Index.v ===== *)
(** * [index.h], [index.cc]: which server holds which tablet

    The coordinator fills an [IndexManager] as servers join; every server and
    client then maps key hashes to tablets and servers with a copy of it.  The
    cluster configuration of [common.h] is a parameter of the operations that
    fill it. *)

From S2P Require Import Prelude Wire Infiniband.

(** [struct TabletInfo]; the union of [master] and [backups] is the list of
    its words. *)
Record TabletInfo := mkTabletInfo {
  t_id : Z; t_server_id : Z; t_is_backup : bool; t_qpis : list Infiniband.QueuePairInfo; t_peers : list Z }.

Definition master (t : TabletInfo) : Z := t_peers t !!! 0%nat.
Definition backups (t : TabletInfo) : list Z := t_peers t.

(** [struct ServerInfo] *)
Record ServerInfo := mkServerInfo {
  s_id : Z; s_active : bool; s_addr : string; s_ib_addr : Infiniband.Address; s_tablets : list Z }.

#[export] Instance TabletInfo_eq_dec : EqDecision TabletInfo.
Proof. solve_decision. Defined.
#[export] Instance ServerInfo_eq_dec : EqDecision ServerInfo.
Proof. solve_decision. Defined.

Record IndexManager := mkIndex {
  key_tablet_map_ : list Z; tablets_ : list TabletInfo; servers_ : list ServerInfo }.

Definition with_map (l : list Z) (im : IndexManager) : IndexManager := mkIndex l (tablets_ im) (servers_ im).
Definition with_tablets (l : list TabletInfo) (im : IndexManager) : IndexManager :=
  mkIndex (key_tablet_map_ im) l (servers_ im).
Definition with_servers (l : list ServerInfo) (im : IndexManager) : IndexManager :=
  mkIndex (key_tablet_map_ im) (tablets_ im) l.

(** An element of a [std::array]; outside it anything can happen. *)
Definition at_ {S A} (l : list A) (i : Z) : M S A :=
  fun s => match (if i <? 0 then None else l !! Z.to_nat i) with Some x => Ok x s | None => Err Segv s end.

Module IndexManager.

(** ** Lookups *)

(** [uint64_t] to [double]: 53 significant bits, ties to even. *)
Definition to_double (z : Z) : Z :=
  let e := Z.log2 z - 52 in
  if e <=? 0 then z
  else
    let q := z / 2 ^ e in
    let r := z mod 2 ^ e in
    2 ^ e * (if (r <? 2 ^ (e - 1)) || ((r =? 2 ^ (e - 1)) && Z.even q) then q else q + 1).

(** [key_hash / ((1.0 + kMaxKeyHash) / key_tablet_map_.size())], truncated:
    the sum is [2 ^ 64], and the number of tablets is a power of two, so both
    divisions are exact. *)
Definition tablet_index (key_hash : Z) : Z := to_double key_hash * kNumTablets / 2 ^ 64.

Definition GetTabletId {S} (im : IndexManager) (key_hash : Z) : M S Z :=
  at_ (key_tablet_map_ im) (tablet_index key_hash).

Definition GetTablet {S} (im : IndexManager) (id : Z) : M S TabletInfo := at_ (tablets_ im) id.

Definition GetTablet_by_hash {S} (im : IndexManager) (key_hash : Z) : M S TabletInfo :=
  id <- GetTabletId im key_hash ;; GetTablet im id.

Definition GetServerId {S} (im : IndexManager) (key_hash : Z) : M S Z :=
  t <- GetTablet_by_hash im key_hash ;; ret (t_server_id t).

Definition GetServer_by_id {S} (im : IndexManager) (id : Z) : M S ServerInfo := at_ (servers_ im) id.

Definition GetServer {S} (im : IndexManager) (key_hash : Z) : M S ServerInfo :=
  id <- GetServerId im key_hash ;;
  ans <- GetServer_by_id im id ;;
  assert (s_id ans =? id) ;;;
  ret ans.

(** ** A server joins *)

Section Cluster.
(** [kNumReplicas], [kNumServers], [kNumTabletsPerServer] *)
Variables (replicas servers per_server : Z).

(** `r_idx`: replication index; `s_idx`: server index; `t_idx`: tablet index;
    the arithmetic is that of [uint32_t], here and below *)
Definition CalcTabletId (s_idx r_idx t_idx : Z) : Z :=
  u32 (s_idx * (per_server * (1 + replicas)) + r_idx * per_server + t_idx).

(** The static counter of [AllocServerId] and the index. *)
Record state := mkState { next_id : Z; index : IndexManager }.

Definition AllocServerId : M state Z :=
  fun s => Ok (next_id s) (mkState (u32 (next_id s + 1)) (index s)).

Definition modify_index (f : IndexManager -> IndexManager) : M state unit :=
  modify (fun s => mkState (next_id s) (f (index s))).

(** [tablets_[id].field = ...] *)
Definition set_tablet (id : Z) (f : TabletInfo -> TabletInfo) : M state unit :=
  im <- gets index ;;
  at_ (tablets_ im) id ;;;
  modify_index (with_tablets (alter f (Z.to_nat id) (tablets_ im))).

(** [servers_[id].tablets[n] = v] *)
Definition set_server_tablet (n v : Z) (s : ServerInfo) : ServerInfo :=
  mkServerInfo (s_id s) (s_active s) (s_addr s) (s_ib_addr s) (<[Z.to_nat n := v]> (s_tablets s)).

Definition set_peer (n : nat) (v : Z) (t : TabletInfo) : TabletInfo :=
  mkTabletInfo (t_id t) (t_server_id t) (t_is_backup t) (t_qpis t) (<[n := v]> (t_peers t)).

(** The body of the loops over [j] and [k]. *)
Definition add_tablet (i : Z) (qpis : list Infiniband.QueuePairInfo) (j k : Z) : M state unit :=
  let tablet_id := CalcTabletId i j k in
  let tablet_idx := CalcTabletId 0 j k in
  let first := u32 (tablet_idx * replicas) in
  let last := u32 ((tablet_idx + 1) * replicas) in
  guard ((first <=? last) && (last <=? Z.of_nat (length qpis))) Segv ;;;
  set_tablet tablet_id (fun t =>
    mkTabletInfo tablet_id i (0 <? j)
      (take (Z.to_nat (last - first)) (drop (Z.to_nat first) qpis)) (t_peers t)) ;;;
  (if negb (0 <? j) then
     im <- gets index ;;
     let idx := CalcTabletId 0 i k in
     at_ (key_tablet_map_ im) idx ;;;
     modify_index (with_map (<[Z.to_nat idx := tablet_id]> (key_tablet_map_ im)))
   else
     let backup_id := tablet_id in
     let master_id := CalcTabletId (u32 (servers + i - j) mod servers) 0 k in
     (* It is tricky here *)
     assert (negb (backup_id =? 0)) ;;;
     set_tablet master_id (set_peer (Z.to_nat (j - 1)) backup_id) ;;;
     set_tablet backup_id (set_peer 0 master_id)) ;;;
  im <- gets index ;;
  s <- at_ (servers_ im) i ;;
  at_ (s_tablets s) tablet_idx ;;;
  modify_index (with_servers (alter (set_server_tablet tablet_idx tablet_id) (Z.to_nat i) (servers_ im))).

(** [for (x : l) body(x)] *)
Fixpoint for_each {S A} (body : A -> M S unit) (l : list A) : M S unit :=
  match l with [] => ret tt | x :: l' => body x ;;; for_each body l' end.

Definition upto (n : Z) : list Z := map Z.of_nat (seq 0 (Z.to_nat n)).

Definition AddServer (addr : string) (ib_addr : Infiniband.Address) (qpis : list Infiniband.QueuePairInfo) : M state ServerInfo :=
  id <- AllocServerId ;;
  im <- gets index ;;
  at_ (servers_ im) id ;;;
  modify_index (with_servers (<[Z.to_nat id :=
    mkServerInfo id true addr ib_addr (replicate (Z.to_nat (per_server * (1 + replicas))) 0)]> (servers_ im))) ;;;
  for_each (fun j => for_each (fun k => add_tablet id qpis j k) (upto per_server)) (upto (replicas + 1)) ;;;
  im <- gets index ;;
  at_ (servers_ im) id.
End Cluster.
End IndexManager.

Import IndexManager.

(** ** The map from hashes to tablets *)

(** Rounding at the upper end of a binade. *)
Lemma to_double_cases k z : 54 <= k -> 0 <= z < 2 ^ k ->
  if z <? 2 ^ k - 2 ^ (k - 54) then 0 <= to_double z < 2 ^ k else to_double z = 2 ^ k.
Proof.
  intros Hk Hz. assert (2 ^ k = 2 ^ 54 * 2 ^ (k - 54)) as Ek by (rewrite <- Z.pow_add_r by lia; f_equal; lia).
  assert (0 < 2 ^ (k - 54)) as Hpos by (apply Z.pow_pos_nonneg; lia).
  unfold to_double. destruct (Z.leb_spec (Z.log2 z - 52) 0) as [He | He].
  - assert (z < 2 ^ 53) as Hz'.
    { destruct (decide (z = 0)) as [-> | ?]; [done |]. apply Z.log2_lt_pow2; lia. }
    assert (2 ^ 53 <= 2 ^ k - 2 ^ (k - 54)) by nia. by rewrite (proj2 (Z.ltb_lt _ _)) by lia.
  - assert (0 < z) as Hp by (destruct (decide (z <= 0)); [rewrite Z.log2_nonpos in He by lia; lia | lia]).
    set (e := Z.log2 z - 52) in *. pose proof (Z.log2_spec z Hp) as [L1 L2].
    assert (Z.log2 z < k) as Hlk by (apply Z.log2_lt_pow2; lia).
    assert (0 < 2 ^ (e - 1)) as Hh by (apply Z.pow_pos_nonneg; lia).
    assert (2 ^ e = 2 * 2 ^ (e - 1)) as Ee by (rewrite <- Z.pow_succ_r by lia; f_equal; lia).
    assert (2 ^ (Z.succ (Z.log2 z)) = 2 ^ e * 2 ^ 53) as Es by (rewrite <- Z.pow_add_r by lia; f_equal; lia).
    pose proof (Z.div_mod z (2 ^ e) ltac:(lia)) as Hdm. pose proof (Z.mod_pos_bound z (2 ^ e) ltac:(lia)) as Hr.
    set (q := z / 2 ^ e) in *. set (r := z mod 2 ^ e) in *.
    assert (0 <= q < 2 ^ 53) as Hq by nia.
    destruct (decide (Z.log2 z = k - 1)) as [El | Hl].
    + (* the last binade: the half is the bound *)
      assert (e - 1 = k - 54) as E1 by lia. rewrite <- E1 in *. assert (2 ^ k = 2 ^ 53 * 2 ^ e) as Ek' by lia.
      destruct (Z.ltb_spec z (2 ^ k - 2 ^ (e - 1))) as [Hs | Hs].
      * destruct (decide (q = 2 ^ 53 - 1)) as [Eq | Hne].
        -- rewrite (proj2 (Z.ltb_lt r _)) by nia. cbn [orb]. nia.
        -- case_match; nia.
      * assert (q = 2 ^ 53 - 1) as Eq by nia. assert (2 ^ (e - 1) <= r) by nia. rewrite Eq.
        rewrite (proj2 (Z.ltb_ge r _)) by lia. change (Z.even (2 ^ 53 - 1)) with false. rewrite andb_false_r. cbn [orb]. nia.
    + assert (2 ^ e * 2 ^ 53 <= 2 ^ (k - 1)) as Hb by (rewrite <- Z.pow_add_r by lia; apply Z.pow_le_mono_r; lia).
      assert (2 ^ k = 2 * 2 ^ (k - 1)) as Ek2 by (rewrite <- Z.pow_succ_r by lia; f_equal; lia).
      rewrite (proj2 (Z.ltb_lt _ _)) by nia. case_match; nia.
Qed.

Lemma to_double_above k z : 54 <= k -> 2 ^ k <= z -> 2 ^ k <= to_double z.
Proof.
  intros Hk Hz. assert (0 < 2 ^ k) as Hpos by (apply Z.pow_pos_nonneg; lia).
  assert (k <= Z.log2 z) as Hl by (apply Z.log2_le_pow2; lia).
  unfold to_double. rewrite (proj2 (Z.leb_gt _ 0)) by lia.
  set (e := Z.log2 z - 52) in *. assert (0 < 2 ^ e) as He by (apply Z.pow_pos_nonneg; lia).
  pose proof (Z.log2_spec z ltac:(lia)) as [L1 _].
  assert (2 ^ Z.log2 z = 2 ^ e * 2 ^ 52) as El by (rewrite <- Z.pow_add_r by lia; f_equal; lia).
  pose proof (Z.div_mod z (2 ^ e) ltac:(lia)). pose proof (Z.mod_pos_bound z (2 ^ e) ltac:(lia)).
  assert (2 ^ k <= 2 ^ Z.log2 z) by (apply Z.pow_le_mono_r; lia).
  assert (2 ^ 52 <= z / 2 ^ e) by nia. case_match; nia.
Qed.

Lemma GetTabletId_cases {S} im (s : S) a b h : key_tablet_map_ im = [a; b] -> 0 <= h < 2 ^ 64 ->
  GetTabletId im h s =
    if h <? 2 ^ 63 - 512 then Ok a s else if h <? 2 ^ 64 - 1024 then Ok b s else Err Segv s.
Proof.
  intros Hm Hh. unfold GetTabletId, tablet_index, at_. rewrite Hm. change kNumTablets with 2.
  pose proof (to_double_cases 64 h ltac:(lia) Hh) as H64. change (2 ^ (64 - 54)) with 1024 in H64.
  assert (forall i, to_double h * 2 / 2 ^ 64 = i <-> i * 2 ^ 63 <= to_double h < (i + 1) * 2 ^ 63) as Hi.
  { intros i. pose proof (Z.div_mod (to_double h * 2) (2 ^ 64) ltac:(lia)).
    pose proof (Z.mod_pos_bound (to_double h * 2) (2 ^ 64) ltac:(lia)). lia. }
  destruct (Z.ltb_spec h (2 ^ 63 - 512)) as [H1 | H1].
  - pose proof (to_double_cases 63 h ltac:(lia) ltac:(lia)) as H63. change (2 ^ (63 - 54)) with 512 in H63.
    rewrite (proj2 (Z.ltb_lt h _)) in H63 by lia. by rewrite (proj2 (Hi 0)) by lia.
  - assert (2 ^ 63 <= to_double h) as Hge.
    { destruct (Z.ltb_spec h (2 ^ 63)) as [H2 | H2]; [| by apply to_double_above].
      pose proof (to_double_cases 63 h ltac:(lia) ltac:(lia)) as H63. change (2 ^ (63 - 54)) with 512 in H63.
      rewrite (proj2 (Z.ltb_ge h _)) in H63 by lia. lia. }
    destruct (Z.ltb_spec h (2 ^ 64 - 1024)) as [H2 | H2].
    + by rewrite (proj2 (Hi 1)) by lia.
    + by rewrite (proj2 (Hi 2)) by lia.
Qed.

(** C33. A key hash selects one of the two tablets, the first for the lower
    half of the hashes; but rounding to a double moves the 512 hashes below
    the middle to the second tablet, and for the 1024 largest hashes the index
    is outside the array. *)
Theorem GetTabletId_spec {S} im (s : S) a b h : key_tablet_map_ im = [a; b] -> 0 <= h < 2 ^ 64 ->
  GetTabletId im h s =
    if h <? 2 ^ 63 - 512 then Ok a s else if h <? 2 ^ 64 - 1024 then Ok b s else Err Segv s.
Proof. apply GetTabletId_cases. Qed.

Definition two_tablets : IndexManager := mkIndex [0; 2] [] [].

Lemma GetTabletId_spec_witness :
  GetTabletId two_tablets (2 ^ 63 - 513) tt = Ok 0 tt /\ GetTabletId two_tablets (2 ^ 64 - 1) tt = Err Segv tt.
Proof.
  split; [rewrite (GetTabletId_spec two_tablets tt 0 2) | rewrite (GetTabletId_spec two_tablets tt 0 2)];
    reflexivity || (split; [discriminate | reflexivity]) || reflexivity.
Defined.
