(* ===== verification/IndexSpec.v ===== *)
(** * The cluster map

    After the servers have joined, the index describes the layout the code
    means: which tablets a server holds, which tablet a share of the hashes
    goes to, and for every tablet the backups of it on the next servers. *)

From S2P Require Import Prelude Wire Infiniband Index.
Import IndexManager.

Lemma at_Some {S A} (l : list A) i x (s : S) : 0 <= i -> l !! Z.to_nat i = Some x -> at_ l i s = Ok x s.
Proof. intros Hi H. unfold at_. rewrite (proj2 (Z.ltb_ge _ _)) by lia. by rewrite H. Qed.

Lemma at_None {S A} (l : list A) i (s : S) : Z.of_nat (length l) <= i -> at_ l i s = Err Segv s.
Proof. intros Hi. unfold at_. rewrite (proj2 (Z.ltb_ge _ _)) by lia. by rewrite lookup_ge_None_2 by lia. Qed.

Lemma in_upto n i : In i (upto n) <-> 0 <= i < n.
Proof.
  unfold upto. rewrite in_map_iff. split.
  - intros (k & <- & Hk%in_seq). lia.
  - intros Hi. exists (Z.to_nat i). split; [lia | apply in_seq; lia].
Qed.

(** The elements come in order. *)
Lemma upto_split n d x rest : upto n = d ++ x :: rest -> x = Z.of_nat (length d).
Proof.
  unfold upto. intros E. assert ((Z.of_nat <$> seq 0 (Z.to_nat n)) !! length d = Some x) as H.
  { change (Z.of_nat <$> seq 0 (Z.to_nat n)) with (map Z.of_nat (seq 0 (Z.to_nat n))). rewrite E.
    by rewrite lookup_app_r, Nat.sub_diag by lia. }
  rewrite list_lookup_fmap in H. destruct (seq 0 (Z.to_nat n) !! length d) as [m|] eqn:Em; [| done].
  apply lookup_seq in Em as [-> _]. by injection H as <-.
Qed.

(** A loop that establishes [I] for one element after the other. *)
Lemma for_each_run {S A} (body : A -> M S unit) (I : list A -> S -> Prop) l :
  forall done s, I done s ->
  (forall d x rest s, done ++ l = d ++ x :: rest -> I d s -> exists s', body x s = Ok tt s' /\ I (d ++ [x]) s') ->
  exists s', for_each body l s = Ok tt s' /\ I (done ++ l) s'.
Proof.
  induction l as [|x l IH]; intros done s HI Hb; cbn [for_each].
  - exists s. by rewrite app_nil_r.
  - destruct (Hb done x l s eq_refl HI) as (s1 & E1 & H1).
    destruct (IH (done ++ [x]) s1 H1) as (s2 & E2 & H2); [intros d y r t Hy; apply (Hb d y r); by rewrite <- Hy, <- app_assoc |].
    exists s2. split; [by rewrite (bind_Ok _ _ _ _ _ E1) | by rewrite <- app_assoc in H2].
Qed.

(** Every turn of a loop that ends went well. *)
Lemma for_each_each {S A} (body : A -> M S unit) l : forall s s', for_each body l s = Ok tt s' -> forall x, In x l -> exists s1 s2, body x s1 = Ok tt s2.
Proof.
  induction l as [|y l IH]; intros s s'; [by intros _ x [] |]. cbn [for_each]. intros ([] & s1 & H1 & H2)%bind_inv_Ok x [<- | Hx]; [by exists s, s1 | by eapply IH].
Qed.

Section Cluster.
Variables (replicas servers per_server : Z).
Hypothesis replicas_pos : 0 < replicas.
Hypothesis replicas_lt : replicas < servers.
Hypothesis per_server_pos : 0 < per_server.
(** A [uint32_t] can number the tablets. *)
Hypothesis tablets_32 : per_server * (1 + replicas) * servers < 2 ^ 32.

#[local] Abbreviation Calc := (CalcTabletId replicas per_server).
#[local] Abbreviation per_server_all := (per_server * (1 + replicas)).

(** The server a replica is a copy for, and the server that holds one. *)
Definition master_of (i j : Z) : Z := (servers + i - j) mod servers.

Definition in_range (i j k : Z) : Prop := 0 <= i < servers /\ 0 <= j <= replicas /\ 0 <= k < per_server.

Lemma servers_32 : 2 * servers < 2 ^ 32.
Proof. assert (2 <= per_server * (1 + replicas)) by nia. nia. Qed.

(** Nothing wraps. *)
Lemma calc_plain i j k : in_range i j k -> Calc i j k = i * per_server_all + j * per_server + k.
Proof.
  intros (Hi & Hj & Hk). unfold CalcTabletId. apply u32_small.
  assert (i * (1 + replicas) + j + 1 <= servers * (1 + replicas)) by nia. nia.
Qed.

Lemma calc_plain0 i k : 0 <= i < servers -> 0 <= k < per_server -> Calc 0 i k = i * per_server + k.
Proof.
  intros Hi Hk. unfold CalcTabletId. rewrite Z.mul_0_l, Z.add_0_l. apply u32_small.
  assert (per_server * (i + 1) <= per_server * servers) by nia. assert (per_server * servers <= per_server_all * servers) by nia. lia.
Qed.

Lemma slot_bound j k : 0 <= j <= replicas -> 0 <= k < per_server -> 0 <= Calc 0 j k < per_server_all.
Proof.
  intros Hj Hk. rewrite calc_plain0 by lia. assert (per_server * (j + 1) <= per_server_all) by nia. nia.
Qed.

(** The queue pairs of a slot. *)
Lemma slot_qpis j k : 0 <= j <= replicas -> 0 <= k < per_server ->
  u32 (Calc 0 j k * replicas) = Calc 0 j k * replicas /\ u32 ((Calc 0 j k + 1) * replicas) = (Calc 0 j k + 1) * replicas /\
  (Calc 0 j k + 1) * replicas <= per_server_all * replicas.
Proof.
  intros Hj Hk. pose proof (slot_bound j k Hj Hk). assert (per_server_all * replicas <= per_server_all * servers) by nia.
  split_and!; [apply u32_small; nia | apply u32_small; nia | nia].
Qed.

Lemma master_plain i j : 0 <= i < servers -> 0 <= j <= replicas -> u32 (servers + i - j) mod servers = master_of i j.
Proof. intros Hi Hj. pose proof servers_32. unfold master_of. by rewrite u32_small by lia. Qed.

Lemma calc_inj i j k i' j' k' : in_range i j k -> in_range i' j' k' -> Calc i j k = Calc i' j' k' ->
  i = i' /\ j = j' /\ k = k'.
Proof.
  intros H H' E. rewrite !calc_plain in E by done. destruct H as (Hi & Hj & Hk), H' as (Hi' & Hj' & Hk').
  assert (per_server * (i * (1 + replicas) + j) + k = per_server * (i' * (1 + replicas) + j') + k') as E' by lia.
  apply Z.div_mod_unique in E' as [E1 ->]; [| lia | lia].
  assert ((1 + replicas) * i + j = (1 + replicas) * i' + j') as E2 by lia.
  apply Z.div_mod_unique in E2 as [-> ->]; [done | lia | lia].
Qed.

Lemma calc_bound i j k : in_range i j k -> 0 <= Calc i j k < per_server_all * servers.
Proof.
  intros H. rewrite calc_plain by done. destruct H as (Hi & Hj & Hk).
  assert (i * (1 + replicas) + j + 1 <= servers * (1 + replicas)) by nia. nia.
Qed.

Lemma master_range i j : 0 <= i < servers -> 0 <= master_of i j < servers.
Proof. intros. apply Z.mod_pos_bound. lia. Qed.

Lemma master_in i j k : in_range i j k -> in_range (master_of i j) 0 k.
Proof. intros (Hi & Hj & Hk). split; [by apply master_range | lia]. Qed.

Lemma master_inj i i' j : 0 <= i < servers -> 0 <= i' < servers -> 0 <= j <= servers ->
  master_of i j = master_of i' j -> i = i'.
Proof.
  unfold master_of. intros Hi Hi' Hj E.
  pose proof (Z.div_mod (servers + i - j) servers ltac:(lia)). pose proof (Z.div_mod (servers + i' - j) servers ltac:(lia)).
  set (a := (servers + i - j) / servers) in *. set (b := (servers + i' - j) / servers) in *.
  assert (i - i' = servers * (a - b)) by lia. assert (a = b) by nia. lia.
Qed.

(** A backup is never on the server of its master. *)
Lemma master_elsewhere i j : 0 <= i < servers -> 0 < j <= replicas -> master_of i j <> i.
Proof.
  unfold master_of. intros Hi Hj E. pose proof (Z.div_mod (servers + i - j) servers ltac:(lia)).
  set (a := (servers + i - j) / servers) in *. assert (a = 0 \/ a = 1 \/ a < 0 \/ a > 1) by lia. nia.
Qed.

(** ** One tablet *)

Definition tid (i j k : Z) : nat := Z.to_nat (Calc i j k).

Lemma tid_eq i j k i' j' k' : in_range i j k -> in_range i' j' k' ->
  tid i j k = tid i' j' k' -> i = i' /\ j = j' /\ k = k'.
Proof.
  intros H H' E. pose proof (calc_bound _ _ _ H). pose proof (calc_bound _ _ _ H'). unfold tid in E.
  apply calc_inj; [done | done | lia].
Qed.

Definition new_tablet (i : Z) (qpis : list Infiniband.QueuePairInfo) (j k : Z) (t : TabletInfo) : TabletInfo :=
  mkTabletInfo (Calc i j k) i (0 <? j)
    (take (Z.to_nat replicas) (drop (Z.to_nat (Calc 0 j k * replicas)) qpis)) (t_peers t).

Definition tablets_after (i : Z) (qpis : list Infiniband.QueuePairInfo) (j k : Z) (ts : list TabletInfo) : list TabletInfo :=
  let ts := alter (new_tablet i qpis j k) (tid i j k) ts in
  if 0 <? j then
    alter (set_peer 0 (Calc (master_of i j) 0 k)) (tid i j k)
      (alter (set_peer (Z.to_nat (j - 1)) (Calc i j k)) (tid (master_of i j) 0 k) ts)
  else ts.

Definition index_after (i : Z) (qpis : list Infiniband.QueuePairInfo) (j k : Z) (im : IndexManager) : IndexManager :=
  mkIndex (if 0 <? j then key_tablet_map_ im else <[tid 0 i k := Calc i j k]> (key_tablet_map_ im))
    (tablets_after i qpis j k (tablets_ im))
    (alter (set_server_tablet (Calc 0 j k) (Calc i j k)) (Z.to_nat i) (servers_ im)).

Record shaped (im : IndexManager) : Prop := {
  sh_map : length (key_tablet_map_ im) = Z.to_nat (per_server * servers);
  sh_tablets : length (tablets_ im) = Z.to_nat (per_server_all * servers);
  sh_servers : length (servers_ im) = Z.to_nat servers;
  sh_peers : forall n t, tablets_ im !! n = Some t -> length (t_peers t) = Z.to_nat replicas }.

Lemma shaped_tablet im i j k : shaped im -> in_range i j k -> exists t, tablets_ im !! tid i j k = Some t.
Proof.
  intros H Hr. apply lookup_lt_is_Some_2. rewrite (sh_tablets _ H). pose proof (calc_bound _ _ _ Hr). unfold tid. lia.
Qed.

Definition room (i : Z) (im : IndexManager) : Prop :=
  exists s, servers_ im !! Z.to_nat i = Some s /\ length (s_tablets s) = Z.to_nat per_server_all.

Lemma set_tablet_run id f st t : 0 <= id -> tablets_ (index st) !! Z.to_nat id = Some t ->
  set_tablet id f st = Ok tt (mkState (next_id st) (with_tablets (alter f (Z.to_nat id) (tablets_ (index st))) (index st))).
Proof. intros Hi Ht. unfold set_tablet, gets, bind at 1 2. by rewrite (at_Some _ _ t). Qed.

(** The last statements of the loop body. *)
Lemma set_server_run i n v st sv x : 0 <= i -> 0 <= n ->
  servers_ (index st) !! Z.to_nat i = Some sv -> s_tablets sv !! Z.to_nat n = Some x ->
  (im <- gets index ;; s <- at_ (servers_ im) i ;; at_ (s_tablets s) n ;;;
   modify_index (with_servers (alter (set_server_tablet n v) (Z.to_nat i) (servers_ im)))) st =
  Ok tt (mkState (next_id st) (with_servers (alter (set_server_tablet n v) (Z.to_nat i) (servers_ (index st))) (index st))).
Proof.
  intros Hi Hn Hs Hx. unfold gets, bind at 1. rewrite (bind_Ok _ _ _ _ _ (at_Some _ _ _ st Hi Hs)).
  by rewrite (bind_Ok _ _ _ _ _ (at_Some _ _ _ st Hn Hx)).
Qed.

Lemma add_tablet_run i qpis j k st :
  in_range i j k -> shaped (index st) -> room i (index st) ->
  per_server_all * replicas <= Z.of_nat (length qpis) ->
  add_tablet replicas servers per_server i qpis j k st = Ok tt (mkState (next_id st) (index_after i qpis j k (index st))).
Proof.
  intros Hr Hs (sv & Hsv & Hlen) Hq. pose proof Hr as (Hi & Hj & Hk). pose proof (calc_bound _ _ _ Hr) as Hb.
  assert (0 <= Calc 0 j k < per_server_all) as H0 by (by apply slot_bound).
  assert (exists x, s_tablets sv !! Z.to_nat (Calc 0 j k) = Some x) as [x Hx] by (apply lookup_lt_is_Some_2; lia).
  destruct (shaped_tablet _ i j k Hs Hr) as [t Ht].
  destruct (slot_qpis j k Hj Hk) as (Q1 & Q2 & Q3).
  unfold add_tablet. rewrite Q1, Q2, (master_plain i j Hi Hj). rewrite guard_true by (apply andb_true_intro; split; apply Z.leb_le; nia).
  replace ((Calc 0 j k + 1) * replicas - Calc 0 j k * replicas) with replicas by lia.
  rewrite (bind_Ok _ _ _ _ _ (set_tablet_run _ _ _ t (proj1 Hb) Ht)).
  unfold index_after, tablets_after, new_tablet. destruct (Z.ltb_spec 0 j) as [Hj0 | Hj0]; cbn [negb].
  - assert (Calc i j k <> 0) as Hne by (rewrite calc_plain by done; nia).
    destruct (shaped_tablet _ _ _ _ Hs (master_in _ _ _ Hr)) as [mt Hmt].
    assert (tid i j k <> tid (master_of i j) 0 k) as Hd.
    { intros E. apply tid_eq in E; [lia | done | by apply master_in]. }
    rewrite bind_assoc, assert_true by (by rewrite (proj2 (Z.eqb_neq _ _) Hne)). rewrite bind_assoc.
    pose proof (calc_bound _ _ _ (master_in _ _ _ Hr)) as Hmb.
    erewrite bind_Ok; [| eapply set_tablet_run; [lia | cbn; unfold tid in *; rewrite list_lookup_alter_ne by done; exact Hmt]].
    erewrite bind_Ok; [| eapply set_tablet_run; [lia | cbn; unfold tid in *; rewrite list_lookup_alter_ne by done; rewrite list_lookup_alter_eq, Ht; reflexivity]].
    rewrite (set_server_run _ _ _ _ sv x) by (lia || done); cbn; reflexivity.
  - assert (j = 0) as -> by lia. assert (0 <= Calc 0 i k < per_server * servers) as Hm.
    { rewrite calc_plain0 by done. assert (i + 1 <= servers) by lia. nia. }
    assert (exists y, key_tablet_map_ (index st) !! Z.to_nat (Calc 0 i k) = Some y) as [y Hy].
    { apply lookup_lt_is_Some_2. rewrite (sh_map _ Hs). lia. }
    unfold gets. rewrite bind_assoc. unfold bind at 1. cbn [index].
    rewrite bind_assoc. erewrite bind_Ok; [| apply at_Some; [lia | exact Hy]].
    unfold modify_index at 1, modify, bind at 1. rewrite (set_server_run _ _ _ _ sv x) by (lia || done); cbn; reflexivity.
Qed.
(** ** What a step leaves behind *)

Definition upd (i : Z) (qpis : list Infiniband.QueuePairInfo) (j k : Z) (n : nat) (t : TabletInfo) : TabletInfo :=
  let t := if decide (tid i j k = n) then new_tablet i qpis j k t else t in
  if 0 <? j then
    let t := if decide (tid (master_of i j) 0 k = n) then set_peer (Z.to_nat (j - 1)) (Calc i j k) t else t in
    if decide (tid i j k = n) then set_peer 0 (Calc (master_of i j) 0 k) t else t
  else t.

Lemma tablets_after_lookup i qpis j k ts n : tablets_after i qpis j k ts !! n = (upd i qpis j k n <$> ts !! n).
Proof.
  unfold tablets_after, upd. destruct (0 <? j); rewrite ?list_lookup_alter; repeat case_decide; subst;
    destruct (ts !! _) eqn:E; cbn; try done; rewrite ?E; done.
Qed.

Lemma upd_peers_length i qpis j k n t : length (t_peers (upd i qpis j k n t)) = length (t_peers t).
Proof. unfold upd; cbv zeta. repeat case_decide; destruct (0 <? j); cbn; by rewrite ?length_insert. Qed.

Lemma shaped_after i qpis j k im : shaped im -> shaped (index_after i qpis j k im).
Proof.
  intros [H1 H2 H3 H4]. split; cbn.
  - destruct (0 <? j); by rewrite ?length_insert.
  - unfold tablets_after. destruct (0 <? j); by rewrite !length_alter.
  - by rewrite length_alter.
  - intros n t. rewrite tablets_after_lookup. destruct (tablets_ im !! n) eqn:E; cbn; [| done].
    intros [= <-]. rewrite upd_peers_length. eauto.
Qed.

(** The entries for the [k]-th tablet of rank [j] on server [i]. *)
Record layout (im : IndexManager) (i : Z) (qpis : list Infiniband.QueuePairInfo) (j k : Z) : Prop := {
  ly_tablet : exists t, tablets_ im !! tid i j k = Some t /\ t_id t = Calc i j k /\ t_server_id t = i /\
    t_is_backup t = (0 <? j) /\
    t_qpis t = take (Z.to_nat replicas) (drop (Z.to_nat (Calc 0 j k * replicas)) qpis) /\
    (0 < j -> t_peers t !! 0%nat = Some (Calc (master_of i j) 0 k));
  ly_backup : 0 < j -> exists mt, tablets_ im !! tid (master_of i j) 0 k = Some mt /\
    backups mt !! Z.to_nat (j - 1) = Some (Calc i j k);
  ly_map : j = 0 -> key_tablet_map_ im !! tid 0 i k = Some (Calc i 0 k);
  ly_server : exists s, servers_ im !! Z.to_nat i = Some s /\ s_tablets s !! tid 0 j k = Some (Calc i j k) }.

Lemma room_after i i' qpis j k im : room i im -> room i (index_after i' qpis j k im).
Proof.
  intros (s & Hs & Hl). unfold room. cbn. rewrite list_lookup_alter. case_decide as E.
  - rewrite E, Hs. cbn. eexists. split; [done |]. cbn. by rewrite length_insert.
  - by exists s.
Qed.

Lemma layout_new i qpis j k im : in_range i j k -> shaped im -> room i im -> layout (index_after i qpis j k im) i qpis j k.
Proof.
  intros Hr Hs (sv & Hsv & Hl). pose proof Hr as (Hi & Hj & Hk).
  destruct (shaped_tablet _ _ _ _ Hs Hr) as [t Ht]. destruct (shaped_tablet _ _ _ _ Hs (master_in _ _ _ Hr)) as [mt Hmt].
  assert (0 < j -> tid i j k <> tid (master_of i j) 0 k) as Hd.
  { intros Hj0 E. apply tid_eq in E; [lia | done | by apply master_in]. }
  assert (0 <= Calc 0 j k < per_server_all) as H0 by (by apply slot_bound).
  split; cbn.
  - rewrite tablets_after_lookup, Ht. cbn. eexists. split; [done |]. unfold upd; cbv zeta.
    destruct (Z.ltb_spec 0 j) as [Hj0 | Hj0].
    + specialize (Hd Hj0). rewrite (decide_False (P := tid (master_of i j) 0 k = _)) by (intros E; by apply Hd). rewrite !decide_True by done. cbn [set_peer new_tablet t_id t_server_id t_is_backup t_qpis t_peers]. rewrite (proj2 (Z.ltb_lt _ _)) by lia.
      split_and!; try done. intros _. apply list_lookup_insert_eq. rewrite (sh_peers _ Hs _ _ Ht). lia.
    + rewrite !decide_True by done. cbn [set_peer new_tablet t_id t_server_id t_is_backup t_qpis t_peers]. rewrite (proj2 (Z.ltb_ge _ _)) by lia. split_and!; try done. lia.
  - intros Hj0. rewrite tablets_after_lookup, Hmt. cbn. eexists. split; [done |]. unfold upd; cbv zeta.
    rewrite (proj2 (Z.ltb_lt 0 j)) by lia. specialize (Hd Hj0). rewrite !(decide_False (P := tid i j k = _)) by done.
    rewrite decide_True by done. cbn. apply list_lookup_insert_eq. rewrite (sh_peers _ Hs _ _ Hmt). lia.
  - intros ->. cbn. apply list_lookup_insert_eq. rewrite (sh_map _ Hs). unfold tid. rewrite calc_plain0 by done.
    assert (i + 1 <= servers) by lia. nia.
  - rewrite list_lookup_alter_eq, Hsv. cbn. eexists. split; [done |]. cbn. unfold tid.
    apply list_lookup_insert_eq. lia.
Qed.

Lemma layout_keep i qpis j k i' qpis' j' k' im : in_range i j k -> in_range i' j' k' -> (i, j, k) <> (i', j', k') ->
  layout im i qpis j k -> layout (index_after i' qpis' j' k' im) i qpis j k.
Proof.
  intros Hr Hr' Hne [(t & Ht & T1 & T2 & T3 & T4 & T5) Hb Hm (sv & Hsv & S1)].
  pose proof Hr as (Hi & Hj & Hk). pose proof Hr' as (Hi' & Hj' & Hk').
  assert (tid i' j' k' <> tid i j k) as Hd by (intros E; apply tid_eq in E as (-> & -> & ->); done).
  split; cbn.
  - rewrite tablets_after_lookup, Ht. cbn. eexists. split; [done |]. unfold upd; cbv zeta. rewrite !(decide_False (P := tid i' j' k' = _)) by done.
    destruct (0 <? j'); [| done]. case_decide as E; [| done]. apply tid_eq in E as (_ & <- & _); [| by apply master_in | done].
    cbn. split_and!; done || lia.
  - intros Hj0. destruct (Hb Hj0) as (mt & Hmt & B1). rewrite tablets_after_lookup, Hmt. cbn. eexists. split; [done |].
    assert (forall t, t_peers (if decide (tid i' j' k' = tid (master_of i j) 0 k) then new_tablet i' qpis' j' k' t else t) = t_peers t) as Hn
      by (intros; by case_decide).
    unfold upd, backups in *; cbv zeta. destruct (Z.ltb_spec 0 j') as [Hj0' | Hj0']; [| by rewrite Hn].
    clear Hn. rewrite !(decide_False (P := tid i' j' k' = _)) by (intros E; apply tid_eq in E as (? & ? & ?); [lia | done | by apply master_in]).
    case_decide as E; [| done]. apply tid_eq in E as (E & _ & ->); [| by apply master_in..]. cbn.
    rewrite list_lookup_insert_ne; [done |]. intros E2. assert (j' = j) as -> by lia.
    apply master_inj in E as ->; [done | done | done | lia].
  - intros ->. destruct (0 <? j') eqn:Hj0'; [by apply Hm |]. apply Z.ltb_ge in Hj0'. rewrite list_lookup_insert_ne; [by apply Hm |].
    unfold tid. rewrite !calc_plain0 by done. intros E. assert (per_server * i' + k' = per_server * i + k) as E' by nia.
    apply Z.div_mod_unique in E' as [-> ->]; [| lia | lia]. by assert (j' = 0) as -> by lia.
  - rewrite list_lookup_alter. case_decide as E; [| by exists sv]. assert (i' = i) as -> by lia. rewrite Hsv. cbn.
    eexists. split; [done |]. cbn. rewrite list_lookup_insert_ne; [done |]. unfold tid. rewrite !calc_plain0 by lia.
    intros E2. assert (per_server * j' + k' = per_server * j + k) as E' by nia.
    apply Z.div_mod_unique in E' as [-> ->]; [done | lia | lia].
Qed.
(** ** A server joins *)

(** What a server sends when it joins. *)
Record join := mkJoin { j_addr : string; j_ib_addr : Infiniband.Address; j_qpis : list Infiniband.QueuePairInfo }.

Definition join_ok (x : join) : Prop := per_server_all * replicas <= Z.of_nat (length (j_qpis x)).

(** The descriptions of the servers [js], in the order they joined. *)
Definition heads (js : list join) (im : IndexManager) : Prop :=
  forall n x, js !! n = Some x -> exists sv, servers_ im !! n = Some sv /\
    s_id sv = Z.of_nat n /\ s_active sv = true /\ s_addr sv = j_addr x /\ s_ib_addr sv = j_ib_addr x /\
    length (s_tablets sv) = Z.to_nat per_server_all.

Definition layouts (js : list join) (im : IndexManager) : Prop :=
  forall n x j k, js !! n = Some x -> 0 <= j <= replicas -> 0 <= k < per_server ->
    layout im (Z.of_nat n) (j_qpis x) j k.

Record joined (js : list join) (st : state) : Prop := {
  jd_next : next_id st = Z.of_nat (length js);
  jd_shaped : shaped (index st);
  jd_heads : heads js (index st);
  jd_layouts : layouts js (index st) }.

(** While server [length js] is being added: the tablets in [P] are done. *)
Record adding (js : list join) (x : join) (P : Z -> Z -> Prop) (st : state) : Prop := {
  ad_next : next_id st = Z.of_nat (length js) + 1;
  ad_shaped : shaped (index st);
  ad_heads : heads (js ++ [x]) (index st);
  ad_layouts : layouts js (index st);
  ad_new : forall j k, P j k -> 0 <= j <= replicas -> 0 <= k < per_server ->
    layout (index st) (Z.of_nat (length js)) (j_qpis x) j k }.

Lemma heads_after js i qpis j k im : heads js im -> heads js (index_after i qpis j k im).
Proof.
  intros H n x Hn. destruct (H n x Hn) as (sv & Hsv & ?). cbn. rewrite list_lookup_alter.
  case_decide as E; [rewrite E, Hsv | by exists sv]. cbn. eexists. split; [done |]. cbn. by rewrite length_insert.
Qed.

Lemma adding_step js x (P P' : Z -> Z -> Prop) j k st :
  adding js x P st -> join_ok x -> Z.of_nat (length js) < servers -> 0 <= j <= replicas -> 0 <= k < per_server ->
  (forall a b, P' a b -> P a b \/ (a = j /\ b = k)) ->
  exists st', add_tablet replicas servers per_server (Z.of_nat (length js)) (j_qpis x) j k st = Ok tt st' /\
    adding js x P' st'.
Proof.
  intros [H1 H2 H3 H4 H5] Hx Hl Hj Hk HP. assert (in_range (Z.of_nat (length js)) j k) as Hr by (repeat split; lia).
  assert (room (Z.of_nat (length js)) (index st)) as Hroom.
  { destruct (H3 (length js) x) as (sv & Hsv & _ & _ & _ & _ & Hlen); [by rewrite lookup_app_r, Nat.sub_diag by lia |].
    exists sv. by rewrite Nat2Z.id. }
  eexists. split; [by apply add_tablet_run |]. split; cbn; [done | by apply shaped_after | by apply heads_after | |].
  - intros n y a b Hn Ha Hb. pose proof (lookup_lt_Some _ _ _ Hn). apply layout_keep; [repeat split; lia | done | | by apply H4].
    intros [= E _ _]. lia.
  - intros a b Hab Ha Hb. destruct (decide ((a, b) = (j, k))) as [[= -> ->] | Hne]; [by apply layout_new |].
    apply layout_keep; [repeat split; lia | done | congruence |]. apply H5; [| done | done].
    by destruct (HP _ _ Hab) as [? | [-> ->]].
Qed.

Lemma adding_row js x j st :
  adding js x (fun a _ => 0 <= a < j) st -> join_ok x -> Z.of_nat (length js) < servers -> 0 <= j <= replicas ->
  exists st', for_each (fun k => add_tablet replicas servers per_server (Z.of_nat (length js)) (j_qpis x) j k)
    (upto per_server) st = Ok tt st' /\ adding js x (fun a _ => 0 <= a < j + 1) st'.
Proof.
  intros H Hx Hl Hj.
  destruct (for_each_run (fun k => add_tablet replicas servers per_server (Z.of_nat (length js)) (j_qpis x) j k)
    (fun d => adding js x (fun a b => 0 <= a < j \/ (a = j /\ In b d))) (upto per_server) [] st) as (st' & E & H').
  - destruct H as [? ? ? ? H5]. split; try done. intros a b [Ha | [_ []]]. by apply H5.
  - intros d k rest s Hd Hs. cbn [app] in Hd. assert (0 <= k < per_server) as Hk.
    { apply in_upto. rewrite Hd. apply in_or_app. right. by left. }
    apply (adding_step _ _ _ _ _ _ _ Hs); [done | done | done | done |].
    intros a b [Ha | [-> Hb]]; [by left; left |]. apply in_app_or in Hb as [Hb | [<- | []]]; [by left; right | by right].
  - exists st'. split; [exact E |]. destruct H' as [? ? ? ? H5]. split; try done.
    intros a b Ha Ha2 Hb. apply H5; [| done | done]. destruct (decide (a = j)) as [-> | ?]; [right | left; lia].
    split; [done | by apply in_upto].
Qed.

Lemma AddServer_run js x st : joined js st -> join_ok x -> Z.of_nat (length js) < servers ->
  exists sv st', AddServer replicas servers per_server (j_addr x) (j_ib_addr x) (j_qpis x) st = Ok sv st' /\
    joined (js ++ [x]) st' /\ servers_ (index st') !! length js = Some sv.
Proof.
  intros [H1 H2 H3 H4] Hx Hl. unfold AddServer, AllocServerId. unfold bind at 1. cbv beta. rewrite H1.
  unfold gets, bind at 1. cbn [index].
  destruct (lookup_lt_is_Some_2 (servers_ (index st)) (length js)) as [sv0 Hsv0]; [rewrite (sh_servers _ H2); lia |].
  rewrite (bind_Ok _ _ _ _ _ (at_Some (servers_ (index st)) (Z.of_nat (length js)) sv0 _ ltac:(lia) ltac:(by rewrite Nat2Z.id))).
  unfold modify_index at 1, modify, bind at 1. cbn [next_id index]. pose proof servers_32. rewrite u32_small by lia. set (st1 := mkState _ _).
  assert (adding js x (fun a _ => 0 <= a < 0) st1) as Hadd.
  { split; cbn; [done | | | |].
    - destruct H2 as [? ? ? ?]. split; cbn; try done. by rewrite length_insert.
    - intros n y Hn. rewrite Nat2Z.id. destruct (decide (n = length js)) as [-> | Hne].
      + rewrite lookup_app_r, Nat.sub_diag in Hn by lia. injection Hn as <-. cbn.
        rewrite list_lookup_insert_eq by (rewrite (sh_servers _ H2); lia). eexists. split; [done |].
        cbn. by rewrite length_replicate.
      + rewrite lookup_app_l in Hn by (apply lookup_lt_Some in Hn; rewrite length_app in Hn; cbn in Hn; lia).
        cbn. rewrite list_lookup_insert_ne by done. by apply H3.
    - intros n y a b Hn Ha Hb. pose proof (lookup_lt_Some _ _ _ Hn).
      destruct (H4 n y a b Hn Ha Hb) as [? ? ? (sv & Hsv & ?)]. split; cbn; try done.
      rewrite list_lookup_insert_ne by (rewrite ?Nat2Z.id; lia). by exists sv.
    - intros a b Ha. lia. }
  destruct (for_each_run (fun j => for_each (fun k => add_tablet replicas servers per_server (Z.of_nat (length js)) (j_qpis x) j k)
    (upto per_server)) (fun d => adding js x (fun a _ => 0 <= a < Z.of_nat (length d))) (upto (replicas + 1)) [] st1 Hadd) as (st' & E & H').
  { intros d j rest s Hd Hs. cbn [app] in Hd. pose proof (upto_split _ _ _ _ Hd) as ->.
    assert (0 <= Z.of_nat (length d) < replicas + 1) as Hj by (apply in_upto; rewrite Hd; apply in_or_app; right; by left).
    destruct (adding_row js x (Z.of_nat (length d)) s) as (s' & E' & H'); [done | done | done | lia |].
    exists s'. split; [exact E' |]. rewrite length_app. cbn [length]. by rewrite Nat2Z.inj_add. }
  rewrite (bind_Ok _ _ _ _ _ E). unfold gets, bind. destruct H' as [N1 N2 N3 N4 N5].
  destruct (N3 (length js) x) as (sv & Hsv & S1 & _); [by rewrite lookup_app_r, Nat.sub_diag by lia |].
  rewrite (at_Some _ _ sv) by (lia || by rewrite Nat2Z.id). exists sv, st'. split; [done |]. split; [| done].
  split; [rewrite N1, length_app; cbn; lia | done | done |].
  intros n y a b Hn Ha Hb. destruct (decide (n = length js)) as [-> | Hne].
  - rewrite lookup_app_r, Nat.sub_diag in Hn by lia. injection Hn as <-. apply N5; [| done | done].
    unfold upto. rewrite length_app, length_map, length_seq. cbn. lia.
  - apply N4; [| done | done]. by rewrite lookup_app_l in Hn by (apply lookup_lt_Some in Hn; rewrite length_app in Hn; cbn in Hn; lia).
Qed.

(** With fewer queue pairs the loop runs into the end of the vector. *)
Lemma AddServer_needs addr ib qpis st sv st' : AddServer replicas servers per_server addr ib qpis st = Ok sv st' ->
  per_server_all * replicas <= Z.of_nat (length qpis).
Proof.
  intros H. unfold AddServer in H. apply bind_inv_Ok in H as (id & s1 & _ & H). apply bind_inv_Ok in H as (im & s2 & _ & H).
  apply bind_inv_Ok in H as (? & s3 & _ & H). apply bind_inv_Ok in H as ([] & s4 & _ & H). apply bind_inv_Ok in H as ([] & s5 & H & _).
  destruct (for_each_each _ _ _ _ H replicas) as (s6 & s7 & H'); [apply in_upto; lia |].
  destruct (for_each_each _ _ _ _ H' (per_server - 1)) as (s8 & s9 & H2); [apply in_upto; lia |].
  unfold add_tablet in H2. apply bind_inv_Ok in H2 as ([] & s10 & Hg & _). unfold guard in Hg.
  destruct (slot_qpis replicas (per_server - 1) ltac:(lia) ltac:(lia)) as (Q1 & Q2 & _). rewrite Q1, Q2 in Hg.
  destruct (_ && _) eqn:Hle in Hg; [| done]. apply andb_prop in Hle as [_ Hle%Z.leb_le]. rewrite calc_plain0 in Hle by lia. nia.
Qed.

(** C28. A server that joins gets the next id and the cluster map stays what
    it is meant to be: every server that joined is described as it said, each
    of its tablets carries its queue pairs, the share of the key hashes with
    the server's number goes to its masters, and the backups of rank [j] are
    those of the server [j] places further on, linked both ways; in every
    configuration with a backup, fewer backups of a tablet than servers, and
    tablets that a [uint32_t] can number. *)
Theorem AddServer_joins js x st : joined js st -> join_ok x -> Z.of_nat (length js) < servers ->
  exists sv st', AddServer replicas servers per_server (j_addr x) (j_ib_addr x) (j_qpis x) st = Ok sv st' /\
    joined (js ++ [x]) st' /\ s_id sv = Z.of_nat (length js) /\ servers_ (index st') !! length js = Some sv.
Proof.
  intros Hj Hx Hl. destruct (AddServer_run js x st Hj Hx Hl) as (sv & st' & E & Hj' & Hsv). exists sv, st'. split_and!; try done.
  destruct (jd_heads _ _ Hj' (length js) x) as (sv' & Hsv' & Hid & _); [by rewrite lookup_app_r, Nat.sub_diag by lia |].
  rewrite Hsv in Hsv'. by injection Hsv' as <-.
Qed.
End Cluster.

(** ** The cluster as it is configured *)

#[local] Abbreviation joined2 := (joined kNumReplicas kNumServers kNumTabletsPerServer).

(** An index before anyone joined, with the shape of its arrays. *)
Definition blank_tablet : TabletInfo := mkTabletInfo 0 0 false [] [0].
Definition blank_index : IndexManager :=
  mkIndex [0; 0] (replicate 4 blank_tablet) (replicate 2 (mkServerInfo 0 false "" Infiniband.no_address [0; 0])).
Definition blank : state := mkState 0 blank_index.

Lemma blank_joined : joined2 [] blank.
Proof.
  split; cbn; try done.
  - split; [done | done | done |]. intros n t Hn. change (replicate 4 blank_tablet !! n = Some t) in Hn.
    by apply lookup_replicate in Hn as [-> _].
Qed.

Definition qpi_example (n : Z) : Infiniband.QueuePairInfo := Infiniband.mkQpi 7 n 33 (100 + n) 4096.
Definition join_a : join := mkJoin "10.0.0.1" (Infiniband.mkAddress 1 7 11) [qpi_example 1; qpi_example 2].
Definition join_b : join := mkJoin "10.0.0.2" (Infiniband.mkAddress 1 8 12) [qpi_example 3; qpi_example 4].

(** The map with both in it. *)
Definition formed_example : IndexManager :=
  match AddServer kNumReplicas kNumServers kNumTabletsPerServer (j_addr join_a) (j_ib_addr join_a) (j_qpis join_a) blank with
  | Ok _ st =>
      match AddServer kNumReplicas kNumServers kNumTabletsPerServer (j_addr join_b) (j_ib_addr join_b) (j_qpis join_b) st with
      | Ok _ st => index st
      | Err _ st => index st
      end
  | Err _ st => index st
  end.

Lemma AddServer_joins_witness : exists sv st',
  AddServer kNumReplicas kNumServers kNumTabletsPerServer (j_addr join_a) (j_ib_addr join_a) (j_qpis join_a) blank = Ok sv st' /\
  joined2 ([] ++ [join_a]) st' /\ s_id sv = Z.of_nat (length (@nil join)) /\ servers_ (index st') !! length (@nil join) = Some sv.
Proof.
  apply (AddServer_joins kNumReplicas kNumServers kNumTabletsPerServer); [reflexivity.. | apply blank_joined | discriminate | reflexivity].
Defined.

(** Everyone joined. *)
Lemma both_joined : exists st, joined2 [join_a; join_b] st.
Proof.
  assert (forall js x st, joined2 js st -> join_ok kNumReplicas kNumTabletsPerServer x -> Z.of_nat (length js) < kNumServers ->
    exists st', joined2 (js ++ [x]) st') as Hadd.
  { intros js x st Hj Hx Hl. destruct (AddServer_run kNumReplicas kNumServers kNumTabletsPerServer ltac:(done) ltac:(done) ltac:(done)
      ltac:(done) js x st Hj Hx Hl) as (_ & st' & _ & H & _). by exists st'. }
  destruct (Hadd [] join_a blank blank_joined ltac:(done) ltac:(done)) as [st1 H1].
  by apply (Hadd [join_a] join_b st1 H1).
Qed.

Lemma calc_configured a c : 0 <= a < 2 -> 0 <= c < 2 -> CalcTabletId kNumReplicas kNumTabletsPerServer a c 0 = 2 * a + c.
Proof. intros Ha Hc. unfold CalcTabletId, kNumReplicas, kNumTabletsPerServer. rewrite u32_small by lia. lia. Qed.

Lemma server_layout js st i : joined2 js st -> length js = 2%nat -> i = 0 \/ i = 1 -> exists sv t b,
  servers_ (index st) !! Z.to_nat i = Some sv /\ tablets_ (index st) !! Z.to_nat (2 * i) = Some t /\
  key_tablet_map_ (index st) !! Z.to_nat i = Some (2 * i) /\ s_id sv = i /\ s_tablets sv !! 0%nat = Some (2 * i) /\
  t_id t = 2 * i /\ t_server_id t = i /\ t_is_backup t = false /\ backups t !! 0%nat = Some (3 - 2 * i) /\
  tablets_ (index st) !! Z.to_nat (3 - 2 * i) = Some b /\ t_id b = 3 - 2 * i /\ t_server_id b = 1 - i /\
  t_is_backup b = true /\ t_peers b !! 0%nat = Some (2 * i).
Proof.
  intros [H1 H2 H3 H4] Hl Hi. destruct js as [|x [|y [|]]]; try done.
  assert (exists z w, [x; y] !! Z.to_nat i = Some z /\ [x; y] !! Z.to_nat (1 - i) = Some w) as (z & w & Hz & Hw)
    by (destruct Hi as [-> | ->]; cbn; eauto).
  destruct (H3 _ _ Hz) as (sv & Hsv & S1 & _). rewrite Z2Nat.id in S1 by lia.
  destruct (H4 _ _ 0 0 Hz ltac:(done) ltac:(done)) as [(t & Ht & T1 & T2 & T3 & _) _ Hm (sv' & Hsv' & S2)].
  destruct (H4 _ _ 1 0 Hw ltac:(done) ltac:(done)) as [(b & Hb & B1 & B2 & B3 & _ & B4) Hbk _ _].
  destruct (Hbk ltac:(done)) as (mt & Hmt & M1). specialize (Hm eq_refl). specialize (B4 ltac:(done)).
  pose proof calc_configured as HC.
  assert (master_of kNumServers (1 - i) 1 = i) as HM by (by destruct Hi as [-> | ->]).
  unfold tid in *. rewrite Z2Nat.id in Ht, T1, T2, Hsv', S2, Hm by lia. rewrite Z2Nat.id in Hb, Hmt, B1, B2, B4, M1 by lia.
  rewrite HM in Hmt, B4. rewrite !HC in Ht, T1, S2, Hm, Hb, Hmt, B1, B4, M1 by lia.
  rewrite !HC in Hm, S2 by lia. rewrite Z.mul_0_r, Z.add_0_l in Hm. rewrite Z.add_0_r in *. rewrite Ht in Hmt. rewrite Hsv in Hsv'. injection Hmt as <-. injection Hsv' as <-.
  replace (2 * (1 - i) + 1) with (3 - 2 * i) in * by lia. rewrite Z.add_0_r in S2.
  exists sv, t, b. split_and!; assumption.
Qed.

(** The first half of the hashes goes to tablet 0, the second to tablet 2. *)
Lemma joined_map js st : joined2 js st -> length js = 2%nat -> key_tablet_map_ (index st) = [0; 2].
Proof.
  intros Hj Hl. destruct (server_layout _ _ 0 Hj Hl ltac:(by left)) as (_ & _ & _ & _ & _ & M0 & _).
  destruct (server_layout _ _ 1 Hj Hl ltac:(by right)) as (_ & _ & _ & _ & _ & M1 & _).
  pose proof (sh_map _ _ _ _ (jd_shaped _ _ _ _ _ Hj)) as Hlen. destruct (key_tablet_map_ (index st)) as [|a [|b [|]]]; try done.
  change (Some a = Some 0) in M0. change (Some b = Some 2) in M1. by injection M0 as ->; injection M1 as ->.
Qed.

(** C29. With both servers in the map, a client finds for every key hash, up to
    the largest 1024, the server that holds the master tablet of the hash; the
    tablet's backup is on the other server and points back to it, and the
    server's dispatcher finds a worker for the tablet.  The largest 1024
    hashes read outside the map. *)
Theorem GetServer_routes {S} js st h (s : S) : joined kNumReplicas kNumServers kNumTabletsPerServer js st -> length js = 2%nat -> 0 <= h < 2 ^ 64 ->
  if h <? 2 ^ 64 - 1024 then
    exists sv t b, GetServer (index st) h s = Ok sv s /\ GetTablet_by_hash (index st) h s = Ok t s /\
      t_is_backup t = false /\ s_id sv = t_server_id t /\ s_tablets sv !! 0%nat = Some (t_id t) /\
      t_server_id t = (if h <? 2 ^ 63 - 512 then 0 else 1) /\
      t_id t mod kNumTabletAndBackupsPerServer < kNumTabletsPerServer /\
      backups t !! 0%nat = Some (t_id b) /\ GetTablet (index st) (t_id b) s = Ok b s /\
      t_is_backup b = true /\ master b = t_id t /\ t_server_id b <> t_server_id t
  else GetServer (index st) h s = Err Segv s.
Proof.
  intros Hj Hl Hh.
  pose proof (joined_map _ _ Hj Hl) as Hm.
  unfold GetServer, GetServerId, GetTablet_by_hash. pose proof (GetTabletId_cases (index st) s 0 2 h Hm Hh) as Hid.
  destruct (Z.ltb_spec h (2 ^ 64 - 1024)) as [Hlt | Hge].
  2:{ rewrite (proj2 (Z.ltb_ge _ _)) in Hid by lia. unfold bind. by rewrite Hid. }
  set (i := if h <? 2 ^ 63 - 512 then 0 else 1). assert (i = 0 \/ i = 1) as Hi by (unfold i; case_match; auto).
  assert (GetTabletId (index st) h s = Ok (2 * i) s) as Hid' by (rewrite Hid; unfold i; by case_match).
  destruct (server_layout _ _ i Hj Hl Hi) as (sv & t & b & E1 & E2 & E3 & E4 & E5 & E6 & E7 & E8 & E9 & E10 & E11 & E12 & E13 & E14).
  exists sv, t, b. rewrite !(bind_Ok _ _ _ _ _ Hid'). unfold GetTablet, GetServer_by_id.
  rewrite !bind_assoc, !(bind_Ok _ _ _ _ _ Hid').
  assert (at_ (tablets_ (index st)) (2 * i) s = Ok t s) as Ht by (apply at_Some; [lia | done]).
  rewrite Ht, !(bind_Ok _ _ _ _ _ Ht), bind_ret_l, E7.
  rewrite (bind_Ok _ _ _ _ _ (at_Some _ i sv s ltac:(lia) E1)), assert_true by lia.
  rewrite E6, E4, E11, (at_Some _ (3 - 2 * i) b s ltac:(lia) E10), E12. unfold master, kNumTabletAndBackupsPerServer, kNumTabletsPerServer, kNumReplicas.
  split_and!; try done; try lia; [| by apply list_lookup_total_correct in E14]. by destruct Hi as [-> | ->].
Qed.

Lemma GetServer_routes_witness : exists st sv t b,
  GetServer (index st) 5 tt = Ok sv tt /\ GetTablet_by_hash (index st) 5 tt = Ok t tt /\
  t_is_backup t = false /\ s_id sv = t_server_id t /\ s_tablets sv !! 0%nat = Some (t_id t) /\
  t_server_id t = 0 /\ t_id t mod kNumTabletAndBackupsPerServer < kNumTabletsPerServer /\
  backups t !! 0%nat = Some (t_id b) /\ GetTablet (index st) (t_id b) tt = Ok b tt /\
  t_is_backup b = true /\ master b = t_id t /\ t_server_id b <> t_server_id t.
Proof.
  destruct both_joined as [st H]. exists st.
  pose proof (GetServer_routes [join_a; join_b] st 5 tt H eq_refl ltac:(split; [discriminate | reflexivity])) as R.
  change (5 <? 2 ^ 64 - 1024) with true in R. change (5 <? 2 ^ 63 - 512) with true in R. exact R.
Defined.
