(* ===== verification/Message.v ===== *)
(** * [message.h], [message.cc]: messages and their JSON bodies

    Servers and clients talk to the coordinator in messages with a body in
    JSON.  The JSON library is not part of the repository: its values are
    trees here, [parse] and [dump] stay parameters of whoever uses them. *)

From S2P Require Import Prelude Wire Infiniband Index.
From stdpp Require Import list.
#[local] Open Scope Z_scope.

(** ** JSON values *)

#[local] Set Warnings "-register-all".

Inductive json :=
  | Null | Bool (b : bool) | Num (z : Z) | Str (s : string) | Arr (l : list json) | Obj (l : list (string * json)).

(** [j["key"]] on a constant; an exception, or worse, when it is not there. *)
Fixpoint assoc (k : string) (l : list (string * json)) : option json :=
  match l with [] => None | (k', j) :: l' => if decide (k = k') then Some j else assoc k l' end.
Definition field (j : json) (k : string) : option json := match j with Obj l => assoc k l | _ => None end.

(** Implicit conversions to the types of C++: numbers are truncated. *)
Definition get_num (j : json) : option Z :=
  match j with Num z => Some z | Bool b => Some (Z.b2z b) | _ => None end.
Definition get_u16 (j : json) : option Z := u16 <$> get_num j.
Definition get_u32 (j : json) : option Z := u32 <$> get_num j.
Definition get_u64 (j : json) : option Z := u64 <$> get_num j.
Definition get_i32 (j : json) : option Z := (fun z => (z + 2 ^ 31) mod 2 ^ 32 - 2 ^ 31) <$> get_num j.
Definition get_bool (j : json) : option bool := match j with Bool b => Some b | _ => None end.
Definition get_string (j : json) : option string := match j with Str s => Some s | _ => None end.

(** [std::vector] takes all elements, [std::array] the first [n]. *)
Definition get_vector {A} (f : json -> option A) (j : json) : option (list A) :=
  match j with Arr l => mapM f l | _ => None end.
Definition get_array {A} (n : Z) (f : json -> option A) (j : json) : option (list A) :=
  match j with Arr l => if Z.of_nat (length l) <? n then None else mapM f (take (Z.to_nat n) l) | _ => None end.

(** The library keeps the members of an object in an order of its own: two
    values are the same when they differ in this order only.  An object has one
    member for a key. *)
Inductive same : json -> json -> Prop :=
  | same_Null : same Null Null
  | same_Bool b : same (Bool b) (Bool b)
  | same_Num z : same (Num z) (Num z)
  | same_Str s : same (Str s) (Str s)
  | same_Arr l l' : Forall2 same l l' -> same (Arr l) (Arr l')
  | same_Obj l l' : (forall k, option_Forall2 same (assoc k l) (assoc k l')) -> same (Obj l) (Obj l').

(** A type with [to_json] and [from_json]: what is read back is what was
    written, for the values a program can hold, whatever the order of the
    members. *)
Class Json (A : Type) := {
  to_json : A -> json;
  from_json : json -> option A;
  holdable : A -> Prop;
  from_same : Proper (same ==> eq) from_json;
  from_to a : holdable a -> from_json (to_json a) = Some a }.
#[export] Existing Instance from_same.

(** [x <- c; k] in [option]. *)
Notation "x <-- c ;; k" := (match c with Some x => k | None => None end) (at level 62, c at next level, right associativity) : nvds_scope.
Definition at_key {A} (j : json) (k : string) (f : json -> option A) : option A := x <-- field j k ;; f x.

Section Values.
Import Infiniband.

Definition Address_to_json (ia : Address) : json :=
  Obj [("ib_port", Num (a_ib_port ia)); ("lid", Num (a_lid ia)); ("qpn", Num (a_qpn ia))]%string.

Definition Address_from_json (j : json) : option Address :=
  p <-- at_key j "ib_port" get_i32 ;; l <-- at_key j "lid" get_u16 ;; q <-- at_key j "qpn" get_u32 ;;
  Some (mkAddress p l q).

Definition QueuePairInfo_to_json (qpi : QueuePairInfo) : json :=
  Obj [("lid", Num (qpi_lid qpi)); ("qpn", Num (qpi_qpn qpi)); ("psn", Num (qpi_psn qpi));
       ("rkey", Num (qpi_rkey qpi)); ("vaddr", Num (qpi_vaddr qpi))]%string.

Definition QueuePairInfo_from_json (j : json) : option QueuePairInfo :=
  l <-- at_key j "lid" get_u16 ;; q <-- at_key j "qpn" get_u32 ;; p <-- at_key j "psn" get_u32 ;;
  r <-- at_key j "rkey" get_u32 ;; v <-- at_key j "vaddr" get_u64 ;;
  Some (mkQpi l q p r v).

(** The members of the union go out by [is_backup]. *)
Definition TabletInfo_to_json (ti : TabletInfo) : json :=
  Obj ([("id", Num (t_id ti)); ("server_id", Num (t_server_id ti)); ("is_backup", Bool (t_is_backup ti));
        ("qpis", Arr (map QueuePairInfo_to_json (t_qpis ti)))]%string ++
       [if t_is_backup ti then ("master", Num (master ti)) else ("backups", Arr (map Num (backups ti)))]%string).

(** [master] shares its word with the first of [backups]; with more than one
    replica the other words keep what they held, which is written as 0. *)
Definition TabletInfo_from_json (j : json) : option TabletInfo :=
  i <-- at_key j "id" get_u32 ;; s <-- at_key j "server_id" get_u32 ;; b <-- at_key j "is_backup" get_bool ;;
  q <-- at_key j "qpis" (get_array kNumReplicas QueuePairInfo_from_json) ;;
  p <-- (if (b : bool) then m <-- at_key j "master" get_u32 ;; Some (m :: replicate (Z.to_nat kNumReplicas - 1) 0)
         else at_key j "backups" (get_array kNumReplicas get_u32)) ;;
  Some (mkTabletInfo i s b q p).

Definition ServerInfo_to_json (si : ServerInfo) : json :=
  Obj [("id", Num (s_id si)); ("active", Bool (s_active si)); ("addr", Str (s_addr si));
       ("ib_addr", Address_to_json (s_ib_addr si)); ("tablets", Arr (map Num (s_tablets si)))]%string.

Definition ServerInfo_from_json (j : json) : option ServerInfo :=
  i <-- at_key j "id" get_u32 ;; a <-- at_key j "active" get_bool ;; n <-- at_key j "addr" get_string ;;
  ia <-- at_key j "ib_addr" Address_from_json ;; t <-- at_key j "tablets" (get_array kNumTabletAndBackupsPerServer get_u32) ;;
  Some (mkServerInfo i a n ia t).

Definition IndexManager_to_json (im : IndexManager) : json :=
  Obj [("key_tablet_map", Arr (map Num (key_tablet_map_ im))); ("tablets", Arr (map TabletInfo_to_json (tablets_ im)));
       ("servers", Arr (map ServerInfo_to_json (servers_ im)))]%string.

Definition IndexManager_from_json (j : json) : option IndexManager :=
  m <-- at_key j "key_tablet_map" (get_array kNumTablets get_u32) ;;
  t <-- at_key j "tablets" (get_array kNumTabletAndBackups TabletInfo_from_json) ;;
  s <-- at_key j "servers" (get_array kNumServers ServerInfo_from_json) ;;
  Some (mkIndex m t s).
End Values.

(** ** Messages *)

Module Message.

(** [enum class SenderType], [enum class Type]: a byte each. *)
Inductive SenderType := COORDINATOR | SERVER | CLIENT.
Inductive Type_ :=
  | REQ_JOIN | REQ_LEAVE | RES_JOIN | RES_CLUSTER_INFO | QP_INFO_EXCH | ACK_REJECT | ACK_ERROR | ACK_OK.

Definition SenderType_code (s : SenderType) : Z := match s with COORDINATOR => 0 | SERVER => 1 | CLIENT => 2 end.
Definition Type_code (t : Type_) : Z :=
  match t with
  | REQ_JOIN => 0 | REQ_LEAVE => 1 | RES_JOIN => 2 | RES_CLUSTER_INFO => 3 | QP_INFO_EXCH => 4
  | ACK_REJECT => 5 | ACK_ERROR => 6 | ACK_OK => 7
  end.

(** [struct Header]: packed; the enums are bytes that the peer chose. *)
Record Header := mkHeader { sender_type : Z; type : Z; body_len : Z }.
Definition kHeaderSize : Z := 6.

Record t := mk { header : Header; body : list Init.Byte.byte }.

(** [Message(Header header, std::string body)] *)
Definition New (h : Header) (b : list Init.Byte.byte) : t :=
  mk (mkHeader (sender_type h) (type h) (u32 (Z.of_nat (length b)))) b.

(** The bytes of a header. *)
Definition header_bytes (h : Header) : list Init.Byte.byte :=
  byte.of_Z (sender_type h) :: byte.of_Z (type h) :: le_split 4 (body_len h).
Definition header_of (bs : list Init.Byte.byte) : Header :=
  mkHeader (byte.unsigned (nth 0 bs Byte.x00)) (byte.unsigned (nth 1 bs Byte.x00)) (le_combine (drop 2 bs)).

End Message.

(** ** What is read back *)

Definition u_range (w z : Z) : Prop := 0 <= z < 2 ^ w.

Lemma get_u16_Num z : u_range 16 z -> get_u16 (Num z) = Some z.
Proof. intros H. cbn. by rewrite u16_small. Qed.
Lemma get_u32_Num z : u_range 32 z -> get_u32 (Num z) = Some z.
Proof. intros H. cbn. by rewrite u32_small. Qed.
Lemma get_u64_Num z : u_range 64 z -> get_u64 (Num z) = Some z.
Proof. intros H. cbn. by rewrite u64_small. Qed.
Lemma get_i32_Num z : - 2 ^ 31 <= z < 2 ^ 31 -> get_i32 (Num z) = Some z.
Proof. intros H. cbn. rewrite Z.mod_small by lia. f_equal. lia. Qed.

Lemma at_key_Some {A} j k (f : json -> option A) x a : field j k = Some x -> f x = Some a -> at_key j k f = Some a.
Proof. intros H1 H2. unfold at_key. by rewrite H1. Qed.

(** The next member of the object is read back. *)
Ltac read_key H :=
  match goal with |- context [at_key ?j ?k ?f] => rewrite (at_key_Some j k f _ _ eq_refl H); cbv beta iota end.

(** An array of values that are read back is read back. *)
Lemma get_array_map {A} (f : A -> json) (g : json -> option A) (n : Z) l :
  Z.of_nat (length l) = n -> Forall (fun a => g (f a) = Some a) l -> get_array n g (Arr (map f l)) = Some l.
Proof.
  intros Hn Hl. unfold get_array. rewrite length_map, (proj2 (Z.ltb_ge _ _)) by lia.
  rewrite take_ge by (rewrite length_map; lia). clear Hn. induction Hl as [|a l Ha Hl IH]; [done |]. cbn. by rewrite Ha, IH.
Qed.

(** ** Reading does not depend on the order of members *)

#[export] Instance same_refl : Reflexive same.
Proof.
  unfold Reflexive. fix IH 1. intros [| b | z | s | l | l]; constructor.
  - induction l as [|x l IHl]; constructor; [apply IH | exact IHl].
  - induction l as [|[k' x] l IHl]; intros k; cbn; [constructor |]. destruct (decide (k = k')); [constructor; apply IH | apply IHl].
Qed.

#[export] Instance get_num_same : Proper (same ==> eq) get_num.
Proof. by intros j j' []. Qed.
#[export] Instance get_u16_same : Proper (same ==> eq) get_u16.
Proof. intros j j' H. unfold get_u16. by rewrite H. Qed.
#[export] Instance get_u32_same : Proper (same ==> eq) get_u32.
Proof. intros j j' H. unfold get_u32. by rewrite H. Qed.
#[export] Instance get_u64_same : Proper (same ==> eq) get_u64.
Proof. intros j j' H. unfold get_u64. by rewrite H. Qed.
#[export] Instance get_i32_same : Proper (same ==> eq) get_i32.
Proof. intros j j' H. unfold get_i32. by rewrite H. Qed.
#[export] Instance get_bool_same : Proper (same ==> eq) get_bool.
Proof. by intros j j' []. Qed.
#[export] Instance get_string_same : Proper (same ==> eq) get_string.
Proof. by intros j j' []. Qed.

Lemma mapM_same {A} (f : json -> option A) l l' : Proper (same ==> eq) f -> Forall2 same l l' -> mapM f l = mapM f l'.
Proof. intros Hf. induction 1 as [|x y l l' Hx _ IH]; [done |]. cbn. by rewrite Hx, IH. Qed.

#[export] Instance get_vector_same {A} (f : json -> option A) : Proper (same ==> eq) f -> Proper (same ==> eq) (get_vector f).
Proof. intros Hf j j' []; try done. cbn. by apply mapM_same. Qed.
#[export] Instance get_array_same {A} n (f : json -> option A) : Proper (same ==> eq) f -> Proper (same ==> eq) (get_array n f).
Proof.
  intros Hf j j' [| | | | l l' H | l l' H]; try done. cbn. rewrite (Forall2_length _ _ _ H). case_match; [done |].
  apply mapM_same; [done |]. by apply Forall2_take.
Qed.
Lemma at_key_same j j' : same j j' -> forall A k (f : json -> option A), Proper (same ==> eq) f -> at_key j k f = at_key j' k f.
Proof.
  intros H A k f Hf. unfold at_key. destruct H as [| | | | l l' H | l l' H]; try done. cbn. destruct (H k); [by apply Hf | done].
Qed.

Section Read_back.
Import Infiniband.

#[export] Instance Address_same : Proper (same ==> eq) Address_from_json.
Proof. intros j j' H. unfold Address_from_json. by rewrite !(at_key_same _ _ H) by apply _. Qed.
#[export] Instance QueuePairInfo_same : Proper (same ==> eq) QueuePairInfo_from_json.
Proof. intros j j' H. unfold QueuePairInfo_from_json. by rewrite !(at_key_same _ _ H) by apply _. Qed.
#[export] Instance TabletInfo_same : Proper (same ==> eq) TabletInfo_from_json.
Proof. intros j j' H. unfold TabletInfo_from_json. by rewrite !(at_key_same _ _ H) by apply _. Qed.
#[export] Instance ServerInfo_same : Proper (same ==> eq) ServerInfo_from_json.
Proof. intros j j' H. unfold ServerInfo_from_json. by rewrite !(at_key_same _ _ H) by apply _. Qed.
#[export] Instance IndexManager_same : Proper (same ==> eq) IndexManager_from_json.
Proof. intros j j' H. unfold IndexManager_from_json. by rewrite !(at_key_same _ _ H) by apply _. Qed.

Definition Address_ok (ia : Address) : Prop := - 2 ^ 31 <= a_ib_port ia < 2 ^ 31 /\ u_range 16 (a_lid ia) /\ u_range 32 (a_qpn ia).
Definition QueuePairInfo_ok (q : QueuePairInfo) : Prop :=
  u_range 16 (qpi_lid q) /\ u_range 32 (qpi_qpn q) /\ u_range 32 (qpi_psn q) /\ u_range 32 (qpi_rkey q) /\ u_range 64 (qpi_vaddr q).
Definition TabletInfo_ok (t : TabletInfo) : Prop :=
  u_range 32 (t_id t) /\ u_range 32 (t_server_id t) /\
  (Z.of_nat (length (t_qpis t)) = kNumReplicas /\ Forall QueuePairInfo_ok (t_qpis t)) /\
  (Z.of_nat (length (t_peers t)) = kNumReplicas /\ Forall (u_range 32) (t_peers t)).
Definition ServerInfo_ok (s : ServerInfo) : Prop :=
  u_range 32 (s_id s) /\ Address_ok (s_ib_addr s) /\
  (Z.of_nat (length (s_tablets s)) = kNumTabletAndBackupsPerServer /\ Forall (u_range 32) (s_tablets s)).
Definition IndexManager_ok (im : IndexManager) : Prop :=
  (Z.of_nat (length (key_tablet_map_ im)) = kNumTablets /\ Forall (u_range 32) (key_tablet_map_ im)) /\
  (Z.of_nat (length (tablets_ im)) = kNumTabletAndBackups /\ Forall TabletInfo_ok (tablets_ im)) /\
  (Z.of_nat (length (servers_ im)) = kNumServers /\ Forall ServerInfo_ok (servers_ im)).

Lemma Address_read ia : Address_ok ia -> Address_from_json (Address_to_json ia) = Some ia.
Proof.
  intros (H1 & H2 & H3). unfold Address_from_json. read_key (get_i32_Num _ H1). read_key (get_u16_Num _ H2).
  read_key (get_u32_Num _ H3). by destruct ia.
Qed.

Lemma QueuePairInfo_read q : QueuePairInfo_ok q -> QueuePairInfo_from_json (QueuePairInfo_to_json q) = Some q.
Proof.
  intros (H1 & H2 & H3 & H4 & H5). unfold QueuePairInfo_from_json. read_key (get_u16_Num _ H1). read_key (get_u32_Num _ H2).
  read_key (get_u32_Num _ H3). read_key (get_u32_Num _ H4). read_key (get_u64_Num _ H5). by destruct q.
Qed.

#[export] Instance Address_Json : Json Address := {| from_to := Address_read |}.
#[export] Instance QueuePairInfo_Json : Json QueuePairInfo := {| from_to := QueuePairInfo_read |}.

(** Arrays of what is read back. *)
Lemma get_array_json `{Json A} n l : Z.of_nat (length l) = n -> Forall holdable l ->
  get_array n from_json (Arr (map to_json l)) = Some l.
Proof. intros Hn Hl. apply get_array_map; [done |]. apply (list.Forall_impl _ _ _ Hl from_to). Qed.

Lemma get_array_u32 n l : Z.of_nat (length l) = n -> Forall (u_range 32) l -> get_array n get_u32 (Arr (map Num l)) = Some l.
Proof. intros Hn Hl. apply get_array_map; [done |]. apply (list.Forall_impl _ _ _ Hl get_u32_Num). Qed.

Lemma TabletInfo_read t : TabletInfo_ok t -> TabletInfo_from_json (TabletInfo_to_json t) = Some t.
Proof.
  intros (H1 & H2 & [H3 H4] & [H5 H6]). pose proof (get_array_json kNumReplicas (t_qpis t) H3 H4) as Hq.
  pose proof (get_array_u32 kNumReplicas (t_peers t) H5 H6) as Hp.
  unfold TabletInfo_from_json. read_key (get_u32_Num _ H1). read_key (get_u32_Num _ H2).
  read_key (eq_refl (Some (t_is_backup t))).
  read_key Hq. destruct t as [i s b q p]. cbn [t_is_backup t_peers t_id t_server_id t_qpis] in *. destruct b.
  - destruct p as [|m [|]]; cbn in H5; try (change kNumReplicas with 1 in H5; lia).
    apply list.Forall_cons in H6 as [H6 _]. by read_key (get_u32_Num m H6).
  - by read_key Hp.
Qed.

#[export] Instance TabletInfo_Json : Json TabletInfo := {| from_to := TabletInfo_read |}.

Lemma ServerInfo_read s : ServerInfo_ok s -> ServerInfo_from_json (ServerInfo_to_json s) = Some s.
Proof.
  intros (H1 & H2 & [H3 H4]). pose proof (get_array_u32 kNumTabletAndBackupsPerServer (s_tablets s) H3 H4) as Ht.
  unfold ServerInfo_from_json. read_key (get_u32_Num _ H1).
  read_key (eq_refl (Some (s_active s))).
  read_key (eq_refl (Some (s_addr s))).
  read_key (Address_read _ H2). read_key Ht. by destruct s.
Qed.

#[export] Instance ServerInfo_Json : Json ServerInfo := {| from_to := ServerInfo_read |}.

Lemma IndexManager_read im : IndexManager_ok im -> IndexManager_from_json (IndexManager_to_json im) = Some im.
Proof.
  intros ([H1 H2] & [H3 H4] & [H5 H6]). pose proof (get_array_u32 kNumTablets (key_tablet_map_ im) H1 H2) as Hm.
  pose proof (get_array_json kNumTabletAndBackups (tablets_ im) H3 H4) as Ht.
  pose proof (get_array_json kNumServers (servers_ im) H5 H6) as Hs.
  unfold IndexManager_from_json. read_key Hm. read_key Ht. read_key Hs. by destruct im.
Qed.

#[export] Instance IndexManager_Json : Json IndexManager := {| from_to := IndexManager_read |}.
End Read_back.
