(* ===== verification/Session.v ===== *)
(** * [session.h], [session.cc]: messages over a TCP connection

    A connection is the bytes that are still to come, up to where the peer
    closes it, and the bytes written so far.  A read waits for the bytes it is
    asked for and fails when they do not come.  The asynchronous operations
    are one function here, from the call to the handler that is run at the
    end. *)

From S2P Require Import Prelude Wire Message.
From stdpp Require Import list.
#[local] Open Scope Z_scope.

Module Session.
Import Message.

Record conn := mkConn { incoming : list Init.Byte.byte; outgoing : list Init.Byte.byte; writable : bool }.

(** [boost::system::system_error] *)
Definition system_error : error := Throw (-1).

Definition read (n : Z) : M conn (list Init.Byte.byte) := fun s =>
  if Z.of_nat (length (incoming s)) <? n then Err system_error (mkConn [] (outgoing s) (writable s))
  else Ok (take (Z.to_nat n) (incoming s)) (mkConn (drop (Z.to_nat n) (incoming s)) (outgoing s) (writable s)).
Definition write (bs : list Init.Byte.byte) : M conn unit := fun s =>
  if writable s then Ok tt (mkConn (incoming s) (outgoing s ++ bs) true) else Err system_error s.

Definition SendMessage (msg : t) : M conn unit := write (header_bytes (header msg)) ;;; write (body msg).

Definition RecvMessage : M conn t :=
  bs <- read kHeaderSize ;;
  let h := header_of bs in
  b <- read (body_len h) ;;
  ret (mk h b).

(** What became of an asynchronous operation: the handler ran, or the error
    was logged. *)
Inductive completion := Handled (msg : t) | Logged.

(** [async_read] and [async_write]: the bytes and their number, or an error. *)
Definition async {A} (c : M conn A) : M conn (option A) := fun s =>
  match c s with Ok a s' => Ok (Some a) s' | Err (Throw _) s' => Ok None s' | Err e s' => Err e s' end.

Definition AsyncRecvMessage : M conn completion :=
  r <- async (read kHeaderSize) ;;
  match r with
  | None => ret Logged
  | Some bs =>
      let bytes_transferred := Z.of_nat (length bs) in
      assert (kHeaderSize <=? bytes_transferred) ;;;
      let h := header_of bs in
      (* Read message body *)
      let len := u64 (kHeaderSize + body_len h - bytes_transferred) in
      Prelude.guard (body_len h <=? len) Segv ;;;
      r <- async (read (body_len h)) ;;
      match r with
      | None => ret Logged
      | Some b => ret (Handled (mk h (b ++ replicate (Z.to_nat (len - body_len h)) Byte.x00)))
      end
  end.

Definition AsyncSendMessage (msg : t) : M conn completion :=
  r <- async (write (header_bytes (header msg))) ;;
  match r with
  | None => ret Logged
  | Some _ =>
      r <- async (write (body msg)) ;;
      match r with None => ret Logged | Some _ => ret (Handled msg) end
  end.

(** A session starts by waiting for a message. *)
Definition Start : M conn completion := AsyncRecvMessage.

End Session.

Import Message Session.

(** A message whose header describes its body. *)
Definition sendable (msg : Message.t) : Prop :=
  u_range 8 (sender_type (header msg)) /\ u_range 8 (type (header msg)) /\
  body_len (header msg) = Z.of_nat (length (body msg)) /\ Z.of_nat (length (body msg)) < 2 ^ 32.

Lemma New_sendable h b : u_range 8 (sender_type h) -> u_range 8 (type h) -> Z.of_nat (length b) < 2 ^ 32 -> sendable (New h b).
Proof. intros H1 H2 H3. split_and!; try done. cbn. by rewrite u32_small by lia. Qed.

(** The bytes of a message. *)
Definition encode (msg : Message.t) : list Init.Byte.byte := header_bytes (header msg) ++ body msg.

Lemma header_roundtrip h : u_range 8 (sender_type h) -> u_range 8 (type h) -> u_range 32 (body_len h) ->
  header_of (header_bytes h) = h.
Proof.
  intros H1 H2 H3. unfold header_of, header_bytes. cbn [nth]. change (drop 2 (?a :: ?b :: ?l)) with l. rewrite !byte.unsigned_of_Z, le_combine_split.
  unfold byte.wrap. rewrite !Z.mod_small by done. by destruct h.
Qed.

Lemma header_length h : Z.of_nat (length (header_bytes h)) = kHeaderSize.
Proof. unfold header_bytes. cbn [length]. by rewrite length_le_split. Qed.

Lemma read_app bs rest o w : read (Z.of_nat (length bs)) (mkConn (bs ++ rest) o w) = Ok bs (mkConn rest o w).
Proof.
  unfold read. cbn [incoming outgoing writable]. rewrite (proj2 (Z.ltb_ge _ _)) by (rewrite length_app; lia).
  by rewrite Nat2Z.id, take_app_length, drop_app_length.
Qed.

Lemma SendMessage_run msg i o : SendMessage msg (mkConn i o true) = Ok tt (mkConn i (o ++ encode msg) true).
Proof. unfold SendMessage, write, bind. cbn. by rewrite <- app_assoc. Qed.

Lemma RecvMessage_run msg rest o w : sendable msg -> RecvMessage (mkConn (encode msg ++ rest) o w) = Ok msg (mkConn rest o w).
Proof.
  intros (H1 & H2 & H3 & H4). unfold RecvMessage, encode. rewrite <- (header_length (header msg)), <- app_assoc.
  rewrite (bind_Ok _ _ _ _ _ (read_app _ _ _ _)), header_roundtrip by (try done; rewrite H3; split; lia).
  rewrite H3, (bind_Ok _ _ _ _ _ (read_app _ _ _ _)). by destruct msg.
Qed.

(** The asynchronous operations do what the synchronous ones do, with the
    error logged instead of thrown. *)
Definition as_completion (o : outcome conn Message.t) : outcome conn completion :=
  match o with Ok m s => Ok (Handled m) s | Err (Throw _) s => Ok Logged s | Err e s => Err e s end.

Lemma AsyncRecv_is_Recv s : AsyncRecvMessage s = as_completion (RecvMessage s).
Proof.
  unfold AsyncRecvMessage, RecvMessage, async, bind. destruct (read kHeaderSize s) as [bs s1 | e s1] eqn:E1.
  2:{ unfold read in E1. case_match; [by injection E1 as <- <- | done]. }
  assert (length bs = 6%nat) as Hl.
  { unfold read in E1. case_match eqn:C; [done |]. injection E1 as <- _. apply Z.ltb_ge in C. rewrite length_take. unfold kHeaderSize in *. lia. }
  unfold assert, Prelude.guard. rewrite Hl. change (kHeaderSize <=? Z.of_nat 6) with true. cbv iota beta.
  assert (0 <= body_len (header_of bs) < 2 ^ 32) as Hb.
  { cbn. pose proof (le_combine_bound (drop 2 bs)) as R. rewrite length_drop, Hl in R. exact R. }
  replace (kHeaderSize + body_len (header_of bs) - Z.of_nat 6) with (body_len (header_of bs)) by (unfold kHeaderSize; lia).
  rewrite u64_small by lia. rewrite Z.leb_refl, Z.sub_diag. cbv iota beta.
  destruct (read (body_len (header_of bs)) s1) as [b s2 | e s2] eqn:E2; cbn.
  - by rewrite app_nil_r.
  - unfold read in E2. case_match; [by injection E2 as <- <- | done].
Qed.

(** Send, or receive, one message after the other. *)
Fixpoint send_all (l : list Message.t) : M conn unit :=
  match l with [] => ret tt | m :: l' => SendMessage m ;;; send_all l' end.
Fixpoint recv_all (n : nat) : M conn (list Message.t) :=
  match n with O => ret [] | S n' => m <- RecvMessage ;; l <- recv_all n' ;; ret (m :: l) end.

(** C32. Whatever messages one end of a connection sends, the other end
    receives exactly these messages, in order, and is left with what was sent
    after them, whether it receives synchronously or asynchronously. *)
Theorem messages_roundtrip msgs rest i o w : Forall sendable msgs ->
  exists bs, send_all msgs (mkConn i o true) = Ok tt (mkConn i (o ++ bs) true) /\
    recv_all (length msgs) (mkConn (bs ++ rest) o w) = Ok msgs (mkConn rest o w) /\
    forall m l, msgs = m :: l -> exists s, AsyncRecvMessage (mkConn (bs ++ rest) o w) = Ok (Handled m) s /\
      RecvMessage (mkConn (bs ++ rest) o w) = Ok m s.
Proof.
  intros Hm. exists (concat (map encode msgs)). split_and!.
  - revert o. induction msgs as [|m l IH]; intros o; cbn [send_all map concat]; [by rewrite app_nil_r |].
    apply list.Forall_cons in Hm as [_ Hl]. by rewrite (bind_Ok _ _ _ _ _ (SendMessage_run m i o)), IH, <- app_assoc.
  - clear i. induction Hm as [|m l Hs _ IH]; cbn [length recv_all map concat app]; [done |].
    rewrite <- app_assoc, (bind_Ok _ _ _ _ _ (RecvMessage_run _ _ _ _ Hs)). unfold bind. by rewrite IH.
  - intros m l ->. apply list.Forall_cons in Hm as [Hs _]. cbn [map concat]. rewrite <- app_assoc.
    eexists. rewrite AsyncRecv_is_Recv, (RecvMessage_run _ _ _ _ Hs). done.
Qed.

Definition two_messages : list Message.t :=
  [New (mkHeader 2 0 0) [Byte.x7b; Byte.x7d]; New (mkHeader 0 2 0) []].

Lemma messages_roundtrip_witness : exists bs, recv_all 2 (mkConn (bs ++ [Byte.x01]) [] true) = Ok two_messages (mkConn [Byte.x01] [] true) /\
  length bs = 14%nat.
Proof.
  destruct (messages_roundtrip two_messages [Byte.x01] [] [] true) as (bs & H1 & H2 & _).
  - repeat constructor; cbn; discriminate || reflexivity.
  - exists bs. split; [exact H2 |]. vm_compute in H1. by injection H1 as <-.
Defined.
