(* ===== verification/Coordinator.v ===== *)
(** * [coordinator.h], [coordinator.cc]: the coordinator

    It takes the requests of servers and clients to join.  When the last of
    the servers has asked, each gets its number and the map of the cluster; a
    client gets the map.  [parse] and [dump] are those of the JSON library; a
    session is a number.  The socket of a session knows the address at its
    other end as long as it is connected: [peer] is what it says at each look
    of a handler, [None] when the peer is gone, which is an exception.  The
    handlers run one at a time, on the thread of the service. *)

From S2P Require Import Prelude Wire Infiniband Index IndexSpec Message Session.

Module Coordinator.
Import Message.

Section Library.
Variables (parse : list Init.Byte.byte -> option json) (dump : json -> list Init.Byte.byte) (peer : Z -> nat -> option string).

(** [class Coordinator]; [out] are the messages given to [AsyncSendMessage],
    [again] the sessions that wait for another message, latest last. *)
Record state := mkState {
  num_servers_ : Z; total_storage_ : Z; index_manager_ : IndexManager.state; sessions_ : list Z;
  out : list (Z * Message.t); again : list Z }.

(** An exception of the JSON library: nobody catches it. *)
Definition json_error : error := Throw (-2).
Definition need {S A} (o : option A) : M S A := fun s => match o with Some a => Ok a s | None => Err json_error s end.

(** [Session::GetPeerAddr], the [k]-th look of a handler: [remote_endpoint]
    throws when the socket is not connected. *)
Definition GetPeerAddr {S} (session : Z) (k : nat) : M S string :=
  fun s => match peer session k with Some a => Ok a s | None => Err Session.system_error s end.

Definition set_index (im : IndexManager.state) (s : state) : state :=
  mkState (num_servers_ s) (total_storage_ s) im (sessions_ s) (out s) (again s).
Definition on_index {A} (c : M IndexManager.state A) : M state A := fun s =>
  match c (index_manager_ s) with Ok a im => Ok a (set_index im s) | Err e im => Err e (set_index im s) end.

Definition AsyncSendMessage (session : Z) (msg : Message.t) : M state unit :=
  modify (fun s => mkState (num_servers_ s) (total_storage_ s) (index_manager_ s) (sessions_ s) (out s ++ [(session, msg)]) (again s)).

(** [Message::Header {COORDINATOR, RES_JOIN}]; the length is set later. *)
Definition res_join : Header := mkHeader (SenderType_code COORDINATOR) (Type_code RES_JOIN) 0.

Definition join_answer (i : Z) (im : IndexManager) : json := Obj [("id", Num i); ("index_manager", to_json im)]%string.

(** The loop of [ResponseAllJoins], from the [i]-th session on. *)
Fixpoint answer_all (i : Z) (l : list Z) : M state unit :=
  match l with
  | [] => ret tt
  | session :: l' =>
      im <- gets (fun s => IndexManager.index (index_manager_ s)) ;;
      AsyncSendMessage session (New res_join (dump (join_answer i im))) ;;;
      answer_all (i + 1) l'
  end.

Definition ResponseAllJoins : M state unit :=
  l <- gets sessions_ ;;
  assert (Z.of_nat (length l) =? kNumServers) ;;;
  answer_all 0 l ;;;
  modify (fun s => mkState (num_servers_ s) (total_storage_ s) (index_manager_ s) [] (out s) (again s)).

Definition HandleServerRequestJoin (session : Z) (req : Message.t) : M state unit :=
  body <- need (parse (body req)) ;;
  nvm_size <- need (at_key body "size" get_u64) ;;
  (* the log names the peer *)
  GetPeerAddr session 0 ;;;
  n <- gets num_servers_ ;;
  if kNumServers <=? n then ret tt
  else
    addr <- GetPeerAddr session 1 ;;
    ib_addr <- need (at_key body "ib_addr" from_json) ;;
    qpis <- need (at_key body "tablet_qpis" (get_vector from_json)) ;;
    on_index (IndexManager.AddServer kNumReplicas kNumServers kNumTabletsPerServer addr ib_addr qpis) ;;;
    modify (fun s => mkState (u32 (num_servers_ s + 1)) (u64 (total_storage_ s + nvm_size)) (index_manager_ s)
                       (sessions_ s ++ [session]) (out s) (again s)) ;;;
    n <- gets num_servers_ ;;
    assert (n <=? kNumServers) ;;;
    if n =? kNumServers then ResponseAllJoins else ret tt.

Definition HandleMessageFromServer (session : Z) (msg : Message.t) : M state unit :=
  let ty := type (header msg) in
  if ty =? Type_code REQ_JOIN then HandleServerRequestJoin session msg
  else if (ty =? Type_code REQ_LEAVE) || (ty =? Type_code ACK_REJECT) || (ty =? Type_code ACK_ERROR) || (ty =? Type_code ACK_OK)
  then ret tt
  else assert false.

Definition HandleClientRequestJoin (session : Z) (msg : Message.t) : M state unit :=
  n <- gets num_servers_ ;;
  assert (n =? kNumServers) ;;;
  assert (sender_type (header msg) =? SenderType_code CLIENT) ;;;
  assert (type (header msg) =? Type_code REQ_JOIN) ;;;
  GetPeerAddr session 0 ;;;
  im <- gets (fun s => IndexManager.index (index_manager_ s)) ;;
  AsyncSendMessage session (New res_join (dump (Obj [("index_manager", to_json im)]%string))).

Definition HandleMessageFromClient (session : Z) (msg : Message.t) : M state unit :=
  let ty := type (header msg) in
  if ty =? Type_code REQ_JOIN then HandleClientRequestJoin session msg
  else if (ty =? Type_code REQ_LEAVE) || (ty =? Type_code ACK_REJECT) || (ty =? Type_code ACK_ERROR) || (ty =? Type_code ACK_OK)
  then ret tt
  else assert false.

(** A sender that is none of the three is ignored. *)
Definition HandleRecvMessage (session : Z) (msg : Message.t) : M state unit :=
  let from := sender_type (header msg) in
  if from =? SenderType_code SERVER then HandleMessageFromServer session msg
  else if from =? SenderType_code CLIENT then HandleMessageFromClient session msg
  else if from =? SenderType_code COORDINATOR then assert false
  else ret tt.

(** After an answer is sent, the session waits for the next message. *)
Definition HandleSendMessage (session : Z) (msg : Message.t) : M state unit :=
  modify (fun s => mkState (num_servers_ s) (total_storage_ s) (index_manager_ s) (sessions_ s) (out s) (again s ++ [session])).

(** [Coordinator()]; [im] is what its index happens to hold. *)
Definition start (im : IndexManager) : state := mkState 0 0 (IndexManager.mkState 0 im) [] [] [].
End Library.
End Coordinator.
