(* ===== verification/Sync.v ===== *)
(** * [tablet.cc]: queue pairs of a tablet and replication

    A tablet registers its memory, owns one queue pair per replica, connects
    them when the cluster map is known, and after every operation writes the
    merged modifications into the memory of its backups. *)

From S2P Require Import Prelude Nvm Modification Wire Tablet Verbs Merge Infiniband Index.

#[local] Open Scope prog_scope.

Module Sync.

Definition kMaxIBQueueDepth : Z := 128.

(** The members of [class Tablet] that do not belong to the store: [wrs] and
    the [sges] its requests point to keep their contents between calls. *)
Record t := mkTablet {
  info_ : TabletInfo; nvm_tablet_ : Z; ib_ : Infiniband.t; mr_ : ibv_mr; qps_ : list Infiniband.QueuePair;
  wrs : list ibv_send_wr }.

(** An element of an array; outside it anything can happen. *)
Definition elem {A} (l : list A) (i : nat) : prog A :=
  match l !! i with Some x => Ret x | None => Stop (Fault Segv) end.

Definition GetTablet (im : IndexManager) (id : Z) : prog TabletInfo :=
  if id <? 0 then Stop (Fault Segv) else elem (tablets_ im) (Z.to_nat id).

(** [for (size_t i = 0; i < kNumReplicas; ++i)] of the constructor. *)
Fixpoint make_qps (n : nat) (ib : Infiniband.t) (m : ibv_mr) (nvm : Z) : prog (list (Infiniband.QueuePair * Infiniband.QueuePairInfo)) :=
  match n with
  | O => Ret []
  | S n' =>
      q <- Infiniband.QueuePair_construct ib IBV_QPT_RC kMaxIBQueueDepth kMaxIBQueueDepth ;;
      lid <- Infiniband.GetLid ib Infiniband.kPort ;;
      rest <- make_qps n' ib m nvm ;;
      Ret ((q, Infiniband.mkQpi lid (Infiniband.GetLocalQPNum q) Infiniband.kDefaultPsn (rkey m) nvm) :: rest)
  end.

(** [Tablet::Tablet]; [u] and [ws] are what the members held before.  When it
    throws, the members that are objects are destroyed: the transport, not the
    region and the queue pairs. *)
Definition construct (nvm : Z) (is_backup : bool) (u : TabletInfo) (ws : list ibv_send_wr) : prog t :=
  ib <- Infiniband.construct 1024 ;;
  unwind (Infiniband.destruct_ ib)
    (m <- sys (ibv_reg_mr (Infiniband.pd_ ib) nvm Tablet.kNVMTabletSize [IBV_ACCESS_LOCAL_WRITE; IBV_ACCESS_REMOTE_WRITE]) ;;
     check (bool_decide (is_Some m)) ;;;
     let m := default (mkMr 0 0 0) m in
     qps <- make_qps (Z.to_nat kNumReplicas) ib m nvm ;;
     Ret (mkTablet (mkTabletInfo (t_id u) (t_server_id u) is_backup (map snd qps) (t_peers u)) nvm ib m (map fst qps) ws)).

(** [Tablet::~Tablet] *)
Definition destruct_ (tab : t) : prog unit :=
  for_ (length (qps_ tab)) (fun l : list Infiniband.QueuePair =>
    match l with q :: l' => Infiniband.QueuePair_destruct q ;;; Ret l' | [] => Ret [] end) (rev (qps_ tab)) ;;;
  err <- sys (ibv_dereg_mr (mr_ptr (mr_ tab))) ;;
  check (err =? 0) ;;;
  Infiniband.destruct_ (ib_ tab).

(** The loop over the backups of the master, on a backup. *)
Fixpoint connect_backup (n i : nat) (tab : t) (id : Z) (master_info : TabletInfo) : prog unit :=
  match n with
  | O => Ret tt
  | S n' =>
      b <- elem (backups master_info) i ;;
      if b =? id then
        q <- elem (qps_ tab) 0 ;; peer <- elem (t_qpis master_info) i ;; Infiniband.SetStateRTR q peer
      else check (Z.of_nat i <? kNumReplicas - 1) ;;; connect_backup n' (S i) tab id master_info
  end.

Fixpoint connect_master (n i : nat) (tab : t) (im : IndexManager) (info : TabletInfo) : prog unit :=
  match n with
  | O => Ret tt
  | S n' =>
      backup_id <- elem (backups info) i ;;
      backup_info <- GetTablet im backup_id ;;
      check (t_is_backup backup_info) ;;;
      q <- elem (qps_ tab) i ;;
      peer <- elem (t_qpis backup_info) 0 ;;
      Infiniband.SetStateRTS q peer ;;;
      connect_master n' (S i) tab im info
  end.

Definition SettingupQPConnect (tab : t) (id : Z) (im : IndexManager) : prog t :=
  info <- GetTablet im id ;;
  (if t_is_backup info then
     m <- elem (t_peers info) 0 ;;
     master_info <- GetTablet im m ;;
     check (negb (t_is_backup master_info)) ;;;
     connect_backup (Z.to_nat kNumReplicas) 0 tab id master_info
   else connect_master (Z.to_nat kNumReplicas) 0 tab im info) ;;;
  Ret (mkTablet info (nvm_tablet_ tab) (ib_ tab) (mr_ tab) (qps_ tab) (wrs tab)).

(** The request for one entry, over what the slot of [wrs] held. *)
Definition write_request (tab : t) (backup : Infiniband.QueuePairInfo) (m : Modification) (old : ibv_send_wr) : ibv_send_wr :=
  mkSend 1 [mkSge (src m) (len m) (lkey (mr_ tab))] IBV_WR_RDMA_WRITE [IBV_SEND_INLINE]
    (set_rdma (u64 (Infiniband.qpi_vaddr backup + des m)) (Infiniband.qpi_rkey backup) (s_wr old)) (s_imm old).

(** [for (const auto& m : modifications) { ...; ++i; break; }]: the requests
    that were filled in. *)
Definition fill (tab : t) (backup : Infiniband.QueuePairInfo) (modifications : ModificationList) : prog (list ibv_send_wr) :=
  match modifications with
  | [] => Ret []
  | m :: _ => old <- elem (wrs tab) 0 ;; Ret [write_request tab backup m old]
  end.

(** [wrs[i-1].send_flags |= IBV_SEND_SIGNALED] *)
Definition signal (w : ibv_send_wr) : ibv_send_wr :=
  mkSend (s_wr_id w) (s_sg_list w) (s_opcode w) (s_flags w ++ [IBV_SEND_SIGNALED]) (s_wr w) (s_imm w).

Definition with_wrs (ws : list ibv_send_wr) (tab : t) : t :=
  mkTablet (info_ tab) (nvm_tablet_ tab) (ib_ tab) (mr_ tab) (qps_ tab) ws.

(** The loop over the backups, from the [k]-th on. *)
Fixpoint post_all (ids : list Z) (k : nat) (tab : t) (im : IndexManager) (modifications : ModificationList) : prog t :=
  match ids with
  | [] => Ret tab
  | id :: ids' =>
      backup <- GetTablet im id ;;
      check (t_is_backup backup) ;;;
      peer <- elem (t_qpis backup) 0 ;;
      ws <- fill tab peer modifications ;;
      match rev ws with
      | [] => Stop (Fault Segv)                                   (* wrs[-1] *)
      | last :: before =>
          let chain := rev (signal last :: before) in
          let tab := with_wrs (chain ++ drop (length chain) (wrs tab)) tab in
          q <- elem (qps_ tab) k ;;
          err <- sys (ibv_post_send (Infiniband.qp q) chain) ;;
          if negb (err =? 0) then throw err else post_all ids' (S k) tab im modifications
      end
  end.

(** [for (auto& qp : qps_)]: one completion from every queue pair. *)
Fixpoint wait_all (fuel : nat) (qs : list Infiniband.QueuePair) : prog unit :=
  match qs with
  | [] => Ret tt
  | q :: qs' =>
      wc <- poll_one fuel (Infiniband.scq q) ;;
      if negb (wc_status wc =? IBV_WC_SUCCESS) then throw (wc_status wc) else wait_all fuel qs'
  end.

Definition Sync (fuel : nat) (im : IndexManager) (tab : t) (modifications : ModificationList) : prog (t * ModificationList) :=
  if bool_decide (modifications = []) then Ret (tab, modifications) else
  modifications <- MergeModifications modifications ;;
  tab <- post_all (backups (info_ tab)) 0 tab im modifications ;;
  wait_all fuel (qps_ tab) ;;;
  Ret (tab, modifications).

End Sync.
