(* ===== verification/SyncSpec.v ===== *)
(** * Replication: what reaches the backup

    An RDMA WRITE copies bytes of the local tablet to the same offsets of the
    backup's.  [Sync] sends one request per backup, for the first of the
    merged entries: when merging leaves a single entry the backup equals the
    master again, and otherwise it does not. *)

From S2P Require Import Prelude Nvm Modification Allocator Wire Tablet TabletRefine Logged Verbs Merge LogSize Loopback Infiniband Index IndexSpec Sync.

Import Allocator.

#[local] Open Scope prog_scope.

(** The send requests the device accepted, oldest first. *)
Definition accepted_by (c : call) : reply c -> list ibv_send_wr :=
  match c return reply c -> list ibv_send_wr with
  | ibv_post_send _ ws => fun r => if r =? 0 then ws else []
  | _ => fun _ => []
  end.

Fixpoint accepted (h : trace) : list ibv_send_wr :=
  match h with [] => [] | ev :: h' => accepted h' ++ accepted_by (ev_call ev) (ev_reply ev) end.

(** The gathered bytes, one element behind the other, at remote offset [off]. *)
Fixpoint scatter (local : mem) (lbase off : Z) (gs : list ibv_sge) (dst : mem) : mem :=
  match gs with
  | [] => dst
  | g :: gs' =>
      scatter local lbase (off + sge_length g) gs'
        (store dst off (load local (sge_addr g - lbase) (Z.to_nat (sge_length g))))
  end.

Definition rdma_write (local : mem) (lbase rbase : Z) (dst : mem) (w : ibv_send_wr) : mem :=
  scatter local lbase (rdma_remote_addr (s_wr w) - rbase) (s_sg_list w) dst.

Definition replica (local : mem) (lbase rbase : Z) (ws : list ibv_send_wr) (dst : mem) : mem :=
  foldl (rdma_write local lbase rbase) dst ws.

Lemma byte_at_copy local dst a n x : 0 <= n ->
  byte_at (store dst a (load local a (Z.to_nat n))) x = if decide (a <= x < a + n) then byte_at local x else byte_at dst x.
Proof.
  intros Hn. case_decide as Hx.
  - apply (load_ext_inv local _ a (Z.to_nat n)); [| lia].
    pose proof (load_store_eq dst a (load local a (Z.to_nat n))) as E. by rewrite load_length in E.
  - apply byte_at_store_out. rewrite load_length. lia.
Qed.

Lemma accepted_poll e h fuel cq : accepted (run e h (poll_one fuel cq)).1 = accepted h.
Proof.
  revert h. induction fuel as [|fuel IH]; intros h; [done |]. cbn [poll_one]. cbn [pbind sys run].
  assert (accepted (mkCall (ibv_poll_cq cq 1) (e h (ibv_poll_cq cq 1)) :: h) = accepted h) as E by (cbn; by rewrite app_nil_r).
  destruct (e h (ibv_poll_cq cq 1)) as [r | [|wc [|]]]; cbn [run fst] in *; rewrite ?IH; done.
Qed.

Lemma accepted_wait e fuel qs : forall h, accepted (run e h (Sync.wait_all fuel qs)).1 = accepted h.
Proof.
  induction qs as [|q qs IH]; intros h; cbn [Sync.wait_all]; [done |]. rewrite run_bind.
  pose proof (accepted_poll e h fuel (Infiniband.scq q)) as E. destruct (run e h _) as [h1 [wc | s]]; cbn [fst] in *; [| done].
  case_match; [done |]. by rewrite IH.
Qed.

Section Replication.
(** A master tablet of the configured cluster, connected to its backup. *)
Variables (im : IndexManager) (tab : Sync.t) (q : Infiniband.QueuePair) (backup : TabletInfo)
  (peer : Infiniband.QueuePairInfo) (rest : list Infiniband.QueuePairInfo) (id lbase top : Z).

Record connected : Prop := {
  cn_backups : backups (Sync.info_ tab) = [id];
  cn_lookup : Sync.GetTablet im id = Ret backup;
  cn_backup : t_is_backup backup = true;
  cn_peer : t_qpis backup = peer :: rest;
  cn_qps : Sync.qps_ tab = [q];
  cn_wrs : Sync.wrs tab <> [];
  cn_top : top < 2 ^ 32 - gap;
  cn_local : 0 <= lbase /\ lbase + top <= 2 ^ 64;
  cn_remote : 0 <= Infiniband.qpi_vaddr peer /\ Infiniband.qpi_vaddr peer + top <= 2 ^ 64 }.

Lemma replica_first old m local dst x : connected -> names lbase top m ->
  byte_at (replica local lbase (Infiniband.qpi_vaddr peer) [Sync.signal (Sync.write_request tab peer m old)] dst) x =
    if decide (covers m x) then byte_at local x else byte_at dst x.
Proof.
  intros [_ _ _ _ _ _ Htop Hl Hr] (N1 & N2 & N3 & N4). cbn. unfold rdma_remote_addr. cbn.
  assert (0 < len m \/ len m = 0) as [Hlen | Hlen] by lia.
  - rewrite N4, !u64_small by lia. replace (Infiniband.qpi_vaddr peer + des m - Infiniband.qpi_vaddr peer) with (des m) by lia.
    replace (lbase + des m - lbase) with (des m) by lia. by apply byte_at_copy.
  - rewrite Hlen. cbn. rewrite decide_False; [done |]. unfold covers. lia.
Qed.

Lemma Sync_run e h fuel l tab' l' h' : connected -> l <> [] -> Forall (names lbase top) l ->
  run e h (Sync.Sync fuel im tab l) = (h', Returned (tab', l')) ->
  exists m ms old, MergeModifications l = Ret l' /\ l' = m :: ms /\ names lbase top m /\
    accepted h' = accepted h ++ [Sync.signal (Sync.write_request tab peer m old)].
Proof.
  intros Hc Hne Hn Hrun. pose proof Hc as [H1 H2 H3 H4 H5 H6 Htop _ _].
  destruct (merge_run lbase top Htop l Hne Hn) as (l1 & Hm & Hne1 & Hn1 & _ & _ & _).
  unfold Sync.Sync in Hrun. rewrite bool_decide_eq_false_2, Hm in Hrun by done. cbn [pbind] in Hrun.
  destruct l1 as [|m ms]; [done |]. apply list.Forall_cons in Hn1 as [Hnm _].
  destruct (Sync.wrs tab) as [|old ws] eqn:Ew; [done |].
  rewrite H1 in Hrun. cbn [Sync.post_all] in Hrun. rewrite H2 in Hrun. cbn [pbind] in Hrun. rewrite H3, H4 in Hrun.
  cbn [check pbind Sync.elem lookup list_lookup Sync.fill] in Hrun. rewrite Ew in Hrun.
  cbn [pbind rev app Sync.elem lookup list_lookup Sync.with_wrs Sync.qps_] in Hrun. rewrite H5 in Hrun.
  change (Sync.elem [q] 0) with (Ret q) in Hrun. cbn [pbind sys run] in Hrun. set (w := Sync.signal _) in Hrun.
  destruct (Z.eqb (e h (ibv_post_send (Infiniband.qp q) [w])) 0) eqn:Er; cbn [negb pbind throw run] in Hrun; [| done].
  cbn [Sync.with_wrs Sync.qps_] in Hrun. rewrite H5, run_bind in Hrun.
  set (h1 := mkCall _ _ :: h) in Hrun. pose proof (accepted_wait e fuel [q] h1) as Ha.
  destruct (run e h1 _) as [h2 [[] | s]]; cbn [fst run] in *; [| done]. injection Hrun as <- <- <-.
  exists m, ms, old. split_and!; try done. rewrite Ha. unfold h1. cbn [accepted ev_call ev_reply accepted_by]. by rewrite Er.
Qed.

(** C23. When [Sync] returns, the device accepted one RDMA WRITE for the
    backup, and it copies exactly the first of the merged entries: the bytes
    of that entry are the master's on the backup, all others, logged or not,
    are what the backup had. *)
Theorem Sync_sends_first e h fuel l tab' l' h' local dst : connected -> l <> [] -> Forall (names lbase top) l ->
  run e h (Sync.Sync fuel im tab l) = (h', Returned (tab', l')) ->
  exists m ms ws, MergeModifications l = Ret l' /\ l' = m :: ms /\ accepted h' = accepted h ++ ws /\
    forall x, byte_at (replica local lbase (Infiniband.qpi_vaddr peer) ws dst) x =
      if decide (covers m x) then byte_at local x else byte_at dst x.
Proof.
  intros Hc Hne Hn Hrun. destruct (Sync_run _ _ _ _ _ _ _ Hc Hne Hn Hrun) as (m & ms & old & H1 & H2 & H3 & H4).
  exists m, ms. eexists. split_and!; [exact H1 | exact H2 | exact H4 |]. intros x. by apply replica_first.
Qed.

(** C24. Replication is right when the log merges into one entry: if the
    backup had the bytes of the tablet before an operation, and the operation
    logged what it changed, as every operation does, then after [Sync] it has
    the bytes of the tablet after the operation. *)
Theorem Sync_replicates e h fuel s s' l tab' m h' dst : connected -> lbase = base_ s -> top = region s ->
  logs s s' l -> l <> [] -> (forall x, byte_at dst x = byte_at (nvm s) x) ->
  run e h (Sync.Sync fuel im tab l) = (h', Returned (tab', [m])) ->
  exists ws, accepted h' = accepted h ++ ws /\
    forall x, byte_at (replica (nvm s') lbase (Infiniband.qpi_vaddr peer) ws dst) x = byte_at (nvm s') x.
Proof.
  intros Hc Eb Et (Hlog & Hok & _ & _) Hne Hdst Hrun.
  assert (Forall (names lbase top) l) as Hn by (rewrite Eb, Et; exact Hok). clear Hok. rename Hn into Hok.
  destruct (Sync_run _ _ _ _ _ _ _ Hc Hne Hok Hrun) as (m' & ms & old & H1 & [= -> <-] & H3 & H4).
  eexists. split; [exact H4 |]. intros x. rewrite replica_first by done. case_decide as Hx; [done |].
  destruct (merge_run lbase top (cn_top Hc) l Hne Hok) as (l1 & E & _ & _ & _ & Hcov & _).
  rewrite H1 in E. injection E as <-. rewrite Hdst.
  destruct (decide (byte_at (nvm s') x = byte_at (nvm s) x)) as [-> | Hd]; [done |].
  apply Hlog, Hcov, covered_cons in Hd as [? | []%covered_nil]; done.
Qed.
End Replication.

(** ** On a concrete tablet *)

Definition peer_example : Infiniband.QueuePairInfo := Infiniband.mkQpi 7 2 33 200 8192.
Definition backup_example : TabletInfo := mkTabletInfo 3 1 true [peer_example] [0].
Definition im_example : IndexManager := mkIndex [0; 2] (replicate 3 blank_tablet ++ [backup_example]) [].
Definition qp_example : Infiniband.QueuePair := Infiniband.mkQueuePair IBV_QPT_RC (mkQp 5 IBV_QPT_RC) 10 11 33.
Definition wr_example : ibv_send_wr := mkSend 0 [] IBV_WR_SEND [] (mkUnion 0 0 0) 0.
Definition tab_example : Sync.t :=
  Sync.mkTablet (mkTabletInfo 0 0 false [] [3]) 4096 (Infiniband.mkIb 1 2 (mkMr 3 3 3) 4 5 ∅) (mkMr 6 6 6) [qp_example]
    [wr_example].

Lemma connected_example : connected im_example tab_example qp_example backup_example peer_example [] 3 4096 Tablet.kNVMTabletSize.
Proof. split; try done; vm_compute; split; discriminate. Qed.

(** Everything succeeds at once. *)
Definition obliging : env := fun h c =>
  match c return reply c with
  | ibv_poll_cq _ _ => Polled [mkWc 1 IBV_WC_SUCCESS false 0 5 0 0]
  | c => loopback h c
  end.

Definition overwrite : Request.request := req Request.PUT k_example (take 3 v_example).

(** The tablet after a first [Put], and after a second one for the key. *)
Definition stored : outcome state Status := Tablet.Put 1 (req Request.PUT k_example v_example) [] t1_example.
Definition overwritten : outcome state Status :=
  match stored with Ok _ s => Tablet.Put 1 overwrite [] s | Err er s => Err er s end.

Lemma stored_runs : exists s, stored = Ok OK s /\ logs t1_example s (default [] (modifications_ s)).
Proof.
  pose proof (Put_logged (req Request.PUT k_example v_example) ltac:(done) ltac:(done) 1 [] t1_example) as (l & Hl & Hlog).
  fold stored in Hl, Hlog. assert (match stored with Ok OK _ => true | _ => false end = true) as E by (vm_compute; reflexivity).
  destruct stored as [st s | er s]; [| discriminate E]. destruct st; [| discriminate E | discriminate E].
  exists s. split; [reflexivity |]. cbn in Hl, Hlog. rewrite Hl. exact Hlog.
Qed.

Definition log_example : ModificationList := [mkModification 67108830 2 67112926; mkModification 67108843 3 67112939].

Lemma overwritten_runs : exists s s', stored = Ok OK s /\ Tablet.Put 1 overwrite [] s = Ok OK s' /\
  modifications_ s' = Some log_example /\ logs s s' log_example /\
  base_ s = 4096 /\ region s = Tablet.kNVMTabletSize.
Proof.
  destruct stored_runs as (s & E1 & _ & _ & Hb & Hr). exists s.
  assert (match overwritten with Ok OK s => modifications_ s | _ => None end = Some log_example) as E by (vm_compute; reflexivity).
  unfold overwritten in E. rewrite E1 in E.
  pose proof (Put_logged overwrite ltac:(done) ltac:(done) 1 [] s) as (l & Hl & Hlog).
  destruct (Tablet.Put 1 overwrite [] s) as [st s' | er s'] eqn:E2; [| discriminate E].
  destruct st; [| discriminate E | discriminate E].
  exists s'. cbn in Hl, Hlog. rewrite E in Hl. injection Hl as <-.
  split; [exact E1 |]. split; [reflexivity |]. split; [exact E |]. split; [exact Hlog |].
  split; [rewrite Hb | rewrite Hr]; vm_compute; reflexivity.
Qed.

(** A [Put] that has to move the object logs sixteen modifications. *)
Definition longer : Request.request := req Request.PUT k_example (concat (replicate 12 v_example)).

Example reallocation_logs_16 :
  match stored with
  | Ok _ s => match Tablet.Put 5 longer [] s with Ok OK s' => length (default [] (modifications_ s')) = 16%nat | _ => False end
  | Err _ _ => False
  end.
Proof. vm_compute. reflexivity. Qed.

Lemma sync_runs : exists tab' m h',
  run obliging [] (Sync.Sync 1 im_example tab_example log_example) = (h', Returned (tab', [m])).
Proof. eexists _, _, _. vm_compute. reflexivity. Qed.

Lemma Sync_replicates_witness : exists s s' ws, stored = Ok OK s /\ Tablet.Put 1 overwrite [] s = Ok OK s' /\
  ws <> [] /\ forall x, byte_at (replica (nvm s') 4096 8192 ws (nvm s)) x = byte_at (nvm s') x.
Proof.
  destruct overwritten_runs as (s & s' & E1 & E2 & E3 & Hlog & Hb & Hr). destruct sync_runs as (tab' & m & h' & Hrun).
  destruct (Sync_replicates im_example tab_example qp_example backup_example peer_example [] 3 4096 Tablet.kNVMTabletSize
    obliging [] 1 s s' log_example tab' m h' (nvm s) connected_example (eq_sym Hb) (eq_sym Hr) Hlog ltac:(done)
    (fun _ => eq_refl) Hrun) as (ws & Ha & Hx).
  exists s, s', ws. split; [exact E1 |]. split; [exact E2 |]. split; [| exact Hx].
  intros ->. cbn in Ha. assert (accepted (run obliging [] (Sync.Sync 1 im_example tab_example log_example)).1 <> []) as Hne
    by (vm_compute; discriminate). rewrite Hrun in Hne. by apply Hne.
Defined.

Lemma Sync_sends_first_witness : exists tab' l' h', 
  run obliging [] (Sync.Sync 1 im_example tab_example log_example) = (h', Returned (tab', l')) /\
  exists m ms ws, MergeModifications log_example = Ret l' /\ l' = m :: ms /\ accepted h' = accepted [] ++ ws /\
    forall x, byte_at (replica ∅ 4096 8192 ws ∅) x = if decide (covers m x) then byte_at ∅ x else byte_at ∅ x.
Proof.
  destruct sync_runs as (tab' & m & h' & Hrun). exists tab', [m], h'. split; [exact Hrun |].
  apply (Sync_sends_first im_example tab_example qp_example backup_example peer_example [] 3 4096 Tablet.kNVMTabletSize
    obliging [] 1 log_example tab' [m] h' ∅ ∅ connected_example ltac:(done)); [| exact Hrun].
  repeat constructor; vm_compute; congruence.
Defined.

(** ** The first put of a chain *)

Lemma Get_empty fuel cap r s mods : Request.type r = Request.Type_code Request.GET -> 0 < Tablet.slot_of r ->
  Tablet.slot_of r + 4 <= region s -> rd32 (nvm s) (Tablet.slot_of r) = 0 ->
  exists s', Tablet.Get (S fuel) cap r mods s = Ok (ERROR, []) s'.
Proof.
  intros Hty Hs1 Hs2 Hz. eexists. unfold Tablet.Get, set_modifications, modify. unfold bind at 1.
  rewrite assert_true by (by rewrite Hty).
  rewrite (bind_Ok _ _ _ _ _ (Read32_run (Tablet.slot_of r) (with_modifications (Some mods) s) Hs1 Hs2)).
  cbn [with_modifications nvm]. by rewrite Hz.
Qed.

(** Where the slot of a request is, and that it is 0 when the chain is empty. *)
Lemma slot_empty s B r : holds s B -> B (bucket_of r) = [] ->
  kSize <= Tablet.slot_of r /\ Tablet.slot_of r + 4 <= region s /\ rd32 (nvm s) (Tablet.slot_of r) = 0.
Proof.
  intros (L & h & _ & Ht) HB. pose proof (bucket_range r) as Hb. pose proof (tb_region _ _ _ Ht) as Hreg.
  rewrite slot_of_at. unfold slot_at. rewrite (tb_head _ _ _ Ht), HB by done. cbn [ptr_of]. tab_consts. lia.
Qed.

(** The log of a [Put] into an empty chain starts among the list heads, and
    merged it ends long before the hash table. *)
Lemma first_put_merged fuel s B r s' : holds s B -> Request.complete r -> B (bucket_of r) = [] ->
  region s < 2 ^ 32 - gap -> Tablet.Put fuel r [] s = Ok OK s' ->
  (0 < fuel)%nat /\ exists l, modifications_ s' = Some l /\ l <> [] /\ Forall (names (base_ s) (region s)) l /\
    forall m ms, MergeModifications l = Ret (m :: ms) -> des m + len m <= kSize.
Proof.
  intros HB (Hk & Hv & _) He Htop E. destruct (slot_empty s B r HB He) as (H1 & H2 & Hz).
  destruct (Put_first fuel r s s') as (Hpf & l & Hl & Hlow & Hspan); [tab_consts; lia | done | done | lia | done |].
  split; [exact Hpf |]. exists l. split; [done |]. split; [intros ->; by apply Exists_nil in Hlow |].
  assert (Forall (names (base_ s) (region s)) l) as Hn.
  { destruct (Put_logged r ltac:(lia) ltac:(lia) fuel [] s) as (l' & Hl' & _ & Hok & _). rewrite E in Hl'. cbn [final app] in Hl'.
    rewrite Hl in Hl'. by injection Hl' as ->. }
  split; [done |]. intros m ms Hm. unfold low in Hlow. destruct (merge_first (base_ s) (region s) Htop l m ms _ Hn Hm Hlow).
  unfold sizeof_FreeListManager, kNumFreeLists, kMaxBlockSize, kSize in *. change ((1024 + 128) / 16) with 72 in *. lia.
Qed.

(** C25. The first [Put] of a chain does not reach the backup.  Let the
    master's tablet hold any store in which the chain of the request's key is
    empty, and let the [Put] return.  On the master a [Get] of the key now
    returns the value.  But whatever the device does, if replication ends
    without an error, then on the backup, whose bytes were those of the master
    before, the [Get] does not find the key: the one request that was sent
    covers a list head of the allocator and what is near it, and the slot of
    the hash table is far behind. *)
Theorem first_put_not_replicated s B r g cap pf s' im tab q backup peer rest id dst :
  holds s B -> Request.complete r -> Request.type r = Request.Type_code Request.PUT -> Heap.fits (request_size r) ->
  B (bucket_of r) = [] -> Tablet.Put pf r [] s = Ok OK s' ->
  connected im tab q backup peer rest id (base_ s) (region s) -> (forall x, byte_at dst x = byte_at (nvm s) x) ->
  Request.complete g -> Request.type g = Request.Type_code Request.GET -> Request.key_hash g = Request.key_hash r ->
  Request.key g = Request.key r -> Request.val_len r <= cap ->
  exists l, modifications_ s' = Some l /\
  (exists gf t, Tablet.Get gf cap g [] s' = Ok (OK, Request.val r) t) /\
  forall e h fuel tab' l' h', run e h (Sync.Sync fuel im tab l) = (h', Returned (tab', l')) ->
  exists ws t, accepted h' = accepted h ++ ws /\
    Tablet.Get 1 cap g [] (with_nvm (replica (nvm s') (base_ s) (Infiniband.qpi_vaddr peer) ws dst) s) = Ok (ERROR, []) t.
Proof.
  intros HB Hr Hty Hf He E Hc Hdst Hg Hgty Hh Hkey Hcap. assert (bucket_of g = bucket_of r) as Hbk by (unfold bucket_of; by rewrite Hh).
  destruct (first_put_merged pf s B r s' HB Hr He (cn_top _ _ _ _ _ _ _ _ _ Hc) E) as (Hpf & l & Hl & Hne & Hn & Hend). exists l. split; [exact Hl |]. split.
  - pose proof (Put_run s B r pf [] HB Hr Hty Hf) as HP. rewrite E, He in HP.
    destruct (HP Hpf) as (_ & B' & HB' & Hcon). specialize (Hcon (bucket_of r) (Request.key r)).
    rewrite decide_True in Hcon by done. exists (S (length (B' (bucket_of g)))). eexists.
    rewrite (Get_run s' B' g _ cap [] HB' Hg Hgty) by (lia || rewrite Hbk, Hkey, Hcon; intros v [= <-]; unfold Request.val; rewrite length_take; destruct Hr; lia).
    rewrite Hbk, Hkey, Hcon. reflexivity.
  - intros e h fuel tab' l' h' Hrun.
    destruct (Sync_run im tab q backup peer rest id (base_ s) (region s) e h fuel l tab' l' h' Hc Hne Hn Hrun)
      as (m & ms & old & Hm & -> & Hnm & Ha). apply Hend in Hm.
    destruct (slot_empty s B g HB) as (H1 & H2 & Hz); [by rewrite Hbk |].
    destruct (Get_empty 0 cap g (with_nvm (replica (nvm s') (base_ s) (Infiniband.qpi_vaddr peer)
      [Sync.signal (Sync.write_request tab peer m old)] dst) s) []) as [t Ht]; [done | tab_consts; lia | done | | by eexists _, t].
    rewrite <- Hz. apply rd32_ext. intros x Hx.
    cbn [nvm with_nvm]. rewrite (replica_first im tab q backup peer rest id (base_ s) (region s)) by done.
    rewrite decide_False by (unfold covers; lia). apply Hdst.
Qed.

Lemma example_connected : connected im_example tab_example qp_example backup_example peer_example [] 3
  (base_ t1_example) (region t1_example).
Proof.
  assert (base_ t1_example = 4096) as -> by (vm_compute; reflexivity).
  assert (region t1_example = Tablet.kNVMTabletSize) as -> by (vm_compute; reflexivity). apply connected_example.
Qed.

Definition log_of (o : outcome state Status) : ModificationList :=
  match o with Ok _ s => default [] (modifications_ s) | Err _ _ => [] end.

Lemma stored_synced : exists tab' l' h', run obliging [] (Sync.Sync 1 im_example tab_example (log_of stored)) = (h', Returned (tab', l')) /\
  accepted h' <> [].
Proof.
  assert (match run obliging [] (Sync.Sync 1 im_example tab_example (log_of stored)) with
          | (h, Returned (_, _)) => negb (bool_decide (accepted h = [])) | _ => false end = true) as R by (vm_compute; reflexivity).
  destruct (run obliging [] _) as [h' [[tab' l'] | st]]; [| discriminate R].
  exists tab', l', h'. split; [reflexivity |]. by apply negb_true_iff, bool_decide_eq_false in R.
Qed.

Lemma first_put_not_replicated_witness : exists s t gf ws t', stored = Ok OK s /\
  Tablet.Get gf 1024 (req Request.GET k_example []) [] s = Ok (OK, v_example) t /\ ws <> [] /\
  Tablet.Get 1 1024 (req Request.GET k_example []) []
    (with_nvm (replica (nvm s) (base_ t1_example) 8192 ws (nvm t1_example)) t1_example) = Ok (ERROR, []) t'.
Proof.
  destruct stored_runs as (s & E & _). destruct stored_synced as (tab' & l' & h' & Hrun & Hne).
  destruct (first_put_not_replicated t1_example (fun _ => []) (req Request.PUT k_example v_example) (req Request.GET k_example [])
    1024 1 s im_example tab_example qp_example backup_example peer_example [] 3 (nvm t1_example)) as (l & El & (gf & t & Hget) & Hsync).
  - exact holds_example.
  - by apply example_complete.
  - reflexivity.
  - apply example_fits.
  - reflexivity.
  - exact E.
  - exact example_connected.
  - reflexivity.
  - by apply example_complete.
  - reflexivity.
  - reflexivity.
  - reflexivity.
  - vm_compute. discriminate.
  - rewrite E in Hrun. cbn [log_of] in Hrun. rewrite El in Hrun. cbn [default] in Hrun.
    destruct (Hsync obliging [] 1%nat tab' l' h' Hrun) as (ws & t' & Ha & Hlost). exists s, t, gf, ws, t'.
    split; [exact E |]. split; [exact Hget |]. split; [| exact Hlost]. cbn [accepted app] in Ha. by rewrite <- Ha.
Defined.
