(* ===== verification/SyncRules.v ===== *)
(** * Replication and the limit on inline data

    [Sync] posts its request with the data inline, which a queue pair made by
    [Infiniband] takes for up to 128 bytes.  Up to there replication keeps the
    rules of the verbs and leaves the queue pair as it was; an entry that is
    longer breaks them. *)

From S2P Require Import Prelude Nvm Modification Allocator Wire Tablet TabletRefine Logged Verbs Merge Protocol Loopback Infiniband Endpoint Index IndexSpec Sync SyncSpec.

#[local] Open Scope prog_scope.

Section Inline.
Variables (im : IndexManager) (tab : Sync.t) (q : Infiniband.QueuePair) (backup : TabletInfo)
  (peer : Infiniband.QueuePairInfo) (rest : list Infiniband.QueuePairInfo) (id lbase top : Z).
#[local] Abbreviation connected := (connected im tab q backup peer rest id lbase top).

(** Nothing to send, and a state that takes requests. *)
Definition idle (st : ibv_qp_state) (d : device) : Prop :=
  Infiniband.type q = IBV_QPT_RC /\ can_send st = true /\ exists recvs n, endpoint Sync.kMaxIBQueueDepth d q st [] recvs n.

(** Connected, with nothing to send. *)
Definition rests : device -> Prop := idle IBV_QPS_RTS.

(** Up to the post nothing happens; then comes the wait. *)
Lemma Sync_unfold fuel l m ms : connected -> l <> [] -> MergeModifications l = Ret (m :: ms) ->
  exists old ws, ws <> [] /\ Sync.Sync fuel im tab l =
    (err <- sys (ibv_post_send (Infiniband.qp q) [Sync.signal (Sync.write_request tab peer m old)]) ;;
     t <- (if negb (err =? 0) then throw err else Ret (Sync.with_wrs ws tab)) ;;
     Sync.wait_all fuel (Sync.qps_ t) ;;; Ret (t, m :: ms)).
Proof.
  intros [H1 H2 H3 H4 H5 H6 _ _ _] Hne Hm. destruct (Sync.wrs tab) as [|old ws] eqn:Ew; [done |].
  exists old, (Sync.signal (Sync.write_request tab peer m old) :: drop 1 (old :: ws)). split; [done |].
  unfold Sync.Sync. rewrite bool_decide_eq_false_2, Hm by done. cbn [pbind]. rewrite H1. cbn [Sync.post_all]. rewrite H2. cbn [pbind].
  rewrite H3, H4. cbn [check pbind Sync.elem lookup list_lookup Sync.fill]. rewrite Ew.
  cbn [pbind rev app Sync.elem lookup list_lookup Sync.with_wrs Sync.qps_]. rewrite H5. change (Sync.elem [q] 0) with (Ret q).
  reflexivity.
Qed.

(** An entry that fits is posted, and the wait takes its completion; one that
    failed leaves the queue pair in error. *)
Lemma safe_Sync fuel d st l m ms : connected -> l <> [] -> MergeModifications l = Ret (m :: ms) -> len m <= Infiniband.kMaxInlineData ->
  idle st d -> safe d (Sync.Sync fuel im tab l)
    (fun x d' => idle st d' /\ same_memory d d' /\ beside q d d' /\ exists ws, ws <> [] /\ x.1 = Sync.with_wrs ws tab)
    (fun s d' => match s with Fault (Throw _) => same_memory d d' /\ beside q d d' /\ exists st', idle st' d' | _ => True end).
Proof.
  intros Hc Hne Hm Hlen (Hty & Hst & recvs & n & Hep). destruct (Sync_unfold fuel l m ms Hc Hne Hm) as (old & ws & Hws & ->).
  eapply safe_post_one; [exact Hep | done | | done | |].
  { split; [by rewrite Hty |]. split; [by rewrite Hty |]. eexists. split; [reflexivity |]. rewrite decide_True by (cbn; set_solver). exact Hlen. }
  { intros r Hr. rewrite (proj2 (Z.eqb_neq _ _) Hr). cbn [negb throw pbind safe]. split; [done |]. split; [by split |]. exists st.
    split; [done |]. split; [done |]. by exists recvs, n. }
  intros d' Em Eh B1 Hep'. cbn [Z.eqb negb pbind Sync.with_wrs Sync.qps_]. rewrite (cn_qps _ _ _ _ _ _ _ _ _ Hc). cbn [Sync.wait_all]. vassoc.
  apply safe_poll; [by rewrite (ep_scq _ _ _ _ _ _ _ Hep') | done |]. intros wc d2 Hd.
  destruct (endpoint_complete _ _ _ _ _ _ _ _ _ _ Hep' (or_introl eq_refl) Hd) as ([Em2 Eh2] & B2 & sends2 & recvs2 & Hep2 & Hr & _).
  destruct (Hr eq_refl) as [Hr' _]. clear Hr. cbn in Hr'. assert (sends2 = []) as -> by (repeat case_match; congruence). clear Hr'.
  assert (same_memory d d2) as M by (split; congruence). assert (beside q d d2) as B by (by eapply beside_trans).
  destruct (wc_status wc =? IBV_WC_SUCCESS); cbn [negb pbind throw safe Sync.wait_all].
  - split; [| split; [done | split; [done | by exists ws]]]. split; [done |]. split; [done |]. by exists recvs2, (n + 1).
  - split; [done |]. split; [done |]. exists IBV_QPS_ERR. split; [done |]. split; [done |]. by exists recvs2, (n + 1).
Qed.

(** A longer one breaks the rules at once. *)
Lemma long_Sync e h d fuel st l m ms : connected -> l <> [] -> MergeModifications l = Ret (m :: ms) -> Infiniband.kMaxInlineData < len m ->
  judge h = Running d -> idle st d ->
  exists w, judge (run e h (Sync.Sync fuel im tab l)).1 = Misused (ibv_post_send (Infiniband.qp q) [w]) /\
    s_flags w = [IBV_SEND_INLINE; IBV_SEND_SIGNALED] /\ Infiniband.kMaxInlineData < sg_len (s_sg_list w).
Proof.
  intros Hc Hne Hm Hlen Hj (Hty & _ & recvs & n & Hep). destruct (Sync_unfold fuel l m ms Hc Hne Hm) as (old & ws & _ & ->). cbn [pbind sys run].
  set (w := Sync.signal _). exists w. split; [| split; [done | cbn; lia]]. apply misused_run. cbn [judge ev_call ev_reply]. rewrite Hj.
  assert (allowed d (ibv_post_send (Infiniband.qp q) [w]) = false) as ->; [| done].
  cbn [allowed]. rewrite (ep_qp _ _ _ _ _ _ _ Hep). cbn [sends_ok]. rewrite Hty. unfold send_ok, w.
  rewrite (decide_True (P := IBV_SEND_INLINE ∈ _)) by (cbn; set_solver).
  cbn [q_init max_inline_data Infiniband.init_attr sg_len foldr s_sg_list Sync.signal Sync.write_request sge_length].
  rewrite (proj2 (Z.leb_gt (len m + 0) _)) by lia. by rewrite !andb_false_r.
Qed.

(** C26. The limit on inline data decides what replication does.  From a
    connected queue pair with nothing to send, if the first merged entry has
    at most 128 bytes then [Sync] keeps the rules of the verbs whatever the
    device does, and returns with the queue pair as it found it and no memory
    registered or released; if it is longer, posting it breaks the rules. *)
Theorem Sync_inline_bound e h d fuel l m ms : connected -> l <> [] -> MergeModifications l = Ret (m :: ms) ->
  judge h = Running d -> rests d ->
  let r := run e h (Sync.Sync fuel im tab l) in
  if len m <=? Infiniband.kMaxInlineData
  then misused (judge r.1) = false /\
    forall v d', r.2 = Returned v -> judge r.1 = Running d' -> rests d' /\ same_memory d d'
  else exists w, judge r.1 = Misused (ibv_post_send (Infiniband.qp q) [w]) /\ s_flags w = [IBV_SEND_INLINE; IBV_SEND_SIGNALED].
Proof.
  intros Hc Hne Hm Hj Hd r. unfold r. clear r. destruct (Z.leb_spec (len m) Infiniband.kMaxInlineData) as [Hlen | Hlen].
  - pose proof (safe_run e h d _ _ _ Hj (safe_Sync fuel d _ l m ms Hc Hne Hm Hlen Hd)) as H.
    destruct (run e h _) as [h' [v | s]]; cbn [fst snd] in *; (split; [by destruct (judge h') | intros v2 d2 [=] E2]).
    subst v2. rewrite E2 in H. by destruct H as (? & ? & _).
  - by destruct (long_Sync e h d fuel _ l m ms Hc Hne Hm Hlen Hj Hd) as (w & ? & ? & _); exists w.
Qed.
End Inline.

(** ** On a concrete tablet *)

(** The tablet makes a queue pair and connects it to the backup. *)
Definition connect_example : prog Infiniband.QueuePair :=
  q <- Infiniband.QueuePair_construct (Sync.ib_ tab_example) IBV_QPT_RC Sync.kMaxIBQueueDepth Sync.kMaxIBQueueDepth ;;
  Infiniband.SetStateRTS q peer_example ;;;
  Ret q.

Definition history_example : trace := (run Loopback.loopback [] connect_example).1.
Definition made_example : Infiniband.QueuePair := Infiniband.mkQueuePair IBV_QPT_RC (mkQp 3 IBV_QPT_RC) 1 2 33.
Definition device_example : device :=
  mkDev {[ 3 := mkQpInfo IBV_QPT_RC IBV_QPS_RTS (Infiniband.init_attr IBV_QPT_RC 1 2 128 128) [] [] 0 ]} {[ 1 := 128; 2 := 128 ]} ∅ ∅.
Definition replica_example : Sync.t :=
  Sync.mkTablet (Sync.info_ tab_example) 4096 (Sync.ib_ tab_example) (Sync.mr_ tab_example) [made_example] [wr_example].

Lemma history_runs : run Loopback.loopback [] connect_example = (history_example, Returned made_example) /\
  judge history_example = Running device_example.
Proof. split; vm_compute; reflexivity. Qed.

Lemma rests_example : rests made_example device_example.
Proof.
  split; [done |]. split; [done |]. exists [], 0. split; [done.. |]. intros n qi Hq Hne. cbn in Hq. by rewrite lookup_singleton_ne in Hq.
Qed.

Lemma connected_made : connected im_example replica_example made_example backup_example peer_example [] 3 4096 Tablet.kNVMTabletSize.
Proof. split; try done; vm_compute; split; discriminate. Qed.

(** Overwriting 130 bytes with 129 in place logs more than fits, three bytes does not. *)
Definition v_long : list Init.Byte.byte := concat (replicate 26 v_example).
Definition overwritten_long : outcome Allocator.state Status :=
  match Tablet.Put 1 (req Request.PUT k_example v_long) [] t1_example with
  | Ok _ s => Tablet.Put 1 (req Request.PUT k_example (take 129 v_long)) [] s
  | e => e
  end.

Definition first_len (l : ModificationList) : option Z :=
  match MergeModifications l with Ret (m :: _) => Some (len m) | _ => None end.

Example entries_that_fit : first_len log_example = Some 16 /\ first_len (log_of overwritten_long) = Some 142.
Proof. split; vm_compute; reflexivity. Qed.

Lemma Sync_inline_bound_witness :
  let sync l := judge (run Loopback.loopback history_example (Sync.Sync 1 im_example replica_example l)).1 in
  misused (sync log_example) = false /\ misused (sync (log_of overwritten_long)) = true.
Proof.
  assert (forall l n, first_len l = Some n -> exists m ms, MergeModifications l = Ret (m :: ms) /\ len m = n) as Hf.
  { intros l n Hl. unfold first_len in Hl. destruct (MergeModifications l) as [[|m ms] | |]; [discriminate | | discriminate..].
    exists m, ms. split; congruence. }
  destruct entries_that_fit as [E1 E2], history_runs as [_ Hj].
  destruct (Hf _ _ E1) as (m1 & ms1 & M1 & F1). destruct (Hf _ _ E2) as (m2 & ms2 & M2 & F2).
  assert (log_of overwritten_long <> []) as Hne by (intros E; rewrite E in E2; discriminate E2).
  revert M2 Hne. clear E2. generalize (log_of overwritten_long). intros l M2 Hne.
  pose proof (Sync_inline_bound im_example replica_example made_example backup_example peer_example [] 3 4096 Tablet.kNVMTabletSize
    Loopback.loopback history_example device_example 1 log_example m1 ms1 connected_made ltac:(discriminate) M1 Hj rests_example) as H1.
  pose proof (Sync_inline_bound im_example replica_example made_example backup_example peer_example [] 3 4096 Tablet.kNVMTabletSize
    Loopback.loopback history_example device_example 1 l m2 ms2 connected_made Hne M2 Hj rests_example) as H2.
  rewrite F1 in H1. rewrite F2 in H2. cbv zeta in H1, H2. split; [apply H1 |]. destruct H2 as (w & -> & _). reflexivity.
Defined.
