(* ===== verification/Server.v ===== *)
(** * [server.h], [server.cc]: a storage server

    One thread, the poller, receives requests into registered buffers, puts
    each into the queue of the worker of its tablet, and recycles the buffers
    of replies that were sent.  A worker serves a request: the operation on
    its tablet, replication, the reply.  The functions of this file are what
    one thread does between two points where it can wait; [Handoff] has the
    waiting and [ServerSteps] the threads together.  The measurements are left
    out. *)

From S2P Require Import Prelude Nvm Modification Allocator Wire Tablet Verbs Merge Infiniband WorkQueue Index Sync.

#[local] Open Scope prog_scope.

Module Server.

Definition kMaxIBQueueDepth : Z := 128.

(** [struct NVMDevice]: [server_id], [size], [key_begin], [key_end],
    [tablet_num], [tablets]. *)
Definition offsetof_tablets : Z := 36.
Definition sizeof_NVMDevice : Z := 40.
Definition kNVMDeviceSize : Z := sizeof_NVMDevice + Tablet.kNVMTabletSize * kNumTabletAndBackupsPerServer.

(** A tablet: the store and its replication. *)
Record tablet := mkTab { heap : Allocator.state; repl : Sync.t }.

(** [class Server]; [bufs] are the buffers of both pools, [mems] what their
    memory holds; a worker is the queue it serves. *)
Record t := mkServer {
  id_ : Z; active_ : bool; nvm_size_ : Z; nvm_ : Z; index_manager_ : IndexManager;
  ib_ : Infiniband.t; ib_addr_ : Infiniband.Address;
  bufs : Infiniband.bufs; mems : gmap Z mem;
  send_bufs_ : Infiniband.RegisteredBuffers; recv_bufs_ : Infiniband.RegisteredBuffers; qp_ : Infiniband.QueuePair;
  workers_ : list WorkQueue.t; tablets_ : list tablet; num_recv_ : Z }.

Definition with_join (id : Z) (im : IndexManager) (ts : list tablet) (sv : t) : t :=
  mkServer id true (nvm_size_ sv) (nvm_ sv) im (ib_ sv) (ib_addr_ sv) (bufs sv) (mems sv) (send_bufs_ sv) (recv_bufs_ sv)
    (qp_ sv) (workers_ sv) ts (num_recv_ sv).
Definition with_bufs (st : Infiniband.bufs) (sv : t) : t :=
  mkServer (id_ sv) (active_ sv) (nvm_size_ sv) (nvm_ sv) (index_manager_ sv) (ib_ sv) (ib_addr_ sv) st (mems sv) (send_bufs_ sv)
    (recv_bufs_ sv) (qp_ sv) (workers_ sv) (tablets_ sv) (num_recv_ sv).
Definition with_send (st : Infiniband.bufs) (p : Infiniband.RegisteredBuffers) (sv : t) : t :=
  mkServer (id_ sv) (active_ sv) (nvm_size_ sv) (nvm_ sv) (index_manager_ sv) (ib_ sv) (ib_addr_ sv) st (mems sv) p
    (recv_bufs_ sv) (qp_ sv) (workers_ sv) (tablets_ sv) (num_recv_ sv).
Definition with_recv (st : Infiniband.bufs) (p : Infiniband.RegisteredBuffers) (sv : t) : t :=
  mkServer (id_ sv) (active_ sv) (nvm_size_ sv) (nvm_ sv) (index_manager_ sv) (ib_ sv) (ib_addr_ sv) st (mems sv) (send_bufs_ sv)
    p (qp_ sv) (workers_ sv) (tablets_ sv) (num_recv_ sv).
Definition with_worker (st : Infiniband.bufs) (i : nat) (q : WorkQueue.t) (sv : t) : t :=
  mkServer (id_ sv) (active_ sv) (nvm_size_ sv) (nvm_ sv) (index_manager_ sv) (ib_ sv) (ib_addr_ sv) st (mems sv) (send_bufs_ sv)
    (recv_bufs_ sv) (qp_ sv) (<[i := q]> (workers_ sv)) (tablets_ sv) (num_recv_ sv + 1).
Definition with_queue (i : nat) (q : WorkQueue.t) (sv : t) : t :=
  mkServer (id_ sv) (active_ sv) (nvm_size_ sv) (nvm_ sv) (index_manager_ sv) (ib_ sv) (ib_addr_ sv) (bufs sv) (mems sv) (send_bufs_ sv)
    (recv_bufs_ sv) (qp_ sv) (<[i := q]> (workers_ sv)) (tablets_ sv) (num_recv_ sv).
Definition with_reply (ib : Infiniband.t) (sb : Z) (m : mem) (i : nat) (tb : tablet) (sv : t) : t :=
  mkServer (id_ sv) (active_ sv) (nvm_size_ sv) (nvm_ sv) (index_manager_ sv) ib (ib_addr_ sv) (bufs sv) (<[sb := m]> (mems sv))
    (send_bufs_ sv) (recv_bufs_ sv) (qp_ sv) (workers_ sv) (<[i := tb]> (tablets_ sv)) (num_recv_ sv).

(** A computation on the memory of a tablet or a buffer. *)
Definition lift {S A} (c : M S A) (s : S) : prog (A * S) :=
  match c s with Ok a s' => Ret (a, s') | Err e _ => Stop (Fault e) end.

(** The buffer a pointer names, and what its memory holds. *)
Definition deref (sv : t) (b : Z) : prog Infiniband.Buffer :=
  match bufs sv !! b with Some x => Ret x | None => Stop (Fault Segv) end.
Definition mem_of (sv : t) (b : Z) : mem := default ∅ (mems sv !! b).

(** [work->MakeRequest()] *)
Definition request_of (m : mem) : Request.request := Request.MakeRequest m kIBUDPadding kRecvBufSize.

(** ** Set-up *)

(** The [i]-th pass of the loop over the tablets: the memory [m] is what the
    NVM held, [u] and [ws] what the members held before. *)
Definition make_tablet (nvm : Z) (m : mem) (u : TabletInfo) (ws : list ibv_send_wr) (i : Z) : prog tablet :=
  let ptr := nvm + offsetof_tablets + i * Tablet.kNVMTabletSize in
  match Allocator.Construct ptr Tablet.kNVMTabletSize m with
  | Err e _ => Stop (Fault e)
  | Ok _ h => r <- Sync.construct ptr (kNumTabletsPerServer <=? i) u ws ;; Ret (mkTab h r)
  end.

Fixpoint make_tablets (l : list Z) (nvm : Z) (m : mem) (u : TabletInfo) (ws : list ibv_send_wr) : prog (list tablet) :=
  match l with
  | [] => Ret []
  | i :: l' => x <- make_tablet nvm m u ws i ;; xs <- make_tablets l' nvm m u ws ;; Ret (x :: xs)
  end.

Definition empty_index : IndexManager := mkIndex [] [] [].

(** [Server::Server].  When it throws, the members that are objects are
    destroyed, the latest first: the pools and the transport, not the queue
    pair and the tablets. *)
Definition construct (nvm nvm_size : Z) (m : mem) (im : IndexManager) (u : TabletInfo) (ws : list ibv_send_wr) : prog t :=
  ib <- Infiniband.construct 1024 ;;
  unwind (Infiniband.destruct_ ib)
    (s <- Infiniband.RegisteredBuffers_construct (Infiniband.pd_ ib) kSendBufSize kMaxIBQueueDepth false ∅ ;;
     unwind (Infiniband.RegisteredBuffers_destruct s.2 s.1)
       (r <- Infiniband.RegisteredBuffers_construct (Infiniband.pd_ ib) kRecvBufSize kMaxIBQueueDepth true s.2 ;;
        unwind (Infiniband.RegisteredBuffers_destruct r.2 r.1)
          (q <- Infiniband.QueuePair_construct ib IBV_QPT_UD kMaxIBQueueDepth kMaxIBQueueDepth ;;
           Infiniband.Activate q ;;;
           lid <- Infiniband.GetLid ib Infiniband.kPort ;;
           let addr := Infiniband.mkAddress Infiniband.kPort lid (Infiniband.GetLocalQPNum q) in
           ts <- make_tablets (IndexManager.upto kNumTabletAndBackupsPerServer) nvm m u ws ;;
           Ret (mkServer 0 false nvm_size nvm im ib addr r.2 ∅ s.1 r.1 q
             (replicate (Z.to_nat kNumTabletsPerServer) WorkQueue.empty) ts 0)))).

(** The loop of [Server::~Server], from the last tablet down: a worker's
    thread never ends, so destroying it terminates the process. *)
Fixpoint destroy_tablets (l : list (Z * tablet)) : prog unit :=
  match l with
  | [] => Ret tt
  | (i, tb) :: l' =>
      Sync.destruct_ (repl tb) ;;;
      if i <? kNumTabletsPerServer then Stop Terminate else destroy_tablets l'
  end.

Definition destruct_ (sv : t) : prog unit :=
  destroy_tablets (rev (zip (IndexManager.upto kNumTabletAndBackupsPerServer) (tablets_ sv))) ;;;
  Infiniband.QueuePair_destruct (qp_ sv) ;;;
  Infiniband.RegisteredBuffers_destruct (bufs sv) (recv_bufs_ sv) ;;;
  Infiniband.RegisteredBuffers_destruct (bufs sv) (send_bufs_ sv) ;;;
  Infiniband.destruct_ (ib_ sv).

(** [Leave], [Listening], [HandleRecvMessage] and [HandleSendMessage] *)
Definition Leave : prog unit := check false.
Definition Listening : prog unit := check false.
Definition HandleRecvMessage : prog unit := check false.
Definition HandleSendMessage : prog unit := check false.

(** ** The poller *)

(** [auto b = recv_bufs_.Alloc(); ib_.PostReceive(qp_, b);] when there is a
    free buffer; the flag says whether there was. *)
Definition post_receive (sv : t) : prog (bool * t) :=
  let '(b, p) := Infiniband.Alloc (bufs sv) (recv_bufs_ sv) in
  if b =? 0 then Ret (false, sv)
  else
    x <- deref sv b ;;
    Infiniband.PostReceive (qp_ sv) b x ;;;
    Ret (true, with_recv (bufs sv) p sv).

(** Fill the receive queue *)
Definition fill_receive_queue : t -> prog t :=
  for_ (Z.to_nat kMaxIBQueueDepth) (fun sv => r <- post_receive sv ;; check r.1 ;;; Ret r.2).

(** [Server::Dispatch] *)
Definition Dispatch (sv : t) (work : Z) : prog t :=
  let r := request_of (mem_of sv work) in
  x <- lift (IndexManager.GetTabletId (index_manager_ sv) (Request.key_hash r)) tt ;;
  let i := Z.to_nat (x.1 mod kNumTabletAndBackupsPerServer) in
  q <- Sync.elem (workers_ sv) i ;;
  let '(st, q) := WorkQueue.Enqueue (bufs sv) q work in
  Ret (with_worker st i q sv).

(** One pass of the loop of [Poll]; [arrived] is the memory of the buffer
    that the device filled in, should one be there. *)
Definition poll_once (arrived : mem) (sv : t) : prog t :=
  r <- Infiniband.TryReceive (qp_ sv) (bufs sv) ;;
  let sv := with_bufs r.2 sv in
  sv <- (if r.1 =? 0 then Ret sv
         else Dispatch (mkServer (id_ sv) (active_ sv) (nvm_size_ sv) (nvm_ sv) (index_manager_ sv) (ib_ sv) (ib_addr_ sv) (bufs sv)
                (<[r.1 := arrived]> (mems sv)) (send_bufs_ sv) (recv_bufs_ sv) (qp_ sv) (workers_ sv) (tablets_ sv) (num_recv_ sv)) r.1) ;;
  r <- Infiniband.TrySend (qp_ sv) (bufs sv) ;;
  let sv := with_bufs r.2 sv in
  let sv := if r.1 =? 0 then sv
            else let '(st, p) := Infiniband.Free (bufs sv) (send_bufs_ sv) r.1 in with_send st p sv in
  r <- post_receive sv ;;
  Ret r.2.

(** ** A worker *)

(** The list the operation filled in. *)
Definition modifications_of (h : Allocator.state) : ModificationList := default [] (Allocator.modifications_ h).

(** [resp->status = tablet_->...]; a type that is none of the four leaves
    the response and the tablet as they are. *)
Definition operate (fuel : nat) (h : Allocator.state) (r : Request.request) (resp : mem) : prog (mem * Allocator.state * ModificationList) :=
  let finish (x : Status * Allocator.state) := Ret (Response.set_status 0 x.1 resp, x.2, modifications_of x.2) in
  match Request.Type_of_code (Request.type r) with
  | Some Request.PUT => x <- lift (Tablet.Put fuel r []) h ;; finish x
  | Some Request.ADD => x <- lift (Tablet.Add fuel r []) h ;; finish x
  | Some Request.DEL => x <- lift (Tablet.Del fuel r []) h ;; finish x
  | Some Request.GET =>
      x <- lift (Tablet.Get fuel (kSendBufSize - Response.offsetof_val) r []) h ;;
      let '((st, bs), h) := x in
      let resp := if decide (st = OK)
                  then wr16 (store resp Response.offsetof_val bs) 2 (Z.of_nat (length bs)) else resp in
      Ret (Response.set_status 0 st resp, h, modifications_of h)
  | None => Ret (resp, h, [])
  end.

(** The [try] around [Sync].  A [Sync] that throws may have overwritten entries
    of [wrs], but only fields that the next use of the entry overwrites again. *)
Definition sync_tablet (fuel : nat) (im : IndexManager) (rp : Sync.t) (modifications : ModificationList) : prog Sync.t :=
  try_ (p <- Sync.Sync fuel im rp modifications ;; Ret p.1)
       (fun errno => sys (printf "sync failed" [errno]) ;;; Ret rp).

(** From [work->MakeRequest()] to the end of the [try]: the reply and the
    tablet. *)
Definition handle (fuel : nat) (im : IndexManager) (tb : tablet) (request sb : mem) : prog (mem * tablet) :=
  let r := request_of request in
  x <- lift (Response.New_Response 0 kSendBufSize (Request.type r) OK) sb ;;
  y <- operate fuel (heap tb) r x.2 ;;
  let '(resp, h, modifications) := y in
  rp <- sync_tablet fuel im (repl tb) modifications ;;
  Ret (resp, mkTab h rp).

(** The loop of [Worker::Serve] once the [i]-th worker has got [work]; an
    exception leaves the thread and terminates the process. *)
Definition serve_work (fuel : nat) (i : nat) (work : Z) (sv : t) : prog t :=
  let '(sb, p) := Infiniband.Alloc (bufs sv) (send_bufs_ sv) in
  let sv := with_send (bufs sv) p sv in
  check (negb (work =? 0) && negb (sb =? 0)) ;;;
  tb <- Sync.elem (tablets_ sv) i ;;
  y <- handle fuel (index_manager_ sv) tb (mem_of sv work) (mem_of sv sb) ;;
  let '(resp, tb) := y in
  w <- deref sv work ;;
  b <- deref sv sb ;;
  ib <- Infiniband.PostSend (ib_ sv) (qp_ sv) sb b (Response.RespLen (Response.MakeResponse resp 0 kSendBufSize))
          (Infiniband.peer_addr w) ;;
  let sv := with_reply ib sb resp i tb sv in
  let '(st, p) := Infiniband.Free (bufs sv) (recv_bufs_ sv) work in
  Ret (with_recv st p sv).

(** One pass of that loop for the [i]-th worker, when it does not have to
    wait: without work it stays where it is. *)
Definition serve_once (fuel : nat) (i : nat) (sv : t) : prog t :=
  let '(work, q) := WorkQueue.Dequeue (bufs sv) (default WorkQueue.empty (workers_ sv !! i)) in
  if work =? 0 then Ret sv else serve_work fuel i work (with_queue i q sv).

End Server.
