(* ===== verification/Service.v ===== *)
(** * What a server answers

    A request is served by the operation it asks for: the reply and the new
    contents of the tablet are those of a map. *)

From S2P Require Import Prelude Nvm Modification Allocator HeapSpec HeapLists Heap Objects Wire Tablet TabletRefine Verbs Index Sync Server.

Import Allocator Tablet.

(** ** Replies *)

(** What [New] leaves in the buffer of a reply. *)
Definition blank_reply (sb : mem) (ty : Z) : mem := wr16 (wr8 (wr8 sb 0 ty) 1 (Status_code OK)) 2 0.

Lemma New_Response_run sb ty : Response.New_Response 0 kSendBufSize ty OK sb = Ok tt (blank_reply sb ty).
Proof. reflexivity. Qed.

(** A reply that says [st] and carries [v]. *)
Record says (m : mem) (ty : Z) (st : Status) (v : list Init.Byte.byte) : Prop := {
  sa_type : rd8 m 0 = ty; sa_status : rd8 m 1 = Status_code st; sa_len : rd16 m 2 = Z.of_nat (length v);
  sa_val : load m 4 (length v) = v }.

Lemma status_byte st : 0 <= Status_code st < 2 ^ 8.
Proof. destruct st; cbn; lia. Qed.

Lemma rd8_store_ne m a bs b : b < a \/ a + Z.of_nat (length bs) <= b -> rd8 (store m a bs) b = rd8 m b.
Proof. intros H. rewrite !rd8_load, load_store_ne; [done |]. lia. Qed.

Lemma says_status sb ty st : 0 <= ty < 2 ^ 8 -> says (Response.set_status 0 st (blank_reply sb ty)) ty st [].
Proof.
  intros Hty. unfold Response.set_status, blank_reply. change (0 + 1) with 1. pose proof (status_byte st). split.
  - unfold wr8, wr16 at 1. rewrite !rd8_store_ne by (rewrite ?length_le_split; cbn; lia). by apply rd8_wr8.
  - by apply rd8_wr8.
  - unfold rd16, wr8 at 1. rewrite load_store_ne by (cbn; lia). fold (rd16 (wr16 (wr8 (wr8 sb 0 ty) 1 (Status_code OK)) 2 0) 2).
    by rewrite rd16_wr16.
  - done.
Qed.

Lemma says_value sb ty v : 0 <= ty < 2 ^ 8 -> Z.of_nat (length v) < 2 ^ 16 ->
  says (Response.set_status 0 OK (wr16 (store (blank_reply sb ty) Response.offsetof_val v) 2 (Z.of_nat (length v)))) ty OK v.
Proof.
  intros Hty Hv. unfold Response.set_status, Response.offsetof_val. change (0 + 1) with 1. split.
  - unfold wr8, wr16, blank_reply. rewrite !rd8_store_ne by (rewrite ?length_le_split; cbn; lia).
    unfold wr16, wr8 at 1. rewrite !rd8_store_ne by (rewrite ?length_le_split; cbn; lia). by apply rd8_wr8.
  - by apply rd8_wr8.
  - unfold rd16, wr8 at 1. rewrite load_store_ne by (cbn; lia). fold (rd16 (wr16 (store (blank_reply sb ty) 4 v) 2 (Z.of_nat (length v))) 2).
    rewrite rd16_wr16. apply u16_small. lia.
  - unfold wr8, wr16. rewrite !load_store_ne by (rewrite ?length_le_split; cbn; lia). apply load_store_eq.
Qed.

(** ** The operations as those of a map *)

Section Map.
Variables (ty : Request.Type_) (old : option (list Init.Byte.byte)) (v : list Init.Byte.byte).

(** The value of the key afterwards, the status, the value in the reply. *)
Definition after : option (list Init.Byte.byte) :=
  match ty, old with
  | Request.PUT, _ | Request.ADD, None => Some v
  | Request.ADD, Some w | Request.GET, Some w => Some w
  | Request.GET, None | Request.DEL, _ => None
  end.
Definition status_of : Status :=
  match ty, old with
  | Request.PUT, _ | Request.ADD, None | Request.GET, Some _ | Request.DEL, Some _ => OK
  | Request.ADD, Some _ | Request.GET, None | Request.DEL, None => ERROR
  end.
Definition value_of : list Init.Byte.byte := match ty, old with Request.GET, Some w => w | _, _ => [] end.
End Map.

Definition needs_room (ty : Request.Type_) : Prop := ty = Request.PUT \/ ty = Request.ADD.

(** How a tablet can stop the server: without room, or in the loop of [Del]. *)
Definition stops_with (ty : Request.Type_) (e : error) : Prop :=
  match ty with Request.PUT | Request.ADD => e = AssertFail | Request.DEL => e = OutOfFuel | Request.GET => False end.

Lemma holds_with mods s B : holds s B -> holds (with_modifications (Some mods) s) B.
Proof.
  intros (L & h & Hs & Ht). exists L, h. split; [by apply with_modifications_session | by apply with_modifications_table].
Qed.

Lemma contents_same B i0 k0 : forall i k, contents B i k = if decide (i = i0 /\ k = k0) then contents B i0 k0 else contents B i k.
Proof. intros i k. by case_decide as E; [destruct E as [-> ->] |]. Qed.

(** What the worker can serve: a request of type [ty] that lies in its buffer,
    that the heap has a size class for, that the fuel is enough for, and whose
    answer fits a reply. *)
Record servable_request (fuel : nat) (B : Z -> list object) (r : Request.request) (ty : Request.Type_) : Prop := {
  sr_complete : Request.complete r;
  sr_type : Request.type r = Request.Type_code ty;
  sr_fits : needs_room ty -> fits (request_size r);
  sr_fuel : (length (B (bucket_of r)) < fuel)%nat;
  sr_cap : forall w, contents B (bucket_of r) (Request.key r) = Some w -> Z.of_nat (length w) <= kSendBufSize - Response.offsetof_val }.

Section Serve.
Variables (fuel : nat) (B : Z -> list object) (r : Request.request).
#[local] Abbreviation old := (contents B (bucket_of r) (Request.key r)).

(** The operation leaves [h] with [B'] and the reply [resp]. *)
Record effect (ty : Request.Type_) (resp : mem) (h : Allocator.state) (B' : Z -> list object) : Prop := {
  ef_holds : holds h B'; ef_says : says resp (Request.type r) (status_of ty old) (value_of ty old);
  ef_map : forall i k, contents B' i k =
    if decide (i = bucket_of r /\ k = Request.key r) then after ty old (Request.val r) else contents B i k }.

Definition served (ty : Request.Type_) (o : prog (mem * Allocator.state * ModificationList)) : Prop :=
  (exists e, o = Stop (Fault e) /\ stops_with ty e) \/ (exists resp h mods B', o = Ret (resp, h, mods) /\ effect ty resp h B').

Lemma finished ty sb st h B' : 0 <= Request.type r < 2 ^ 8 -> holds h B' -> status_of ty old = st -> value_of ty old = [] ->
  (forall i k, contents B' i k = if decide (i = bucket_of r /\ k = Request.key r) then after ty old (Request.val r) else contents B i k) ->
  served ty (Ret (Response.set_status 0 st (blank_reply sb (Request.type r)), h, Server.modifications_of h)).
Proof.
  intros Hb HB Hst Hv Hm. right. eexists _, _, _, B'. split; [reflexivity |]. split; [done | | done].
  rewrite Hst, Hv. by apply says_status.
Qed.

(** The contents after the first object of the key's chain was removed. *)
Lemma contents_tail h o l : holds h B -> B (bucket_of r) = o :: l -> o_key o = Request.key r ->
  forall i k, contents (upd (bucket_of r) l B) i k = if decide (i = bucket_of r /\ k = Request.key r) then None else contents B i k.
Proof.
  intros (L & hh & _ & Ht) El Ek i k. pose proof (tb_keys _ _ _ Ht (bucket_of r)) as Hnd. rewrite El in Hnd. cbn in Hnd.
  apply list.NoDup_cons in Hnd as [Hnd _]. unfold contents, upd. destruct (Z.eqb_spec i (bucket_of r)) as [-> | Hi].
  - case_decide as E.
    + destruct E as [_ ->]. apply assoc_None. by rewrite <- Ek.
    + rewrite El. cbn. rewrite decide_False; [done | intros Hk; apply E; by rewrite <- Hk].
  - by rewrite decide_False by (intros [? _]; done).
Qed.

Lemma operate_served s ty sb : holds s B -> servable_request fuel B r ty ->
  served ty (Server.operate fuel s r (blank_reply sb (Request.type r))).
Proof.
  intros Hh [Hr Hty Hfit Hfuel Hcap]. assert (0 <= Request.type r < 2 ^ 8) as Hb by (rewrite Hty; destruct ty; cbn; lia).
  unfold Server.operate. rewrite Hty at 1. rewrite Type_of_Type_code. pose proof (finished ty sb) as Hfin.
  destruct ty; unfold Server.lift.
  - pose proof (Put_run _ B r fuel [] Hh Hr Hty (Hfit (or_introl eq_refl)) Hfuel) as H.
    destruct (Put fuel r [] _) as [st h | e h]; [| left; by exists e].
    destruct H as [-> (B' & HB & Hm)]. by apply (Hfin _ h B').
  - pose proof (Add_run _ B r fuel [] Hh Hr Hty (Hfit (or_intror eq_refl)) Hfuel) as H.
    destruct old as [w|] eqn:Eo.
    + rewrite H. apply (Hfin _ _ B); [done | by apply holds_with | done | done |]. cbn. rewrite <- Eo. apply contents_same.
    + destruct (Add fuel r [] _) as [st h | e h]; [| left; by exists e].
      destruct H as [-> (B' & HB & Hm)]. by apply (Hfin _ h B').
  - rewrite (Get_run _ B r fuel _ [] Hh Hr Hty Hfuel Hcap). right.
    destruct old as [w|] eqn:Eo; cbn [pbind]; eexists _, _, _, B; (split; [reflexivity |]); split;
      try (by apply holds_with); rewrite Eo; try (cbn; rewrite <- Eo; apply contents_same).
    + cbn [status_of value_of]. apply says_value; [done |]. pose proof (Hcap w eq_refl) as Hw. unfold kSendBufSize, Response.offsetof_val in Hw. lia.
    + by apply says_status.
  - pose proof (Del_run _ B r fuel [] Hh Hr Hty ltac:(lia)) as H. pose proof (fun o l => contents_tail s o l Hh) as Htail.
    assert (old = assoc (Request.key r) (B (bucket_of r))) as Eo by done. unfold after, status_of, value_of in Hfin. rewrite Eo in Hfin.
    destruct (B (bucket_of r)) as [|o l] eqn:El.
    + rewrite H. apply (Hfin _ _ B); [done | by apply holds_with | done | done |]. intros i k. by case_decide as E; [destruct E as [-> ->] |].
    + destruct (decide (o_key o = Request.key r)) as [Ek | Ek]; [| rewrite H; left; by exists OutOfFuel].
      destruct H as (h & -> & HB). apply (Hfin _ h (upd (bucket_of r) l B)); [done | done | | done | by apply (Htail o)].
      cbn. by rewrite decide_True.
Qed.

(** A worker serves a request: unless the tablet stops it, what is left to
    do is to replicate and to keep the tablet; the contents it then holds and
    the reply are those of a map with [Put], [Add], [Get] and [Del].  [Get]
    never stops the worker, [Put] and [Add] do when the heap has no room, [Del]
    when the key is not first in its chain. *)
Lemma handle_served im tb request sb ty : holds (Server.heap tb) B -> r = Server.request_of request -> servable_request fuel B r ty ->
  (exists e, Server.handle fuel im tb request sb = Stop (Fault e) /\ stops_with ty e) \/
  exists resp h mods B', effect ty resp h B' /\
    Server.handle fuel im tb request sb =
      pbind (Server.sync_tablet fuel im (Server.repl tb) mods) (fun rp => Ret (resp, Server.mkTab h rp)).
Proof.
  intros Hh Er Hs. unfold Server.handle, Server.lift. rewrite <- Er. cbn zeta. rewrite New_Response_run. cbn [pbind snd].
  destruct (operate_served _ ty sb Hh Hs) as [(e & -> & He) | (resp & h & mods & B' & -> & H)]; [left; by exists e | right].
  by exists resp, h, mods, B'.
Qed.
End Serve.
