(* ===== verification/BasicServer.v ===== *)
(** * [basic_server.h], [basic_server.cc]: accepting connections

    The service is the loop of Boost.Asio: it accepts connections, starts a
    session for each, and runs the handler of every operation of a session
    that completes, one at a time.  Which operation completes next, what a
    peer sends and when it goes away, also between the end of an operation and
    its handler and while that runs, is up to the environment ([event]).
    Sessions are numbered as they come.  The program on top says with [asked]
    which operations its handlers started. *)

From S2P Require Import Prelude Wire Infiniband Index IndexSpec Message Session Coordinator.
From stdpp Require Import list.

Module BasicServer.
Import Session.

(** An outstanding operation of a session. *)
Inductive op := Recv | Send (msg : Message.t).

Section Service.
Context {A : Type} (on_recv on_send : (Z -> nat -> option string) -> Z -> Message.t -> M A unit) (asked : A -> A * list (Z * op)).

(** The program, the sessions with the addresses and bytes of their peers,
    what is outstanding, and how many errors were logged. *)
Record t := mkService {
  program : A; next_session : Z; peers : gmap Z string; conns : gmap Z conn; pending : list (Z * op); errors : Z }.

Definition logged (sv : t) : t := mkService (program sv) (next_session sv) (peers sv) (conns sv) (pending sv) (errors sv + 1).
Definition with_conn (s : Z) (c : conn) (sv : t) : t :=
  mkService (program sv) (next_session sv) (peers sv) (<[s := c]> (conns sv)) (pending sv) (errors sv).
Definition with_app (a : A) (ops : list (Z * op)) (sv : t) : t :=
  mkService a (next_session sv) (peers sv) (conns sv) (pending sv ++ ops) (errors sv).
Definition without (n : nat) (sv : t) : t :=
  mkService (program sv) (next_session sv) (peers sv) (conns sv) (delete n (pending sv)) (errors sv).

(** What the socket of a session says of its peer at the [k]-th look, when
    [here] says whether the peer is still there. *)
Definition peer (sv : t) (here : nat -> bool) (s : Z) (k : nat) : option string := if here k then peers sv !! s else None.

(** The handler of [async_accept]: [Start] of the new session reads. *)
Definition Accept (r : option (string * conn)) (sv : t) : t :=
  match r with
  | Some (addr, c) =>
      let s := next_session sv in
      mkService (program sv) (s + 1) (<[s := addr]> (peers sv)) (<[s := c]> (conns sv)) (pending sv ++ [(s, Recv)]) (errors sv)
  | None => logged sv
  end.

(** A handler of the program, and the operations it starts. *)
Definition handle (c : M A unit) : M t unit := fun sv =>
  match c (program sv) with
  | Ok _ a => let '(a, ops) := asked a in Ok tt (with_app a ops sv)
  | Err e a => Err e (with_app a [] sv)
  end.

(** The end of an operation on the session [s]. *)
Definition complete (s : Z) (o : op) (here : nat -> bool) : M t unit := fun sv =>
  match conns sv !! s with
  | None => Err Segv sv
  | Some c =>
      match (match o with Recv => AsyncRecvMessage | Send msg => AsyncSendMessage msg end) c with
      | Ok (Handled msg) c' =>
          handle ((match o with Recv => on_recv | Send _ => on_send end) (peer sv here) s msg) (with_conn s c' sv)
      | Ok Logged c' => Ok tt (logged (with_conn s c' sv))
      | Err e c' => Err e (with_conn s c' sv)
      end
  end.

(** A connection, or an error in accepting one; the [n]-th outstanding
    operation completes, and [here] says at which looks of its handler the
    peer is still connected. *)
Inductive event := Accepted (r : option (string * conn)) | Completed (n : nat) (here : nat -> bool).

Definition turn (ev : event) : M t unit := fun sv =>
  match ev with
  | Accepted r => Ok tt (Accept r sv)
  | Completed n here => match pending sv !! n with Some (s, o) => complete s o here (without n sv) | None => Ok tt sv end
  end.

(** [RunService] *)
Definition RunService (evs : list event) : M t unit := IndexManager.for_each turn evs.
End Service.

(** *** The coordinator as a service *)

Section Run.
Variables (parse : list Init.Byte.byte -> option json) (dump : json -> list Init.Byte.byte).

(** The operations the handlers of the coordinator started. *)
Definition started (c : Coordinator.state) : Coordinator.state * list (Z * op) :=
  (Coordinator.mkState (Coordinator.num_servers_ c) (Coordinator.total_storage_ c) (Coordinator.index_manager_ c) (Coordinator.sessions_ c) [] [],
   map (fun x => (x.1, Send x.2)) (Coordinator.out c) ++ map (fun s => (s, Recv)) (Coordinator.again c)).

(** [Coordinator::Run], from a coordinator whose index holds [im]. *)
Definition Run (evs : list event) (im : IndexManager) : outcome t unit :=
  RunService (Coordinator.HandleRecvMessage parse dump) (fun _ => Coordinator.HandleSendMessage) started evs
    (mkService (Coordinator.start im) 0 ∅ ∅ [] 0).
End Run.

End BasicServer.
