(* ===== verification/Join.v ===== *)
(** * [Server::Join] and [Client::Join]: joining the cluster

    A server describes itself to the coordinator, takes its number and the map
    of the cluster from the answer, and connects the queue pairs of its
    tablets; a client only asks for the map.  The connection to the coordinator
    is a [conn] of [Session], absent when it cannot be made; [parse] and [dump]
    are those of the JSON library. *)

From S2P Require Import Prelude Nvm Allocator Wire Tablet Verbs Merge Infiniband Index Message Session Sync Server.

#[local] Open Scope prog_scope.

Module Join.
Import Message.

Section Library.
Variables (parse : list Init.Byte.byte -> option json) (dump : json -> list Init.Byte.byte).

(** The body of the request of a server. *)
Definition join_body (size : Z) (ib_addr : Infiniband.Address) (qpis : list Infiniband.QueuePairInfo) : json :=
  Obj [("size", Num size); ("ib_addr", to_json ib_addr); ("tablet_qpis", Arr (map to_json qpis))]%string.

Definition req_join (sender : SenderType) : Header := mkHeader (SenderType_code sender) (Type_code REQ_JOIN) 0.

Definition join_request (size : Z) (ib_addr : Infiniband.Address) (qpis : list Infiniband.QueuePairInfo) : Message.t :=
  New (req_join SERVER) (dump (join_body size ib_addr qpis)).

(** The queue pairs of the tablets, in order. *)
Definition all_qpis (sv : Server.t) : list Infiniband.QueuePairInfo :=
  concat (map (fun tb => take (Z.to_nat kNumReplicas) (t_qpis (Sync.info_ (Server.repl tb)))) (Server.tablets_ sv)).

(** What an answer of the coordinator says; an exception of the JSON library
    is not caught. *)
Definition need {A} (o : option A) : prog A := match o with Some a => Ret a | None => Stop Terminate end.

Definition expect_answer (m : Message.t) : prog unit :=
  check (sender_type (header m) =? SenderType_code COORDINATOR) ;;;
  check (type (header m) =? Type_code RES_JOIN).

(** [for (i = 0; i < kNumTabletAndBackupsPerServer; ++i)
       tablets_[i]->SettingupQPConnect(server_info.tablets[i], index_manager_)] *)
Fixpoint connect_tablets (im : IndexManager) (ids : list Z) (ts : list Server.tablet) : prog (list Server.tablet) :=
  match ids, ts with
  | [], _ => Ret ts
  | id :: ids', tb :: ts' =>
      r <- Sync.SettingupQPConnect (Server.repl tb) id im ;;
      rest <- connect_tablets im ids' ts' ;;
      Ret (Server.mkTab (Server.heap tb) r :: rest)
  | _ :: _, [] => Stop (Fault Segv)
  end.

(** [Server::Join]: whether it joined, and the server. *)
Definition Server_Join (c : option Session.conn) (sv : Server.t) : prog (bool * Server.t) :=
  match c with
  | None => Ret (false, sv)
  | Some c =>
      match Session.SendMessage (join_request (Server.nvm_size_ sv) (Server.ib_addr_ sv) (all_qpis sv)) c with
      | Err (Throw _) _ => Ret (false, sv)
      | Err e _ => Stop (Fault e)
      | Ok _ c =>
          match Session.RecvMessage c with
          | Err (Throw _) _ => Ret (false, sv)
          | Err e _ => Stop (Fault e)
          | Ok m _ =>
              expect_answer m ;;;
              j <- need (parse (body m)) ;;
              id <- need (at_key j "id" get_u32) ;;
              im <- need (at_key j "index_manager" from_json) ;;
              x <- Server.lift (IndexManager.GetServer_by_id im id) tt ;;
              let ids := take (Z.to_nat kNumTabletAndBackupsPerServer) (s_tablets x.1) in
              check (Z.of_nat (length ids) =? kNumTabletAndBackupsPerServer) ;;;
              ts <- connect_tablets im ids (Server.tablets_ sv) ;;
              Ret (true, Server.with_join id im ts sv)
          end
      end
  end.

(** [Client::Join]: the map; an error of the connection is not caught. *)
Definition client_request : Message.t := New (req_join CLIENT) (dump Null).

Definition Client_Join (c : Session.conn) : prog IndexManager :=
  x <- Server.lift (Session.SendMessage client_request) c ;;
  x <- Server.lift Session.RecvMessage x.2 ;;
  expect_answer x.1 ;;;
  j <- need (parse (body x.1)) ;;
  need (at_key j "index_manager" from_json).
End Library.
End Join.
