(* ===== verification/ServerSteps.v ===== *)
(** * The threads of a server together

    The poller, any number of workers and the device, one operation at a
    time: an operation on a buffer pool or a work queue (both under their
    spinlock), a call of the verbs, or the work between two of them.  What a
    request asks for and how it is served is left open here: a request may go
    to any worker.  The buffers move between the pools, the queues of the
    device, the work queues and the threads; every buffer is in one place, and
    comes back to the pool it is from. *)

From S2P Require Import Prelude Wire Verbs Infiniband WorkQueue Server.
From stdpp Require Import functions list.
#[local] Open Scope Z_scope.

Import Infiniband WorkQueue.

Module ServerSteps.

(** [Server::Poll] *)
Inductive poller_pc :=
  | PFill (n : nat)              (* n passes of the first loop are left *)
  | PFillPost (n : nat) (b : Z)  (* ib_.PostReceive(qp_, b) *)
  | PRecv                        (* b = ib_.TryReceive(qp_) *)
  | PDispatch (b : Z)            (* Dispatch(b) *)
  | PSend                        (* b = ib_.TrySend(qp_) *)
  | PFree (b : Z)                (* send_bufs_.Free(b) *)
  | PAlloc                       (* b = recv_bufs_.Alloc() *)
  | PPost (b : Z)                (* ib_.PostReceive(qp_, b) *)
  | PAbort.                      (* assert(b) failed *)

(** [Worker::Serve]; the waiting of [Handoff] is a loop on [Dequeue] here. *)
Inductive worker_pc :=
  | WGet                         (* work = wq_.Dequeue() *)
  | WAlloc (work : Z)            (* sb = send_bufs_.Alloc() *)
  | WServe (work sb : Z)         (* the operation and Sync *)
  | WPost (work sb : Z)          (* ib_.PostSend(...) *)
  | WFree (work : Z)             (* recv_bufs_.Free(work) *)
  | WAbort (work : Z).           (* assert(sb != nullptr) failed *)

(** The server and its device: receives that are posted and the ones that
    are completed, sends that are posted and completed; each oldest first. *)
Record state := mkState {
  st : Infiniband.bufs; send_bufs_ : RegisteredBuffers; recv_bufs_ : RegisteredBuffers;
  queues : nat -> WorkQueue.t; poller : poller_pc; workers : nat -> worker_pc;
  posted : list Z; arrived : list Z; sending : list Z; sent : list Z }.

Definition set_poller (p : poller_pc) (s : state) : state :=
  mkState (st s) (send_bufs_ s) (recv_bufs_ s) (queues s) p (workers s) (posted s) (arrived s) (sending s) (sent s).
Definition set_worker (i : nat) (p : worker_pc) (s : state) : state :=
  mkState (st s) (send_bufs_ s) (recv_bufs_ s) (queues s) (poller s) (<[i := p]> (workers s)) (posted s) (arrived s) (sending s) (sent s).
Definition set_recv (x : Infiniband.bufs) (p : RegisteredBuffers) (s : state) : state :=
  mkState x (send_bufs_ s) p (queues s) (poller s) (workers s) (posted s) (arrived s) (sending s) (sent s).
Definition set_send (x : Infiniband.bufs) (p : RegisteredBuffers) (s : state) : state :=
  mkState x p (recv_bufs_ s) (queues s) (poller s) (workers s) (posted s) (arrived s) (sending s) (sent s).
Definition set_queue (x : Infiniband.bufs) (i : nat) (q : WorkQueue.t) (s : state) : state :=
  mkState x (send_bufs_ s) (recv_bufs_ s) (<[i := q]> (queues s)) (poller s) (workers s) (posted s) (arrived s) (sending s) (sent s).
Definition set_receives (x : Infiniband.bufs) (p a : list Z) (s : state) : state :=
  mkState x (send_bufs_ s) (recv_bufs_ s) (queues s) (poller s) (workers s) p a (sending s) (sent s).
Definition set_sends (x : Infiniband.bufs) (p a : list Z) (s : state) : state :=
  mkState x (send_bufs_ s) (recv_bufs_ s) (queues s) (poller s) (workers s) (posted s) (arrived s) p a.

(** A step of the poller; [i] is the worker a request goes to, [wc] what a
    completion says. *)
Definition poll_step (i : nat) (wc : ibv_wc) (s : state) : state :=
  match poller s with
  | PFill O => set_poller PRecv s
  | PFill (S n) =>
      let '(b, p) := Alloc (st s) (recv_bufs_ s) in
      if b =? 0 then set_poller PAbort s else set_poller (PFillPost n b) (set_recv (st s) p s)
  | PFillPost n b => set_poller (PFill n) (set_receives (st s) (posted s ++ [b]) (arrived s) s)
  | PRecv =>
      match arrived s with
      | [] => set_poller PSend s
      | b :: l => set_poller (PDispatch b) (set_receives (alter (received wc) b (st s)) (posted s) l s)
      end
  | PDispatch b => let '(x, q) := Enqueue (st s) (queues s i) b in set_poller PSend (set_queue x i q s)
  | PSend =>
      match sent s with
      | [] => set_poller PAlloc s
      | b :: l => set_poller (PFree b) (set_sends (alter (received wc) b (st s)) (sending s) l s)
      end
  | PFree b => let '(x, p) := Free (st s) (send_bufs_ s) b in set_poller PAlloc (set_send x p s)
  | PAlloc =>
      let '(b, p) := Alloc (st s) (recv_bufs_ s) in
      if b =? 0 then set_poller PRecv s else set_poller (PPost b) (set_recv (st s) p s)
  | PPost b => set_poller PRecv (set_receives (st s) (posted s ++ [b]) (arrived s) s)
  | PAbort => s
  end.

(** A step of the [i]-th worker. *)
Definition work_step (i : nat) (s : state) : state :=
  match workers s i with
  | WGet =>
      let '(w, q) := Dequeue (st s) (queues s i) in
      if w =? 0 then s else set_worker i (WAlloc w) (set_queue (st s) i q s)
  | WAlloc w =>
      let '(sb, p) := Alloc (st s) (send_bufs_ s) in
      if sb =? 0 then set_worker i (WAbort w) s else set_worker i (WServe w sb) (set_send (st s) p s)
  | WServe w sb => set_worker i (WPost w sb) s
  | WPost w sb => set_worker i (WFree w) (set_sends (st s) (sending s ++ [sb]) (sent s) s)
  | WFree w => let '(x, p) := Free (st s) (recv_bufs_ s) w in set_worker i WGet (set_recv x p s)
  | WAbort w => s
  end.

(** The device completes the oldest receive, when a message comes, or the
    oldest send. *)
Definition deliver (s : state) : state :=
  match posted s with [] => s | b :: l => set_receives (st s) l (arrived s ++ [b]) s end.
Definition complete_send (s : state) : state :=
  match sending s with [] => s | b :: l => set_sends (st s) l (sent s ++ [b]) s end.

Inductive actor := Poll (i : nat) (wc : ibv_wc) | Work (i : nat) | Deliver | CompleteSend.

Definition act (a : actor) : state -> state :=
  match a with Poll i wc => poll_step i wc | Work i => work_step i | Deliver => deliver | CompleteSend => complete_send end.

Definition run (l : list actor) (s : state) : state := foldl (fun s a => act a s) s l.

(** The pools as [RegisteredBuffers] leaves them, their [Buffer] structures
    at [sb] and [rb]. *)
Definition depth : Z := Server.kMaxIBQueueDepth.
Definition pool_at (size a : Z) : RegisteredBuffers := mkPool size depth 0 a a.
Definition start (sb rb : Z) (m : ibv_mr) : state :=
  mkState
    (init_bufs (Z.to_nat depth) 0 (pool_at kRecvBufSize rb) m true (init_bufs (Z.to_nat depth) 0 (pool_at kSendBufSize sb) m false ∅))
    (pool_at kSendBufSize sb) (pool_at kRecvBufSize rb) (fun _ => WorkQueue.empty) (PFill (Z.to_nat depth)) (fun _ => WGet) [] [] [] [].

(** ** Where the buffers are *)

Inductive place :=
  | SendPool | RecvPool | PollerHand | PollerReply | Posted | Arrived | Queue (i : nat)
  | WorkHand (i : nat) | ReplyHand (i : nat) | Sending | Sent.

(** Places of receive buffers and places of send buffers. *)
Definition recv_place (p : place) : bool :=
  match p with RecvPool | PollerHand | Posted | Arrived | Queue _ | WorkHand _ => true | _ => false end.

Definition hand_of (p : poller_pc) : list Z := match p with PFillPost _ b | PDispatch b | PPost b => [b] | _ => [] end.
Definition reply_of (p : poller_pc) : list Z := match p with PFree b => [b] | _ => [] end.
Definition work_of (p : worker_pc) : list Z :=
  match p with WAlloc w | WServe w _ | WPost w _ | WFree w | WAbort w => [w] | WGet => [] end.
Definition sb_of (p : worker_pc) : list Z := match p with WServe _ sb | WPost _ sb => [sb] | _ => [] end.

End ServerSteps.

Import ServerSteps.

#[export] Instance place_eq_dec : EqDecision place.
Proof. solve_decision. Defined.

(** ** A buffer pool is a stack linked through [next] *)
Record stack (st : bufs) (root : Z) (l : list Z) : Prop := mkStack {
  stack_linked : linked st l;
  stack_root : root = default 0 (head l);
  stack_end a : last l = Some a -> next_of st a = 0 }.

(** A change that keeps every [next]. *)
Lemma linked_ext st st' l : (forall a, next_of st' a = next_of st a) -> (forall a, is_Some (st' !! a) <-> is_Some (st !! a)) ->
  linked st l -> linked st' l.
Proof.
  intros Hn Hs [H1 H2 H3]. split; [| done |].
  - intros a Ha. rewrite Hs. auto.
  - intros i a b. rewrite Hn. apply H3.
Qed.

Lemma stack_ext st st' r l : (forall a, next_of st' a = next_of st a) -> (forall a, is_Some (st' !! a) <-> is_Some (st !! a)) ->
  stack st r l -> stack st' r l.
Proof. intros Hn Hs [H1 H2 H3]. split; [by apply (linked_ext st) | done |]. intros a. rewrite Hn. apply H3. Qed.

Lemma queue_ext st st' q l : (forall a, next_of st' a = next_of st a) -> (forall a, is_Some (st' !! a) <-> is_Some (st !! a)) ->
  queue_of st q l -> queue_of st' q l.
Proof. intros Hn Hs [H1 H2 H3]. by split; [apply (linked_ext st) | |]. Qed.

Lemma stack_frame st r l w n : stack st r l -> w ∉ l -> stack (alter (with_next n) w st) r l.
Proof.
  intros [H1 H2 H3] Hw. split; [by apply linked_frame | done |].
  intros a Ha. unfold next_of. rewrite lookup_alter_ne; [by apply H3 |]. intros ->. by apply Hw, last_Some_elem_of.
Qed.

Lemma Alloc_stack st p l : stack st (root_ p) l ->
  (Alloc st p).1 = default 0 (head l) /\ stack st (root_ (Alloc st p).2) (tail l).
Proof.
  intros [H1 H2 H3]. unfold Alloc. cbn [fst snd]. split; [done |].
  destruct l as [|a l']; cbn in H2.
  - rewrite H2. destruct (st !! 0); by split.
  - destruct (linked_real _ _ H1 a) as [H0 [x Hx]]; [by left |]. rewrite H2, Hx.
    destruct (Z.eqb_spec a 0); [done |]. cbn [root_ tail]. split; [by eapply linked_tail | |].
    + assert (next_of st a = next x) as <- by (unfold next_of; by rewrite Hx).
      destruct l' as [|b l']; cbn; [by apply H3 |]. by apply (linked_next _ _ H1 0%nat).
    + intros b Hb. apply H3. destruct l'; [done |]. by rewrite last_cons_cons.
Qed.

Lemma Free_stack st p b l : stack st (root_ p) l -> b ∉ l -> b <> 0 -> is_Some (st !! b) ->
  stack (Free st p b).1 (root_ (Free st p b).2) (b :: l).
Proof.
  intros [H1 H2 H3] Hb H0 Hs. unfold Free. cbn [fst snd root_]. split; [split | done |].
  - intros a [-> | Ha]%elem_of_cons; rewrite alter_is_Some; [done |]. by apply (linked_real _ _ H1).
  - apply NoDup_cons. split; [done | apply H1].
  - intros [|i] x y; cbn.
    + intros [= <-] Hy. rewrite next_of_alter, decide_True by done. rewrite H2. by destruct l; [| injection Hy].
    + intros Hx Hy. rewrite next_of_alter by done.
      rewrite decide_False by (intros <-; apply Hb; by eapply list_elem_of_lookup_2). by apply (linked_next _ _ H1 i).
  - intros a Ha. rewrite next_of_alter by done. destruct l as [|c l].
    + injection Ha as <-. by rewrite decide_True.
    + rewrite last_cons_cons in Ha. rewrite decide_False; [by apply H3 |]. intros <-. by apply Hb, last_Some_elem_of.
Qed.

(** ** The invariant *)

(** [c] says what is where. *)
Record shape (s : state) (c : place -> list Z) : Prop := mkShape {
  sh_send : stack (st s) (root_ (send_bufs_ s)) (c SendPool);
  sh_recv : stack (st s) (root_ (recv_bufs_ s)) (c RecvPool);
  sh_queue i : queue_of (st s) (queues s i) (c (Queue i));
  sh_hand : c PollerHand = hand_of (poller s);
  sh_reply : c PollerReply = reply_of (poller s);
  sh_posted : c Posted = posted s;
  sh_arrived : c Arrived = arrived s;
  sh_work i : c (WorkHand i) = work_of (workers s i);
  sh_sb i : c (ReplyHand i) = sb_of (workers s i);
  sh_sending : c Sending = sending s;
  sh_sent : c Sent = sent s }.

(** Every buffer has one owner and comes back to its pool. *)
Record owned (R S : list Z) (s : state) (c : place -> list Z) (o : gmap Z place) : Prop := mkOwned {
  own_once p : NoDup (c p);
  own_place p b : b ∈ c p <-> o !! b = Some p;
  own_real b p : o !! b = Some p -> b <> 0 /\ is_Some (st s !! b);
  own_recv b : b ∈ R <-> exists p, o !! b = Some p /\ recv_place p = true;
  own_send b : b ∈ S <-> exists p, o !! b = Some p /\ recv_place p = false }.

(** While the receive queue is filled, there are buffers left to fill it. *)
Definition filling (p : poller_pc) (free : nat) : Prop :=
  match p with PFill n | PFillPost n _ => (n <= free)%nat | PAbort => False | _ => True end.

Definition inv (R S : list Z) (s : state) : Prop :=
  exists c o, shape s c /\ owned R S s c o /\ filling (poller s) (length (c RecvPool)).

Definition moved (c : place -> list Z) (p q : place) (l l' : list Z) : place -> list Z := <[q := l']> (<[p := l]> c).

Lemma owned_move R S s s' c o p q b l1 l2 l3 l4 : owned R S s c o -> p <> q -> recv_place p = recv_place q ->
  c p = l1 ++ b :: l2 -> c q = l3 ++ l4 -> (forall a, is_Some (st s' !! a) <-> is_Some (st s !! a)) ->
  owned R S s' (moved c p q (l1 ++ l2) (l3 ++ b :: l4)) (<[b := q]> o).
Proof.
  intros [H1 H2 H3 H4 H5] Hpq Hk Hp Hq Hs. unfold moved.
  assert (o !! b = Some p) as Hb by (apply H2; rewrite Hp, elem_of_app, elem_of_cons; auto).
  pose proof (H1 p) as Hnp. rewrite Hp in Hnp. apply NoDup_app in Hnp as (Hn1 & Hn2 & [Hn3 Hn4]%NoDup_cons).
  assert (b ∉ l1) as Hb1 by (intros Hx; apply (Hn2 b Hx); by left).
  assert (b ∉ c q) as Hbq by (intros Hx%H2; congruence).
  assert (forall r, (exists p', <[b := q]> o !! r = Some p' /\ recv_place p' = true) <-> exists p', o !! r = Some p' /\ recv_place p' = true) as Hr1.
  { intros r. destruct (decide (b = r)) as [<- | Hne]; [| by rewrite lookup_insert_ne].
    rewrite lookup_insert_eq, Hb. split; intros (p' & [= <-] & E); eexists; split; try done; congruence. }
  assert (forall r, (exists p', <[b := q]> o !! r = Some p' /\ recv_place p' = false) <-> exists p', o !! r = Some p' /\ recv_place p' = false) as Hr2.
  { intros r. destruct (decide (b = r)) as [<- | Hne]; [| by rewrite lookup_insert_ne].
    rewrite lookup_insert_eq, Hb. split; intros (p' & [= <-] & E); eexists; split; try done; congruence. }
  split.
  - intros r. destruct (decide (q = r)) as [<- | Hqr]; [rewrite fn_lookup_insert | rewrite fn_lookup_insert_ne by done].
    + rewrite <- Permutation_middle. apply NoDup_cons. rewrite <- Hq. by split.
    + destruct (decide (p = r)) as [<- | Hpr]; [rewrite fn_lookup_insert | by rewrite fn_lookup_insert_ne].
      apply NoDup_app. split_and!; try done. intros x Hx Hx2. apply (Hn2 x Hx). by right.
  - intros r a. destruct (decide (b = a)) as [<- | Hne].
    + rewrite lookup_insert_eq. destruct (decide (q = r)) as [<- | Hqr]; [rewrite fn_lookup_insert | rewrite fn_lookup_insert_ne by done].
      * rewrite elem_of_app, elem_of_cons. naive_solver.
      * split; [| congruence]. destruct (decide (p = r)) as [<- | Hpr]; [rewrite fn_lookup_insert | rewrite fn_lookup_insert_ne by done].
        -- rewrite elem_of_app. tauto.
        -- intros Hx%H2. congruence.
    + rewrite lookup_insert_ne by done. rewrite <- H2.
      destruct (decide (q = r)) as [<- | Hqr]; [rewrite fn_lookup_insert | rewrite fn_lookup_insert_ne by done].
      * rewrite Hq, !elem_of_app, elem_of_cons. naive_solver.
      * destruct (decide (p = r)) as [<- | Hpr]; [rewrite fn_lookup_insert | by rewrite fn_lookup_insert_ne].
        rewrite Hp, !elem_of_app, elem_of_cons. naive_solver.
  - intros a r Ha. rewrite Hs. destruct (decide (b = a)) as [<- | Hne]; [by apply (H3 b p) |].
    rewrite lookup_insert_ne in Ha by done. by apply (H3 a r).
  - intros a. by rewrite Hr1.
  - intros a. by rewrite Hr2.
Qed.

(** Evaluation of the updated functions at a place or a worker. *)
Ltac look :=
  unfold moved; cbn;
  repeat match goal with
  | |- context [(<[?a := ?x]> ?f) ?a] => rewrite (fn_lookup_insert f a x)
  | |- context [(<[?a := ?x]> ?f) ?b] =>
      first [rewrite (fn_lookup_insert_ne f a b x) by (discriminate || congruence)
            | destruct (decide (a = b)) as [? | ?]; [simplify_eq | rewrite (fn_lookup_insert_ne f a b x) by done]]
  end.

(** The shape after a step: what it does not touch is as before. *)
Ltac same_shape H :=
  let H1 := fresh in let H2 := fresh in let H3 := fresh in
  pose proof H as [H1 H2 H3 ? ? ? ? ? ? ? ?]; split; intros; look; auto using stack_frame, queue_frame;
  try congruence.

Lemma filling_more p n : filling p n -> filling p (S n).
Proof. destruct p; cbn; auto. Qed.

Ltac fills :=
  look; repeat match goal with E : _ = _, F : filling _ _ |- _ => rewrite E in F end; cbn in *; first [done | lia | by apply filling_more].

(** The conditions of a move; [tac] is for the lists a change to [next]
    could touch. *)
Ltac settle Hs tac :=
  first [done | fills | (intros ?; apply alter_is_Some) | by rewrite app_nil_r; apply Hs | by rewrite app_nil_r
        | by rewrite (sh_sent _ _ Hs) | by rewrite (sh_arrived _ _ Hs) | same_shape Hs; tac].

Section Steps.
Variables (R S : list Z).

(** A step that moves nothing and only changes program counters. *)
Lemma inv_same s s' c o : shape s' c -> owned R S s c o -> st s' = st s -> filling (poller s') (length (c RecvPool)) -> inv R S s'.
Proof.
  intros Hs [H1 H2 H3 H4 H5] E Hf. exists c, o. split_and!; [done | | done]. split; try done. by rewrite E.
Qed.

(** A step that moves [b] from [p] to [q]. *)
Lemma inv_move s s' c o p q b l1 l2 l3 l4 : owned R S s c o -> p <> q -> recv_place p = recv_place q ->
  c p = l1 ++ b :: l2 -> c q = l3 ++ l4 -> (forall a, is_Some (st s' !! a) <-> is_Some (st s !! a)) ->
  shape s' (moved c p q (l1 ++ l2) (l3 ++ b :: l4)) ->
  filling (poller s') (length (moved c p q (l1 ++ l2) (l3 ++ b :: l4) RecvPool)) -> inv R S s'.
Proof. intros. do 2 eexists. split_and!; [done | by eapply (owned_move R S s) | done]. Qed.

(** What is known of a buffer by its place. *)
Lemma owned_buffer s c o p b : owned R S s c o -> b ∈ c p -> b <> 0 /\ is_Some (st s !! b) /\ forall q, q <> p -> b ∉ c q.
Proof.
  intros [H1 H2 H3 H4 H5] Hb. pose proof (proj1 (H2 _ _) Hb) as Hp. destruct (H3 _ _ Hp). split_and!; try done.
  intros q Hq Hx%H2. congruence.
Qed.

Lemma inv_deliver s : inv R S s -> inv R S (deliver s).
Proof.
  intros (c & o & Hs & Ho & Hf). unfold deliver. destruct (posted s) as [|b l] eqn:E; [by exists c, o |].
  pose proof (sh_posted _ _ Hs) as Hp. pose proof (sh_arrived _ _ Hs) as Ha. rewrite E in Hp.
  eapply (inv_move s _ c o Posted Arrived b [] l (arrived s) []); settle Hs idtac.
Qed.

Lemma inv_complete s : inv R S s -> inv R S (complete_send s).
Proof.
  intros (c & o & Hs & Ho & Hf). unfold complete_send. destruct (sending s) as [|b l] eqn:E; [by exists c, o |].
  pose proof (sh_sending _ _ Hs) as Hp. pose proof (sh_sent _ _ Hs) as Ha. rewrite E in Hp.
  eapply (inv_move s _ c o Sending Sent b [] l (sent s) []); settle Hs idtac.
Qed.

(** [Alloc] takes the head of a pool. *)
Lemma Alloc_cases x p l b p' : stack x (root_ p) l -> Alloc x p = (b, p') ->
  ((b =? 0) = true /\ l = []) \/ ((b =? 0) = false /\ exists l', l = b :: l' /\ stack x (root_ p') l').
Proof.
  intros Hst E. destruct (Alloc_stack _ _ _ Hst) as [H1 H2]. rewrite E in H1, H2. cbn in H1, H2.
  destruct l as [|a l']; cbn in *; subst b; [by left | right].
  destruct (linked_real _ _ (stack_linked _ _ _ Hst) a) as [H0 _]; [by left |]. split; [by apply Z.eqb_neq |]. by exists l'.
Qed.

Lemma next_of_received x b wc a : next_of (alter (received wc) b x) a = next_of x a.
Proof.
  unfold next_of. destruct (decide (b = a)) as [-> | Hne]; [| by rewrite lookup_alter_ne].
  rewrite lookup_alter_eq. by destruct (x !! a).
Qed.

(** What the change to [next] in an enqueue touches. *)
Lemma Enqueue_touches x q w l : queue_of x q l ->
  (Enqueue x q w).1 = x \/ exists a, a ∈ l /\ (Enqueue x q w).1 = alter (with_next w) a x.
Proof.
  intros Hq. unfold Enqueue. rewrite (queue_is_empty _ _ _ Hq). case_bool_decide as E; [by left | right].
  exists (tail_ q). split; [| done]. apply last_Some_elem_of. symmetry. by apply Hq.
Qed.

Lemma inv_poll i wc s : inv R S s -> inv R S (poll_step i wc s).
Proof.
  intros (c & o & Hs & Ho & Hf). pose proof (sh_hand _ _ Hs) as Hh. pose proof (sh_reply _ _ Hs) as Hr.
  unfold poll_step. destruct (poller s) as [[|n] | n b | | b | | b | | b |] eqn:E; cbn in Hh, Hr.
  - eapply inv_same; [same_shape Hs | exact Ho | done | fills].
  - destruct (Alloc (st s) (recv_bufs_ s)) as [b p] eqn:EA.
    destruct (Alloc_cases _ _ _ _ _ (sh_recv _ _ Hs) EA) as [[-> El] | [-> (l' & El & Hst)]].
    + eapply inv_same; [same_shape Hs | exact Ho | done | fills].
    + eapply (inv_move s _ c o RecvPool PollerHand b [] l' [] []); settle Hs idtac.
  - eapply (inv_move s _ c o PollerHand Posted b [] [] (posted s) []); settle Hs idtac.
  - destruct (arrived s) as [|b l] eqn:Ea.
    + eapply inv_same; [same_shape Hs | exact Ho | done | fills].
    + pose proof (next_of_received (st s) b wc) as Hn. pose proof (alter_is_Some (st s) b) as Ha.
      eapply (inv_move s _ c o Arrived PollerHand b [] l [] []);
        settle Hs ltac:(first [apply (stack_ext (st s)) | apply (queue_ext (st s))]; auto).
  - pose proof (sh_queue _ _ Hs i) as Hq. destruct (owned_buffer s c o PollerHand b Ho) as (H0 & Hb & Hout); [rewrite Hh; by left |].
    pose proof (Enqueue_queue _ _ _ Hq b (Hout (Queue i) ltac:(done)) H0 Hb) as Hq'.
    pose proof (Enqueue_touches _ _ b _ Hq) as Ht. destruct (Enqueue (st s) (queues s i) b) as [x q] eqn:EE. cbn [fst snd] in Hq', Ht.
    assert (forall a, is_Some (x !! a) <-> is_Some (st s !! a)) as Hx by (intros a; destruct Ht as [-> | (a' & _ & ->)]; [done | apply alter_is_Some]).
    destruct Ht as [-> | (a & Ha & ->)];
      [by eapply (inv_move s _ c o PollerHand (Queue i) b [] [] (c (Queue i)) []); settle Hs idtac |].
    destruct (owned_buffer s c o (Queue i) a Ho Ha) as (_ & _ & Hother).
    eapply (inv_move s _ c o PollerHand (Queue i) b [] [] (c (Queue i)) []);
      settle Hs ltac:(first [apply stack_frame | apply queue_frame]; auto; apply Hother; congruence).
  - destruct (sent s) as [|b l] eqn:Ea.
    + eapply inv_same; [same_shape Hs | exact Ho | done | fills].
    + pose proof (next_of_received (st s) b wc) as Hn. pose proof (alter_is_Some (st s) b) as Ha.
      eapply (inv_move s _ c o Sent PollerReply b [] l [] []);
        settle Hs ltac:(first [apply (stack_ext (st s)) | apply (queue_ext (st s))]; auto).
  - destruct (owned_buffer s c o PollerReply b Ho) as (H0 & Hb & Hout); [rewrite Hr; by left |].
    pose proof (Free_stack _ _ _ _ (sh_send _ _ Hs) (Hout SendPool ltac:(done)) H0 Hb) as Hst.
    destruct (Free (st s) (send_bufs_ s) b) as [x p] eqn:EF. cbn [fst snd] in Hst.
    assert (x = alter (with_next (root_ (send_bufs_ s))) b (st s)) as -> by (by injection EF).
    eapply (inv_move s _ c o PollerReply SendPool b [] [] [] (c SendPool));
      settle Hs ltac:(first [apply stack_frame | apply queue_frame]; auto).
  - destruct (Alloc (st s) (recv_bufs_ s)) as [b p] eqn:EA.
    destruct (Alloc_cases _ _ _ _ _ (sh_recv _ _ Hs) EA) as [[-> El] | [-> (l' & El & Hst)]].
    + eapply inv_same; [same_shape Hs | exact Ho | done | fills].
    + eapply (inv_move s _ c o RecvPool PollerHand b [] l' [] []); settle Hs idtac.
  - eapply (inv_move s _ c o PollerHand Posted b [] [] (posted s) []); settle Hs idtac.
  - by exists c, o.
Qed.

Lemma inv_work i s : inv R S s -> inv R S (work_step i s).
Proof.
  intros (c & o & Hs & Ho & Hf). pose proof (sh_work _ _ Hs i) as Hw. pose proof (sh_sb _ _ Hs i) as Hb.
  unfold work_step. destruct (workers s i) as [| w | w sb | w sb | w | w] eqn:E; cbn in Hw, Hb.
  - pose proof (sh_queue _ _ Hs i) as Hq. pose proof (Dequeue_queue _ _ _ Hq) as [Hd Hq'].
    destruct (Dequeue (st s) (queues s i)) as [w q] eqn:ED. cbn [fst snd] in Hd, Hq'.
    destruct (Z.eqb_spec w 0) as [_ | H0]; [by exists c, o |]. destruct (c (Queue i)) as [|b l] eqn:El; [done |]. cbn in Hd, Hq'. subst b.
    eapply (inv_move s _ c o (Queue i) (WorkHand i) w [] l [] []); settle Hs idtac.
  - destruct (Alloc (st s) (send_bufs_ s)) as [sb p] eqn:EA.
    destruct (Alloc_cases _ _ _ _ _ (sh_send _ _ Hs) EA) as [[-> El] | [-> (l' & El & Hst)]].
    + eapply inv_same; [same_shape Hs | exact Ho | done | fills].
    + eapply (inv_move s _ c o SendPool (ReplyHand i) sb [] l' [] []); settle Hs idtac.
  - eapply inv_same; [same_shape Hs | exact Ho | done | fills].
  - eapply (inv_move s _ c o (ReplyHand i) Sending sb [] [] (sending s) []); settle Hs idtac.
  - destruct (owned_buffer s c o (WorkHand i) w Ho) as (H0 & Hb' & Hout); [rewrite Hw; by left |].
    pose proof (Free_stack _ _ _ _ (sh_recv _ _ Hs) (Hout RecvPool ltac:(done)) H0 Hb') as Hst.
    destruct (Free (st s) (recv_bufs_ s) w) as [x p] eqn:EF. cbn [fst snd] in Hst.
    assert (x = alter (with_next (root_ (recv_bufs_ s))) w (st s)) as -> by (by injection EF).
    eapply (inv_move s _ c o (WorkHand i) RecvPool w [] [] [] (c RecvPool));
      settle Hs ltac:(first [apply stack_frame | apply queue_frame]; auto).
  - by exists c, o.
Qed.

Lemma inv_act a s : inv R S s -> inv R S (act a s).
Proof. destruct a; cbn; [apply inv_poll | apply inv_work | apply inv_deliver | apply inv_complete]. Qed.

Lemma inv_run l s : inv R S s -> inv R S (run l s).
Proof. unfold run. revert s. induction l as [|a l IH]; intros s Hs; cbn; [done | by apply IH, inv_act]. Qed.
End Steps.

(** ** The start *)

(** The addresses of [n] buffers from [a] on. *)
Definition addrs (a : Z) (n : nat) : list Z := map (fun j => a + sizeof_Buffer * Z.of_nat j) (seq 0 n).

Lemma addrs_elem a n x : x ∈ addrs a n <-> exists j, (j < n)%nat /\ x = a + sizeof_Buffer * Z.of_nat j.
Proof.
  unfold addrs. rewrite list_elem_of_fmap. split; intros (j & H1 & H2).
  - apply elem_of_seq in H2. exists j. split; [lia | done].
  - exists j. split; [done |]. apply elem_of_seq. lia.
Qed.

Lemma addrs_lookup a n i x : addrs a n !! i = Some x <-> (i < n)%nat /\ x = a + sizeof_Buffer * Z.of_nat i.
Proof.
  unfold addrs. rewrite list_lookup_fmap, fmap_Some. split.
  - intros (j & Hj & ->). apply lookup_seq in Hj as [-> Hj]. cbn. by split; [lia |].
  - intros [Hi ->]. exists i. split; [| done]. apply lookup_seq. lia.
Qed.

Lemma addrs_NoDup a n : NoDup (addrs a n).
Proof. apply NoDup_fmap_2; [| apply NoDup_seq]. intros i j. unfold sizeof_Buffer. lia. Qed.

Lemma init_bufs_next n k p m r x a j : 0 < n -> Z.of_nat k = n -> bufs_ p = a -> buf_num_ p = n ->
  forall d i, (i + d = k)%nat -> (i <= j < k)%nat ->
  exists b, init_bufs d (Z.of_nat i) p m r x !! (a + sizeof_Buffer * Z.of_nat j) = Some b /\
    next b = if decide (S j = k) then 0 else a + sizeof_Buffer * Z.of_nat (S j).
Proof.
  intros Hn Hk Ha Hp d. revert x. induction d as [|d IH]; intros x i Hd Hj; [lia |]. cbn [init_bufs].
  replace (Z.of_nat i + 1) with (Z.of_nat (S i)) by lia. destruct (decide (i = j)) as [<- | Hne]; [| apply IH; lia].
  rewrite Ha, Hp. clear IH.
  assert (forall d i' x', (i < i')%nat ->
    init_bufs d (Z.of_nat i') p m r x' !! (a + sizeof_Buffer * Z.of_nat i) = x' !! (a + sizeof_Buffer * Z.of_nat i)) as Hout.
  { clear -Ha. induction d as [|d IH]; intros i' x' Hi; [done |]. cbn [init_bufs].
    replace (Z.of_nat i' + 1) with (Z.of_nat (S i')) by lia. rewrite IH by lia.
    rewrite lookup_insert_ne; [done |]. rewrite Ha. unfold sizeof_Buffer. lia. }
  rewrite Hout by lia. rewrite lookup_insert_eq. eexists. split; [done |]. cbn [next].
  case_decide; destruct (Z.ltb_spec (Z.of_nat (S i)) n); lia.
Qed.

Lemma init_bufs_other d i p m r x y : (forall j, y <> bufs_ p + sizeof_Buffer * (i + Z.of_nat j)) ->
  init_bufs d i p m r x !! y = x !! y.
Proof.
  revert i x. induction d as [|d IH]; intros i x Hy; [done |]. cbn [init_bufs]. rewrite IH.
  - rewrite lookup_insert_ne; [done |]. specialize (Hy 0%nat). rewrite Z.add_0_r in Hy. done.
  - intros j. replace (i + 1 + Z.of_nat j) with (i + Z.of_nat (S j)) by lia. apply Hy.
Qed.

(** What makes the pool of [RegisteredBuffers] a stack. *)
Lemma chain_stack x a n : (0 < n)%nat -> 0 < a ->
  (forall j, (j < n)%nat -> exists b, x !! (a + sizeof_Buffer * Z.of_nat j) = Some b /\
     next b = if decide (S j = n) then 0 else a + sizeof_Buffer * Z.of_nat (S j)) ->
  stack x a (addrs a n).
Proof.
  intros Hn Ha H. split; [split | |].
  - intros y (j & Hj & ->)%addrs_elem. split; [unfold sizeof_Buffer; lia |]. destruct (H j Hj) as (b & -> & _). by eexists.
  - apply addrs_NoDup.
  - intros i y z [Hi ->]%addrs_lookup [Hi' ->]%addrs_lookup. destruct (H i Hi) as (b & Hb & En).
    unfold next_of. rewrite Hb, En. by rewrite decide_False by lia.
  - destruct n; [lia |]. cbn. unfold sizeof_Buffer. lia.
  - intros y. unfold addrs. destruct n as [|n]; [lia |]. rewrite seq_S, map_app. cbn [map]. rewrite last_snoc. intros [= <-].
    destruct (H n ltac:(lia)) as (b & Hb & En). unfold next_of. cbn. rewrite Hb, En. by rewrite decide_True.
Qed.

Definition R_of (rb : Z) : list Z := addrs rb (Z.to_nat depth).

(** Two pools apart from each other and nothing anywhere else. *)
Section Pools.
Variables (sb rb : Z).
Hypothesis Hdis : forall x, x ∈ addrs sb (Z.to_nat depth) -> x ∈ addrs rb (Z.to_nat depth) -> False.

Definition first_place (p : place) : list Z :=
  match p with SendPool => addrs sb (Z.to_nat depth) | RecvPool => addrs rb (Z.to_nat depth) | _ => [] end.

Definition first_owner : gmap Z place :=
  gset_to_gmap SendPool (list_to_set (addrs sb (Z.to_nat depth))) ∪ gset_to_gmap RecvPool (list_to_set (addrs rb (Z.to_nat depth))).

Lemma first_owner_spec b p : first_owner !! b = Some p <->
  p = SendPool /\ b ∈ addrs sb (Z.to_nat depth) \/ p = RecvPool /\ b ∈ addrs rb (Z.to_nat depth).
Proof.
  unfold first_owner. rewrite lookup_union_Some.
  - rewrite !lookup_gset_to_gmap_Some, !elem_of_list_to_set. naive_solver.
  - apply map_disjoint_spec. intros i x y [H1 _]%lookup_gset_to_gmap_Some [H2 _]%lookup_gset_to_gmap_Some.
    rewrite elem_of_list_to_set in H1, H2. by eapply Hdis.
Qed.

Lemma pools_inv s : stack (st s) (root_ (send_bufs_ s)) (addrs sb (Z.to_nat depth)) ->
  stack (st s) (root_ (recv_bufs_ s)) (addrs rb (Z.to_nat depth)) -> (forall i, queues s i = WorkQueue.empty) ->
  poller s = PFill (Z.to_nat depth) -> (forall i, workers s i = WGet) -> posted s = [] -> arrived s = [] -> sending s = [] -> sent s = [] ->
  inv (addrs rb (Z.to_nat depth)) (addrs sb (Z.to_nat depth)) s.
Proof.
  intros Hss Hrs Eq Ep Ew E1 E2 E3 E4. exists first_place, first_owner. split_and!.
  - split; try done; intros; rewrite ?Eq, ?Ep, ?Ew; try done. by apply nil_queue.
  - split.
    + intros []; try apply addrs_NoDup; apply NoDup_nil_2.
    + intros p b. rewrite first_owner_spec. unfold first_place. generalize (addrs sb (Z.to_nat depth)) (addrs rb (Z.to_nat depth)).
      intros l1 l2. split; [| by intros [[-> H] | [-> H]]]. destruct p; try (by intros ?%elem_of_nil); auto.
    + intros b p [[_ H] | [_ H]]%first_owner_spec; [apply (linked_real _ _ (stack_linked _ _ _ Hss) b H) | apply (linked_real _ _ (stack_linked _ _ _ Hrs) b H)].
    + intros b. split.
      * intros H. exists RecvPool. split; [apply first_owner_spec; auto | done].
      * intros (p & [[-> H] | [-> H]]%first_owner_spec & Hp); done.
    + intros b. split.
      * intros H. exists SendPool. split; [apply first_owner_spec; auto | done].
      * intros (p & [[-> H] | [-> H]]%first_owner_spec & Hp); done.
  - rewrite Ep. cbn. unfold addrs. rewrite length_map, length_seq. lia.
Qed.
End Pools.

Section Start.
Variables (sb rb : Z) (m : ibv_mr).
Hypothesis Hsb : 0 < sb.
Hypothesis Hrb : 0 < rb.
Hypothesis Happart : sb + sizeof_Buffer * depth <= rb \/ rb + sizeof_Buffer * depth <= sb.

Lemma start_recv_buffers j : (j < Z.to_nat depth)%nat ->
  exists b, st (start sb rb m) !! (rb + sizeof_Buffer * Z.of_nat j) = Some b /\
    next b = if decide (S j = Z.to_nat depth) then 0 else rb + sizeof_Buffer * Z.of_nat (S j).
Proof.
  intros Hj. eapply (init_bufs_next depth (Z.to_nat depth) (pool_at kRecvBufSize rb) m true _ rb j eq_refl eq_refl eq_refl eq_refl
    (Z.to_nat depth) 0%nat); lia.
Qed.

Lemma start_send_buffers j : (j < Z.to_nat depth)%nat ->
  exists b, st (start sb rb m) !! (sb + sizeof_Buffer * Z.of_nat j) = Some b /\
    next b = if decide (S j = Z.to_nat depth) then 0 else sb + sizeof_Buffer * Z.of_nat (S j).
Proof.
  intros Hj. unfold start. cbn [st]. assert (0 <= Z.of_nat j < depth) as Hj' by (change depth with 128 in *; lia).
  assert (forall d i x, (i + d = Z.to_nat depth)%nat -> init_bufs d (Z.of_nat i) (pool_at kRecvBufSize rb) m true x !!
    (sb + sizeof_Buffer * Z.of_nat j) = x !! (sb + sizeof_Buffer * Z.of_nat j)) as Hout.
  { induction d as [|d IH]; intros i x Hi; [done |]. cbn [init_bufs]. replace (Z.of_nat i + 1) with (Z.of_nat (S i)) by lia.
    rewrite IH by lia. rewrite lookup_insert_ne; [done |]. cbn [bufs_ pool_at]. unfold sizeof_Buffer in *.
    change depth with 128 in *. lia. }
  pose proof (Hout (Z.to_nat depth) 0%nat (init_bufs (Z.to_nat depth) 0 (pool_at kSendBufSize sb) m false ∅) eq_refl) as E.
  change (Z.of_nat 0) with 0 in E. rewrite E.
  eapply (init_bufs_next depth (Z.to_nat depth) (pool_at kSendBufSize sb) m false _ sb j eq_refl eq_refl eq_refl eq_refl
    (Z.to_nat depth) 0%nat); lia.
Qed.

Lemma pools_apart x : x ∈ addrs sb (Z.to_nat depth) -> x ∈ addrs rb (Z.to_nat depth) -> False.
Proof.
  intros (i & Hi & ->)%addrs_elem (j & Hj & E)%addrs_elem. unfold sizeof_Buffer in *. change depth with 128 in *. lia.
Qed.

Lemma pools_start : inv (addrs rb (Z.to_nat depth)) (addrs sb (Z.to_nat depth)) (start sb rb m).
Proof.
  apply pools_inv; try done; [apply pools_apart | |].
  - exact (chain_stack _ sb (Z.to_nat depth) ltac:(change depth with 128; lia) Hsb start_send_buffers).
  - exact (chain_stack _ rb (Z.to_nat depth) ltac:(change depth with 128; lia) Hrb start_recv_buffers).
Qed.
End Start.

(** Places that do not overlap and hold buffers of one pool hold no more than
    there are. *)
Lemma owned_bound R S s c o p q : owned R S s c o -> p <> q -> recv_place p = recv_place q ->
  (length (c p) + length (c q) <= length (if recv_place p then R else S))%nat.
Proof.
  intros [H1 H2 H3 H4 H5] Hpq Hk. rewrite <- length_app. apply submseteq_length, NoDup_submseteq.
  - apply NoDup_app. split_and!; auto. intros x Hx%H2 Hy%H2. congruence.
  - intros x [Hx%H2 | Hx%H2]%elem_of_app; destruct (recv_place p) eqn:E; try apply H4; try apply H5; eexists; split; try done; congruence.
Qed.

(** C38. However the poller, the workers and the device interleave, every
    message buffer is at every moment in exactly one place: a pool, one of the
    device's queues, one work queue or the hands of one thread; receive and
    send buffers never mix; the lists through [next] are the pools and queues
    they should be; neither queue of the device ever holds more than its 128
    entries; and the poller finds a buffer for every slot of the receive queue,
    so its assertion holds. *)
Theorem buffers_have_one_owner sb rb m l : 0 < sb -> 0 < rb ->
  (sb + sizeof_Buffer * depth <= rb \/ rb + sizeof_Buffer * depth <= sb) ->
  let s := run l (start sb rb m) in
  exists c, shape s c /\
    (forall p, NoDup (c p)) /\
    (forall b p q, b ∈ c p -> b ∈ c q -> p = q) /\
    (forall b, b ∈ addrs rb 128 <-> exists p, b ∈ c p /\ recv_place p = true) /\
    (forall b, b ∈ addrs sb 128 <-> exists p, b ∈ c p /\ recv_place p = false) /\
    (length (posted s) + length (arrived s) <= 128)%nat /\ (length (sending s) + length (sent s) <= 128)%nat /\
    poller s <> PAbort.
Proof.
  intros Hsb Hrb Ha s. destruct (inv_run _ _ l _ (pools_start sb rb m Hsb Hrb Ha)) as (c & o & Hs & Ho & Hf). fold s in Hs, Ho, Hf.
  change (Z.to_nat depth) with 128%nat in Ho. exists c.
  pose proof (owned_bound _ _ _ _ _ Posted Arrived Ho ltac:(done) eq_refl) as Hb1.
  pose proof (owned_bound _ _ _ _ _ Sending Sent Ho ltac:(done) eq_refl) as Hb2. cbn [recv_place] in Hb1, Hb2.
  unfold addrs in Hb1 at 1, Hb2 at 1. rewrite length_map, length_seq in Hb1, Hb2.
  rewrite (sh_posted _ _ Hs), (sh_arrived _ _ Hs) in Hb1. rewrite (sh_sending _ _ Hs), (sh_sent _ _ Hs) in Hb2.
  destruct Ho as [H1 H2 H3 H4 H5]. split_and!; try done.
  - intros b p q Hp%H2 Hq%H2. congruence.
  - intros b. rewrite H4. by setoid_rewrite H2.
  - intros b. rewrite H5. by setoid_rewrite H2.
  - intros E. by rewrite E in Hf.
Qed.

(** The buffers of the example, and a completion of a receive. *)
Definition s_addr : Z := 4096.
Definition r_addr : Z := 16384.
Definition example_start : state := start s_addr r_addr (mkMr 0 0 0).
Definition a_wc (b : Z) : ibv_wc := mkWc b 0 true 64 7 3 5.
Definition poll : actor := Poll 0 (a_wc 0).

(** Fill the receive queue. *)
Definition fill_run : list actor := replicate 257 poll.

(** One request served while no send completes: received and dispatched; taken
    and answered; its buffer posted again. *)
Definition round : list actor := [Deliver; poll; poll; Work 0; Work 0; Work 0; Work 0; Work 0; poll; poll; poll].

Lemma buffers_have_one_owner_witness :
  let s := run (fill_run ++ round ++ [Deliver; poll; poll]) example_start in
  (0 < s_addr /\ 0 < r_addr) /\
  (exists c, shape s c /\ (length (posted s) + length (arrived s) <= 128)%nat) /\ length (posted s) = 127%nat /\ length (sending s) = 1%nat.
Proof.
  intros s. split; [by split |].
  destruct (buffers_have_one_owner s_addr r_addr (mkMr 0 0 0) (fill_run ++ round ++ [Deliver; poll; poll]) ltac:(done) ltac:(done)
    ltac:(left; unfold s_addr, r_addr, sizeof_Buffer, depth; vm_compute; discriminate)) as (c & H1 & _ & _ & _ & _ & H2 & _).
  split; [exists c; exact (conj H1 H2) |]. split; vm_compute; reflexivity.
Defined.

(** ** Running out of send buffers *)

(** The send buffers that a worker cannot get: they are with the device, or in
    the hands of the poller or of a worker. *)
Definition away (s : state) (b : Z) : Prop :=
  b ∈ sending s \/ b ∈ sent s \/ b ∈ reply_of (poller s) \/ exists j, b ∈ sb_of (workers s j).

Lemma pool_empty R S s c o : shape s c -> owned R S s c o -> c SendPool = [] <-> forall b, b ∈ S -> away s b.
Proof.
  intros Hs Ho. pose proof Ho as [_ H2 _ _ H5]. split.
  - intros E b (p & Hp & Hk)%H5. apply H2 in Hp. unfold away.
    destruct p; try done; [rewrite E in Hp; by apply elem_of_nil in Hp | rewrite (sh_reply _ _ Hs) in Hp; auto |
      rewrite (sh_sb _ _ Hs) in Hp; eauto 10 | rewrite (sh_sending _ _ Hs) in Hp; auto | rewrite (sh_sent _ _ Hs) in Hp; auto].
  - intros Ha. destruct (c SendPool) as [|b l] eqn:E; [done |]. assert (b ∈ c SendPool) as Hb by (rewrite E; by left).
    destruct (owned_buffer R S s c o SendPool b Ho Hb) as (_ & _ & Hout).
    assert (b ∈ S) as HS by (apply H5; exists SendPool; split; [by apply H2 | done]).
    destruct (Ha b HS) as [Hx | [Hx | [Hx | [j Hx]]]].
    + rewrite <- (sh_sending _ _ Hs) in Hx. by apply Hout in Hx.
    + rewrite <- (sh_sent _ _ Hs) in Hx. by apply Hout in Hx.
    + rewrite <- (sh_reply _ _ Hs) in Hx. by apply Hout in Hx.
    + rewrite <- (sh_sb _ _ Hs) in Hx. by apply Hout in Hx.
Qed.

Lemma alloc_aborts R S s c o i w : shape s c -> owned R S s c o -> workers s i = WAlloc w ->
  workers (work_step i s) i = (if decide (c SendPool = []) then WAbort w else WServe w (root_ (send_bufs_ s))).
Proof.
  intros Hs Ho Hw. unfold work_step. rewrite Hw. destruct (Alloc (st s) (send_bufs_ s)) as [sb p] eqn:EA.
  assert (sb = root_ (send_bufs_ s)) as -> by (by injection EA).
  destruct (Alloc_cases _ _ _ _ _ (sh_send _ _ Hs) EA) as [[-> ->] | [-> (l' & -> & _)]]; cbn [workers set_worker set_send decide]; by rewrite fn_lookup_insert.
Qed.

(** *** Replies that the device does not complete *)

(** Everyone waits; [n] replies are with the device. *)
Record resting (s : state) (n : nat) : Prop := {
  rs_poller : poller s = PRecv; rs_workers : forall j, workers s j = WGet; rs_queue : queues s 0%nat = WorkQueue.empty;
  rs_posted : posted s <> []; rs_arrived : arrived s = []; rs_sent : sent s = []; rs_sending : length (sending s) = n }.

(** A request comes, and the worker has it. *)
Definition request : list actor := [Deliver; poll; poll; Work 0].

Lemma run_cons a l s : run (a :: l) s = run l (act a s).
Proof. done. Qed.

Lemma request_run s n b l : resting s n -> posted s = b :: l -> b <> 0 ->
  run request s = mkState (alter (received (a_wc 0)) b (st s)) (send_bufs_ s) (recv_bufs_ s)
    (<[0%nat := WorkQueue.empty]> (<[0%nat := mkQueue b b]> (queues s))) PSend (<[0%nat := WAlloc b]> (workers s)) l [] (sending s) [].
Proof.
  intros [H1 H2 H3 _ H5 H6 _] Hp Hb. destruct s as [x sp rp q p w po ar sg se]. cbn in *. subst. unfold run, request, poll. cbn. rewrite H3. cbn.
  unfold work_step. cbn. rewrite (H2 0%nat), fn_lookup_insert. unfold Dequeue. cbn.
  rewrite (proj2 (Z.eqb_neq b 0) Hb), Z.eqb_refl. by rewrite (proj2 (Z.eqb_neq b 0) Hb).
Qed.

(** The worker has a buffer for the reply. *)
Definition reply : list actor := [Work 0; Work 0; Work 0; Work 0; poll; poll; poll].

Section Reply.
Variables (x : Infiniband.bufs) (sp rp : RegisteredBuffers) (q : nat -> WorkQueue.t) (w : nat -> worker_pc) (l sg : list Z) (b : Z).
#[local] Abbreviation at_ p w l sg := (mkState x sp rp q p w l [] sg []).

Lemma step_alloc : w 0%nat = WAlloc b -> root_ sp <> 0 ->
  act (Work 0) (at_ PSend w l sg) = mkState x (Alloc x sp).2 rp q PSend (<[0%nat := WServe b (root_ sp)]> w) l [] sg [].
Proof. intros Hw Hs. cbn [act]. unfold work_step. cbn. rewrite Hw. by rewrite (proj2 (Z.eqb_neq _ 0) Hs). Qed.

Lemma step_serve r : w 0%nat = WServe b r -> act (Work 0) (at_ PSend w l sg) = at_ PSend (<[0%nat := WPost b r]> w) l sg.
Proof. intros Hw. cbn [act]. unfold work_step. cbn. by rewrite Hw. Qed.

Lemma step_post r : w 0%nat = WPost b r -> act (Work 0) (at_ PSend w l sg) = at_ PSend (<[0%nat := WFree b]> w) l (sg ++ [r]).
Proof. intros Hw. cbn [act]. unfold work_step. cbn. by rewrite Hw. Qed.

Lemma step_free : w 0%nat = WFree b ->
  act (Work 0) (at_ PSend w l sg) = mkState (Free x rp b).1 sp (Free x rp b).2 q PSend (<[0%nat := WGet]> w) l [] sg [].
Proof. intros Hw. cbn [act]. unfold work_step. cbn. by rewrite Hw. Qed.

Lemma step_repost : root_ rp = b -> b <> 0 ->
  run [poll; poll; poll] (at_ PSend w l sg) = mkState x sp (Alloc x rp).2 q PRecv w (l ++ [b]) [] sg [].
Proof. intros Hr Hb. unfold run, poll. cbn. rewrite Hr, (proj2 (Z.eqb_neq _ _) Hb). done. Qed.
End Reply.

Lemma reply_run s b l : workers s 0%nat = WAlloc b -> poller s = PSend -> sent s = [] -> arrived s = [] -> posted s = l -> root_ (send_bufs_ s) <> 0 -> b <> 0 ->
  let t := run reply s in
  poller t = PRecv /\ workers t 0%nat = WGet /\ (forall j, j <> 0%nat -> workers t j = workers s j) /\ posted t = l ++ [b] /\
  arrived t = [] /\ sent t = [] /\ sending t = sending s ++ [root_ (send_bufs_ s)] /\ queues t = queues s.
Proof.
  intros H1 H2 H3 H4 H5 H6 Hb. destruct s as [x sp rp q p w po ar sg se]. cbn in H1, H2, H3, H4, H5, H6. subst p se ar po.
  unfold reply. rewrite run_cons, (step_alloc _ _ _ _ _ _ _ b) by done. rewrite run_cons, (step_serve _ _ _ _ _ _ _ b (root_ sp)) by apply fn_lookup_insert.
  rewrite run_cons, (step_post _ _ _ _ _ _ _ b (root_ sp)) by apply fn_lookup_insert. rewrite run_cons, (step_free _ _ _ _ _ _ _ b) by apply fn_lookup_insert.
  rewrite (step_repost _ _ _ _ _ _ _ b) by done. cbn [poller workers posted arrived sent sending queues send_bufs_]. split_and!; try done.
  intros j Hj. by rewrite !fn_lookup_insert_ne by done.
Qed.

Lemma run_app l l' s : run (l ++ l') s = run l' (run l s).
Proof. apply foldl_app. Qed.

(** Each request takes one more send buffer. *)
Lemma round_run R S s n : inv R S s -> resting s n -> (n < length S)%nat -> NoDup S -> resting (run round s) (Datatypes.S n).
Proof.
  intros Hi Hr Hn Hd. pose proof Hi as (c & o & Hs & Ho & _). destruct (posted s) as [|b l] eqn:Ep; [by destruct (rs_posted _ _ Hr) |].
  destruct (owned_buffer R S s c o Posted b Ho) as (Hb & _); [rewrite (sh_posted _ _ Hs), Ep; by left |].
  assert (root_ (send_bufs_ s) <> 0) as H0.
  { destruct (c SendPool) as [|r l'] eqn:E.
    - exfalso. assert (length S <= length (sending s))%nat; [| rewrite (rs_sending _ _ Hr) in *; lia].
      apply submseteq_length, NoDup_submseteq; [done |]. intros y Hy. rewrite (pool_empty _ _ _ _ _ Hs Ho) in E.
      destruct (E y Hy) as [? | [Hx | [Hx | [j Hx]]]]; [done | | |];
        [rewrite (rs_sent _ _ Hr) in Hx | rewrite (rs_poller _ _ Hr) in Hx | rewrite (rs_workers _ _ Hr) in Hx]; by apply elem_of_nil in Hx.
    - rewrite (stack_root _ _ _ (sh_send _ _ Hs)), E. cbn. apply (owned_buffer R S s c o SendPool r Ho). rewrite E. by left. }
  change round with (request ++ reply). rewrite run_app, (request_run s n b l Hr Ep Hb).
  match goal with |- resting (run reply ?t) _ => destruct (reply_run t b l) as (F1 & F2 & F3 & F4 & F5 & F6 & F7 & F8); [apply fn_lookup_insert | done.. |] end.
  cbn [workers sending send_bufs_ queues] in *.
  split; [done | | | | done | done |].
  - intros j. destruct (decide (j = 0%nat)) as [-> | Hj]; [done |]. rewrite F3, fn_lookup_insert_ne by done. apply Hr.
  - by rewrite F8, fn_lookup_insert.
  - rewrite F4. by destruct l.
  - rewrite F7, length_app, (rs_sending _ _ Hr). cbn. lia.
Qed.

Lemma rounds_run R S s k : inv R S s -> resting s 0 -> NoDup S -> (k <= length S)%nat -> resting (run (concat (replicate k round)) s) k.
Proof.
  intros Hi Hr Hd. induction k as [|k IH]; intros Hk; [exact Hr |].
  rewrite replicate_S_end, concat_app, run_app. cbn [concat]. rewrite app_nil_r. apply (round_run R S); [by apply inv_run | apply IH; lia | lia | done].
Qed.

(** Filling the receive queue. *)
Lemma fill_steps R S n : forall s, inv R S s -> poller s = PFill n -> let t := run (replicate (2 * n) poll) s in
  poller t = PFill 0 /\ workers t = workers s /\ queues t = queues s /\ arrived t = arrived s /\ sent t = sent s /\ sending t = sending s /\
  length (posted t) = (n + length (posted s))%nat.
Proof.
  induction n as [|n IH]; intros s Hi Hp; [done |]. replace (2 * Datatypes.S n)%nat with (2 + 2 * n)%nat by lia. rewrite replicate_add, run_app.
  assert (poller (act poll s) <> PAbort) as Ha by (destruct (inv_act R S poll s Hi) as (c & o & _ & _ & Hf); intros E; by rewrite E in Hf).
  set (s2 := run (replicate 2 poll) s). assert (inv R S s2) as Hi2 by (by apply inv_run).
  assert (poller s2 = PFill n /\ workers s2 = workers s /\ queues s2 = queues s /\ arrived s2 = arrived s /\ sent s2 = sent s /\
    sending s2 = sending s /\ length (posted s2) = Datatypes.S (length (posted s))) as (E1 & E2 & E3 & E4 & E5 & E6 & E7).
  { subst s2. unfold run. cbn [replicate foldl]. revert Ha. unfold poll, act, poll_step. rewrite Hp.
    destruct (Alloc (st s) (recv_bufs_ s)) as [b p]. destruct (b =? 0); cbn; [done |]. intros _. rewrite length_app. cbn. split_and!; try done. lia. }
  destruct (IH s2 Hi2 E1) as (F1 & F2 & F3 & F4 & F5 & F6 & F7). split_and!; congruence || lia.
Qed.

Lemma fill_split : fill_run = replicate (2 * 128) poll ++ [poll].
Proof. vm_compute. reflexivity. Qed.

Lemma fill_ends s : poller s = PFill 0 -> run [poll] s = set_poller PRecv s.
Proof. intros Hp. unfold run, poll. cbn [foldl act]. unfold poll_step. by rewrite Hp. Qed.

Lemma fill_rests R S s : inv R S s -> poller s = PFill 128 -> (forall j, workers s j = WGet) -> queues s 0%nat = WorkQueue.empty ->
  arrived s = [] -> sent s = [] -> sending s = [] -> resting (run fill_run s) 0.
Proof.
  intros Hi Hp Hw Hq Ha Hs Hse. rewrite fill_split, run_app. destruct (fill_steps R S 128 s Hi Hp) as (F1 & F2 & F3 & F4 & F5 & F6 & F7).
  revert F1 F2 F3 F4 F5 F6 F7. generalize (run (replicate (2 * 128) poll) s). intros t F1 F2 F3 F4 F5 F6 F7. rewrite fill_ends by done.
  split; cbn [set_poller poller workers queues posted arrived sent sending]; [done | intros j; by rewrite F2 | by rewrite F3 | | congruence | congruence | by rewrite F6, Hse].
  intros E. rewrite E in F7. cbn [length] in F7. lia.
Qed.

(** C39. The assertion that a worker finds a send buffer fails exactly when all
    128 are away: with the device, which has not completed them, or in the
    hands of the poller or of a worker.  Replies go back to the pool only when
    the device has completed them and the poller has seen it, while a worker
    posts a reply for every request; so it happens: when a device completes no
    send, the server answers 128 requests and aborts over the next one. *)
Theorem send_buffers_run_out sb rb m : 0 < sb -> 0 < rb ->
  (sb + sizeof_Buffer * depth <= rb \/ rb + sizeof_Buffer * depth <= sb) ->
  (forall l i w, let s := run l (start sb rb m) in workers s i = WAlloc w ->
     workers (act (Work i) s) i = WAbort w <-> forall b, b ∈ addrs sb 128 -> away s b) /\
  (forall n, (n <= 128)%nat -> let s := run (fill_run ++ concat (replicate n round)) (start sb rb m) in
     length (sending s) = n /\ exists w, workers (run request s) 0 = WAlloc w /\
       (workers (run (request ++ [Work 0]) s) 0 = WAbort w <-> n = 128%nat)).
Proof.
  intros Hsb Hrb Ha. pose proof (pools_start sb rb m Hsb Hrb Ha) as Hi0. change (Z.to_nat depth) with 128%nat in Hi0. split.
  - intros l i w s Hw. destruct (inv_run _ _ l _ Hi0) as (c & o & Hs & Ho & _). fold s in Hs, Ho. cbn [act].
    rewrite (alloc_aborts _ _ _ _ _ _ _ Hs Ho Hw), <- (pool_empty _ _ _ _ _ Hs Ho). case_decide; split; done || congruence.
  - assert (resting (run fill_run (start sb rb m)) 0) as Hrest.
    { apply (fill_rests _ _ _ Hi0); [| done..]. cbn [start poller]. done. }
    revert Hi0 Hrest. generalize (start sb rb m). intros s0 Hi0 Hrest. intros n Hn s. assert (resting s n /\ inv (addrs rb 128) (addrs sb 128) s) as [Hr Hi].
    { unfold s. rewrite run_app. split; [| by do 2 apply inv_run].
      apply (rounds_run (addrs rb 128) (addrs sb 128)); [by apply inv_run | exact Hrest | apply addrs_NoDup | by unfold addrs; rewrite length_map, length_seq]. }
    split; [apply Hr |]. destruct (posted s) as [|w l] eqn:Ep; [by destruct (rs_posted _ _ Hr) |]. exists w.
    assert (w <> 0) as Hw0.
    { destruct Hi as (c & o & Hs & Ho & _). apply (owned_buffer _ _ s c o Posted w Ho). rewrite (sh_posted _ _ Hs), Ep. by left. }
    pose proof (request_run s n w l Hr Ep Hw0) as Er. assert (workers (run request s) 0%nat = WAlloc w) as Hw by (by rewrite Er; cbn [workers]; rewrite fn_lookup_insert).
    split; [done |]. destruct (inv_run _ _ request _ Hi) as (c & o & Hs & Ho & _). rewrite run_app. unfold run at 1. cbn [foldl act].
    rewrite (alloc_aborts _ _ _ _ _ _ _ Hs Ho Hw).
    assert (c SendPool = [] <-> n = 128%nat) as En; [| case_decide as Ec; rewrite <- En; [by split | split; [intros [=] | done]]].
    rewrite (pool_empty _ _ _ _ _ Hs Ho). rewrite <- (rs_sending _ _ Hr). unfold away. rewrite Er. cbn [sending sent poller workers reply_of]. split.
    + intros Hall. assert (addrs sb 128 ⊆+ sending s) as Hsub.
      { apply NoDup_submseteq; [apply addrs_NoDup |]. intros y Hy. destruct (Hall y Hy) as [? | [Hx | [Hx | [j Hj]]]]; [done | by apply elem_of_nil in Hx | by apply elem_of_nil in Hx |].
        destruct (decide (j = 0%nat)) as [-> | Hne]; [rewrite fn_lookup_insert in Hj | rewrite fn_lookup_insert_ne, (rs_workers _ _ Hr) in Hj by done];
          by apply elem_of_nil in Hj. }
      apply submseteq_length in Hsub. rewrite (rs_sending _ _ Hr) in *. unfold addrs in Hsub. rewrite length_map, length_seq in Hsub. lia.
    + intros Hlen. destruct Hi as (c' & o' & Hs' & Ho' & _). assert (sending s ⊆+ addrs sb 128) as Hsub.
      { rewrite <- (sh_sending _ _ Hs'). apply NoDup_submseteq; [apply Ho' |]. intros y Hy. apply (own_send _ _ _ _ _ Ho'). exists Sending.
        split; [by apply (own_place _ _ _ _ _ Ho') | done]. }
      intros y Hy. left. apply (submseteq_length_Permutation _ _) in Hsub; [by rewrite Hsub |]. rewrite Hlen. unfold addrs. by rewrite length_map, length_seq.
Qed.

Lemma send_buffers_run_out_witness : exists w,
  workers (run (request ++ [Work 0]) (run (fill_run ++ concat (replicate 128 round)) example_start)) 0 = WAbort w.
Proof.
  destruct (send_buffers_run_out s_addr r_addr (mkMr 0 0 0) ltac:(done) ltac:(done)
    ltac:(left; unfold s_addr, r_addr, sizeof_Buffer, depth; vm_compute; discriminate)) as [_ H].
  destruct (H 128%nat ltac:(lia)) as (_ & w & _ & Hw). exists w. by apply Hw.
Defined.
