(* ===== verification/ServerView.v ===== *)
(** * The buffers of a server between two operations

    [view] is the state of [ServerSteps] a server is in when its workers wait:
    [recvs] are the receives that are posted, [sends] the replies that are not
    completed.  A pass of the poller and the serving of a request take it from
    one such state to the next, so that its invariant holds along the way. *)

From S2P Require Import Prelude Wire Verbs Infiniband Endpoint WorkQueue Server ServerSteps.
From stdpp Require Import functions list.
#[local] Open Scope Z_scope.
Import Infiniband WorkQueue ServerSteps.

Definition view (st : bufs) (sp rp : RegisteredBuffers) (qs : nat -> WorkQueue.t) (p : poller_pc) (recvs sends : list Z) : state :=
  mkState st sp rp qs p (fun _ => WGet) recvs [] sends [].

#[local] Arguments Alloc : simpl never.
#[local] Arguments Free : simpl never.
#[local] Arguments Enqueue : simpl never.
#[local] Arguments Dequeue : simpl never.

Lemma insert_known (st : bufs) b x f : st !! b = Some x -> <[b := f x]> st = alter f b st.
Proof.
  intros Hx. apply map_eq. intros a. destruct (decide (b = a)) as [<- | Hne].
  - by rewrite lookup_insert_eq, lookup_alter_eq, Hx.
  - by rewrite lookup_insert_ne, lookup_alter_ne.
Qed.

Section View.
Variables (R S : list Z).
#[local] Abbreviation inv := (inv R S).

(** The functions of a state matter at their arguments only. *)
Lemma inv_same_functions s s' : st s' = st s -> send_bufs_ s' = send_bufs_ s -> recv_bufs_ s' = recv_bufs_ s ->
  (forall i, queues s' i = queues s i) -> poller s' = poller s -> (forall i, workers s' i = workers s i) ->
  posted s' = posted s -> arrived s' = arrived s -> sending s' = sending s -> sent s' = sent s -> inv s -> inv s'.
Proof.
  intros E1 E2 E3 E4 E5 E6 E7 E8 E9 E10 (c & o & [H1 H2 H3 H4 H5 H6 H7 H8 H9 H10 H11] & [O1 O2 O3 O4 O5] & Hf).
  exists c, o. split; [| split; [| by rewrite E5]].
  - split; intros; rewrite ?E1, ?E2, ?E3, ?E4, ?E5, ?E6, ?E7, ?E8, ?E9, ?E10; auto.
  - split; auto. by rewrite E1.
Qed.

(** A buffer and the receives that are posted are different buffers. *)
Lemma inv_hand_room s b l : inv s -> hand_of (poller s) = [b] -> posted s = l -> (length l < length R)%nat.
Proof.
  intros (c & o & Hs & Ho & _) Eh Ep. pose proof (owned_bound _ _ _ _ _ PollerHand Posted Ho ltac:(done) eq_refl) as H. cbn [recv_place] in H.
  rewrite (sh_hand _ _ Hs), (sh_posted _ _ Hs), Eh, Ep in H. cbn [length] in H. lia.
Qed.

Lemma inv_reply_room s i b l : inv s -> sb_of (workers s i) = [b] -> sending s = l -> (length l < length S)%nat.
Proof.
  intros (c & o & Hs & Ho & _) Eh Ep. pose proof (owned_bound _ _ _ _ _ (ReplyHand i) Sending Ho ltac:(done) eq_refl) as H. cbn [recv_place] in H.
  rewrite (sh_sb _ _ Hs), (sh_sending _ _ Hs), Eh, Ep in H. cbn [length] in H. lia.
Qed.

(** The steps of a worker, when they get on. *)
Lemma inv_take i s w q : workers s i = WGet -> Dequeue (st s) (queues s i) = (w, q) -> w <> 0 -> inv s ->
  inv (set_worker i (WAlloc w) (set_queue (st s) i q s)).
Proof. intros Ew Ed Hw H. pose proof (inv_work R S i s H) as H1. unfold work_step in H1. by rewrite Ew, Ed, (proj2 (Z.eqb_neq _ _) Hw) in H1. Qed.

Lemma inv_reply i s w sb p : workers s i = WAlloc w -> Alloc (st s) (send_bufs_ s) = (sb, p) -> sb <> 0 -> inv s ->
  inv (set_worker i (WServe w sb) (set_send (st s) p s)).
Proof. intros Ew Ea Hb H. pose proof (inv_work R S i s H) as H1. unfold work_step in H1. by rewrite Ew, Ea, (proj2 (Z.eqb_neq _ _) Hb) in H1. Qed.

Lemma inv_posting i s w sb : workers s i = WServe w sb -> inv s -> inv (set_worker i (WPost w sb) s).
Proof. intros Ew H. pose proof (inv_work R S i s H) as H1. unfold work_step in H1. by rewrite Ew in H1. Qed.

Lemma inv_posted i s w sb : workers s i = WPost w sb -> inv s -> inv (set_worker i (WFree w) (set_sends (st s) (sending s ++ [sb]) (sent s) s)).
Proof. intros Ew H. pose proof (inv_work R S i s H) as H1. unfold work_step in H1. by rewrite Ew in H1. Qed.

Lemma inv_freed i s w x p : workers s i = WFree w -> Free (st s) (recv_bufs_ s) w = (x, p) -> inv s ->
  inv (set_worker i WGet (set_recv x p s)).
Proof. intros Ew Ef H. pose proof (inv_work R S i s H) as H1. unfold work_step in H1. by rewrite Ew, Ef in H1. Qed.

Section Poller.
Context {st : bufs} {sp rp : RegisteredBuffers} {qs : nat -> WorkQueue.t} {recvs sends : list Z}.
#[local] Abbreviation now p := (view st sp rp qs p recvs sends).
#[local] Abbreviation any := (mkWc 0 0 true 0 0 0 0).

Lemma view_filled : inv (now (PFill 0)) -> inv (now PRecv).
Proof. exact (inv_poll R S 0%nat any _). Qed.

Lemma view_fill n b p : inv (now (PFill (Datatypes.S n))) -> Alloc st rp = (b, p) -> b <> 0 ->
  (length recvs < length R)%nat /\ inv (view st sp p qs (PFill n) (recvs ++ [b]) sends).
Proof.
  intros H Ea Hb. pose proof (inv_poll R S 0%nat any _ H) as H1. cbn in H1. rewrite Ea in H1. rewrite (proj2 (Z.eqb_neq _ _) Hb) in H1.
  split; [by eapply (inv_hand_room _ b) |]. exact (inv_poll R S 0%nat any _ H1).
Qed.

Lemma view_receive b l wc x : inv (now PRecv) -> recvs = b :: l -> st !! b = Some x ->
  inv (view (<[b := received wc x]> st) sp rp qs (PDispatch b) l sends).
Proof.
  intros H E Hx. subst recvs. pose proof (inv_poll R S 0%nat wc _ (inv_deliver R S _ H)) as H1. cbn in H1. unfold set_receives in H1. cbn in H1.
  eapply inv_same_functions; [.. | exact H1]; try done. cbn. by apply insert_known.
Qed.

Lemma view_nothing : inv (now PRecv) -> inv (now PSend).
Proof. exact (inv_poll R S 0%nat any _). Qed.

Lemma view_dispatch b i x q : inv (now (PDispatch b)) -> Enqueue st (qs i) b = (x, q) ->
  inv (view x sp rp (<[i := q]> qs) PSend recvs sends).
Proof. intros H E. pose proof (inv_poll R S i any _ H) as H1. cbn in H1. by rewrite E in H1. Qed.

Lemma view_sent b l wc y x p : inv (now PSend) -> sends = b :: l -> st !! b = Some y -> Free (<[b := received wc y]> st) sp b = (x, p) ->
  inv (view x p rp qs PAlloc recvs l).
Proof.
  intros H E Hy Ef. subst sends. rewrite (insert_known _ _ _ _ Hy) in Ef.
  pose proof (inv_poll R S 0%nat wc _ (inv_poll R S 0%nat wc _ (inv_complete R S _ H))) as H1. cbn in H1. by rewrite Ef in H1.
Qed.

Lemma view_not_sent : inv (now PSend) -> inv (now PAlloc).
Proof. exact (inv_poll R S 0%nat any _). Qed.

Lemma view_no_buffer b p : inv (now PAlloc) -> Alloc st rp = (b, p) -> b = 0 -> inv (now PRecv).
Proof. intros H Ea ->. pose proof (inv_poll R S 0%nat any _ H) as H1. cbn in H1. by rewrite Ea in H1. Qed.

Lemma view_post b p : inv (now PAlloc) -> Alloc st rp = (b, p) -> b <> 0 ->
  (length recvs < length R)%nat /\ inv (view st sp p qs PRecv (recvs ++ [b]) sends).
Proof.
  intros H Ea Hb. pose proof (inv_poll R S 0%nat any _ H) as H1. cbn in H1. rewrite Ea, (proj2 (Z.eqb_neq _ _) Hb) in H1.
  split; [by eapply (inv_hand_room _ b) |]. exact (inv_poll R S 0%nat any _ H1).
Qed.

(** ** A request, from the work queue to the reply *)

Lemma view_serve i w q sb p x p' : inv (now PRecv) -> Dequeue st (qs i) = (w, q) -> w <> 0 ->
  Alloc st sp = (sb, p) -> sb <> 0 -> Free st rp w = (x, p') ->
  (length sends < length S)%nat /\ sb ∈ S /\ inv (view x p p' (<[i := q]> qs) PRecv recvs (sends ++ [sb])).
Proof.
  intros H Ed Hw Ea Hsb Ef. set (s0 := view _ _ _ _ _ _ _) in H.
  pose proof (inv_take i s0 w q eq_refl Ed Hw H) as H1. set (s1 := set_worker _ _ _) in H1.
  pose proof (inv_reply i s1 w sb p (fn_lookup_insert _ _ _) Ea Hsb H1) as H2. set (s2 := set_worker _ _ _) in H2.
  pose proof (inv_posting i s2 w sb (fn_lookup_insert _ _ _) H2) as H3. set (s3 := set_worker _ _ _) in H3.
  pose proof (inv_posted i s3 w sb (fn_lookup_insert _ _ _) H3) as H4. set (s4 := set_worker _ _ _) in H4.
  pose proof (inv_freed i s4 w x p' (fn_lookup_insert _ _ _) Ef H4) as H5. split; [| split].
  - apply (inv_reply_room s3 i sb sends H3); [| done]. unfold s3. cbn [workers set_worker]. by rewrite fn_lookup_insert.
  - destruct H3 as (c & o & Hs & [_ Ho _ _ Hse] & _). apply Hse. exists (ReplyHand i). split; [| done]. apply Ho.
    rewrite (sh_sb _ _ Hs). unfold s3. cbn [workers set_worker]. rewrite fn_lookup_insert. by left.
  - eapply inv_same_functions; [.. | exact H5]; try done. intros j. unfold s4, s3, s2, s1, s0. cbn [workers set_worker set_recv set_sends set_send set_queue view].
    destruct (decide (i = j)) as [<- | Hne]; [by rewrite fn_lookup_insert | by rewrite !fn_lookup_insert_ne].
Qed.
End Poller.
End View.

(** ** The start *)

Lemma laid_stack st pool rc : laid st pool rc depth -> stack st (root_ pool) (addrs (bufs_ pool) (Z.to_nat depth)).
Proof.
  intros [H1 H2 H3]. rewrite H1. apply chain_stack; [change depth with 128; lia | done |]. intros j Hj.
  destruct (H3 (Z.of_nat j)) as (b & Hb & _ & Hn); [change depth with 128 in *; lia |]. exists b. split; [exact Hb |]. rewrite Hn. unfold buf_addr.
  change depth with 128 in *. destruct (Z.ltb_spec (Z.of_nat j + 1) 128); case_decide; lia.
Qed.

Lemma laid_kind st pool rc a : laid st pool rc depth -> a ∈ addrs (bufs_ pool) (Z.to_nat depth) -> exists b, st !! a = Some b /\ is_recv b = rc.
Proof.
  intros [_ _ H] (j & Hj & ->)%addrs_elem. destruct (H (Z.of_nat j)) as (b & Hb & Hk & _); [change depth with 128 in *; lia |]. by exists b.
Qed.

Lemma view_start st sp rp : laid st sp false depth -> laid st rp true depth ->
  inv (addrs (bufs_ rp) (Z.to_nat depth)) (addrs (bufs_ sp) (Z.to_nat depth))
    (view st sp rp (fun _ => WorkQueue.empty) (PFill (Z.to_nat depth)) [] []).
Proof.
  intros Hs Hr. apply pools_inv; try done; [| exact (laid_stack _ _ _ Hs) | exact (laid_stack _ _ _ Hr)].
  intros x H1 H2. destruct (laid_kind _ _ _ _ Hs H1) as (b & Hb & E1). destruct (laid_kind _ _ _ _ Hr H2) as (b' & Hb' & E2). congruence.
Qed.

(** ** A server *)

(** Every buffer is where it should be: [recvs] are posted, [sends] are not
    completed, the poller is at [p]. *)
Definition buffers_at (sv : Server.t) (p : poller_pc) (recvs sends : list Z) : Prop := exists R S,
  Z.of_nat (length R) = depth /\ Z.of_nat (length S) = depth /\
  (forall a, a ∈ S -> exists b, Server.bufs sv !! a = Some b /\ is_recv b = false) /\
  inv R S (view (Server.bufs sv) (Server.send_bufs_ sv) (Server.recv_bufs_ sv)
    (fun i => default WorkQueue.empty (Server.workers_ sv !! i)) p recvs sends).

Lemma addrs_length a n : length (addrs a n) = n.
Proof. unfold addrs. by rewrite length_map, length_seq. Qed.

Lemma buffers_start sv n : laid (Server.bufs sv) (Server.send_bufs_ sv) false depth -> laid (Server.bufs sv) (Server.recv_bufs_ sv) true depth ->
  Server.workers_ sv = replicate n WorkQueue.empty -> buffers_at sv (PFill (Z.to_nat depth)) [] [].
Proof.
  intros Hs Hr Hw. exists (addrs (bufs_ (Server.recv_bufs_ sv)) (Z.to_nat depth)), (addrs (bufs_ (Server.send_bufs_ sv)) (Z.to_nat depth)).
  rewrite !addrs_length. split; [done |]. split; [done |]. split; [intros a; exact (laid_kind _ _ _ _ Hs) |].
  eapply inv_same_functions; [.. | exact (view_start _ _ _ Hs Hr)]; try done. intros i. cbn [queues view]. rewrite Hw.
  destruct (replicate n _ !! i) eqn:E; [| done]. by apply lookup_replicate in E as [-> _].
Qed.

Lemma buffers_fill sv m b p recvs : buffers_at sv (PFill (S m)) recvs [] -> Alloc (Server.bufs sv) (Server.recv_bufs_ sv) = (b, p) -> b <> 0 ->
  Z.of_nat (length recvs) < depth /\ buffers_at (Server.with_recv (Server.bufs sv) p sv) (PFill m) (recvs ++ [b]) [].
Proof.
  intros (R & S & HR & HS & Hk & H) Ea Hb. destruct (view_fill _ _ _ _ _ H Ea Hb) as [Hl H']. split; [lia |]. by exists R, S.
Qed.

Lemma buffers_filled sv recvs : buffers_at sv (PFill 0) recvs [] -> buffers_at sv PRecv recvs [].
Proof. intros (R & S & HR & HS & Hk & H). exists R, S. split; [done |]. split; [done |]. split; [done |]. by apply view_filled. Qed.

(** *** A pass of the poller *)

(** What every use of a buffer leaves alone. *)
Definition same_body (f : Buffer -> Buffer) : Prop := forall b,
  b_buf (f b) = b_buf b /\ b_size (f b) = b_size b /\ b_mr (f b) = b_mr b /\ is_recv (f b) = is_recv b.

Lemma next_same_body n : same_body (with_next n).
Proof. done. Qed.
Lemma received_same_body wc : same_body (received wc).
Proof. done. Qed.

Lemma kind_alter (S : list Z) (st : bufs) f a : same_body f -> (forall x, x ∈ S -> exists b, st !! x = Some b /\ is_recv b = false) ->
  forall x, x ∈ S -> exists b, alter f a st !! x = Some b /\ is_recv b = false.
Proof.
  intros Hf Hk x Hx. destruct (Hk x Hx) as (b & Hb & Er). destruct (decide (a = x)) as [-> | Hne].
  - rewrite lookup_alter_eq, Hb. exists (f b). split; [done |]. by rewrite (proj2 (proj2 (proj2 (Hf b)))).
  - rewrite lookup_alter_ne by done. by exists b.
Qed.

Lemma buffers_receive sv b l ids wc x : buffers_at sv PRecv (b :: l) ids -> Server.bufs sv !! b = Some x ->
  b <> 0 /\ buffers_at (Server.with_bufs (<[b := received wc x]> (Server.bufs sv)) sv) (PDispatch b) l ids.
Proof.
  intros (R & S & HR & HS & Hk & H) Hx. pose proof (view_receive R S b l wc x H eq_refl Hx) as H'. split.
  - destruct H as (c & o & Hs & Ho & _). apply (owned_buffer R S _ c o Posted b Ho). rewrite (sh_posted _ _ Hs). by left.
  - exists R, S. split; [done |]. split; [done |]. split; [| exact H']. cbn [Server.with_bufs Server.bufs]. rewrite (insert_known _ _ _ _ Hx).
    by apply kind_alter.
Qed.

Lemma buffers_nothing sv recvs ids : buffers_at sv PRecv recvs ids -> buffers_at sv PSend recvs ids.
Proof. intros (R & S & HR & HS & Hk & H). exists R, S. split; [done |]. split; [done |]. split; [done |]. by apply view_nothing. Qed.

Lemma buffers_dispatch sv b recvs ids i q x q' : buffers_at sv (PDispatch b) recvs ids -> Server.workers_ sv !! i = Some q ->
  Enqueue (Server.bufs sv) q b = (x, q') ->
  (x = Server.bufs sv \/ exists a n, x = alter (with_next n) a (Server.bufs sv)) /\ buffers_at (Server.with_worker x i q' sv) PSend recvs ids.
Proof.
  intros (R & S & HR & HS & Hk & H) Hq E. assert (x = Server.bufs sv \/ exists a n, x = alter (with_next n) a (Server.bufs sv)) as Hx.
  { unfold Enqueue in E. destruct (_ =? 0); injection E as <- _; [by left | right; by eexists _, _]. }
  split; [done |]. exists R, S. split; [done |]. split; [done |]. split.
  - cbn [Server.with_worker Server.bufs]. destruct Hx as [-> | (a & n & ->)]; [done | by apply kind_alter].
  - assert (Enqueue (Server.bufs sv) (default WorkQueue.empty (Server.workers_ sv !! i)) b = (x, q')) as E' by (by rewrite Hq).
    eapply inv_same_functions; [.. | exact (view_dispatch R S b i x q' H E')]; try done.
    intros j. cbn [queues view Server.with_worker Server.workers_]. destruct (decide (i = j)) as [<- | Hne].
    + rewrite fn_lookup_insert, list_lookup_insert_eq by (by eapply lookup_lt_Some). done.
    + by rewrite fn_lookup_insert_ne, list_lookup_insert_ne.
Qed.

Lemma buffers_sent sv b l recvs wc y x p : buffers_at sv PSend recvs (b :: l) -> Server.bufs sv !! b = Some y ->
  Free (<[b := received wc y]> (Server.bufs sv)) (Server.send_bufs_ sv) b = (x, p) ->
  b <> 0 /\ buffers_at (Server.with_send x p sv) PAlloc recvs l.
Proof.
  intros (R & S & HR & HS & Hk & H) Hy E. split.
  - destruct H as (c & o & Hs & Ho & _). apply (owned_buffer R S _ c o Sending b Ho). rewrite (sh_sending _ _ Hs). by left.
  - exists R, S. split; [done |]. split; [done |]. split; [| exact (view_sent R S b l wc y x p H eq_refl Hy E)].
    rewrite (insert_known _ _ _ _ Hy) in E. injection E as <- _. by apply kind_alter; [| apply kind_alter].
Qed.

Lemma buffers_not_sent sv recvs ids : buffers_at sv PSend recvs ids -> buffers_at sv PAlloc recvs ids.
Proof. intros (R & S & HR & HS & Hk & H). exists R, S. split; [done |]. split; [done |]. split; [done |]. by apply view_not_sent. Qed.

Lemma buffers_none sv recvs ids p : buffers_at sv PAlloc recvs ids -> Alloc (Server.bufs sv) (Server.recv_bufs_ sv) = (0, p) -> buffers_at sv PRecv recvs ids.
Proof. intros (R & S & HR & HS & Hk & H) E. exists R, S. split; [done |]. split; [done |]. split; [done |]. by eapply view_no_buffer. Qed.

Lemma buffers_post sv b p recvs ids : buffers_at sv PAlloc recvs ids -> Alloc (Server.bufs sv) (Server.recv_bufs_ sv) = (b, p) -> b <> 0 ->
  Z.of_nat (length recvs) < depth /\ buffers_at (Server.with_recv (Server.bufs sv) p sv) PRecv (recvs ++ [b]) ids.
Proof.
  intros (R & S & HR & HS & Hk & H) Ea Hb. destruct (view_post R S b p H Ea Hb) as [Hl H']. split; [lia |]. by exists R, S.
Qed.

(** *** A request *)

Lemma buffers_work sv i w q sb p recvs ids : buffers_at sv PRecv recvs ids ->
  Dequeue (Server.bufs sv) (default WorkQueue.empty (Server.workers_ sv !! i)) = (w, q) -> w <> 0 ->
  Alloc (Server.bufs sv) (Server.send_bufs_ sv) = (sb, p) -> sb <> 0 ->
  Z.of_nat (length ids) < depth /\ (exists b, Server.bufs sv !! sb = Some b /\ is_recv b = false) /\
  forall x p' sv', Free (Server.bufs sv) (Server.recv_bufs_ sv) w = (x, p') -> Server.bufs sv' = x -> Server.send_bufs_ sv' = p ->
    Server.recv_bufs_ sv' = p' -> Server.workers_ sv' = <[i := q]> (Server.workers_ sv) -> buffers_at sv' PRecv recvs (ids ++ [sb]).
Proof.
  intros (R & S & HR & HS & Hk & H) Ed Hw Ea Hsb.
  assert (is_Some (Server.workers_ sv !! i)) as Hi.
  { destruct (Server.workers_ sv !! i); [done |]. unfold Dequeue in Ed. cbn in Ed. injection Ed as <- _. done. }
  destruct (Free (Server.bufs sv) (Server.recv_bufs_ sv) w) as [x p'] eqn:Ef.
  destruct (view_serve R S i w q sb p x p' H Ed Hw Ea Hsb Ef) as (H1 & H2 & H3). split; [lia |]. split; [by apply Hk |].
  intros x2 p2 sv' [= <- <-] E1 E2 E3 E4. exists R, S. split; [done |]. split; [done |]. rewrite E1, E2, E3. split.
  - injection Ef as <- _. by apply kind_alter.
  - eapply inv_same_functions; [.. | exact H3]; try done. intros j. cbn [queues view]. rewrite E4. destruct (decide (i = j)) as [<- | Hne].
    + rewrite fn_lookup_insert, list_lookup_insert_eq by (by apply lookup_lt_is_Some). done.
    + by rewrite fn_lookup_insert_ne, list_lookup_insert_ne.
Qed.
