(* ===== verification/ServerMain.v ===== *)
(** * [server_main.cc]: starting a server

    The process takes memory for the tablets, sets up a server, joins the
    cluster and serves.  The port and the address of the coordinator are with
    the connection [conn]; binding the port and resolving the address succeed.
    [m], [im], [u] and [ws] are what the memory and the members of the server
    held before, as in [Server].  The signal handler only prints counters. *)

From S2P Require Import Prelude Nvm Wire Verbs Infiniband Index Message Session Sync Server Join.

#[local] Open Scope prog_scope.

Module ServerMain.

Definition Usage : prog unit :=
  sys (printf "Usage:" []) ;;;
  sys (printf "    <program> <port> <coord addr>" []).

(** [AcquireNVM]: DRAM emulates the NVM. *)
Definition AcquireNVM (size : Z) : prog Z := sys (malloc size).

Section Main.
Variables (parse : list Init.Byte.byte -> option json) (dump : json -> list Init.Byte.byte).

(** [main], up to the call of [Run]: the value it returns, or the server that
    is about to serve.  An exception that leaves [Join] destroys the server on
    its way to the handlers. *)
Definition main (argc : Z) (m : mem) (im : IndexManager) (u : TabletInfo) (ws : list ibv_send_wr) (conn : option Session.conn) :
    prog (Z + Server.t) :=
  if argc <? 3 then Usage ;;; Ret (inl (-1)) else
  nvm <- AcquireNVM Server.kNVMDeviceSize ;;
  if nvm =? 0 then sys (printf "acquire nvm failed: size = %PRIu64" [Server.kNVMDeviceSize]) ;;; Ret (inl (-1)) else
  try_
    (s <- Server.construct nvm Server.kNVMDeviceSize m im u ws ;;
     x <- try_ (Join.Server_Join parse dump conn s) (fun errno => Server.destruct_ s ;;; throw errno) ;;
     if negb x.1 then
       sys (printf "join cluster failed" []) ;;; Server.destruct_ x.2 ;;; Ret (inl (-1))
     else
       sys (printf "Server startup" []) ;;;
       sys (printf "Listening at: %u" []) ;;;
       sys (printf "......" []) ;;;
       Ret (inr x.2))
    (fun errno =>
      (if bool_decide (Throw errno = Session.system_error) then sys (printf "error" [errno])
       else sys (printf "error" [errno]) ;;; sys (printf "initialize infiniband devices failed" [])) ;;;
      Ret (inl 0)).
End Main.

End ServerMain.
