(* ===== verification/ServerRules.v ===== *)
(** * Starting a server under the rules of the verbs

    From taking the memory of the NVM to the receive queue that is full: a
    server sets up its own queue pair and those of its tablets, registers the
    tablets, and connects them as the map of the cluster says. *)

From S2P Require Import Prelude Nvm Modification Allocator Wire Tablet Verbs Protocol Loopback Infiniband Endpoint Index IndexSpec Message Session Sync Server ServerSteps ServerView Join ServerMain.
Import Infiniband (QueuePair).

#[local] Open Scope prog_scope.

#[local] Abbreviation depth := Server.kMaxIBQueueDepth.
#[local] Abbreviation qps_of tb := (Sync.qps_ (Server.repl tb)).

(** Lists of idle queue pairs, and what is to be released. *)
Record world (d : device) (l : list (QueuePair * ibv_qp_state)) (ps ms : list Z) : Prop := {
  w_owns : owns d ps ms; w_wired : wired d; w_crew : crew depth d l }.

Lemma world_perm d l l' ps ps' ms ms' : l ≡ₚ l' -> ps ≡ₚ ps' -> ms ≡ₚ ms' -> world d l ps ms -> world d l' ps' ms'.
Proof. intros E1 E2 E3 [H1 H2 H3]. split; [by eapply owns_perm | done | by eapply crew_perm]. Qed.

Lemma owns_keep d d' ps ms : mrs d ⊆ mrs d' -> heap d ⊆ heap d' -> owns d ps ms -> owns d' ps ms.
Proof.
  intros Hm Hh [H1 H2 H3 H4]. split; [done | | done |]; (eapply list.Forall_impl; [eassumption |]; intros x [y Hy]; eexists; by eapply lookup_weaken).
Qed.

Lemma world_grows d d' l ps ps' ms ms' : grows d d' -> owns d' ps' ms' -> world d l ps ms -> world d' l ps' ms'.
Proof.
  intros [G1 G2 G3 G4] Ho [H1 H2 H3]. split; [done | | by apply (crew_queues _ d)]. intros n q. rewrite G1, G2. apply H2.
Qed.

Lemma world_new d d' l ps ms q st : world d l ps ms -> beside q d d' -> qps d !! qp_num (Infiniband.qp q) = None ->
  wired d' -> same_memory d d' -> endpoint depth d' q st [] [] 0 -> world d' ((q, st) :: l) ps ms.
Proof.
  intros [H1 H2 H3] Hb Hf Hw [Em Eh] Hq. split; [| done | by eapply crew_new].
  eapply owns_keep; [| | exact H1]; [by rewrite Em | by rewrite Eh].
Qed.

Lemma world_step d d' l ps ms q st st' : world d ((q, st) :: l) ps ms -> beside q d d' -> same_memory d d' ->
  endpoint depth d' q st' [] [] 0 -> world d' ((q, st') :: l) ps ms.
Proof.
  intros [H1 H2 H3] Hb [Em Eh] Hq. split; [| by eapply wired_beside | by eapply crew_step].
  eapply owns_keep; [| | exact H1]; [by rewrite Em | by rewrite Eh].
Qed.

(** ** A tablet *)

(** Its memory is registered, and it has one queue pair. *)
Definition registered (d : device) (r : Sync.t) : Prop :=
  mrs d !! mr_ptr (Sync.mr_ r) = Some (lkey (Sync.mr_ r), Sync.nvm_tablet_ r, Tablet.kNVMTabletSize).
Definition single (r : Sync.t) : Prop := exists q, Sync.qps_ r = [q] /\ Infiniband.type q = IBV_QPT_RC.

Definition mems_of (r : Sync.t) : list Z := [Infiniband.raw_mem_ (Sync.ib_ r)].
Definition regions_of (r : Sync.t) : list Z := [mr_ptr (Sync.mr_ r); mr_ptr (Infiniband.mr_ (Sync.ib_ r))].
Definition links (st : Sync.t -> ibv_qp_state) (r : Sync.t) : list (QueuePair * ibv_qp_state) := map (fun q => (q, st r)) (Sync.qps_ r).

Definition fresh_link (r : Sync.t) : ibv_qp_state := IBV_QPS_INIT.
Definition role (r : Sync.t) : ibv_qp_state := if t_is_backup (Sync.info_ r) then IBV_QPS_RTR else IBV_QPS_RTS.

Lemma avoids_make_qps n ib m nvm : avoids releases_memory (Sync.make_qps n ib m nvm).
Proof. induction n as [|n IH]; [done |]. cbn [Sync.make_qps]. avoid. Qed.
#[local] Hint Resolve avoids_make_qps : avoids.

(** While the server is being made: [ps] and [ms] are in its objects. *)
Section Start.
Context {B : Type} (Q : B -> device -> Prop) (ps0 ms0 : list Z).
#[local] Abbreviation fine := (keeping True ps0 ms0).

Lemma safe_tablet d nvm b u ws l ps ms (k : Sync.t -> prog B) : world d l ps ms -> ps0 ⊆+ ps -> ms0 ⊆+ ms -> in_heap d nvm Tablet.kNVMTabletSize ->
  (forall r d', single r -> registered d' r -> Sync.nvm_tablet_ r = nvm -> mrs d ⊆ mrs d' -> heap d ⊆ heap d' ->
    world d' (links fresh_link r ++ l) (mems_of r ++ ps) (regions_of r ++ ms) -> safe d' (k r) Q fine) ->
  safe d (pbind (Sync.construct nvm b u ws) k) Q fine.
Proof.
  intros Hw Hps Hms (p & sz & Hp & Hin) Hk. unfold Sync.construct. apply safe_bind, safe_bind.
  apply safe_keeping; [apply avoids_construct | eapply owns_sub; [exact Hps | exact Hms | apply Hw] |].
  apply safe_tail. eapply safe_construct; [apply Hw |]. intros ib d1 G1 O1. cbn [safe].
  apply (safe_scope _ _ _ _ (Infiniband.raw_mem_ ib :: ps0) (mr_ptr (Infiniband.mr_ ib) :: ms0)).
  2: { intros errno d' Ho. eapply safe_destruct; [exact Ho |]. intros d'' _ Ho'. exact Ho'. }
  apply safe_keeping; [avoid | eapply owns_sub; [by apply submseteq_skip | by apply submseteq_skip | exact O1] |].
  apply safe_sys; [cbn [allowed]; apply bool_decide_eq_true; exists p, sz; split; [eapply lookup_weaken; [exact Hp | apply G1] | done] |].
  intros m Hm. vassoc. apply safe_check; [done |]. intros Hs%bool_decide_eq_true. destruct m as [m |]; [| by destruct Hs]. clear Hs.
  cbn [reply_ok after default] in *. apply fresh_spec in Hm as [_ Hm]. set (d2 := mkDev _ _ _ _).
  assert (world d2 l (Infiniband.raw_mem_ ib :: ps) (mr_ptr m :: mr_ptr (Infiniband.mr_ ib) :: ms)) as W2.
  { apply (world_grows d1 _ _ (Infiniband.raw_mem_ ib :: ps) _ (mr_ptr (Infiniband.mr_ ib) :: ms)); [by apply grows_mr | by apply owns_mr |].
    by apply (world_grows d _ _ ps _ ms). }
  change (Z.to_nat kNumReplicas) with 1%nat. cbn [Sync.make_qps]. vassoc. apply safe_QueuePair_construct; [apply W2 |].
  intros q d3 Ety Hw3 M3 _ H3 _ Hf Hb. vassoc. unfold Infiniband.GetLid. vassoc. vskip. destruct (_ =? 0); [| done]. cbn [negb pbind map fst snd safe].
  apply Hk; [by exists q | | done | | |].
  - unfold registered. cbn [Sync.mr_ Sync.nvm_tablet_]. rewrite (proj1 M3). apply lookup_insert_eq.
  - rewrite (proj1 M3). cbn [mrs d2]. transitivity (mrs d1); [apply G1 | by apply insert_subseteq].
  - rewrite (proj2 M3). cbn [heap d2]. apply G1.
  - cbn [links mems_of regions_of Sync.qps_ Sync.ib_ Sync.mr_ map app]. by eapply world_new.
Qed.

(** ** All of them *)

Definition all {A} (f : Sync.t -> list A) (ts : list Server.tablet) : list A := concat (map (fun tb => f (Server.repl tb)) ts).

Lemma all_cons {A} (f : Sync.t -> list A) tb ts (l : list A) : f (Server.repl tb) ++ all f ts ++ l ≡ₚ all f ts ++ f (Server.repl tb) ++ l.
Proof. by rewrite !app_assoc, (Permutation_app_comm (all f ts)). Qed.

(** The parts of the NVM the tablets are in. *)
Definition nvm_part (nvm i : Z) : Z := nvm + Server.offsetof_tablets + i * Tablet.kNVMTabletSize.

Definition built (d : device) (tb : Server.tablet) : Prop := single (Server.repl tb) /\ registered d (Server.repl tb).

Lemma in_heap_mono d d' p n : heap d ⊆ heap d' -> in_heap d p n -> in_heap d' p n.
Proof. intros Hh (b & sz & Hb & H). exists b, sz. split; [by eapply lookup_weaken | done]. Qed.

Lemma built_mono d d' tb : mrs d ⊆ mrs d' -> built d tb -> built d' tb.
Proof. intros Hm [H1 H2]. split; [done |]. by eapply lookup_weaken. Qed.

Lemma safe_make_tablets nvm m u ws js : forall d l ps ms (k : list Server.tablet -> prog B), world d l ps ms -> ps0 ⊆+ ps -> ms0 ⊆+ ms ->
  Forall (fun i => in_heap d (nvm_part nvm i) Tablet.kNVMTabletSize) js ->
  (forall ts d', Forall (built d') ts -> length ts = length js -> mrs d ⊆ mrs d' -> heap d ⊆ heap d' ->
    map (fun tb => Sync.nvm_tablet_ (Server.repl tb)) ts = map (nvm_part nvm) js ->
    world d' (all (links fresh_link) ts ++ l) (all mems_of ts ++ ps) (all regions_of ts ++ ms) -> safe d' (k ts) Q fine) ->
  safe d (pbind (Server.make_tablets js nvm m u ws) k) Q fine.
Proof.
  induction js as [|i js IH]; intros d l ps ms k Hw Hps Hms Hin Hk; cbn [Server.make_tablets].
  - by apply Hk; [constructor | ..].
  - apply list.Forall_cons in Hin as [Hi Hin]. vassoc. unfold Server.make_tablet. cbv zeta. fold (nvm_part nvm i).
    destruct (Allocator.Construct _ _ _) as [[] h | er h]; [| destruct er; try done; eapply owns_sub; [exact Hps | exact Hms | apply Hw]]. vassoc.
    eapply safe_tablet; [exact Hw | done | done | exact Hi |]. intros r d1 Hs Hr En Hm Hh W1. vassoc.
    eapply IH; [exact W1 | by apply submseteq_inserts_l | by apply submseteq_inserts_l | eapply list.Forall_impl; [exact Hin | intros j Hj; by eapply in_heap_mono] |].
    intros ts d2 Hts Hlen Hm2 Hh2 Ens W2. vassoc. apply Hk.
    + constructor; [| done]. split; [done |]. by eapply lookup_weaken.
    + cbn. by rewrite Hlen.
    + by transitivity (mrs d1).
    + by transitivity (heap d1).
    + cbn [map Server.repl]. by rewrite En, Ens.
    + eapply world_perm; [| | | exact W2]; cbn [all map concat Server.repl]; rewrite <- !app_assoc; symmetry; apply (all_cons _ (Server.mkTab h r)).
Qed.
End Start.

(** ** Connecting *)

(** An exception leaves the queue pairs [qs] in some state each. *)
Definition left (qs : list QueuePair) (ps ms : list Z) : stop -> device -> Prop := fun st d =>
  match st with Fault (Throw _) => exists l, map fst l ≡ₚ qs /\ world d l ps ms | _ => True end.

(** A tablet that knows its place in the map. *)
Definition placed (r : Sync.t) (info : TabletInfo) : Sync.t :=
  Sync.mkTablet info (Sync.nvm_tablet_ r) (Sync.ib_ r) (Sync.mr_ r) (Sync.qps_ r) (Sync.wrs r).

Section Connect.
Context {B : Type} (Q : B -> device -> Prop) (qs : list QueuePair) (ps ms : list Z).
#[local] Abbreviation gone := (left qs ps ms).

Lemma safe_elem {A} (E : stop -> device -> Prop) d (l : list A) i (k : A -> prog B) : E (Fault Segv) d ->
  (forall x, l !! i = Some x -> safe d (k x) Q E) -> safe d (pbind (Sync.elem l i) k) Q E.
Proof. intros He Hk. unfold Sync.elem. destruct (l !! i) eqn:El; [by apply Hk | done]. Qed.

Lemma safe_GetTablet (E : stop -> device -> Prop) d im id (k : TabletInfo -> prog B) : E (Fault Segv) d ->
  (forall info, Sync.GetTablet im id = Ret info -> safe d (k info) Q E) -> safe d (pbind (Sync.GetTablet im id) k) Q E.
Proof.
  intros He Hk. unfold Sync.GetTablet in *. destruct (id <? 0); [done |]. unfold Sync.elem in *.
  destruct (tablets_ im !! Z.to_nat id); [by apply Hk | done].
Qed.

Lemma safe_SettingupQPConnect d r id im l (k : Sync.t -> prog B) : single r -> world d (links fresh_link r ++ l) ps ms ->
  Sync.qps_ r ++ map fst l ≡ₚ qs ->
  (forall info d', Sync.GetTablet im id = Ret info -> same_memory d d' -> world d' (links role (placed r info) ++ l) ps ms ->
    safe d' (k (placed r info)) Q gone) ->
  safe d (pbind (Sync.SettingupQPConnect r id im) k) Q gone.
Proof.
  intros (q & Eq & Hty) Hw Hqs Hk. unfold Sync.SettingupQPConnect, links, placed in *. cbn [Sync.qps_] in *. rewrite Eq in *. cbn [map app] in *.
  assert (endpoint depth d q IBV_QPS_INIT [] [] 0) as Hq by (by destruct Hw as [_ _ [_ [? _]%list.Forall_cons]]).
  assert (forall err st d', same_memory d d' -> beside q d d' -> endpoint depth d' q st [] [] 0 -> gone (Fault (Throw err)) d') as Hleft.
  { intros err st d' Hm Hb He. exists ((q, st) :: l). split; [done |]. by eapply world_step. }
  vassoc. apply safe_GetTablet; [done |]. intros info Hi. specialize (Hk info). change (Z.to_nat kNumReplicas) with 1%nat.
  vassoc. unfold role in Hk. cbn [Sync.info_] in Hk. destruct (t_is_backup info).
  - vassoc. apply safe_elem; [done |]. intros p _. vassoc. apply safe_GetTablet; [done |]. intros master _. vassoc. apply safe_check; [done |]. intros _.
    cbn [Sync.connect_backup]. vassoc. apply safe_elem; [done |]. intros b _. destruct (b =? id); [| done].
    vassoc. apply safe_elem; [done |]. intros q' E'. rewrite Eq in E'. injection E' as <-. vassoc. apply safe_elem; [done |]. intros peer _.
    eapply safe_SetStateRTR; [exact Hq | done | exact Hleft |]. intros d' Hm Hb He. apply Hk; [done | done |]. by eapply world_step.
  - cbn [Sync.connect_master]. vassoc. apply safe_elem; [done |]. intros b _. vassoc. apply safe_GetTablet; [done |]. intros backup _.
    vassoc. apply safe_check; [done |]. intros _. vassoc. apply safe_elem; [done |]. intros q' E'. rewrite Eq in E'. injection E' as <-. vassoc. apply safe_elem; [done |]. intros peer _.
    vassoc. eapply safe_SetStateRTS; [done | exact Hq | done | exact Hleft |]. intros d' Hm Hb He. vassoc. apply Hk; [done | done |]. by eapply world_step.
Qed.

Lemma links_fst st ts : map fst (all (links st) ts) = all Sync.qps_ ts.
Proof.
  unfold all. induction ts as [|tb ts IH]; [done |]. cbn [map concat]. rewrite map_app, IH. f_equal. unfold links. rewrite map_map. apply map_id.
Qed.

(** Every tablet with its place. *)
Definition place (ts : list Server.tablet) (infos : list TabletInfo) : list Server.tablet :=
  zip_with (fun tb info => Server.mkTab (Server.heap tb) (placed (Server.repl tb) info)) ts infos.

Lemma safe_connect_tablets im ids : forall ts d l (k : list Server.tablet -> prog B), Forall (fun tb => single (Server.repl tb)) ts ->
  length ids = length ts -> world d (all (links fresh_link) ts ++ l) ps ms -> all Sync.qps_ ts ++ map fst l ≡ₚ qs ->
  (forall infos d', Forall2 (fun id info => Sync.GetTablet im id = Ret info) ids infos -> same_memory d d' ->
    world d' (all (links role) (place ts infos) ++ l) ps ms -> safe d' (k (place ts infos)) Q gone) ->
  safe d (pbind (Join.connect_tablets im ids ts) k) Q gone.
Proof.
  induction ids as [|id ids IH]; intros [|tb ts] d l k Hs Hlen Hw Hqs Hk; cbn [Join.connect_tablets]; [by apply (Hk []) | done | done |].
  apply list.Forall_cons in Hs as [Hs1 Hs]. vassoc. apply (safe_SettingupQPConnect d _ id im (all (links fresh_link) ts ++ l)); [exact Hs1 | | |].
  - eapply world_perm; [| done | done | exact Hw]. cbn [all map concat]. by rewrite <- app_assoc.
  - rewrite map_app, links_fst. cbn [all map concat] in Hqs. by rewrite <- app_assoc in Hqs.
  - intros info d1 Hi [M1 M2] W1. vassoc. apply (IH ts d1 (links role (placed (Server.repl tb) info) ++ l)); [done | by injection Hlen | | |].
    + eapply world_perm; [| done | done | exact W1]. rewrite !app_assoc. apply Permutation_app_tail, Permutation_app_comm.
    + rewrite <- Hqs. cbn [all map concat]. rewrite map_app. unfold links at 1. rewrite map_map, map_id. cbn [placed Sync.qps_].
      rewrite !app_assoc. apply Permutation_app_tail, Permutation_app_comm.
    + intros infos d2 Hf [M3 M4] W2. vassoc. apply (Hk (info :: infos)); [by constructor | split; congruence |].
      eapply world_perm; [| done | done | exact W2]. cbn [all map concat place zip_with Server.repl]. rewrite <- app_assoc, !app_assoc.
      apply Permutation_app_tail, Permutation_app_comm.
Qed.
End Connect.

(** ** The server *)

(** A server that serves no one yet: its own queue pair is ready, the tablets'
    are in the states [st]. *)
Record ready (st : Sync.t -> ibv_qp_state) (d : device) (sv : Server.t) : Prop := {
  rd_world : exists ps ms, world d (all (links st) (Server.tablets_ sv) ++ [(Server.qp_ sv, IBV_QPS_RTS)])
    (all mems_of (Server.tablets_ sv) ++ ps) (all regions_of (Server.tablets_ sv) ++ ms);
  rd_store : store_ok kSendBufSize kRecvBufSize d (Server.bufs sv);
  rd_send : names false (Server.bufs sv) (Infiniband.root_ (Server.send_bufs_ sv));
  rd_recv : names true (Server.bufs sv) (Infiniband.root_ (Server.recv_bufs_ sv));
  rd_built : Forall (built d) (Server.tablets_ sv);
  rd_parts : map (fun tb => Sync.nvm_tablet_ (Server.repl tb)) (Server.tablets_ sv) =
    map (nvm_part (Server.nvm_ sv)) (IndexManager.upto kNumTabletAndBackupsPerServer);
  rd_buffers : buffers_at sv (ServerSteps.PFill (Z.to_nat depth)) [] [];
  rd_ud : Infiniband.type (Server.qp_ sv) = IBV_QPT_UD;
  rd_one : length (Server.workers_ sv) = 1%nat }.

Section Whole.
Context {B : Type} (Q : B -> device -> Prop).
#[local] Abbreviation fine := (orderly True).

Lemma safe_server_construct d nvm m im u ws (k : Server.t -> prog B) : world d [] [nvm] [] ->
  heap d !! nvm = Some Server.kNVMDeviceSize -> (forall sv d', ready fresh_link d' sv -> safe d' (k sv) Q fine) ->
  safe d (pbind (Server.construct nvm Server.kNVMDeviceSize m im u ws) k) Q fine.
Proof.
  intros Hw Hn Hk. unfold Server.construct. apply safe_bind, (safe_stop_mono (keeping True [nvm] [])); [intros st d'; apply keeping_orderly |].
  apply safe_step_keeping; [apply avoids_construct | apply Hw |]. eapply safe_construct; [apply Hw |]. intros ib d1 G1 O1. cbn [safe].
  apply safe_ib_scope, safe_step_keeping; [apply avoids_RegisteredBuffers | exact O1 |].
  apply (safe_RegisteredBuffers _ _ kSendBufSize kRecvBufSize d1 _ _ _ depth false ∅ _ O1); [by split | done | done | done | done |].
  intros sp st1 ms d2 G2 O2 S2 I2 N2 _ (bs & Hbs & <-) L2. cbn [safe fst snd].
  eapply safe_pool_scope; [exact Hbs |]. apply safe_step_keeping; [apply avoids_RegisteredBuffers | exact O2 |].
  apply (safe_RegisteredBuffers _ _ kSendBufSize kRecvBufSize d2 _ _ _ depth true st1 _ O2); [done | done | done | done | done |].
  intros rp st2 mr d3 G3 O3 S3 I3 N3 Hold (br & Hbr & <-) L3. cbn [safe fst snd]. eapply safe_pool_scope; [exact Hbr |].
  assert (grows d d3) as G by (eapply grows_trans; [exact G1 | by eapply grows_trans]).
  pose proof (world_grows _ _ _ _ _ _ _ G O3 Hw) as W3. apply safe_step_keeping; [apply avoids_QueuePair | exact O3 |].
  apply safe_QueuePair_construct; [apply W3 |]. intros q d4 Ety Hw4 M4 _ H4 _ Hf B4. cbn [safe].
  assert (world d4 [(q, IBV_QPS_INIT)] _ _) as W4 by (by eapply world_new). apply safe_step_keeping; [apply avoids_Activate | apply W4 |].
  eapply safe_Activate; [exact H4 |]. intros d5 M5 B5 H5. cbn [safe].
  pose proof (world_step _ _ _ _ _ _ _ _ W4 B5 M5 H5) as W5. apply safe_step_keeping; [apply avoids_GetLid | apply W5 |].
  unfold Infiniband.GetLid. vassoc. vskip. destruct (_ =? 0); [| done]. cbn [negb pbind safe].
  assert (heap d5 !! nvm = Some Server.kNVMDeviceSize) as Hn5.
  { rewrite (proj2 M5), (proj2 M4). eapply lookup_weaken; [exact Hn | apply G]. }
  eapply safe_make_tablets; [exact W5 | done | done | |].
  { apply list.Forall_forall. intros i Hi. exists nvm, Server.kNVMDeviceSize. split; [exact Hn5 |]. unfold nvm_part.
    assert (i = 0 \/ i = 1) as [-> | ->] by (unfold IndexManager.upto in Hi; cbn in Hi; set_solver);
      change Server.kNVMDeviceSize with (40 + Tablet.kNVMTabletSize * 2); unfold Server.offsetof_tablets; (assert (0 < Tablet.kNVMTabletSize) by done); lia. }
  intros ts d6 Hts _ Hm6 _ Hparts W6. cbn [safe]. apply Hk. split; cbn [Server.tablets_ Server.qp_ Server.bufs Server.send_bufs_ Server.recv_bufs_ Server.nvm_].
  - by eexists _, _.
  - apply (store_mono _ _ d5); [done |]. apply (store_mrs _ _ d3); [rewrite (proj1 M5); apply M4 | done].
  - destruct N2 as [? | (x & Hx & Kx)]; [by left | right]. exists x. split; [by apply Hold | done].
  - done.
  - done.
  - exact Hparts.
  - eapply buffers_start; [by eapply laid_mono; [exact Hold |] | exact L3 | reflexivity].
  - done.
  - done.
Qed.

Lemma pick_link (l : list (QueuePair * ibv_qp_state)) q qs : map fst l ≡ₚ q :: qs ->
  exists st l', l ≡ₚ (q, st) :: l' /\ map fst l' ≡ₚ qs.
Proof.
  intros E. assert (q ∈ map fst l) as ([q' st] & -> & Hx)%list_elem_of_fmap by (rewrite E; constructor).
  apply elem_of_Permutation in Hx as [l' Hl]. exists st, l'. split; [done |]. rewrite Hl in E. by apply Permutation_cons_inv in E.
Qed.

Lemma safe_Sync_destruct d r l qs ps ms (k : unit -> prog B) : single r -> crew depth d l -> map fst l ≡ₚ Sync.qps_ r ++ qs ->
  owns d (mems_of r ++ ps) (regions_of r ++ ms) ->
  (forall d' l', crew depth d' l' -> map fst l' ≡ₚ qs -> owns d' ps ms -> safe d' (k tt) Q fine) ->
  safe d (pbind (Sync.destruct_ r) k) Q fine.
Proof.
  intros (q & Eq & Hty) Hc Hl Ho Hk. unfold Sync.destruct_. rewrite Eq in *. cbn [app mems_of regions_of] in *.
  destruct (pick_link _ _ _ Hl) as (st & l' & El & Hl'). apply (crew_perm _ _ _ _ El) in Hc.
  cbn [length rev app for_]. vassoc. destruct Hc as [Hn Hf]. pose proof Hf as [Hq _]%list.Forall_cons.
  eapply safe_QueuePair_destruct; [exact Hq | exact Ho |]. intros d1 S1 O1. pose proof (crew_spares _ _ _ _ _ _ (conj Hn Hf) S1) as C1.
  vassoc. eapply safe_dereg; [exact O1 |]. intros r2 d2 S2 O2. vassoc. apply safe_check; [done |]. intros _.
  eapply safe_destruct; [exact O2 |]. intros d3 S3 O3. eapply Hk; [| exact Hl' | exact O3].
  eapply crew_queues; [eapply same_queues_trans; [exact S2 | exact S3] | exact C1].
Qed.

(** Destroying a server ends with the thread of its worker. *)
Lemma safe_server_destruct d sv l qs ps ms (k : unit -> prog B) : Forall (fun tb => single (Server.repl tb)) (Server.tablets_ sv) ->
  crew depth d l -> map fst l ≡ₚ all Sync.qps_ (Server.tablets_ sv) ++ qs ->
  length (Server.tablets_ sv) = 2%nat -> owns d (all mems_of (Server.tablets_ sv) ++ ps) (all regions_of (Server.tablets_ sv) ++ ms) ->
  safe d (pbind (Server.destruct_ sv) k) Q fine.
Proof.
  intros Hs Hc Hl Hlen Ho. unfold Server.destruct_. destruct (Server.tablets_ sv) as [|t0 [|t1 [|]]]; [done | done | | done].
  apply list.Forall_cons in Hs as [Hs0 [Hs1 _]%list.Forall_cons]. change (IndexManager.upto kNumTabletAndBackupsPerServer) with [0; 1].
  cbn [zip zip_with rev app Server.destroy_tablets all map concat] in *. rewrite !app_nil_r in *. vassoc.
  apply (safe_Sync_destruct d (Server.repl t1) l (Sync.qps_ (Server.repl t0) ++ qs) (mems_of (Server.repl t0) ++ ps) (regions_of (Server.repl t0) ++ ms));
    [exact Hs1 | exact Hc | | |].
  - rewrite Hl. rewrite !app_assoc. apply Permutation_app_tail, Permutation_app_comm.
  - eapply owns_perm; [| | exact Ho]; rewrite !app_assoc; apply Permutation_app_tail, Permutation_app_comm.
  - intros d1 l1 C1 L1 O1. change (1 <? kNumTabletsPerServer) with false. cbn [Server.destroy_tablets]. vassoc.
    eapply safe_Sync_destruct; [exact Hs0 | exact C1 | exact L1 | exact O1 |]. intros. done.
Qed.
End Whole.

(** ** Joining *)

(** What the tablets of a server that joined know of the map. *)
Definition told (sv : Server.t) : Prop := exists s, IndexManager.GetServer_by_id (Server.index_manager_ sv) (Server.id_ sv) tt = Ok s tt /\
  Forall2 (fun id tb => Sync.GetTablet (Server.index_manager_ sv) id = Ret (Sync.info_ (Server.repl tb)))
    (take (Z.to_nat kNumTabletAndBackupsPerServer) (s_tablets s)) (Server.tablets_ sv).

Lemma place_repl {A} (f : Sync.t -> A) ts infos : (forall r info, f (placed r info) = f r) -> length infos = length ts ->
  map (fun tb => f (Server.repl tb)) (place ts infos) = map (fun tb => f (Server.repl tb)) ts.
Proof.
  intros Hf. revert infos. induction ts as [|tb ts IH]; intros [|info infos] H; try done. cbn [place zip_with map Server.repl]. rewrite Hf. f_equal.
  apply IH. by injection H.
Qed.

Lemma place_all {A} (f : Sync.t -> list A) ts infos : (forall r info, f (placed r info) = f r) -> length infos = length ts ->
  all f (place ts infos) = all f ts.
Proof. intros Hf Hl. unfold all. by rewrite (place_repl f). Qed.

Lemma place_told im ids ts infos : Forall2 (fun id info => Sync.GetTablet im id = Ret info) ids infos -> length ids = length ts ->
  Forall2 (fun id tb => Sync.GetTablet im id = Ret (Sync.info_ (Server.repl tb))) ids (place ts infos).
Proof.
  intros Hf. revert ts. induction Hf as [|id info ids infos Hi Hf IH]; intros [|tb ts] Hl; try done; constructor; [done |]. apply IH. by injection Hl.
Qed.

Lemma ready_two st d sv : ready st d sv -> length (Server.tablets_ sv) = 2%nat.
Proof. intros H. pose proof (f_equal length (rd_parts _ _ _ H)) as E. by rewrite !length_map in E. Qed.

Lemma ready_single st d sv : ready st d sv -> Forall (fun tb => single (Server.repl tb)) (Server.tablets_ sv).
Proof. intros H. eapply list.Forall_impl; [apply (rd_built _ _ _ H) |]. by intros tb [? _]. Qed.

Lemma ready_join d d' sv id im infos ps ms : ready fresh_link d sv -> length infos = length (Server.tablets_ sv) -> same_memory d d' ->
  world d' (all (links role) (place (Server.tablets_ sv) infos) ++ [(Server.qp_ sv, IBV_QPS_RTS)])
    (all mems_of (Server.tablets_ sv) ++ ps) (all regions_of (Server.tablets_ sv) ++ ms) ->
  ready role d' (Server.with_join id im (place (Server.tablets_ sv) infos) sv).
Proof.
  intros [H1 H2 H3 H4 H5 H6 H7 H8 H9] Hl [Em _] Hw. split; cbn [Server.with_join Server.tablets_ Server.qp_ Server.bufs Server.send_bufs_ Server.recv_bufs_ Server.nvm_]; try done.
  - exists ps, ms. by rewrite (place_all mems_of), (place_all regions_of) by done.
  - by apply (store_mrs _ _ d).
  - unfold built, registered. clear -H5 Em. revert infos. induction H5 as [|tb ts [Hs Hr] Hf IH]; intros [|info infos]; try constructor; [| apply IH].
    split; [done |]. cbn [Server.repl placed Sync.mr_ Sync.nvm_tablet_]. by rewrite Em.
  - by rewrite (place_repl Sync.nvm_tablet_).
Qed.

Section Joining.
Context {B : Type} (Q : B -> device -> Prop) (parse : list Init.Byte.byte -> option json) (dump : json -> list Init.Byte.byte).

Lemma safe_Server_Join d sv conn ps ms (k : bool * Server.t -> prog B) : ready fresh_link d sv ->
  world d (all (links fresh_link) (Server.tablets_ sv) ++ [(Server.qp_ sv, IBV_QPS_RTS)])
    (all mems_of (Server.tablets_ sv) ++ ps) (all regions_of (Server.tablets_ sv) ++ ms) ->
  let E := left (all Sync.qps_ (Server.tablets_ sv) ++ [Server.qp_ sv]) (all mems_of (Server.tablets_ sv) ++ ps) (all regions_of (Server.tablets_ sv) ++ ms) in
  safe d (k (false, sv)) Q E -> (forall sv' d', ready role d' sv' -> told sv' -> safe d' (k (true, sv')) Q E) ->
  safe d (pbind (Join.Server_Join parse dump conn sv) k) Q E.
Proof.
  intros Hr Hw E Hf Hk. assert (forall st, E st d) as Here.
  { intros [? | [] |]; try done. eexists. split; [| exact Hw]. by rewrite map_app, links_fst. }
  unfold Join.Server_Join. destruct conn as [conn |]; [| exact Hf].
  destruct (Session.SendMessage _ conn) as [u conn1 | [] ?]; [| exact (Here _) | exact (Here _) | exact (Here _) | exact Hf].
  destruct (Session.RecvMessage conn1) as [msg conn2 | [] ?]; [| exact (Here _) | exact (Here _) | exact (Here _) | exact Hf].
  unfold Join.expect_answer. vassoc. apply safe_check; [done |]. intros _. apply safe_check; [done |]. intros _.
  vassoc. destruct (parse _) as [j |]; [| done]. cbn [Join.need]. vassoc. destruct (at_key j "id" _) as [id |]; [| done]. cbn [Join.need].
  vassoc. destruct (at_key j "index_manager" _) as [im |]; [| done]. cbn [Join.need].
  vassoc. unfold Server.lift. destruct (IndexManager.GetServer_by_id im id tt) as [x [] | er ?] eqn:Ex; [| exact (Here _)]. cbn [pbind fst].
  vassoc. apply safe_check; [done |]. intros Hlen%Z.eqb_eq.
  pose proof (ready_two _ _ _ Hr) as H2. change kNumTabletAndBackupsPerServer with 2 in *. vassoc.
  apply (safe_connect_tablets Q _ _ _ im _ (Server.tablets_ sv) d [(Server.qp_ sv, IBV_QPS_RTS)]); [by eapply ready_single | lia | exact Hw | done |].
  intros infos d' Hi Hm W. vassoc. assert (length infos = length (Server.tablets_ sv)) as Hl by (apply Forall2_length in Hi; lia).
  apply Hk; [by eapply ready_join |]. exists x. split; [done |]. cbn [Server.with_join Server.index_manager_ Server.tablets_].
  change kNumTabletAndBackupsPerServer with 2. apply place_told; [done | lia].
Qed.
End Joining.

(** ** The receive queue *)

(** A server that is about to serve. *)
Record serving (d : device) (sv : Server.t) : Prop := {
  sg_queue : exists recvs n, endpoint depth d (Server.qp_ sv) IBV_QPS_RTS [] recvs n /\ Z.of_nat (length recvs) = depth /\
    buffers_at sv ServerSteps.PRecv recvs [];
  sg_tablets : Forall (fun tb => exists q, Sync.qps_ (Server.repl tb) = [q] /\ Infiniband.type q = IBV_QPT_RC /\
    endpoint depth d q (role (Server.repl tb)) [] [] 0 /\ registered d (Server.repl tb) /\
    qp_num (Infiniband.qp q) <> qp_num (Infiniband.qp (Server.qp_ sv))) (Server.tablets_ sv);
  sg_ud : Infiniband.type (Server.qp_ sv) = IBV_QPT_UD;
  sg_store : store_ok kSendBufSize kRecvBufSize d (Server.bufs sv);
  sg_one : length (Server.workers_ sv) = 1%nat;
  sg_parts : map (fun tb => Sync.nvm_tablet_ (Server.repl tb)) (Server.tablets_ sv) =
    map (nvm_part (Server.nvm_ sv)) (IndexManager.upto kNumTabletAndBackupsPerServer);
  sg_told : told sv }.

Lemma crew_links dep d st ts l n : Forall (built d) ts -> crew dep d (all (links st) ts ++ l) ->
  Forall (fun x => qp_num (Infiniband.qp x.1) <> n) (all (links st) ts) ->
  Forall (fun tb => exists q, Sync.qps_ (Server.repl tb) = [q] /\ Infiniband.type q = IBV_QPT_RC /\
    endpoint dep d q (st (Server.repl tb)) [] [] 0 /\ registered d (Server.repl tb) /\ qp_num (Infiniband.qp q) <> n) ts.
Proof.
  intros Hb [_ [Hc _]%list.Forall_app] Ha. induction Hb as [|tb ts [(q & Eq & Hty) Hr] Hb IH]; constructor;
    cbn [all map concat] in Hc, Ha; apply list.Forall_app in Hc as [Hc Hc'], Ha as [Ha Ha']; [| by apply IH].
  exists q. unfold links in Hc, Ha. rewrite Eq in *. apply list.Forall_cons in Hc as [? _], Ha as [? _]. by split_and!.
Qed.

(** While the queue fills up: [sv] but for the pool of receive buffers. *)
Record refilled (d0 : device) (sv0 : Server.t) (m : nat) (sv : Server.t) (d : device) : Prop := {
  fl_memory : same_memory d0 d;
  fl_pool : exists p, sv = Server.with_recv (Server.bufs sv0) p sv0 /\ names true (Server.bufs sv0) (Infiniband.root_ p);
  fl_queue : exists recvs n, endpoint depth d (Server.qp_ sv0) IBV_QPS_RTS [] recvs n /\ Z.of_nat (length recvs) + Z.of_nat m = depth /\
    buffers_at sv (ServerSteps.PFill m) recvs [];
  fl_apart : Forall (fun x => qp_num (Infiniband.qp x.1) <> qp_num (Infiniband.qp (Server.qp_ sv0))) (all (links role) (Server.tablets_ sv0));
  fl_crew : crew depth d (all (links role) (Server.tablets_ sv0)) }.

Lemma filling_start d sv : ready role d sv -> refilled d sv (Z.to_nat depth) sv d.
Proof.
  intros [(ps & ms & [_ _ [Hn Hc]]) _ _ H4 _ _ H7 _ _]. rewrite map_app in Hn. apply list.NoDup_app in Hn as (Hn & Hne & _).
  apply list.Forall_app in Hc as [Hc [Hq _]%list.Forall_cons]. split; [done | | by exists [], 0; split_and! | | by split].
  - exists (Server.recv_bufs_ sv). split; [by destruct sv | done].
  - apply list.Forall_forall. intros x Hx E. apply (Hne (qp_num (Infiniband.qp x.1))); [apply list_elem_of_fmap; by exists x |].
    rewrite E. constructor.
Qed.

Lemma safe_post_receive d0 sv0 m sv d : ready role d0 sv0 -> refilled d0 sv0 (S m) sv d ->
  safe d (r <- Server.post_receive sv ;; check r.1 ;;; Ret r.2) (refilled d0 sv0 m) (orderly True).
Proof.
  intros Hr [[Em Eh] (p & -> & Hp) (recvs & n & Hq & Hlen & Hbuf) Ha Hc]. unfold Server.post_receive.
  cbn [Server.bufs Server.recv_bufs_ Server.qp_ Server.with_recv]. destruct (Infiniband.Alloc (Server.bufs sv0) p) as [b p'] eqn:Ea.
  pose proof (names_next _ _ _ _ _ _ (rd_store _ _ _ Hr) Hp) as Hp'. rewrite Ea in Hp'. cbn [snd] in Hp'.
  destruct (Z.eqb_spec b 0) as [| Hb0]; [done |]. destruct (buffers_fill _ _ _ _ _ Hbuf Ea Hb0) as [_ Hbuf']. vassoc. unfold Server.deref. cbn [Server.bufs Server.with_recv].
  assert (b = Infiniband.root_ p) as Eb by (by injection Ea). destruct Hp as [? | (x & Hx & _)]; [congruence |]. rewrite Eb, Hx.
  destruct (so_bufs _ _ _ _ (rd_store _ _ _ Hr) _ _ Hx) as (Hsge & _ & _).
  vassoc. eapply safe_PostReceive; [exact Hq | done | lia | by apply (sge_ok_mrs d0) | done |]. intros d' Em' Eh' Hb Hq'. vassoc.
  cbn [check pbind fst snd safe]. split; [split; congruence | by exists p' | | done | by eapply crew_keep].
  eexists _, n. split; [exact Hq' |]. split; [rewrite length_app; cbn [length]; lia | by rewrite Eb in Hbuf'].
Qed.

Lemma safe_fill_receive_queue d sv : ready role d sv -> told sv ->
  safe d (Server.fill_receive_queue sv) (fun sv' d' => serving d' sv') (orderly True).
Proof.
  intros Hr Ht. eapply safe_mono; [apply (safe_for _ _ _ _ _ (refilled d sv)) |].
  - by apply filling_start.
  - intros m s d'. by apply safe_post_receive.
  - cbv beta. intros s d' [[Em _] (p & -> & Hp) (recvs & n & Hq & Hlen & Hbuf) Ha Hc].
    split; cbn [Server.with_recv Server.qp_ Server.tablets_ Server.nvm_ Server.bufs Server.workers_].
    + exists recvs, n. split; [done |]. split; [lia |]. by apply buffers_filled.
    + eapply (crew_links _ _ _ _ []); [| by rewrite app_nil_r | done]. eapply list.Forall_impl; [apply (rd_built _ _ _ Hr) |].
      intros tb. apply built_mono. by rewrite Em.
    + apply (rd_ud _ _ _ Hr).
    + by apply (store_mrs _ _ d), (rd_store _ _ _ Hr).
    + apply (rd_one _ _ _ Hr).
    + apply (rd_parts _ _ _ Hr).
    + exact Ht.
Qed.

(** ** The process *)

Section Process.
Variables (parse : list Init.Byte.byte -> option json) (dump : json -> list Init.Byte.byte).

(** [main] and the first thing its poller does: [inl] when the process ends. *)
Definition boot (argc : Z) (m : mem) (im : IndexManager) (u : TabletInfo) (ws : list ibv_send_wr) (conn : option Session.conn) :
    prog (Z + Server.t) :=
  x <- ServerMain.main parse dump argc m im u ws conn ;;
  match x with
  | inl code => Ret (inl code)
  | inr sv => sv <- Server.fill_receive_queue sv ;; Ret (inr sv)
  end.

#[local] Abbreviation outcome st := (fun (x : Z + Server.t) d => match x with inl _ => True | inr sv => st d sv end).

Lemma safe_server_main argc m im u ws conn :
  safe empty_device (ServerMain.main parse dump argc m im u ws conn) (outcome (fun d sv => ready role d sv /\ told sv)) (orderly True).
Proof.
  unfold ServerMain.main, ServerMain.Usage, ServerMain.AcquireNVM. destruct (argc <? 3); [vassoc; vskip; vassoc; by vskip |].
  apply safe_sys; [done |]. intros nvm Hn. cbn [reply_ok after] in *. destruct (Z.eqb_spec nvm 0) as [_ | Hne]; [by vskip |]. cbn [orb] in Hn.
  apply fresh_block_spec in Hn as (Hp & Hf & _). set (d := mkDev _ _ _ _). apply safe_try.
  2: { intros errno d'. vassoc. case_bool_decide; [by vskip | vassoc; vskip; by vskip]. }
  apply safe_server_construct; [| apply lookup_insert_eq |].
  { split; [apply (owns_heap empty_device [] []); [split; constructor | done] | apply wired_empty | split; constructor]. }
  clear d Hp Hf Hne. intros sv d Hr. destruct (rd_world _ _ _ Hr) as (ps & ms & Hw). apply safe_bind, safe_try_at.
  apply (safe_stop_mono (left (all Sync.qps_ (Server.tablets_ sv) ++ [Server.qp_ sv]) (all mems_of (Server.tablets_ sv) ++ ps) (all regions_of (Server.tablets_ sv) ++ ms))).
  { intros [? | [] |] d' Hl; try done. destruct Hl as (l & El & [Ho _ Hc]).
    eapply safe_server_destruct; [by eapply ready_single | exact Hc | exact El | by eapply ready_two | exact Ho]. }
  apply safe_tail, safe_Server_Join; [done | done | |].
  - cbn [safe fst snd negb]. vskip. destruct Hw as [Ho _ Hc].
    eapply safe_server_destruct; [by eapply ready_single | exact Hc | by rewrite map_app, links_fst | by eapply ready_two | exact Ho].
  - intros sv' d' Hr' Ht. cbn [safe fst snd negb]. vskip. vskip. by vskip.
Qed.

Lemma safe_boot argc m im u ws conn : safe empty_device (boot argc m im u ws conn) (outcome serving) (orderly True).
Proof.
  unfold boot. apply safe_bind. eapply safe_mono; [apply safe_server_main |]. intros [code | sv] d; [done |]. intros [Hr Ht].
  apply safe_bind. eapply safe_mono; [by apply safe_fill_receive_queue |]. done.
Qed.

(** C7. A server comes up.  Whatever the device, the network and the
    coordinator do, the process never breaks the rules of the verbs from its
    start to the moment its receive queue is full, also when it gives up on
    the way and the destructors of what it had built run.  When it comes to serve, its datagram queue pair can send and has
    all its receives posted; every tablet is registered with its part of the
    NVM, knows what the map says of the tablet with its number, and has a
    connected queue pair: a master's can send, a backup's can receive. *)
Theorem server_comes_up argc m im u ws conn e :
  let r := run e [] (boot argc m im u ws conn) in
  misused (judge r.1) = false /\
  forall sv d, r.2 = Returned (inr sv) -> judge r.1 = Running d -> serving d sv.
Proof.
  intros r. pose proof (safe_boot argc m im u ws conn) as Hs. split; [by eapply safe_not_misused |].
  intros sv d Er Ej. pose proof (safe_run e [] empty_device _ _ _ eq_refl Hs) as H. fold r in H. by rewrite Ej, Er in H.
Qed.
End Process.

(** With a device where every call succeeds and the map of a cluster of two
    servers, the first server comes up. *)
Definition welcome_example : Message.t :=
  Message.New (Message.mkHeader (Message.SenderType_code Message.COORDINATOR) (Message.Type_code Message.RES_JOIN) 0) [].

Example server_boots :
  let r := run Loopback.loopback []
    (boot (fun _ => Some (Obj [("id", Num 0); ("index_manager", to_json formed_example)]%string)) (fun _ => []) 3 ∅
       Server.empty_index blank_tablet [] (Some (Session.mkConn (encode welcome_example) [] true))) in
  match r.2, judge r.1 with
  | Returned (inr sv), Running d =>
      map (fun tb => role (Server.repl tb)) (Server.tablets_ sv) = [IBV_QPS_RTS; IBV_QPS_RTR] /\
      (q_state <$> qps d !! qp_num (Infiniband.qp (Server.qp_ sv))) = Some IBV_QPS_RTS
  | _, _ => False
  end.
Proof. vm_compute. split; reflexivity. Qed.
