(* ===== verification/Client.v ===== *)
(** * [client.h], [client.cc]: the client

    A client asks the coordinator for the map, and then each operation is one
    message to the server of the key and one back.  [arrived] is the memory of
    the buffer that the device filled in; the bytes before the padding are not
    looked at.  The assertions are on, as the code needs them: the receive is
    inside one. *)

From S2P Require Import Prelude Nvm Wire Verbs Infiniband Hash Index Message Session Server Join.

#[local] Open Scope prog_scope.

Module Client.

Definition kMaxIBQueueDepth : Z := 128.

(** [class Client]; [bufs] and [mems] as in [Server]. *)
Record t := mkClient {
  index_manager_ : IndexManager; ib_ : Infiniband.t; bufs : Infiniband.bufs; mems : gmap Z mem;
  send_bufs_ : Infiniband.RegisteredBuffers; recv_bufs_ : Infiniband.RegisteredBuffers; qp_ : Infiniband.QueuePair;
  num_send_ : Z }.

Definition with_send (st : Infiniband.bufs) (p : Infiniband.RegisteredBuffers) (c : t) : t :=
  mkClient (index_manager_ c) (ib_ c) st (mems c) p (recv_bufs_ c) (qp_ c) (num_send_ c).
Definition with_recv (st : Infiniband.bufs) (p : Infiniband.RegisteredBuffers) (c : t) : t :=
  mkClient (index_manager_ c) (ib_ c) st (mems c) (send_bufs_ c) p (qp_ c) (num_send_ c).
Definition with_mem (st : Infiniband.bufs) (b : Z) (m : mem) (c : t) : t :=
  mkClient (index_manager_ c) (ib_ c) st (<[b := m]> (mems c)) (send_bufs_ c) (recv_bufs_ c) (qp_ c) (num_send_ c).
Definition with_ib (ib : Infiniband.t) (c : t) : t :=
  mkClient (index_manager_ c) ib (bufs c) (mems c) (send_bufs_ c) (recv_bufs_ c) (qp_ c) (num_send_ c).

Definition deref (c : t) (b : Z) : prog Infiniband.Buffer :=
  match bufs c !! b with Some x => Ret x | None => Stop (Fault Segv) end.
Definition mem_of (c : t) (b : Z) : mem := default ∅ (mems c !! b).

(** ** Set-up *)

(** [Client::Client]: [conn] is the connection to the coordinator, [parse] and
    [dump] those of the JSON library.  When it throws, also in [Join], the
    pools and the transport are destroyed, not the queue pair. *)
Definition construct (parse : list Init.Byte.byte -> option json) (dump : json -> list Init.Byte.byte)
    (conn : option Session.conn) : prog t :=
  match conn with
  | None => Stop (Fault Session.system_error)
  | Some conn =>
      ib <- Infiniband.construct 1024 ;;
      unwind (Infiniband.destruct_ ib)
        (s <- Infiniband.RegisteredBuffers_construct (Infiniband.pd_ ib) Client_kSendBufSize kMaxIBQueueDepth false ∅ ;;
         unwind (Infiniband.RegisteredBuffers_destruct s.2 s.1)
           (r <- Infiniband.RegisteredBuffers_construct (Infiniband.pd_ ib) Client_kRecvBufSize kMaxIBQueueDepth true s.2 ;;
            unwind (Infiniband.RegisteredBuffers_destruct r.2 r.1)
              (q <- Infiniband.QueuePair_construct ib IBV_QPT_UD kMaxIBQueueDepth kMaxIBQueueDepth ;;
               Infiniband.Activate q ;;;
               im <- Join.Client_Join parse dump conn ;;
               Ret (mkClient im ib r.2 ∅ s.1 r.1 q 0))))
  end.

(** [Client::~Client]: [Close] does nothing. *)
Definition destruct_ (c : t) : prog unit :=
  Infiniband.QueuePair_destruct (qp_ c) ;;;
  Infiniband.RegisteredBuffers_destruct (bufs c) (recv_bufs_ c) ;;;
  Infiniband.RegisteredBuffers_destruct (bufs c) (send_bufs_ c) ;;;
  Infiniband.destruct_ (ib_ c).

(** ** One message and its answer *)

(** [Client::RequestAndWait]: the buffer with the answer. *)
Definition RequestAndWait (fuel : nat) (arrived : mem) (key : list Init.Byte.byte) (key_len : Z)
    (val : option (list Init.Byte.byte)) (val_len : Z) (type : Request.Type_) (c : t) : prog (Z * t) :=
  check (u64 (key_len + val_len) <=? kMaxItemSize) ;;;
  let hash := Hash.Hash key key_len in
  server <- Server.lift (IndexManager.GetServer (index_manager_ c) hash) tt ;;
  let '(sb, p) := Infiniband.Alloc (bufs c) (send_bufs_ c) in
  let c := with_send (bufs c) p c in
  check (negb (sb =? 0)) ;;;
  x <- Server.lift (Request.New_Request 0 Client_kSendBufSize type key key_len val val_len hash) (mem_of c sb) ;;
  let r := Request.MakeRequest x.2 0 Client_kSendBufSize in
  let c := with_mem (bufs c) sb x.2 c in
  let '(rb, p) := Infiniband.Alloc (bufs c) (recv_bufs_ c) in
  let c := with_recv (bufs c) p c in
  check (negb (rb =? 0)) ;;;
  b <- deref c rb ;;
  Infiniband.PostReceive (qp_ c) rb b ;;;
  b <- deref c sb ;;
  ib <- Infiniband.PostSendAndWait fuel (ib_ c) (qp_ c) sb b (Request.ReqLen r) (s_ib_addr server.1) ;;
  let c := with_ib ib c in
  let '(st, p) := Infiniband.Free (bufs c) (send_bufs_ c) sb in
  let c := with_send st p c in
  x <- Infiniband.Receive fuel (qp_ c) (bufs c) ;;
  let c := with_mem x.2 x.1 arrived c in
  check (rb =? x.1) ;;;
  Ret (rb, c).

(** [rb->MakeResponse()] *)
Definition response_of (c : t) (rb : Z) : Response.response := Response.MakeResponse (mem_of c rb) kIBUDPadding Client_kRecvBufSize.

(** [recv_bufs_.Free(rb)] *)
Definition free_recv (rb : Z) (c : t) : t := let '(st, p) := Infiniband.Free (bufs c) (recv_bufs_ c) rb in with_recv st p c.

(** ** The operations *)

(** A value that claims to go on behind the buffer is read from there. *)
Definition Get (fuel : nat) (arrived : mem) (key : list Init.Byte.byte) (c : t) : prog (list Init.Byte.byte * t) :=
  x <- RequestAndWait fuel arrived key (Z.of_nat (length key)) None 0 Request.GET c ;;
  let '(rb, c) := x in
  let resp := response_of c rb in
  if Z.of_nat (length (Response.val resp)) <? Response.val_len resp then Stop (Fault Segv)
  else Ret (take (Z.to_nat (Response.val_len resp)) (Response.val resp), free_recv rb c).

(** The [bool] of [Put], [Add] and [Del]. *)
Definition ask (type : Request.Type_) (fuel : nat) (arrived : mem) (key : list Init.Byte.byte) (val : option (list Init.Byte.byte))
    (val_len : Z) (c : t) : prog (bool * t) :=
  x <- RequestAndWait fuel arrived key (Z.of_nat (length key)) val val_len type c ;;
  let '(rb, c) := x in
  Ret (Response.status (response_of c rb) =? Status_code OK, free_recv rb c).

Definition Put (fuel : nat) (arrived : mem) (key val : list Init.Byte.byte) : t -> prog (bool * t) :=
  ask Request.PUT fuel arrived key (Some val) (Z.of_nat (length val)).
Definition Add (fuel : nat) (arrived : mem) (key val : list Init.Byte.byte) : t -> prog (bool * t) :=
  ask Request.ADD fuel arrived key (Some val) (Z.of_nat (length val)).
Definition Del (fuel : nat) (arrived : mem) (key : list Init.Byte.byte) : t -> prog (bool * t) :=
  ask Request.DEL fuel arrived key None 0.

Definition num_send (c : t) : Z := num_send_ c.

End Client.
