(* ===== verification/ClientMain.v ===== *)
(** * [client_main.cc]: the load generator

    Every thread has a client of its own and puts the same [n] random keys.
    The generator of the standard library is a parameter: [letters] are the
    numbers it draws, the same in every thread, since it always starts from
    the default seed.  Time is not looked at.  When an operation throws, the
    client is destroyed before the handler runs.

    The threads of [bench_main] run in any order, one call at a time, as the
    argument [sched] says; they are started before the first of them calls
    anything. *)

From S2P Require Import Prelude Nvm Wire Verbs Parallel Infiniband Index Message Session Server Join Client.

#[local] Open Scope prog_scope.

Module ClientMain.

Definition Usage : prog unit :=
  sys (printf "usage: " []) ;;;
  sys (printf "client  <coordinator_addr> <item number per thread> <thread numer>" []).

(** [n] strings of [len] letters each. *)
Definition GenRandomStrings (letters : nat -> Init.Byte.byte) (len n : nat) : list (list Init.Byte.byte) :=
  map (fun i => map (fun j => letters (i * len + j)%nat) (seq 0 len)) (seq 0 n).

Definition now : prog Z := sys (os "high_resolution_clock::now" []).

(** The loop over the keys, from the [i]-th on; [arrived i] is the memory of
    the answer to the [i]-th request, the results are not looked at. *)
Fixpoint put_all (fuel : nat) (arrived : nat -> mem) (i : nat) (kvs : list (list Init.Byte.byte * list Init.Byte.byte)) (c : Client.t) : prog Client.t :=
  match kvs with
  | [] => Ret c
  | (key, val) :: kvs' => x <- Client.Put fuel (arrived i) key val c ;; put_all fuel arrived (S i) kvs' x.2
  end.

(** What a thread puts. *)
Definition items (letters : nat -> Init.Byte.byte) (n : nat) : list (list Init.Byte.byte * list Init.Byte.byte) :=
  zip (GenRandomStrings letters 16 n) (replicate n (replicate 16 Byte.x61)).

(** The table of address handles in the client: an exception leaves no state
    behind in this model, so what became of the client until it was thrown is
    read off the calls.  Its destructor looks at nothing else that changes. *)
Definition with_handler (lid ah : Z) (c : Client.t) : Client.t :=
  let ib := Client.ib_ c in
  Client.with_ib (Infiniband.mkIb (Infiniband.ctx_ ib) (Infiniband.pd_ ib) (Infiniband.mr_ ib) (Infiniband.raw_mem_ ib)
    (Infiniband.raw_mem_size_ ib) (<[lid := ah]> (Infiniband.addr_handlers_ ib))) c.

Definition learn (c : Client.t) (cl : call) : reply cl -> Client.t :=
  match cl return reply cl -> Client.t with
  | ibv_create_ah _ a => fun ah => if ah =? 0 then c else with_handler (dlid a) ah c
  | _ => fun _ => c
  end.

(** The scope of the client [c]: an exception of [p] destroys it. *)
Fixpoint in_scope {A} (c : Client.t) (p : prog A) : prog A :=
  match p with
  | Ret a => Ret a
  | Stop (Fault (Throw errno)) => Client.destruct_ c ;;; throw errno
  | Stop s => Stop s
  | Vis cl k => Vis cl (fun r => in_scope (learn c cl r) (k r))
  end.

Section Work.
Variables (parse : list Init.Byte.byte -> option json) (dump : json -> list Init.Byte.byte).

Definition Work (fuel : nat) (letters : nat -> Init.Byte.byte) (arrived : nat -> mem) (conn : option Session.conn) (n : nat) : prog unit :=
  try_
    (c <- Client.construct parse dump conn ;;
     c <- in_scope c
       (begin <- now ;;
        c <- put_all fuel arrived 0 (items letters n) c ;;
        end_ <- now ;;
        Ret c) ;;
     Client.destruct_ c)
    (fun errno =>
      sys (printf "error" [errno]) ;;;
      if bool_decide (Throw errno = Session.system_error) then Ret tt
      else sys (printf "initialize infiniband devices failed" [])).

(** *** The process *)

(** [std::stoi]: the argument is the number the text stands for, if it fits an
    [int]; the exception it throws otherwise is not caught. *)
Definition stoi (arg : option Z) : prog Z := match arg with Some z => Ret z | None => Stop Terminate end.

(** [std::vector<double> v(n)]: null for no elements, an exception for more
    than can be addressed. *)
Definition doubles (n : Z) : prog Z :=
  if n =? 0 then Ret 0 else if (2 ^ 63 - 1) / 8 <? n then Stop Terminate else new_ (8 * n).

(** The threads that are started; failing to start one throws. *)
Fixpoint start_threads (ids : list Z) : prog unit :=
  match ids with
  | [] => Ret tt
  | i :: ids' => err <- sys (os "std::thread" [i]) ;; if err =? 0 then start_threads ids' else Stop Terminate
  end.

Definition ended {A} (p : prog A) : bool := match p with Ret _ => true | _ => false end.

Definition print_all (n : nat) : prog unit := for_ n (fun _ => sys (printf "QPS: %.2f" [])) tt.

(** [bench_main]; [threads] and [n_items] are what the arguments stand for,
    [arrived i] and [conns i] belong to the [i]-th thread. *)
Definition bench_main (fuel : nat) (letters : nat -> Init.Byte.byte) (arrived : nat -> nat -> mem) (conns : nat -> option Session.conn)
    (sched : list nat) (argc : Z) (n_items threads : option Z) : prog Z :=
  if argc <? 4 then Usage ;;; Ret (-1)
  else
    n <- stoi n_items ;;
    t <- stoi threads ;;
    let num_items := Z.to_nat (u64 n) in
    let num_threads := Z.to_nat (u64 t) in
    qpss <- doubles (u64 t) ;;
    start_threads (map Z.of_nat (seq 0 num_threads)) ;;;
    rest <- interleave sched (map (fun i => Work fuel letters (arrived i) (conns i) num_items) (seq 0 num_threads)) ;;
    (if forallb ended rest then Ret tt else Stop (Fault OutOfFuel)) ;;;
    print_all num_threads ;;;
    sys (printf "total QPS: %.2f" []) ;;;
    (if qpss =? 0 then Ret tt else sys (free qpss)) ;;;
    Ret 0.

Definition main := bench_main.
End Work.

End ClientMain.
