(* ===== verification/ClientSpec.v ===== *)
(** * Clients and servers together

    An operation of the client is a datagram to a server, the service there
    and a datagram back.  Seen from the client, the tablet is a map from keys
    to values. *)

From S2P Require Import Prelude Nvm Modification Allocator HeapSpec HeapLists Heap Objects Wire Tablet TabletRefine Verbs Loopback Infiniband Hash Index Sync SyncSpec Server Service Client.

#[local] Open Scope prog_scope.

(** ** Programs that return *)

Lemma returned_bind {A B} e h (p : prog A) (k : A -> prog B) h' b : run e h (pbind p k) = (h', Returned b) ->
  exists h1 a, run e h p = (h1, Returned a) /\ run e h1 (k a) = (h', Returned b).
Proof. rewrite run_bind. destruct (run e h p) as [h1 [a | s]]; [by exists h1, a | done]. Qed.

Lemma returned_check e h b u h' : run e h (check b) = (h', Returned u) -> b = true /\ h' = h.
Proof. unfold check. destruct b; [by intros [= <- _] | done]. Qed.

Lemma returned_lift {S A} e h (c : M S A) s h' x : run e h (Server.lift c s) = (h', Returned x) -> c s = Ok x.1 x.2 /\ h' = h.
Proof. unfold Server.lift. destruct (c s) as [a s' | er s']; [by intros [= <- <-] | done]. Qed.

(** The requests a run leaves with the device. *)
Lemma PostReceive_quiet e h q b buf h' u : run e h (Infiniband.PostReceive q b buf) = (h', Returned u) -> accepted h' = accepted h.
Proof. unfold Infiniband.PostReceive. cbn. case_match; [done |]. intros [= <- _]. cbn. by rewrite app_nil_r. Qed.

(** The handle of an address leads to the local id it was made for, as the
    manual says of [ibv_create_ah]; [lead] is where the network takes what is
    sent with a handle. *)
Definition made_well (lead : Z -> Z) (h : trace) : Prop :=
  Forall (fun ev => match ev_call ev as c return reply c -> Prop with
                    | ibv_create_ah _ attr => fun ah => lead ah = dlid attr
                    | _ => fun _ => True
                    end (ev_reply ev)) h.
Definition handles_lead (lead : Z -> Z) (ib : Infiniband.t) : Prop :=
  forall l ah, Infiniband.addr_handlers_ ib !! l = Some ah -> lead ah = l.

Lemma run_grows {A} e (p : prog A) : forall h, exists l, (run e h p).1 = l ++ h.
Proof.
  induction p as [a | s | c k IH]; intros h; cbn [run fst]; [by exists [].. |]. destruct (IH (e h c) (mkCall c (e h c) :: h)) as [l El].
  exists (l ++ [mkCall c (e h c)]). by rewrite El, <- app_assoc.
Qed.

Lemma made_well_before {A} lead e h (p : prog A) h' r : run e h p = (h', r) -> made_well lead h' -> made_well lead h.
Proof. intros E H. destruct (run_grows e p h) as [l El]. rewrite E in El. cbn in El. rewrite El in H. by apply list.Forall_app in H as [_ H]. Qed.

(** The request [w] goes to the address [a], and the handles the transport
    keeps stay right. *)
Definition goes (ib ib' : Infiniband.t) (h' : trace) (w : ibv_send_wr) (a : Infiniband.Address) : Prop :=
  ud_remote_qpn (s_wr w) = Infiniband.a_qpn a /\
  forall lead, handles_lead lead ib -> made_well lead h' -> handles_lead lead ib' /\ lead (ud_ah (s_wr w)) = Infiniband.a_lid a.

Lemma goes_later {A} e h (p : prog A) h' r ib ib' w a : run e h p = (h', r) -> goes ib ib' h w a -> goes ib ib' h' w a.
Proof. intros E [Hq Hl]. split; [done |]. intros lead H1 H2. apply Hl; [done |]. by eapply made_well_before. Qed.

Lemma GetAddrHandler_run e h ib addr h' x : run e h (Infiniband.GetAddrHandler ib addr) = (h', Returned x) ->
  accepted h' = accepted h /\
  forall lead, handles_lead lead ib -> made_well lead h' -> handles_lead lead x.2 /\ lead x.1 = Infiniband.a_lid addr.
Proof.
  unfold Infiniband.GetAddrHandler. destruct (Infiniband.addr_handlers_ ib !! Infiniband.a_lid addr) as [ah|] eqn:El.
  { intros [= <- <-]. split; [done |]. intros lead H _. split; [exact H | by apply H]. }
  cbn [sys pbind run]. intros H.
  apply returned_bind in H as (h1 & u & [_ ->]%returned_check & [= <- <-]). split; [cbn; by rewrite app_nil_r |].
  intros lead H1 [H2 _]%list.Forall_cons. cbn in H2. split; [| exact H2]. intros l ah. cbn [Infiniband.addr_handlers_ snd].
  destruct (decide (Infiniband.a_lid addr = l)) as [<- | Hl]; [rewrite lookup_insert_eq; by intros [= <-] | rewrite lookup_insert_ne by done; apply H1].
Qed.

Lemma PostSend_run e h ib q b buf len peer h' ib' : run e h (Infiniband.PostSend ib q b buf len peer) = (h', Returned ib') ->
  exists w, accepted h' = accepted h ++ [w] /\ s_wr_id w = b /\ s_opcode w = IBV_WR_SEND /\
    s_sg_list w = [mkSge (Infiniband.b_buf buf) len (lkey (Infiniband.b_mr buf))] /\ goes ib ib' h' w peer.
Proof.
  unfold Infiniband.PostSend. intros H. apply returned_bind in H as (h1 & u & [_ ->]%returned_check & H).
  apply returned_bind in H as (h1 & [ah ib1] & [Ha Hl]%GetAddrHandler_run & H). apply returned_bind in H as (h2 & u2 & [_ ->]%returned_check & H).
  cbn [sys pbind run] in H. match type of H with context [if negb (?x =? 0) then _ else _] => destruct (Z.eqb_spec x 0) as [E | E] end; cbn in H; [| done].
  injection H as <- <-. eexists. cbn. rewrite Ha, E. split_and!; [done.. | split; [done |]]. intros lead H1 [_ H2]%list.Forall_cons. by apply Hl.
Qed.

Lemma PostSendAndWait_run e h fuel ib q b buf len peer h' ib' :
  run e h (Infiniband.PostSendAndWait fuel ib q b buf len peer) = (h', Returned ib') ->
  exists w, accepted h' = accepted h ++ [w] /\ s_wr_id w = b /\ s_opcode w = IBV_WR_SEND /\
    s_sg_list w = [mkSge (Infiniband.b_buf buf) len (lkey (Infiniband.b_mr buf))] /\ goes ib ib' h' w peer.
Proof.
  unfold Infiniband.PostSendAndWait. intros H. apply returned_bind in H as (h1 & u & [_ ->]%returned_check & H).
  apply returned_bind in H as (h1 & ib1 & (w & W1 & W2 & W3 & W4 & W5)%PostSend_run & H). apply returned_bind in H as (h2 & wc & Hp & H).
  pose proof (accepted_poll e h1 fuel (Infiniband.scq q)) as E. unfold Infiniband.wait_one in Hp. pose proof (goes_later _ _ _ _ _ _ _ _ _ Hp W5) as G.
  rewrite Hp in E. cbn [fst] in E.
  assert (h' = h2 /\ ib' = ib1) as [-> ->] by (destruct (negb _) in H; [done | by injection H as <- <-]). exists w. by rewrite E.
Qed.

Lemma Receive_quiet e fuel q : forall h st h' x, run e h (Infiniband.Receive fuel q st) = (h', Returned x) -> accepted h' = accepted h.
Proof.
  induction fuel as [|fuel IH]; intros h st h' x H; cbn [Infiniband.Receive] in H; [done |].
  apply returned_bind in H as (h1 & y & Hy & H). assert (accepted h1 = accepted h) as E.
  { unfold Infiniband.TryReceive, Infiniband.PollCQ in Hy. cbn [sys pbind run] in Hy. 
    assert (accepted (mkCall (ibv_poll_cq (Infiniband.rcq q) 1) (e h (ibv_poll_cq (Infiniband.rcq q) 1)) :: h) = accepted h) as Ep by (cbn; by rewrite app_nil_r).
    destruct (e h _) as [r | [|wc l]]; [done | by injection Hy as <- _ |]. destruct (negb _) in Hy; [done |].
    destruct (st !! _) in Hy; [by injection Hy as <- _ | done]. }
  destruct (y.1 =? 0); [by rewrite (IH _ _ _ _ H) | by injection H as <- _].
Qed.

(** ** One request *)

#[local] Abbreviation len l := (Z.of_nat (length l)).
#[local] Abbreviation hash_of k := (Hash.Hash k (len k)).

(** How the operations give the value: [Get] and [Del] give none. *)
Definition given (val : option (list Init.Byte.byte)) (val_len : Z) (v : list Init.Byte.byte) : Prop :=
  (val = Some v /\ val_len = len v) \/ (val = None /\ val_len = 0 /\ v = []).

Lemma New_given m ty key val val_len v : given val val_len v -> len key + len v <= kMaxItemSize ->
  Request.New_Request 0 Client_kSendBufSize ty key (len key) val val_len (hash_of key) m = Ok tt (built m 0 ty key v (hash_of key)).
Proof.
  unfold kMaxItemSize. intros Hg Hlen. rewrite <- (New_built m 0 Client_kSendBufSize ty key v) by (unfold Client_kSendBufSize; lia).
  destruct Hg as [[-> ->] | (-> & -> & ->)]; done.
Qed.

(** The client once the answer is there: the request went to the server of the
    key's hash, the send buffer is back in its pool and still holds it. *)
Record asked (ty : Request.Type_) (key v : list Init.Byte.byte) (arrived : mem) (c : Client.t) (h h' : trace) (rb : Z) (c' : Client.t) : Prop := {
  ak_small : len key + len v <= kMaxItemSize;
  ak_sent : exists sv w b, IndexManager.GetServer (Client.index_manager_ c) (hash_of key) tt = Ok sv tt /\
    accepted h' = accepted h ++ [w] /\ goes (Client.ib_ c) (Client.ib_ c') h' w (s_ib_addr sv) /\
    s_wr_id w = Infiniband.root_ (Client.send_bufs_ c) /\
    s_sg_list w = [mkSge (Infiniband.b_buf b) (16 + len key + len v) (lkey (Infiniband.b_mr b))];
  ak_recv : rb = Infiniband.root_ (Client.recv_bufs_ c);
  ak_mems : Client.mems c' = <[rb := arrived]> (<[Infiniband.root_ (Client.send_bufs_ c) :=
    built (Client.mem_of c (Infiniband.root_ (Client.send_bufs_ c))) 0 ty key v (hash_of key)]> (Client.mems c));
  ak_send : Infiniband.root_ (Client.send_bufs_ c') = Infiniband.root_ (Client.send_bufs_ c);
  ak_index : Client.index_manager_ c' = Client.index_manager_ c }.

Lemma RequestAndWait_run e h fuel arrived key val val_len v ty c h' rb c' : given val val_len v ->
  len key + val_len < 2 ^ 64 -> run e h (Client.RequestAndWait fuel arrived key (len key) val val_len ty c) = (h', Returned (rb, c')) ->
  asked ty key v arrived c h h' rb c'.
Proof.
  intros Hg H64 H. assert (val_len = len v) as Ev by (destruct Hg as [[_ ?] | (_ & -> & ->)]; done).
  unfold Client.RequestAndWait in H. apply returned_bind in H as (h0 & u0 & [Hs ->]%returned_check & H).
  rewrite u64_small in Hs by lia. apply Z.leb_le in Hs. rewrite Ev in Hs.
  apply returned_bind in H as (h0 & sv & [Hsv ->]%returned_lift & H). cbn [Infiniband.Alloc] in H.
  apply returned_bind in H as (h0 & u1 & [_ ->]%returned_check & H).
  apply returned_bind in H as (h0 & x & [Hx ->]%returned_lift & H). rewrite (New_given _ _ _ _ _ v Hg Hs) in Hx. injection Hx as Hx1 Hx2.
  change (built (Client.mem_of c (Infiniband.root_ (Client.send_bufs_ c))) 0 ty key v (hash_of key) = x.2) in Hx2.
  apply returned_bind in H as (h0 & u2 & [_ ->]%returned_check & H). apply returned_bind in H as (h0 & b & Hb & H).
  assert (h0 = h) as -> by (unfold Client.deref in Hb; destruct (_ !! _) in Hb; [by injection Hb as <- | done]).
  apply returned_bind in H as (h1 & u3 & Hq%PostReceive_quiet & H). apply returned_bind in H as (h0 & b2 & Hb2 & H).
  assert (h0 = h1) as -> by (unfold Client.deref in Hb2; destruct (_ !! _) in Hb2; [by injection Hb2 as <- | done]).
  apply returned_bind in H as (h2 & ib & (w & W1 & W2 & W3 & W4 & W5)%PostSendAndWait_run & H).
  apply returned_bind in H as (h3 & y & Hy & H). pose proof (goes_later _ _ _ _ _ _ _ _ _ Hy W5) as G. apply Receive_quiet in Hy as Hr. apply returned_bind in H as (h4 & u4 & [Hrb ->]%returned_check & H).
  injection H as <- <- <-. apply Z.eqb_eq in Hrb.
  destruct (built_read (Client.mem_of c (Infiniband.root_ (Client.send_bufs_ c))) 0 Client_kSendBufSize ty key v (hash_of key)) as (_ & R1 & R2 & _);
    [unfold kMaxItemSize in Hs; lia.. | apply Hash.Hash_range | unfold Client_kSendBufSize, kMaxItemSize in *; lia |].
  split; try done.
  - exists sv.1, w, b2. rewrite Hr, W1, Hq. split_and!; try done; [by destruct sv.2 |]. rewrite W4, <- Hx2. unfold Request.ReqLen. by rewrite R1, R2.
  - cbn. by rewrite <- Hrb, <- Hx2.
Qed.

(** The send buffer still holds the request. *)
Lemma asked_memory ty key v arrived c h h' rb c' : asked ty key v arrived c h h' rb c' ->
  Infiniband.root_ (Client.send_bufs_ c) <> Infiniband.root_ (Client.recv_bufs_ c) ->
  Client.mem_of c' (Infiniband.root_ (Client.send_bufs_ c)) =
    built (Client.mem_of c (Infiniband.root_ (Client.send_bufs_ c))) 0 ty key v (hash_of key).
Proof. intros [_ _ -> Em _ _] Hp. unfold Client.mem_of at 1. by rewrite Em, lookup_insert_ne, lookup_insert_eq by congruence. Qed.

(** ** Operations *)

Record op := mkOp { op_type : Request.Type_; op_key : list Init.Byte.byte; op_val : list Init.Byte.byte }.
Inductive answer := Said (b : bool) | Gave (v : list Init.Byte.byte).

(** The method of the client for an operation; [Get] and [Del] take no value. *)
Definition perform (fuel : nat) (arrived : mem) (o : op) (c : Client.t) : prog (answer * Client.t) :=
  match op_type o with
  | Request.PUT => x <- Client.Put fuel arrived (op_key o) (op_val o) c ;; Ret (Said x.1, x.2)
  | Request.ADD => x <- Client.Add fuel arrived (op_key o) (op_val o) c ;; Ret (Said x.1, x.2)
  | Request.GET => x <- Client.Get fuel arrived (op_key o) c ;; Ret (Gave x.1, x.2)
  | Request.DEL => x <- Client.Del fuel arrived (op_key o) c ;; Ret (Said x.1, x.2)
  end.

(** The value that goes with the request. *)
Definition sent_val (o : op) : list Init.Byte.byte :=
  match op_type o with Request.PUT | Request.ADD => op_val o | _ => [] end.

(** A map, the answers and what becomes of it. *)
Abbreviation map_of_values := (list Init.Byte.byte -> option (list Init.Byte.byte)).

Definition map_answer (o : op) (D : map_of_values) : answer :=
  let old := D (op_key o) in
  match op_type o with
  | Request.GET => Gave (value_of Request.GET old)
  | ty => Said (bool_decide (status_of ty old = OK))
  end.
Definition map_after (o : op) (D : map_of_values) : map_of_values :=
  fun k => if decide (k = op_key o) then after (op_type o) (D (op_key o)) (op_val o) else D k.

(** What a client can find in a tablet. *)
Definition dict (B : Z -> list object) : map_of_values := fun k => contents B (hash_of k mod Tablet.kHashTableSize) k.

Definition wire_status (m : mem) : Z := Response.status (Response.MakeResponse m kIBUDPadding Client_kRecvBufSize).

(** A datagram of [n] bytes from the start of [src] arrives in [dst], behind
    the padding. *)
Definition datagram (n : Z) (src dst : mem) : Prop := load dst kIBUDPadding (Z.to_nat n) = load src 0 (Z.to_nat n).

(** One operation: the client's program returns with an answer that arrived
    from a worker of the server, which served what the client had sent.  The
    datagram is that of the request [w]; it lies in [request] at the server,
    whose map is [im]. *)
Inductive delivery (fuel : nat) (o : op) (h' : trace) (w : ibv_send_wr) (request : mem) (im : IndexManager) :
    answer -> Client.t * Server.tablet -> Client.t * Server.tablet -> Prop :=
  delivered a c c' tb tb' arrived e h g sb resp es hs hs' :
    run e h (perform fuel arrived o c) = (h', Returned (a, c')) ->
    accepted h' = accepted h ++ [w] -> s_sg_list w = [g] ->
    datagram (sge_length g) (Client.mem_of c' (s_wr_id w)) request ->
    run es hs (Server.handle fuel im tb request sb) = (hs', Returned (resp, tb')) ->
    datagram (Response.RespLen (Response.MakeResponse resp 0 kSendBufSize)) resp arrived ->
    delivery fuel o h' w request im a (c, tb) (c', tb').

Definition exchange (fuel : nat) (o : op) (a : answer) (x y : Client.t * Server.tablet) : Prop :=
  exists h' w request im, delivery fuel o h' w request im a x y.

Inductive exchanges (fuel : nat) : list (op * answer) -> Client.t * Server.tablet -> Client.t * Server.tablet -> Prop :=
  | no_exchange x : exchanges fuel [] x x
  | more_exchanges o a l x y z : exchange fuel o a x y -> exchanges fuel l y z -> exchanges fuel ((o, a) :: l) x z.

Fixpoint map_answers (l : list op) (D : map_of_values) : list answer :=
  match l with [] => [] | o :: l' => map_answer o D :: map_answers l' (map_after o D) end.
Definition map_final (l : list op) (D : map_of_values) : map_of_values := foldl (fun D o => map_after o D) D l.

(** ** One exchange *)

Definition reads (ty : Request.Type_) (r : Response.response) (a : answer) : Prop :=
  match ty with
  | Request.GET => Response.val_len r <= Z.of_nat (length (Response.val r)) /\ a = Gave (take (Z.to_nat (Response.val_len r)) (Response.val r))
  | _ => a = Said (Response.status r =? Status_code OK)
  end.

Lemma perform_run fuel arrived o e h h' c a c' : len (op_key o) + len (op_val o) < 2 ^ 64 ->
  run e h (perform fuel arrived o c) = (h', Returned (a, c')) ->
  exists rb c1, asked (op_type o) (op_key o) (sent_val o) arrived c h h' rb c1 /\ c' = Client.free_recv rb c1 /\
    reads (op_type o) (Client.response_of c1 rb) a.
Proof.
  intros H64 H. destruct o as [ty key v]. cbn [op_type op_key op_val] in *. unfold perform in H. cbn [op_type op_key op_val] in H.
  destruct ty; apply returned_bind in H as (h1 & [b c2] & H & [= <- <- <-]); apply returned_bind in H as (h2 & [rb c1] & Hr & H);
    try (injection H as <- <- <-; exists rb, c1; split; [| by split]).
  - apply (RequestAndWait_run _ _ _ _ _ _ _ v) in Hr; [done | by left | lia].
  - apply (RequestAndWait_run _ _ _ _ _ _ _ v) in Hr; [done | by left | lia].
  - cbv zeta in H. remember (Client.response_of c1 rb) as rsp eqn:Er.
    destruct (len (Response.val rsp) <? Response.val_len rsp) eqn:Hv in H; [done |]. apply Z.ltb_ge in Hv.
    injection H as <- <- <-. exists rb, c1. rewrite <- Er. split; [| by split].
    apply (RequestAndWait_run _ _ _ _ _ _ _ []) in Hr; [done | by right | lia].
  - apply (RequestAndWait_run _ _ _ _ _ _ _ []) in Hr; [done | by right | lia].
Qed.

(** The answer in the datagram is the answer of the map. *)
Lemma reply_read resp arrived o D : says resp (Request.Type_code (op_type o)) (status_of (op_type o) (D (op_key o))) (value_of (op_type o) (D (op_key o))) ->
  datagram (Response.RespLen (Response.MakeResponse resp 0 kSendBufSize)) resp arrived ->
  forall a, reads (op_type o) (Response.MakeResponse arrived kIBUDPadding Client_kRecvBufSize) a -> a = map_answer o D.
Proof.
  intros [S1 S2 S3 S4] Hd a Ha. unfold map_answer. set (st := status_of _ _) in *. set (v := value_of _ _) in *.
  assert (Response.RespLen (Response.MakeResponse resp 0 kSendBufSize) = 4 + match op_type o with Request.GET => len v | _ => 0 end) as El.
  { unfold Response.RespLen. cbn [Response.type Response.val_len Response.MakeResponse]. rewrite S1. change (0 + 2) with 2. rewrite S3. by destruct (op_type o). }
  unfold datagram in Hd. rewrite El in Hd. 
  assert (rd8 arrived (kIBUDPadding + 1) = Status_code st) as E1.
  { rewrite <- S2, !rd8_load. f_equal. apply (load_part _ _ _ _ _ 1 1 Hd). destruct (op_type o); lia. }
  assert (forall b, b = (Status_code st =? Status_code OK) -> b = bool_decide (st = OK)) as Hb by (intros b ->; by destruct st).
  destruct (op_type o) eqn:Et; unfold reads in Ha; cbn [Response.status Response.MakeResponse] in Ha; rewrite ?E1 in Ha; try (by rewrite Ha, (Hb _ eq_refl)).
  replace (Z.to_nat (4 + len v)) with (4 + length v)%nat in Hd by lia. unfold Response.MakeResponse in Ha. cbn [Response.val_len Response.val] in Ha.
  assert (rd16 arrived (kIBUDPadding + 2) = len v) as E2.
  { rewrite <- S3. unfold rd16. f_equal. apply (load_part _ _ _ _ _ 2 2 Hd). lia. }
  rewrite E2, load_length, Nat2Z.id in Ha. destruct Ha as [Hv ->]. f_equal. rewrite load_prefix by lia.
  unfold Response.offsetof_val. transitivity (load resp 4 (length v)); [| exact S4]. apply (load_part _ _ _ _ _ 4 (length v) Hd). lia.
Qed.

(** A chain grows by one object at most. *)
Lemma chain_grows s s' B B' b key x : holds s B -> holds s' B' ->
  (forall i k, contents B' i k = if decide (i = b /\ k = key) then x else contents B i k) ->
  forall i, (length (B' i) <= S (length (B i)))%nat.
Proof.
  intros _ (L' & h' & _ & Ht') Hm i. assert (o_key <$> B' i ⊆+ key :: (o_key <$> B i)) as Hsub.
  { apply NoDup_submseteq; [apply (tb_keys _ _ _ Ht') |]. intros k Hk. apply elem_of_cons.
    destruct (decide (k = key)) as [-> | Hne]; [by left | right]. specialize (Hm i k). rewrite decide_False in Hm by (intros [_ ?]; done).
    destruct (decide (k ∈ o_key <$> B i)) as [? | Hn]; [done |]. apply assoc_None in Hn. unfold contents in Hm. rewrite Hn in Hm.
    by apply assoc_None in Hm. }
  apply submseteq_length in Hsub. cbn in Hsub. by rewrite !length_fmap in Hsub.
Qed.

(** What the code asks of the operations and of the tablet they start from:
    the heap has a size class for what is stored, the fuel covers the chains,
    and stored values fit a reply. *)
Definition op_fits (o : op) : Prop := needs_room (op_type o) -> fits (16 + len (op_key o) + len (op_val o)).

Record ready (fuel n : nat) (c : Client.t) (tb : Server.tablet) (B : Z -> list object) : Prop := {
  rd_holds : holds (Server.heap tb) B;
  rd_pools : Infiniband.root_ (Client.send_bufs_ c) <> Infiniband.root_ (Client.recv_bufs_ c);
  rd_fuel : forall i, (length (B i) + n < fuel)%nat;
  rd_values : forall k w, dict B k = Some w -> len w <= kSendBufSize - Response.offsetof_val }.

(** What arrives at the server is what was asked. *)
Lemma request_arrives m request ty key v : len key + len v <= kMaxItemSize ->
  datagram (16 + len key + len v) (built m 0 ty key v (hash_of key)) request ->
  let r := Server.request_of request in
  Request.type r = Request.Type_code ty /\ Request.key r = key /\ Request.val r = v /\ Request.key_hash r = hash_of key /\
  Request.complete r /\ Request.ReqLen r = 16 + len key + len v.
Proof.
  unfold kMaxItemSize. intros Hlen Hd. apply (request_read request kIBUDPadding kRecvBufSize m 0); unfold kIBUDPadding, kRecvBufSize; try lia.
  - apply Hash.Hash_range.
  - unfold datagram in Hd. by replace (Z.to_nat (16 + len key + len v)) with (16 + length key + length v)%nat in Hd by lia.
Qed.

(** The datagram goes to the server that the client's map has for the key, and
    brings the hash there. *)
Lemma delivery_goes fuel o a h' w request im c tb c' tb' : len (op_key o) + len (op_val o) < 2 ^ 64 ->
  Infiniband.root_ (Client.send_bufs_ c) <> Infiniband.root_ (Client.recv_bufs_ c) ->
  delivery fuel o h' w request im a (c, tb) (c', tb') ->
  exists sv, IndexManager.GetServer (Client.index_manager_ c) (hash_of (op_key o)) tt = Ok sv tt /\
    goes (Client.ib_ c) (Client.ib_ c') h' w (s_ib_addr sv) /\ Client.index_manager_ c' = Client.index_manager_ c /\
    Request.key_hash (Server.request_of request) = hash_of (op_key o).
Proof.
  intros H64 Hp Hx. inversion Hx as [a0 c0 c1 tb0 tb1 arrived e h g sb resp es hs hs' Hc Ha Hg Hd Hs Hr]. subst.
  destruct (perform_run _ _ _ _ _ _ _ _ _ H64 Hc) as (rb & c2 & Hask & -> & _).
  pose proof (asked_memory _ _ _ _ _ _ _ _ _ Hask Hp) as Em. destruct Hask as [K1 (sv & w' & b & G1 & W1 & G2 & W2 & W3) _ _ _ K7].
  rewrite Ha in W1. apply app_inv_head in W1. injection W1 as <-. rewrite W3 in Hg. injection Hg as <-. cbn [sge_length] in Hd.
  change (Client.mem_of (Client.free_recv rb c2) (s_wr_id w)) with (Client.mem_of c2 (s_wr_id w)) in Hd. rewrite W2, Em in Hd.
  exists sv. split; [done |]. split; [exact G2 |]. split; [exact K7 |]. by apply (request_arrives _ _ _ _ _ K1 Hd).
Qed.

Lemma delivery_map fuel n o a h' w request im c tb c' tb' B : ready fuel (S n) c tb B -> op_fits o -> len (op_key o) + len (op_val o) < 2 ^ 64 ->
  delivery fuel o h' w request im a (c, tb) (c', tb') ->
  exists B', ready fuel n c' tb' B' /\ a = map_answer o (dict B) /\ forall k, dict B' k = map_after o (dict B) k.
Proof.
  intros [Hh Hp Hfl Hv] Hfit H64 Hx. inversion Hx as [a0 c0 c1 tb0 tb1 arrived e h g sb resp es hs hs' Hc Ha Hg Hd Hs Hr]. subst.
  destruct (perform_run _ _ _ _ _ _ _ _ _ H64 Hc) as (rb & c2 & Hask & -> & Hread).
  pose proof (asked_memory _ _ _ _ _ _ _ _ _ Hask Hp) as Em. destruct Hask as [K1 (sv & w' & b & _ & W1 & _ & W2 & W3) K4 K5 K6 _].
  rewrite Ha in W1. apply app_inv_head in W1. injection W1 as <-. rewrite W3 in Hg. injection Hg as <-. cbn [sge_length] in Hd.
  change (Client.mem_of (Client.free_recv rb c2) (s_wr_id w)) with (Client.mem_of c2 (s_wr_id w)) in Hd. rewrite W2 in Hd.
  rewrite Em in Hd. destruct (request_arrives _ _ _ _ _ K1 Hd) as (R1 & R2 & R3 & R4 & R5 & R6). clear Em Hd.
  set (r := Server.request_of request) in *. assert (bucket_of r = hash_of (op_key o) mod Tablet.kHashTableSize) as Eb by (unfold bucket_of; by rewrite R4).
  assert (contents B (bucket_of r) (Request.key r) = dict B (op_key o)) as Eo by (by rewrite Eb, R2).
  destruct (handle_served fuel B r im tb request sb (op_type o) Hh eq_refl) as [(er & E & _) | (resp0 & h0 & mods & B' & [F1 F2 F3] & E)].
  { split; [done | done | | |].
    - intros Hn. replace (request_size r) with (16 + len (op_key o) + len (op_val o)); [by apply Hfit |].
      unfold Request.ReqLen, Request.sizeof_Request in R6. unfold request_size. rewrite R6. unfold sent_val. by destruct Hn as [-> | ->].
    - specialize (Hfl (bucket_of r)). lia.
    - rewrite Eo. apply Hv. }
  { rewrite E in Hs. done. }
  rewrite E in Hs. apply returned_bind in Hs as (hs1 & rp & _ & [= _ <- <-]).
  assert (forall k, dict B' k = map_after o (dict B) k) as Hmap.
  { intros k. unfold dict at 1, map_after. rewrite F3, Eo, R2, Eb. destruct (decide (k = op_key o)) as [-> | Hne].
    - rewrite decide_True by done. rewrite R3. unfold after, sent_val. by destruct (op_type o), (dict B (op_key o)).
    - by rewrite decide_False by (intros [_ ?]; done). }
  exists B'. split; [split; [done | | |] | split; [| exact Hmap]].
  - cbn. rewrite K6, K4. congruence.
  - intros i. pose proof (chain_grows _ _ _ _ _ _ _ Hh F1 F3 i). specialize (Hfl i). lia.
  - intros k x. rewrite Hmap. unfold map_after. case_decide; [| apply Hv]. pose proof (Hv (op_key o) x) as Hold.
    unfold after. unfold sent_val, kMaxItemSize, kSendBufSize, Response.offsetof_val in *.
    destruct (op_type o), (dict B (op_key o)) as [y|]; intros [= <-]; (by apply Hold) || lia.
  - apply (reply_read resp0 arrived o (dict B)); [by rewrite <- R1, <- Eo | done |].
    replace arrived with (Client.mem_of c2 rb); [done |]. unfold Client.mem_of. by rewrite K5, lookup_insert_eq.
Qed.

Lemma exchange_map fuel n o a c tb c' tb' B : ready fuel (S n) c tb B -> op_fits o -> len (op_key o) + len (op_val o) < 2 ^ 64 ->
  exchange fuel o a (c, tb) (c', tb') ->
  exists B', ready fuel n c' tb' B' /\ a = map_answer o (dict B) /\ forall k, dict B' k = map_after o (dict B) k.
Proof. intros Hr Hf H64 (h' & w & request & im & Hx). by eapply delivery_map. Qed.

Lemma map_ext os : forall D D', (forall k, D k = D' k) ->
  map_answers os D = map_answers os D' /\ forall k, map_final os D k = map_final os D' k.
Proof.
  induction os as [|o os IH]; intros D D' HD; [done |]. destruct (IH (map_after o D) (map_after o D')) as [Ea Em].
  - intros k. unfold map_after. by rewrite !HD.
  - split; [| exact Em]. cbn. rewrite Ea. unfold map_answer. by rewrite HD.
Qed.

(** To a client a tablet is a map: whatever operations it performs one
    after the other, each a datagram to the worker of the tablet and one back,
    the answers of [Put], [Add], [Get] and [Del] are those of the map the
    tablet held at the start, and the tablet ends with the map that the
    operations leave. *)
Theorem client_sees_a_map fuel l c tb c' tb' B : ready fuel (length l) c tb B ->
  Forall (fun x => op_fits x.1 /\ len (op_key x.1) + len (op_val x.1) < 2 ^ 64) l ->
  exchanges fuel l (c, tb) (c', tb') ->
  exists B', holds (Server.heap tb') B' /\ map snd l = map_answers (map fst l) (dict B) /\
    forall k, dict B' k = map_final (map fst l) (dict B) k.
Proof.
  intros Hr Hl Hx. revert c tb B Hr Hx. induction Hl as [|[o a] l [Hf H64] Hl IH]; intros c tb B Hr Hx; inversion Hx; subst.
  - exists B. by destruct Hr.
  - match goal with H : exchange _ _ _ _ ?y |- _ => destruct y as [c1 tb1]; destruct (exchange_map _ _ _ _ _ _ _ _ _ Hr Hf H64 H) as (B1 & Hr1 & -> & Hm) end.
    edestruct IH as (B' & HB & Ha & Hk); [exact Hr1 | eassumption |]. exists B'. split; [done |].
    destruct (map_ext (map fst l) _ _ Hm) as [Ea Em]. cbn. rewrite Ha, Ea. split; [done |]. intros k. rewrite Hk. apply Em.
Qed.

(** ** Two operations on a fresh tablet *)

(** An exchange in two environments, the datagrams written into empty memory. *)
Definition exchange_in (fuel : nat) (e es : env) (im : IndexManager) (o : op) (x : Client.t * Server.tablet) :
    option (answer * (Client.t * Server.tablet)) :=
  let '(c, tb) := x in
  let sent := built (Client.mem_of c (Infiniband.root_ (Client.send_bufs_ c))) 0 (op_type o) (op_key o) (sent_val o) (hash_of (op_key o)) in
  let request := store ∅ kIBUDPadding (load sent 0 (16 + length (op_key o) + length (sent_val o))) in
  match run es [] (Server.handle fuel im tb request ∅) with
  | (_, Returned (resp, tb')) =>
      let n := Z.to_nat (Response.RespLen (Response.MakeResponse resp 0 kSendBufSize)) in
      match run e [] (perform fuel (store ∅ kIBUDPadding (load resp 0 n)) o c) with
      | (_, Returned (a, c')) => Some (a, (c', tb'))
      | _ => None
      end
  | _ => None
  end.

Lemma delivery_in_sound fuel e es im o x a y : len (op_key o) + len (op_val o) < 2 ^ 64 ->
  Infiniband.root_ (Client.send_bufs_ x.1) <> Infiniband.root_ (Client.recv_bufs_ x.1) ->
  exchange_in fuel e es im o x = Some (a, y) ->
  exists arrived w request, delivery fuel o (run e [] (perform fuel arrived o x.1)).1 w request im a x y.
Proof.
  intros H64 Hp. destruct x as [c tb]. cbn [fst] in Hp. unfold exchange_in. cbv zeta.
  set (request := store ∅ kIBUDPadding _). destruct (run es [] _) as [hs' [[resp tb'] | ?]] eqn:Es; [| done].
  set (n := Z.to_nat _). destruct (run e [] _) as [h' [[a' c'] | ?]] eqn:Ec; [| done]. intros [= <- <-].
  destruct (perform_run _ _ _ _ _ _ _ _ _ H64 Ec) as (rb & c2 & Hask & -> & _).
  pose proof (asked_memory _ _ _ _ _ _ _ _ _ Hask Hp) as Em. destruct Hask as [_ (sv & w & b & _ & W1 & _ & W2 & W3) _ _ _ _].
  do 3 eexists. cbn [fst]. rewrite Ec. eapply delivered; [exact Ec | exact W1 | exact W3 | | exact Es |].
  - unfold datagram. cbn [sge_length]. change (Client.mem_of (Client.free_recv rb c2) (s_wr_id w)) with (Client.mem_of c2 (s_wr_id w)). rewrite W2, Em.
    replace (Z.to_nat _) with (16 + length (op_key o) + length (sent_val o))%nat by lia. apply load_cut, load_length.
  - apply load_cut, load_length.
Qed.

Lemma exchange_in_sound fuel e es im o x a y : len (op_key o) + len (op_val o) < 2 ^ 64 ->
  Infiniband.root_ (Client.send_bufs_ x.1) <> Infiniband.root_ (Client.recv_bufs_ x.1) ->
  exchange_in fuel e es im o x = Some (a, y) -> exchange fuel o a x y.
Proof. intros H64 Hp H. destruct (delivery_in_sound _ _ _ _ _ _ _ _ H64 Hp H) as (arrived & w & request & Hd). by do 4 eexists. Qed.

Definition server_example : ServerInfo := mkServerInfo 0 true "10.0.0.1" (Infiniband.mkAddress 1 7 11) [0; 1].
Definition map_example : IndexManager := mkIndex [0; 2] (replicate 4 (mkTabletInfo 0 0 false [] [1])) (replicate 2 server_example).
Definition buffer_example (a : Z) (recv : bool) : Infiniband.Buffer :=
  Infiniband.mkBuffer 0 (4096 + 100 * a) 1152 0 (mkMr 1 1 1) Infiniband.no_address recv.
Definition client_example : Client.t :=
  Client.mkClient map_example (Infiniband.mkIb 1 2 (mkMr 3 3 3) 4 5 ∅) {[48 := buffer_example 48 false; 96 := buffer_example 96 true]} ∅
    (Infiniband.mkPool Client_kSendBufSize 1 4096 48 48) (Infiniband.mkPool Client_kRecvBufSize 1 8192 96 96)
    (Infiniband.mkQueuePair IBV_QPT_UD (mkQp 5 IBV_QPT_UD) 10 11 33) 0.
Definition tablet_example : Server.tablet := Server.mkTab t1_example tab_example.

(** The device of the client: everything completes at once. *)
Definition client_env : env := fun h c =>
  match c return reply c with
  | ibv_poll_cq cq _ => Polled [mkWc (if cq =? 11 then 96 else 48) IBV_WC_SUCCESS false 0 5 0 0]
  | c => loopback h c
  end.

Definition put_example : op := mkOp Request.PUT k_example v_example.
Definition get_example : op := mkOp Request.GET k_example [].

Definition two_exchanges : option (list answer) :=
  match exchange_in 5 client_env obliging im_example put_example (client_example, tablet_example) with
  | Some (a, x) => match exchange_in 5 client_env obliging im_example get_example x with Some (b, _) => Some [a; b] | None => None end
  | None => None
  end.
Example two_exchanges_run : two_exchanges = Some [Said true; Gave v_example].
Proof. vm_compute. reflexivity. Qed.

Lemma ready_example : ready 5 2 client_example tablet_example (fun _ => []).
Proof. split; [exact holds_example | done | cbn; lia | done]. Qed.

Lemma put_example_fits : op_fits put_example.
Proof. intros _. exact (example_fits Request.PUT). Qed.

Lemma get_example_fits : op_fits get_example.
Proof. by intros [H | H]. Qed.

Lemma exchanges_example : exists c tb,
  exchanges 5 [(put_example, Said true); (get_example, Gave v_example)] (client_example, tablet_example) (c, tb).
Proof.
  pose proof two_exchanges_run as E. unfold two_exchanges in E.
  destruct (exchange_in _ _ _ _ put_example _) as [[a [c1 tb1]]|] eqn:E1; [| done].
  destruct (exchange_in _ _ _ _ get_example _) as [[b [c2 tb2]]|] eqn:E2; [| done]. injection E as -> ->.
  apply exchange_in_sound in E1; [| done | done].
  destruct (exchange_map _ _ _ _ _ _ _ _ _ ready_example put_example_fits ltac:(done) E1) as (B1 & R1 & _).
  apply exchange_in_sound in E2; [| done | exact (rd_pools _ _ _ _ _ R1)].
  exists c2, tb2. eapply more_exchanges; [exact E1 |]. eapply more_exchanges; [exact E2 | apply no_exchange].
Qed.

Lemma client_sees_a_map_witness : exists c tb B',
  exchanges 5 [(put_example, Said true); (get_example, Gave v_example)] (client_example, tablet_example) (c, tb) /\
  holds (Server.heap tb) B' /\ dict B' k_example = Some v_example.
Proof.
  destruct exchanges_example as (c & tb & Hx). exists c, tb.
  destruct (client_sees_a_map 5 [(put_example, Said true); (get_example, Gave v_example)] client_example tablet_example c tb (fun _ => [])
    ready_example) as (B' & HB & _ & Hd).
  - apply list.Forall_cons. split; [split; [exact put_example_fits | reflexivity] |].
    apply list.Forall_singleton. split; [exact get_example_fits | reflexivity].
  - exact Hx.
  - exists B'. split; [exact Hx |]. split; [exact HB |]. rewrite Hd. reflexivity.
Defined.
