(* ===== verification/Cluster.v ===== *)
(** * How a cluster forms

    The servers ask to join, the coordinator answers when the last has asked,
    and everyone reads the same map from the answers.  Of the JSON library the
    proofs use that a value that was written is read back, up to the order of
    members. *)

From stdpp Require Import countable.
From S2P Require Import Prelude Wire Verbs Infiniband Index IndexSpec Message Session Coordinator Join.
#[local] Open Scope Z_scope.
Import IndexManager Message Coordinator.

#[local] Abbreviation joined2 := (joined kNumReplicas kNumServers kNumTabletsPerServer).
#[local] Abbreviation shaped2 := (shaped kNumReplicas kNumServers kNumTabletsPerServer).

(** What a server says of itself, with values its types can hold. *)
Definition join_valid (x : join) : Prop :=
  join_ok kNumReplicas kNumTabletsPerServer x /\ Address_ok (j_ib_addr x) /\ Forall QueuePairInfo_ok (j_qpis x).

Lemma one_of_two {A} (l : list A) n x : length l = 2%nat -> l !! n = Some x -> n = 0%nat \/ n = 1%nat.
Proof. intros Hl Hn%lookup_lt_Some. lia. Qed.

Lemma single {A} (l : list A) x : length l = 1%nat -> l !! 0%nat = Some x -> l = [x].
Proof. intros Hl Hx. destruct l as [|y [|]]; try done. by injection Hx as ->. Qed.

Section Joined.
Variables (js : list join) (st : IndexManager.state).
Hypothesis Hj : joined2 js st.
Hypothesis Hl : length js = 2%nat.
Hypothesis Hv : Forall join_valid js.

Lemma tablet_holdable i j : 0 <= i < 2 -> 0 <= j < 2 ->
  exists t, tablets_ (index st) !! Z.to_nat (2 * i + j) = Some t /\ TabletInfo_ok t.
Proof.
  intros Hi Hj2. destruct (lookup_lt_is_Some_2 js (Z.to_nat i)) as [x Hx]; [lia |].
  pose proof (list.Forall_lookup_1 _ _ _ _ Hv Hx) as (Hq & _ & Hf). unfold join_ok in Hq.
  destruct (jd_layouts _ _ _ _ _ Hj _ _ j 0 Hx ltac:(unfold kNumReplicas; lia) ltac:(done)) as [(t & Ht & T1 & T2 & T3 & T4 & T5) _ _ _].
  pose proof (sh_peers _ _ _ _ (jd_shaped _ _ _ _ _ Hj) _ _ Ht) as Hp. change (Z.to_nat kNumReplicas) with 1%nat in Hp, T4.
  unfold tid in Ht. rewrite Z2Nat.id in Ht, T1, T2, T5 by lia. exists t.
  pose proof calc_configured as HC.
  rewrite !HC in Ht, T1 by lia. split; [done |].
  assert (exists w, t_peers t !! 0%nat = Some w /\ u_range 32 w) as (w & Hw & Hr).
  { assert (j = 0 \/ j = 1) as [-> | ->] by lia.
    - destruct (server_layout _ _ i Hj Hl ltac:(lia)) as (sv & t' & b & _ & Ht' & _ & _ & _ & _ & _ & _ & Hb & _).
      rewrite Z.add_0_r in Ht. rewrite Ht in Ht'. injection Ht' as <-. exists (3 - 2 * i). split; [exact Hb | split; lia].
    - specialize (T5 ltac:(lia)). assert (0 <= master_of kNumServers i 1 < 2) by (apply Z.mod_pos_bound; lia).
      rewrite HC in T5 by lia. eexists. split; [exact T5 | split; lia]. }
  change (kNumTabletsPerServer * (1 + kNumReplicas) * kNumReplicas) with 2 in Hq.
  unfold TabletInfo_ok. rewrite T1, T2, T4, (single _ _ Hp Hw), HC by lia. change kNumReplicas with 1. split_and!; try (split; lia).
  - rewrite length_take, length_drop. lia.
  - by apply list.Forall_take, list.Forall_drop.

  - by apply list.Forall_singleton.
Qed.

(** The map of a cluster in which everyone has joined can be written as JSON
    and read back. *)
Lemma joined_holdable : IndexManager_ok (index st).
Proof.
  pose proof Hj as [_ [M1 M2 M3 M4] Hh _].
  change (Z.to_nat (kNumTabletsPerServer * kNumServers)) with 2%nat in M1.
  change (Z.to_nat (kNumTabletsPerServer * (1 + kNumReplicas) * kNumServers)) with 4%nat in M2. change (Z.to_nat kNumServers) with 2%nat in M3.
  unfold IndexManager_ok. rewrite M1, M2, M3. split_and!; try done; apply list.Forall_lookup_2; intros n y Hy.
  - destruct (server_layout _ _ 0 Hj Hl ltac:(by left)) as (_ & _ & _ & _ & _ & E0 & _).
    destruct (server_layout _ _ 1 Hj Hl ltac:(by right)) as (_ & _ & _ & _ & _ & E1 & _).
    change (Z.to_nat 0) with 0%nat in E0. change (Z.to_nat 1) with 1%nat in E1.
    destruct (one_of_two _ _ _ M1 Hy) as [-> | ->]; [rewrite E0 in Hy | rewrite E1 in Hy]; injection Hy as <-; split; lia.
  - apply lookup_lt_Some in Hy as Hn. rewrite M2 in Hn.
    destruct (tablet_holdable (Z.of_nat n / 2) (Z.of_nat n mod 2)) as (t & Ht & Ho).
    + split; [apply Z.div_pos; lia | apply Z.div_lt_upper_bound; lia].
    + apply Z.mod_pos_bound. lia.
    + rewrite <- Z.div_mod, Nat2Z.id, Hy in Ht by lia. by injection Ht as ->.
  - destruct (lookup_lt_is_Some_2 js n) as [x Hx]; [apply lookup_lt_Some in Hy; lia |].
    destruct (Hh _ _ Hx) as (sv & Hsv & S1 & _ & _ & S4 & S5). rewrite Hy in Hsv. injection Hsv as <-.
    pose proof (list.Forall_lookup_1 _ _ _ _ Hv Hx) as (_ & Ha & _). unfold ServerInfo_ok. rewrite S1, S4, S5.
    assert (n = 0 \/ n = 1)%nat as Hn by (apply lookup_lt_Some in Hx; lia).
    split_and!; try done; [split; lia |].
    change (Z.to_nat (kNumTabletsPerServer * (1 + kNumReplicas))) with 2%nat in S5.
    apply list.Forall_lookup_2. intros k v Hk.
    apply lookup_lt_Some in Hk as Hk2. rewrite S5 in Hk2.
    destruct (jd_layouts _ _ _ _ _ Hj _ _ (Z.of_nat k) 0 Hx ltac:(unfold kNumReplicas; lia) ltac:(done)) as [_ _ _ (sv' & Hsv' & Ht)].
    rewrite Nat2Z.id, Hy in Hsv'. injection Hsv' as <-. unfold tid in Ht. rewrite !calc_configured in Ht by lia.
    rewrite Z.mul_0_r, Z.add_0_l, Nat2Z.id, Hk in Ht. injection Ht as ->. split; lia.
Qed.
End Joined.

(** The map of a cluster in which both servers have joined, as the coordinator
    makes it. *)
Definition formed (im : IndexManager) : Prop := exists js st, IndexManager.index st = im /\
  joined2 js st /\ length js = 2%nat /\ Forall join_valid js.

Lemma map_formed : formed formed_example.
Proof.
  destruct (AddServer_run kNumReplicas kNumServers kNumTabletsPerServer ltac:(done) ltac:(done) ltac:(done) ltac:(done) [] join_a blank blank_joined
    ltac:(done) ltac:(done)) as (sv & st & E1 & J1 & _).
  destruct (AddServer_run kNumReplicas kNumServers kNumTabletsPerServer ltac:(done) ltac:(done) ltac:(done) ltac:(done) _ join_b st J1
    ltac:(done) ltac:(done)) as (sv' & st' & E2 & J2 & _).
  exists [join_a; join_b], st'. split; [unfold formed_example; by rewrite E1, E2 |]. split; [exact J2 |]. split; [done |].
  constructor; [| constructor; [| done]]; (split; [discriminate |]); cbn; unfold Address_ok, QueuePairInfo_ok, u_range;
    repeat constructor; cbn; discriminate || reflexivity.
Qed.

(** In a formed cluster every hash but the largest 1024 has a server, and the
    server is the master of the tablet the hash goes to. *)
Lemma formed_serves im h : formed im -> 0 <= h < 2 ^ 64 -> h < 2 ^ 64 - 1024 ->
  exists i sv, 0 <= i < 2 /\ GetTabletId im h tt = Ok (2 * i) tt /\ servers_ im !! Z.to_nat i = Some sv /\ s_id sv = i /\ GetServer im h tt = Ok sv tt.
Proof.
  intros (js & st & <- & Hj & Hl & _) Hh Hlt.
  assert (exists i, (i = 0 \/ i = 1) /\ GetTabletId (index st) h tt = Ok (2 * i) tt) as (i & Hi & Ei).
  { rewrite (GetTabletId_cases _ tt 0 2 h); [| by eapply joined_map | done]. rewrite (proj2 (Z.ltb_lt h (2 ^ 64 - 1024)) Hlt).
    destruct (h <? 2 ^ 63 - 512); [exists 0 | exists 1]; auto. }
  destruct (server_layout _ _ i Hj Hl Hi) as (sv & t & b & E1 & E2 & _ & E4 & _ & _ & E7 & _). exists i, sv. split_and!; try done; [lia | lia |].
  unfold GetServer, GetServerId, GetTablet_by_hash, GetTablet, GetServer_by_id.
  rewrite !bind_assoc, (bind_Ok _ _ _ _ _ Ei). unfold bind. rewrite (at_Some _ (2 * i) t) by (done || lia). unfold ret. rewrite E7.
  rewrite (at_Some _ i sv) by (done || lia). by rewrite E4, Z.eqb_refl.
Qed.

Lemma formed_route im h sv : formed im -> 0 <= h < 2 ^ 64 -> GetServer im h tt = Ok sv tt ->
  exists i, servers_ im !! Z.to_nat i = Some sv /\ s_id sv = i /\ 0 <= i /\ GetTabletId im h tt = Ok (2 * i) tt.
Proof.
  intros Hf Hh Hs. destruct (Z.lt_ge_cases h (2 ^ 64 - 1024)) as [Hlt | Hge].
  - destruct (formed_serves im h Hf Hh Hlt) as (i & sv' & Hi & E1 & E2 & E3 & E4). rewrite Hs in E4. injection E4 as <-. exists i. split_and!; done || lia.
  - exfalso. destruct Hf as (js & st & <- & Hj & Hl & _). unfold GetServer, GetServerId, GetTablet_by_hash in Hs.
    apply bind_inv_Ok in Hs as (id & [] & Hs & _). apply bind_inv_Ok in Hs as (t & [] & Hs & _). apply bind_inv_Ok in Hs as (tid & [] & Hs & _).
    rewrite (GetTabletId_cases _ tt 0 2 h) in Hs; [| by eapply joined_map | done].
    by rewrite (proj2 (Z.ltb_ge h (2 ^ 63 - 512))), (proj2 (Z.ltb_ge h (2 ^ 64 - 1024))) in Hs by lia.
Qed.

(** ** The requests, and the answers *)

Section Forming.
Variables (parse : list Init.Byte.byte -> option json) (dump : json -> list Init.Byte.byte) (peer : Z -> nat -> option string).
Hypothesis read_back : forall j, exists j', parse (dump j) = Some j' /\ same j j'.

#[local] Abbreviation Handle := (HandleRecvMessage parse dump peer).

(** What a server asks with, and what it is told. *)
Definition request_of (size : Z) (x : join) : Message.t := Join.join_request dump size (j_ib_addr x) (j_qpis x).

Record asks (session size : Z) (x : join) : Prop := {
  as_addr : forall k, peer session k = Some (j_addr x); as_size : u_range 64 size; as_valid : join_valid x }.

Definition answers (m : Message.t) (i : Z) (im : IndexManager) : Prop :=
  sender_type (header m) = SenderType_code COORDINATOR /\ type (header m) = Type_code RES_JOIN /\
  exists j, parse (body m) = Some j /\ at_key j "id" get_u32 = Some i /\ at_key j "index_manager" from_json = Some im.

Lemma get_vector_json `{Json A} l : Forall holdable l -> get_vector from_json (Arr (map to_json l)) = Some l.
Proof. induction 1 as [|a l Ha _ IH]; [done |]. cbn in *. by rewrite (from_to _ Ha), IH. Qed.

(** The body of a request, read field by field. *)
Lemma request_body session size x : asks session size x -> exists j, parse (body (request_of size x)) = Some j /\
  at_key j "size" get_u64 = Some size /\ at_key j "ib_addr" from_json = Some (j_ib_addr x) /\
  at_key j "tablet_qpis" (get_vector from_json) = Some (j_qpis x).
Proof.
  intros [_ H2 (_ & Ha & Hq)]. destruct (read_back (Join.join_body size (j_ib_addr x) (j_qpis x))) as (j & E & Hs). exists j. split; [exact E |].
  rewrite <- !(at_key_same _ _ Hs) by apply _. unfold Join.join_body.
  split_and!; erewrite at_key_Some; try reflexivity; [by apply get_u64_Num | by apply from_to | by apply get_vector_json].
Qed.

Lemma need_Some {S A B} (o : option A) a (k : A -> M S B) s : o = Some a -> bind (need o) k s = k a s.
Proof. by intros ->. Qed.

Lemma GetPeerAddr_Some {S B} session n a (k : string -> M S B) s : peer session n = Some a -> bind (GetPeerAddr peer session n) k s = k a s.
Proof. unfold GetPeerAddr, bind. by intros ->. Qed.

(** The state after one more server. *)
Definition admitted (session size : Z) (im : IndexManager.state) (c : state) : state :=
  mkState (num_servers_ c + 1) (u64 (total_storage_ c + size)) im (sessions_ c ++ [session]) (out c) (again c).

Lemma server_joins session size x js c : asks session size x -> joined2 js (index_manager_ c) ->
  num_servers_ c = Z.of_nat (length js) -> (length js < 2)%nat ->
  exists im, joined2 (js ++ [x]) im /\
    Handle session (request_of size x) c =
      if Z.of_nat (length js) + 1 =? kNumServers then ResponseAllJoins dump (admitted session size im c)
      else Ok tt (admitted session size im c).
Proof.
  intros Hx Hj Hn Hl. destruct (request_body _ _ _ Hx) as (j & E1 & E2 & E3 & E4). pose proof Hx as [H1 _ (H3 & _)].
  destruct (AddServer_run kNumReplicas kNumServers kNumTabletsPerServer ltac:(done) ltac:(done) ltac:(done) ltac:(done) js x _ Hj H3)
    as (sv & im & E & Hj' & _); [unfold kNumServers; lia |].
  exists im. split; [done |].
  change (Handle session (request_of size x) c) with (HandleServerRequestJoin parse dump peer session (request_of size x) c).
  unfold HandleServerRequestJoin. rewrite (need_Some _ _ _ _ E1), (need_Some _ _ _ _ E2), (GetPeerAddr_Some _ _ _ _ _ (H1 _)). unfold gets, bind at 1.
  rewrite (proj2 (Z.leb_gt kNumServers (num_servers_ c))) by (unfold kNumServers; lia).
  rewrite (GetPeerAddr_Some _ _ _ _ _ (H1 _)), (need_Some _ _ _ _ E3), (need_Some _ _ _ _ E4). unfold on_index, bind at 1. rewrite E. unfold modify, bind at 1. cbn [num_servers_ set_index total_storage_ index_manager_ sessions_ out again].
  rewrite u32_small by (rewrite Hn; lia). unfold bind at 1. cbn [num_servers_].
  assert ((num_servers_ c + 1 <=? kNumServers) = true) as Hle by (apply Z.leb_le; unfold kNumServers; lia).
  rewrite assert_true by done. unfold admitted. rewrite <- Hn. by destruct (_ =? kNumServers).
Qed.

Lemma ignored session size x c : asks session size x -> num_servers_ c = kNumServers -> Handle session (request_of size x) c = Ok tt c.
Proof.
  intros Hx Hn. destruct (request_body _ _ _ Hx) as (j & E1 & E2 & _).
  change (Handle session (request_of size x) c) with (HandleServerRequestJoin parse dump peer session (request_of size x) c).
  unfold HandleServerRequestJoin. rewrite (need_Some _ _ _ _ E1), (need_Some _ _ _ _ E2), (GetPeerAddr_Some _ _ _ _ _ (as_addr _ _ _ Hx _)). unfold gets, bind. by rewrite Hn.
Qed.

Lemma answer_reads i im : u_range 32 i -> IndexManager_ok im -> answers (New res_join (dump (join_answer i im))) i im.
Proof.
  intros Hi Hm. split; [done |]. split; [done |]. destruct (read_back (join_answer i im)) as (j & E & Hs). exists j. split; [exact E |].
  rewrite <- !(at_key_same _ _ Hs) by apply _. unfold join_answer.
  split; erewrite at_key_Some; try reflexivity; [by apply get_u32_Num | by apply from_to].
Qed.

(** What a client is answered, and that it takes it for the map. *)
Definition client_answer (im : IndexManager) : Message.t := New res_join (dump (Obj [("index_manager", to_json im)]%string)).

Lemma client_reads im o : IndexManager_ok im -> sendable (client_answer im) ->
  Join.Client_Join parse dump (Session.mkConn (encode (client_answer im)) o true) = Verbs.Ret im.
Proof.
  intros Hm Hs. unfold Join.Client_Join, Server.Server.lift. rewrite SendMessage_run. cbn [pbind snd fst].
  rewrite <- (app_nil_r (encode (client_answer im))), (RecvMessage_run _ _ _ _ Hs). cbn [pbind snd fst].
  destruct (read_back (Obj [("index_manager", to_json im)]%string)) as (j & E & Hj). cbn [body client_answer New]. rewrite E.
  cbn. rewrite <- (at_key_same _ _ Hj) by apply _. by erewrite at_key_Some; [| reflexivity | exact (from_to im Hm)].
Qed.
Lemma ResponseAllJoins_run a b c : sessions_ c = [a; b] ->
  let answer i := New res_join (dump (join_answer i (index (index_manager_ c)))) in
  ResponseAllJoins dump c = Ok tt (mkState (num_servers_ c) (total_storage_ c) (index_manager_ c) []
    (out c ++ [(a, answer 0); (b, answer 1)]) (again c)).
Proof.
  intros Hs answer. unfold ResponseAllJoins, gets, bind at 1. rewrite Hs. rewrite assert_true by done. cbn.
  by rewrite <- app_assoc.
Qed.

(** C30. The coordinator of an empty cluster answers nobody until both servers
    have asked: a client that is too early stops it.  With the second request
    the map describes both servers in the order they asked, and each is told
    its number and that map, which its JSON reader gives back unchanged.  From
    then on another server is ignored, and a client that asks gets the map:
    [Client::Join] returns it from the bytes of the answer.  Those who ask stay
    connected while they are served. *)
Theorem cluster_forms im a b size_a size_b xa xb : joined2 [] (IndexManager.mkState 0 im) ->
  asks a size_a xa -> asks b size_b xb ->
  exists c1 c2 ma mb,
    Handle a (request_of size_a xa) (start im) = Ok tt c1 /\ out c1 = [] /\
    (forall session, Handle session (Join.client_request dump) c1 = Err AssertFail c1) /\
    Handle b (request_of size_b xb) c1 = Ok tt c2 /\ out c2 = [(a, ma); (b, mb)] /\
    total_storage_ c2 = u64 (size_a + size_b) /\ joined2 [xa; xb] (index_manager_ c2) /\
    answers ma 0 (index (index_manager_ c2)) /\ answers mb 1 (index (index_manager_ c2)) /\
    (forall session size x, asks session size x -> Handle session (request_of size x) c2 = Ok tt c2) /\
    (forall session, is_Some (peer session 0) -> let m := client_answer (index (index_manager_ c2)) in
       Handle session (Join.client_request dump) c2 =
         Ok tt (mkState (num_servers_ c2) (total_storage_ c2) (index_manager_ c2) [] (out c2 ++ [(session, m)]) []) /\
       (sendable m -> Join.Client_Join parse dump (Session.mkConn (encode m) [] true) = Verbs.Ret (index (index_manager_ c2)))).
Proof using read_back.
  intros H0 Ha Hb. destruct (server_joins a size_a xa [] (start im) Ha H0 eq_refl ltac:(cbn; lia)) as (im1 & J1 & E1).
  destruct (server_joins b size_b xb [xa] (admitted a size_a im1 (start im)) Hb J1 eq_refl ltac:(cbn; lia)) as (im2 & J2 & E2).
  change (_ =? kNumServers) with false in E1. change (_ =? kNumServers) with true in E2. rewrite (ResponseAllJoins_run a b) in E2 by done.
  assert (IndexManager_ok (index im2)) as Hok.
  { apply (joined_holdable _ _ J2 eq_refl). apply list.Forall_cons. split; [apply Ha | apply list.Forall_singleton, Hb]. }
  eexists _, _, _, _. split; [exact E1 |]. split; [done |]. split; [done |]. split; [exact E2 |].
  split; [reflexivity |]. split_and!; try done.
  - cbn. pose proof (as_size _ _ _ Ha) as R. change (0 + size_a) with size_a. by rewrite (u64_small size_a).
  - apply answer_reads; [split; lia | exact Hok].
  - apply answer_reads; [split; lia | exact Hok].
  - intros session size x Hx. by apply ignored.
  - intros session [addr Ha0] m. split; [| by apply client_reads]. cbn. unfold GetPeerAddr, bind, ret, gets. cbn. by rewrite Ha0.
Qed.
End Forming.

(** ** An instance of the library, and two servers *)

(** A value as a tree, and back. *)
Fixpoint to_tree (j : json) : gen_tree (bool + Z + string) :=
  match j with
  | Null => GenNode 0 []
  | Bool b => GenLeaf (inl (inl b))
  | Num z => GenLeaf (inl (inr z))
  | Str s => GenLeaf (inr s)
  | Arr l => GenNode 1 (map to_tree l)
  | Obj l => GenNode 2 (map (fun kj => GenNode 3 [GenLeaf (inr kj.1); to_tree kj.2]) l)
  end.

Fixpoint of_tree (t : gen_tree (bool + Z + string)) : json :=
  match t with
  | GenLeaf (inl (inl b)) => Bool b
  | GenLeaf (inl (inr z)) => Num z
  | GenLeaf (inr s) => Str s
  | GenNode 1 l => Arr (map of_tree l)
  | GenNode 2 l => Obj (map (fun t => match t with GenNode _ [GenLeaf (inr k); t'] => (k, of_tree t') | _ => (""%string, Null) end) l)
  | GenNode _ _ => Null
  end.

Lemma of_to_tree : forall j, of_tree (to_tree j) = j.
Proof.
  fix IH 1. intros [| b | z | s | l | l]; cbn; try done; f_equal.
  - induction l as [|x l IHl]; cbn; [done |]. by rewrite IH, IHl.
  - induction l as [|[k x] l IHl]; cbn; [done |]. by rewrite IH, IHl.
Qed.

(** Bytes for a number, one for each binary digit. *)
Fixpoint digits (p : positive) : list Init.Byte.byte :=
  match p with xH => [] | xO p => Byte.x30 :: digits p | xI p => Byte.x31 :: digits p end.
Fixpoint number (l : list Init.Byte.byte) : positive :=
  match l with [] => xH | b :: l => if decide (b = Byte.x31) then xI (number l) else xO (number l) end.

Lemma number_digits p : number (digits p) = p.
Proof. induction p as [p IH | p IH |]; cbn; by rewrite ?IH. Qed.

Definition dump_example (j : json) : list Init.Byte.byte := digits (countable.encode (to_tree j)).
Definition parse_example (l : list Init.Byte.byte) : option json := of_tree <$> countable.decode (number l).

Lemma read_back_example j : exists j', parse_example (dump_example j) = Some j' /\ same j j'.
Proof. exists j. unfold parse_example, dump_example. rewrite number_digits, decode_encode. cbn. by rewrite of_to_tree. Qed.

Definition peer_example (session : Z) (_ : nat) : option string := Some (if session =? 1 then "10.0.0.1"%string else "10.0.0.2"%string).

Lemma asks_examples : asks peer_example 1 4096 join_a /\ asks peer_example 2 4096 join_b.
Proof.
  split; (split; [reflexivity | split; [discriminate | reflexivity] |]); (split; [discriminate |]); cbn;
    unfold Address_ok, QueuePairInfo_ok, u_range; repeat constructor; cbn; discriminate || reflexivity.
Qed.

Lemma cluster_forms_witness : exists c1 c2,
  HandleRecvMessage parse_example dump_example peer_example 1 (request_of dump_example 4096 join_a) (start blank_index) = Ok tt c1 /\
  HandleRecvMessage parse_example dump_example peer_example 2 (request_of dump_example 4096 join_b) c1 = Ok tt c2 /\
  joined2 [join_a; join_b] (index_manager_ c2) /\ map fst (out c2) = [1; 2].
Proof.
  destruct (cluster_forms parse_example dump_example peer_example read_back_example blank_index 1 2 4096 4096 join_a join_b
    blank_joined (proj1 asks_examples) (proj2 asks_examples)) as (c1 & c2 & ma & mb & E1 & _ & _ & E2 & Ho & _ & Hj & _).
  exists c1, c2. split; [exact E1 |]. split; [exact E2 |]. split; [exact Hj |]. rewrite Ho. reflexivity.
Defined.
