(* ===== verification/ClientRules.v ===== *)
(** * The client keeps the rules of the verbs

    A thread of the load generator, from setting up its device to taking it
    down again, under any device, network and server. *)

From S2P Require Import Prelude Nvm Wire Verbs Protocol Parallel Infiniband Endpoint Hash Index IndexSpec Message Session Server Join Client ClientMain ClientSpec Cluster.

#[local] Open Scope prog_scope.

#[local] Abbreviation ks := Client_kSendBufSize.
#[local] Abbreviation kr := Client_kRecvBufSize.
#[local] Abbreviation len l := (Z.of_nat (length l)).
#[local] Abbreviation hash_of k := (Hash.Hash k (len k)).

(** What a client has to release when it ends. *)
Definition debts (d : device) (st : Infiniband.bufs) (ib : Infiniband.t) (s r : Infiniband.RegisteredBuffers) : Prop :=
  exists bs br, st !! Infiniband.bufs_ s = Some bs /\ st !! Infiniband.bufs_ r = Some br /\
    owns d [Infiniband.bufs_ r; Infiniband.ptr_ r; Infiniband.bufs_ s; Infiniband.ptr_ s; Infiniband.raw_mem_ ib]
      [mr_ptr (Infiniband.b_mr br); mr_ptr (Infiniband.b_mr bs); mr_ptr (Infiniband.mr_ ib)].

(** Between two operations: nothing is posted. *)
Record client_ok (d : device) (c : Client.t) : Prop := {
  co_ep : exists n, endpoint Client.kMaxIBQueueDepth d (Client.qp_ c) IBV_QPS_RTS [] [] n;
  co_store : store_ok ks kr d (Client.bufs c);
  co_send : names false (Client.bufs c) (Infiniband.root_ (Client.send_bufs_ c));
  co_recv : names true (Client.bufs c) (Infiniband.root_ (Client.recv_bufs_ c));
  co_debts : debts d (Client.bufs c) (Client.ib_ c) (Client.send_bufs_ c) (Client.recv_bufs_ c) }.

(** The map has a server for the key. *)
Definition routed (im : IndexManager) (key : list Init.Byte.byte) : Prop :=
  exists sv, IndexManager.GetServer im (hash_of key) tt = Ok sv tt.

Lemma debts_keep d d' st st' ib ib' s s' r r' : same_memory d d' -> same_kinds st st' ->
  Infiniband.raw_mem_ ib' = Infiniband.raw_mem_ ib -> Infiniband.mr_ ib' = Infiniband.mr_ ib ->
  Infiniband.bufs_ s' = Infiniband.bufs_ s -> Infiniband.ptr_ s' = Infiniband.ptr_ s ->
  Infiniband.bufs_ r' = Infiniband.bufs_ r -> Infiniband.ptr_ r' = Infiniband.ptr_ r ->
  debts d st ib s r -> debts d' st' ib' s' r'.
Proof.
  unfold debts. intros [Em Eh] Hk -> -> -> -> -> -> (bs & br & Hs & Hr & [O1 O2 O3 O4]).
  pose proof (Hk (Infiniband.bufs_ s)) as K1. pose proof (Hk (Infiniband.bufs_ r)) as K2. rewrite Hs in K1. rewrite Hr in K2.
  destruct (st' !! Infiniband.bufs_ s) as [bs' |]; [| done]. destruct (st' !! Infiniband.bufs_ r) as [br' |]; [| done].
  injection K1 as _ E1. injection K2 as _ E2. exists bs', br'. split; [done |]. split; [done |]. rewrite E1, E2.
  split; [done | by rewrite Eh | done | by rewrite Em].
Qed.

Lemma same_kinds_trans st st' st'' : same_kinds st st' -> same_kinds st' st'' -> same_kinds st st''.
Proof. intros H1 H2 a. by rewrite H2. Qed.

Lemma alloc_spec d st rc pool a pool' : Infiniband.Alloc st pool = (a, pool') -> store_ok ks kr d st ->
  names rc st (Infiniband.root_ pool) -> names rc st a /\ names rc st (Infiniband.root_ pool') /\
  Infiniband.bufs_ pool' = Infiniband.bufs_ pool /\ Infiniband.ptr_ pool' = Infiniband.ptr_ pool.
Proof.
  intros E Hs Hn. pose proof (names_next _ _ _ _ _ _ Hs Hn) as Hn'. rewrite E in Hn'. unfold Infiniband.Alloc in E. injection E as <- E'.
  split; [done |]. split; [done |]. rewrite <- E'. destruct (st !! _); [| done]. by destruct (_ =? 0).
Qed.

Lemma safe_lift {S A B} E d (c : M S A) s (k : A * S -> prog B) Q :
  (forall a s', c s = Ok a s' -> safe d (k (a, s')) Q E) -> (forall e s', c s = Err e s' -> E (Fault e) d) ->
  safe d (pbind (Server.lift c s) k) Q E.
Proof. intros Ho He. unfold Server.lift. destruct (c s) as [a s' | e s'] eqn:Ec; [by apply Ho | by eapply He]. Qed.

Lemma safe_deref {B} P d c a b (k : Infiniband.Buffer -> prog B) Q : Client.bufs c !! a = Some b ->
  safe d (k b) Q (orderly P) -> safe d (pbind (Client.deref c a) k) Q (orderly P).
Proof. intros Hb Hk. unfold Client.deref. by rewrite Hb. Qed.

(** One message and its answer: the answer is in a receive buffer, which is
    the one the code asserts it to be. *)
Lemma safe_RequestAndWait {B} P fuel arrived key val val_len v ty d c (k : Z * Client.t -> prog B) Q : client_ok d c ->
  given val val_len v -> len key + val_len < 2 ^ 64 -> (~ routed (Client.index_manager_ c) key -> P) ->
  (forall rb b c' d', client_ok d' c' -> Client.bufs c' !! rb = Some b -> Infiniband.is_recv b = true ->
    Client.index_manager_ c' = Client.index_manager_ c -> safe d' (k (rb, c')) Q (orderly P)) ->
  safe d (pbind (Client.RequestAndWait fuel arrived key (len key) val val_len ty c) k) Q (orderly P).
Proof.
  intros [[n H1] H2 H3 H4 H5] Hg H64 HP Hk. assert (val_len = len v) as Ev by (destruct Hg as [[_ ?] | (_ & -> & ->)]; done).
  unfold Client.RequestAndWait. vassoc. apply safe_check; [done |]. intros Hs%Z.leb_le. rewrite u64_small in Hs by lia. rewrite Ev in Hs.
  vassoc. apply safe_lift; [intros sv [] Hsv | intros e [] He Ee; apply HP; intros [sv Hsv]; congruence]. cbn [fst].
  destruct (Infiniband.Alloc (Client.bufs c) (Client.send_bufs_ c)) as [sb sp] eqn:Esb.
  destruct (alloc_spec _ _ _ _ _ _ Esb H2 H3) as (S1 & S2 & S3 & S4).
  vassoc. apply safe_check; [done |]. intros Hsb%negb_true_iff%Z.eqb_neq.
  vassoc. apply safe_lift; [| intros e m He; rewrite (New_given _ _ _ _ _ v Hg Hs) in He; done].
  intros [] m Hm. rewrite (New_given _ _ _ _ _ v Hg Hs) in Hm. injection Hm as Hm. cbn [fst snd].
  assert (Request.ReqLen (Request.MakeRequest m 0 ks) <= ks) as Hlen.
  { rewrite <- Hm. match goal with |- context [built ?m0 0 ty key v _] =>
      destruct (built_read m0 0 ks ty key v (hash_of key)) as (_ & R1 & R2 & _) end;
      [unfold kMaxItemSize in Hs; lia.. | apply Hash.Hash_range | unfold ks, kMaxItemSize in *; lia |].
    unfold Request.ReqLen. rewrite R1, R2. unfold kMaxItemSize, Request.sizeof_Request, ks in *. lia. }
  clear Hm. set (r := Request.MakeRequest m 0 ks) in *. cbn [Client.with_send Client.with_mem Client.recv_bufs_ Client.bufs].
  destruct (Infiniband.Alloc (Client.bufs c) (Client.recv_bufs_ c)) as [rb rp] eqn:Erb.
  destruct (alloc_spec _ _ _ _ _ _ Erb H2 H4) as (R1 & R2 & R3 & R4).
  vassoc. apply safe_check; [done |]. intros Hrb%negb_true_iff%Z.eqb_neq.
  destruct S1 as [? | (x & Hx & Kx)]; [done |]. destruct R1 as [? | (y & Hy & Ky)]; [done |].
  set (c1 := Client.with_recv _ _ _). vassoc. apply (safe_deref _ _ c1 rb y); [exact Hy |].
  destruct (so_bufs _ _ _ _ H2 _ _ Hx) as (X1 & X2 & X3). destruct (so_bufs _ _ _ _ H2 _ _ Hy) as (Y1 & Y2 & Y3).
  vassoc. eapply safe_PostReceive; [exact H1 | done | done | exact Y1 | done |]. intros d1 M1 M2 _ E1.
  vassoc. apply (safe_deref _ _ c1 sb x); [exact Hx |]. vassoc.
  eapply safe_PostSendAndWait; [exact E1 | done | by apply (sge_ok_mrs d) | rewrite X2, Kx; exact Hlen |].
  intros ib d2 I1 I2 [M3 M4] E2. cbv zeta. set (st1 := Client.bufs (Client.with_ib ib c1)). change st1 with (Client.bufs c).
  change (Client.send_bufs_ (Client.with_ib ib c1)) with sp. destruct (Infiniband.Free (Client.bufs c) sp sb) as [st2 sp2] eqn:Efree.
  destruct (store_free ks kr d (Client.bufs c) sp sb x H2 Hx) as (K1 & K2 & K3); [by rewrite Kx |]. rewrite Efree in K1, K2, K3. cbn [fst snd] in K1, K2, K3.
  assert (Infiniband.bufs_ sp2 = Infiniband.bufs_ sp /\ Infiniband.ptr_ sp2 = Infiniband.ptr_ sp) as [F1 F2] by (unfold Infiniband.Free in Efree; by injection Efree as _ <-).
  destruct (names_kinds true _ _ rb K1) as [? | (y' & Hy' & Ky')]; [right; by exists y | done |].
  vassoc. eapply safe_Receive; [exact E2 | exact Hy' | exact Hrb |]. intros wc d3 [M5 M6] E3.
  destruct (store_received ks kr d st2 rb y' wc K2 Hy') as [K4 K5]. pose proof (same_kinds_trans _ _ _ K1 K4) as K6. cbn [fst snd].
  vassoc. apply safe_check; [done |]. intros _. cbn [pbind]. eapply (Hk _ (Infiniband.received wc y')); [| apply lookup_insert_eq | done | done].
  split; cbn [Client.bufs Client.send_bufs_ Client.recv_bufs_ Client.qp_ Client.ib_ Client.with_mem Client.with_send Client.with_ib Client.with_recv c1].
  - by exists (n + 1).
  - apply (store_mrs ks kr d); [congruence | exact K5].
  - right. rewrite K3. apply (names_kinds false (Client.bufs c)) with (a := sb) in K6 as [? | ?]; [done | done | right; by exists x].
  - by apply (names_kinds true (Client.bufs c)).
  - apply (debts_keep d _ (Client.bufs c) _ (Client.ib_ c) _ (Client.send_bufs_ c) _ (Client.recv_bufs_ c)); [split; congruence | exact K6 | done | done | congruence | congruence | exact R3 | exact R4 | exact H5].
Qed.

Lemma safe_Put {B} P fuel arrived key val d c (k : bool * Client.t -> prog B) Q : client_ok d c ->
  len key + len val < 2 ^ 64 -> (~ routed (Client.index_manager_ c) key -> P) ->
  (forall b c' d', client_ok d' c' -> Client.index_manager_ c' = Client.index_manager_ c -> safe d' (k (b, c')) Q (orderly P)) ->
  safe d (pbind (Client.Put fuel arrived key val c) k) Q (orderly P).
Proof.
  intros Hc H64 HP Hk. unfold Client.Put, Client.ask. vassoc. eapply safe_RequestAndWait; [exact Hc | by left | done | done |].
  intros rb b c' d' [H1 H2 H3 H4 H5] Hb Hr Him. vassoc. apply Hk; [| by unfold Client.free_recv].
  destruct (store_free ks kr d' (Client.bufs c') (Client.recv_bufs_ c') rb b H2 Hb) as (K1 & K2 & K3); [by rewrite Hr |].
  unfold Client.free_recv. destruct (Infiniband.Free (Client.bufs c') (Client.recv_bufs_ c') rb) as [st p] eqn:Ef. cbn [fst snd] in K1, K2, K3.
  assert (Infiniband.bufs_ p = Infiniband.bufs_ (Client.recv_bufs_ c') /\ Infiniband.ptr_ p = Infiniband.ptr_ (Client.recv_bufs_ c')) as [F1 F2]
    by (unfold Infiniband.Free in Ef; by injection Ef as _ <-).
  split; cbn [Client.bufs Client.send_bufs_ Client.recv_bufs_ Client.qp_ Client.ib_ Client.with_recv]; [done | done | | |].
  - by apply (names_kinds false (Client.bufs c')).
  - right. rewrite K3. apply (names_kinds true (Client.bufs c')) with (a := rb) in K1 as [E | ?]; [| done | right; by exists b].
    rewrite E, (so_null _ _ _ _ H2) in Hb. done.
  - apply (debts_keep d' _ (Client.bufs c') _ (Client.ib_ c') _ (Client.send_bufs_ c') _ (Client.recv_bufs_ c')); done.
Qed.

Lemma safe_put_all {B} P fuel arrived kvs : forall i d c (k : Client.t -> prog B) Q, client_ok d c ->
  Forall (fun x => len x.1 + len x.2 < 2 ^ 64 /\ (~ routed (Client.index_manager_ c) x.1 -> P)) kvs ->
  (forall c' d', client_ok d' c' -> safe d' (k c') Q (orderly P)) ->
  safe d (pbind (ClientMain.put_all fuel arrived i kvs c) k) Q (orderly P).
Proof.
  induction kvs as [|[key val] kvs IH]; intros i d c k Q Hc Hl Hk; cbn [ClientMain.put_all]; [by apply Hk |].
  apply list.Forall_cons in Hl as [[H64 HP] Hl]. vassoc. apply safe_Put; [done | done | done |]. intros b c' d' Hc' Him.
  cbn [snd]. apply IH; [done | by rewrite Him | done].
Qed.

(** Asking for the map is no business of the device. *)
Lemma safe_Client_Join {B} P parse dump conn d (k : IndexManager -> prog B) Q :
  (forall im, Join.Client_Join parse dump conn = Ret im -> safe d (k im) Q (orderly P)) ->
  safe d (pbind (Join.Client_Join parse dump conn) k) Q (orderly P).
Proof.
  unfold Join.Client_Join, Server.lift, Session.SendMessage, Session.RecvMessage, bind, Session.read, Session.write, ret. intros Hk.
  destruct (Session.writable conn); [| done]. cbn [Session.writable Session.incoming Session.outgoing pbind fst snd] in *.
  destruct (_ <? _); [done |]. cbn [Session.writable Session.incoming Session.outgoing] in *. destruct (_ <? _); [done |]. cbn [pbind fst snd] in *.
  unfold Join.expect_answer in *. destruct (_ =? _); [| done]. cbn [check pbind] in *. destruct (_ =? _); [| done]. cbn [check pbind] in *.
  destruct (parse _) as [j|]; [| done]. cbn [Join.need pbind] in *. destruct (at_key _ _ _) as [im|]; [| done]. cbn [Join.need pbind] in *. by apply Hk.
Qed.

Lemma avoids_Client_Join parse dump conn : avoids releases_memory (Join.Client_Join parse dump conn).
Proof. unfold Join.Client_Join, Join.expect_answer, Join.need, Server.lift. avoid. Qed.

Lemma safe_client_construct {B} P parse dump conn (k : Client.t -> prog B) Q :
  (forall c d, client_ok d c -> (exists c0, conn = Some c0 /\ Join.Client_Join parse dump c0 = Ret (Client.index_manager_ c)) ->
    safe d (k c) Q (orderly P)) ->
  safe empty_device (pbind (Client.construct parse dump conn) k) Q (orderly P).
Proof.
  intros Hk. unfold Client.construct. destruct conn as [conn|]; [| done]. apply safe_bind, (safe_stop_mono (keeping P [] [])); [intros st d'; apply keeping_orderly |].
  apply safe_step_keeping; [apply avoids_construct | split; constructor |]. eapply safe_construct; [split; constructor |]. intros ib d1 G1 O1. cbn [safe].
  apply safe_ib_scope, safe_step_keeping; [apply avoids_RegisteredBuffers | exact O1 |].
  apply (safe_RegisteredBuffers _ _ ks kr d1 _ _ _ Client.kMaxIBQueueDepth false ∅ _ O1); [by split | done | done | done | done |].
  intros sp st1 ms d2 G2 O2 S2 I2 N2 _ (bs & Hbs & <-) _. cbn [safe fst snd].
  eapply safe_pool_scope; [exact Hbs |]. apply safe_step_keeping; [apply avoids_RegisteredBuffers | exact O2 |].
  apply (safe_RegisteredBuffers _ _ ks kr d2 _ _ _ Client.kMaxIBQueueDepth true st1 _ O2); [done | done | done | done | done |].
  intros rp st2 mr d3 G3 O3 S3 I3 N3 Hold (br & Hbr & <-) _. cbn [safe fst snd]. eapply safe_pool_scope; [exact Hbr |].
  apply safe_keeping; [pose proof (avoids_Client_Join parse dump conn); avoid | exact O3 |].
  apply safe_QueuePair_construct.
  { intros m q. rewrite (gr_qps _ _ G3), (gr_qps _ _ G2), (gr_qps _ _ G1). cbn. by rewrite lookup_empty. }
  intros q d4 Ety _ [M1 M2] _ H4 _ _ _. eapply safe_Activate; [exact H4 |]. intros d5 [M3 M4] _ H5.
  apply safe_Client_Join. intros im Him. apply Hk; [| by exists conn].
  split; cbn [Client.bufs Client.send_bufs_ Client.recv_bufs_ Client.qp_ Client.ib_].
  - by exists 0.
  - apply (store_mrs ks kr d3); [congruence | done].
  - destruct N2 as [? | (x & Hx & Kx)]; [by left | right]. exists x. split; [by apply Hold | done].
  - done.
  - exists bs, br. split; [by apply Hold |]. split; [done |]. destruct O3 as [? ? ? ?].
    split; [done | by rewrite M4, M2 | done | by rewrite M3, M1].
Qed.

(** What there is to take down. *)
Record standing (d : device) (c : Client.t) : Prop := {
  st_qp : present (Client.qp_ c) d; st_debts : debts d (Client.bufs c) (Client.ib_ c) (Client.send_bufs_ c) (Client.recv_bufs_ c) }.

Lemma client_standing d c : client_ok d c -> standing d c.
Proof. intros [[n H1] _ _ _ H5]. split; [by eapply endpoint_present | done]. Qed.

Lemma safe_client_release {A} P d c (k : unit -> prog A) Q : standing d c -> (forall d', safe d' (k tt) Q (orderly P)) ->
  safe d (pbind (Client.destruct_ c) k) Q (orderly P).
Proof.
  intros [H1 (bs & br & Hs & Hr & Ho)] Hk. unfold Client.destruct_. vassoc.
  eapply safe_QueuePair_release; [exact H1 | exact Ho |]. intros d1 _ O1. vassoc.
  eapply safe_RegisteredBuffers_destruct; [exact Hr | exact O1 |]. intros d2 _ O2. vassoc.
  eapply safe_RegisteredBuffers_destruct; [exact Hs | exact O2 |]. intros d3 _ O3.
  eapply safe_destruct; [exact O3 |]. intros d4 _ _. apply Hk.
Qed.

(** An operation releases nothing; so whenever it throws, the client can be
    taken down. *)
Definition releases (cl : call) : bool := releases_memory cl || releases_queues cl.

Lemma standing_after d c cl r : releases cl = false -> standing d c -> standing (after d cl r) (ClientMain.learn c cl r).
Proof.
  intros [Hm Hq]%orb_false_iff [H1 (bs & br & Hs & Hr & Ho)]. apply (owns_after _ _ r) in Ho; [| done]. apply (present_after _ _ _ r) in H1; [| done].
  assert (standing (after d cl r) c) as H by (split; [done | by exists bs, br]).
  destruct cl; try exact H. cbn [ClientMain.learn] in *. destruct (_ =? 0); [exact H |]. destruct H as [? ?]. by split.
Qed.

Lemma safe_in_scope {A} P (p : prog A) Q : forall d c, avoids releases p -> standing d c -> safe d p Q (orderly P) ->
  safe d (ClientMain.in_scope c p) Q (orderly P).
Proof.
  induction p as [a | st | cl k IH]; intros d c Hp Hc Hs; cbn [ClientMain.in_scope]; [done | |].
  - destruct st as [? | [] |]; try exact Hs. by apply safe_client_release.
  - destruct Hp as [Hcl Hp], Hs as [Ha Hk]. split; [done |]. intros r Hr. apply IH; [done | by apply standing_after | by apply Hk].
Qed.

Lemma avoids_lift {S A} bad (c : M S A) s : avoids bad (Server.lift c s).
Proof. unfold Server.lift. avoid. Qed.

Lemma avoids_Receive bad fuel q : (forall cq, bad (ibv_poll_cq cq 1) = false) -> forall st, avoids bad (Infiniband.Receive fuel q st).
Proof. intros Hb. induction fuel as [|fuel IH]; intros st; [done |]. cbn [Infiniband.Receive]. unfold Infiniband.TryReceive, Infiniband.PollCQ, throw. avoid; by apply avoids_sys. Qed.

Lemma avoids_PostSendAndWait fuel ib q b buf l peer : avoids releases (Infiniband.PostSendAndWait fuel ib q b buf l peer).
Proof.
  unfold Infiniband.PostSendAndWait, Infiniband.PostSend, Infiniband.GetAddrHandler, Infiniband.wait_one, throw. avoid.
Qed.
#[local] Hint Resolve avoids_lift avoids_Receive avoids_PostSendAndWait : avoids.

Lemma avoids_put_all fuel arrived kvs : forall i c, avoids releases (ClientMain.put_all fuel arrived i kvs c).
Proof.
  induction kvs as [|[key val] kvs IH]; intros i c; [done |]. cbn [ClientMain.put_all].
  unfold Client.Put, Client.ask, Client.RequestAndWait, Client.deref, Infiniband.PostReceive, throw. avoid.
Qed.
#[local] Hint Resolve avoids_put_all : avoids.

(** *** The table of handles

    What [ClientMain.in_scope] reads off the calls is the table of the client:
    on every way to the end of [p] it is the table [f] finds in the result. *)

Definition handlers (c : Client.t) : gmap Z Z := Infiniband.addr_handlers_ (Client.ib_ c).

Fixpoint learns {A} (f : A -> gmap Z Z) (c : Client.t) (p : prog A) : Prop :=
  match p with
  | Ret a => f a = handlers c
  | Stop _ => True
  | Vis cl k => forall r, learns f (ClientMain.learn c cl r) (k r)
  end.

Definition makes_handle (cl : call) : bool := match cl with ibv_create_ah _ _ => true | _ => false end.

Lemma learns_bind {A B} f g (p : prog A) (k : A -> prog B) : forall c, learns f c p -> (forall a c', handlers c' = f a -> learns g c' (k a)) -> learns g c (pbind p k).
Proof. induction p as [a | st | cl k' IH]; intros c Hp Hk; cbn in *; [by apply Hk | done | auto]. Qed.

Lemma learns_skip {A B} g c (p : prog A) (k : A -> prog B) : avoids makes_handle p -> (forall a, learns g c (k a)) -> learns g c (pbind p k).
Proof.
  intros Hp Hk. induction p as [a | st | cl k' IH]; cbn in *; [done | done |]. destruct Hp as [Hcl Hp]. intros r.
  replace (ClientMain.learn c cl r) with c by (by destruct cl). by apply IH.
Qed.

Lemma learns_handle c ib addr : handlers c = Infiniband.addr_handlers_ ib ->
  learns (fun x => Infiniband.addr_handlers_ x.2) c (Infiniband.GetAddrHandler ib addr).
Proof.
  intros Hc. unfold Infiniband.GetAddrHandler. destruct (_ !! _); [by cbn |]. cbn [pbind sys learns ClientMain.learn dlid]. intros ah. destruct (ah =? 0); [done |].
  cbn. by rewrite <- Hc.
Qed.

Ltac learn_skip := cbv beta zeta; apply learns_skip; [unfold Client.deref, Infiniband.PostReceive, throw; avoid | intros ?].

Lemma learns_PostSendAndWait fuel c ib q b buf l peer : handlers c = Infiniband.addr_handlers_ ib ->
  learns Infiniband.addr_handlers_ c (Infiniband.PostSendAndWait fuel ib q b buf l peer).
Proof.
  intros Hc. unfold Infiniband.PostSendAndWait. learn_skip. apply (learns_bind Infiniband.addr_handlers_).
  - unfold Infiniband.PostSend. learn_skip. eapply learns_bind; [by apply learns_handle |]. intros [ah ib'] c' Hc'. cbn [snd] in Hc'. learn_skip. learn_skip.
    by destruct (negb _).
  - intros ib' c' Hc'. unfold Infiniband.wait_one. learn_skip. by destruct (negb _).
Qed.

Lemma learns_RequestAndWait fuel arrived key kl val vl ty c ct : handlers ct = handlers c ->
  learns (fun x => handlers x.2) ct (Client.RequestAndWait fuel arrived key kl val vl ty c).
Proof.
  intros Hct. unfold Client.RequestAndWait. learn_skip. learn_skip. destruct (Infiniband.Alloc _ _) as [sb sp]. learn_skip. learn_skip.
  destruct (Infiniband.Alloc _ _) as [rb rp]. do 4 learn_skip. eapply learns_bind; [by apply learns_PostSendAndWait |]. intros ib c' Hc'. cbv beta zeta.
  destruct (Infiniband.Free _ _ _) as [st p]. apply learns_skip; [by apply avoids_Receive |]. intros x. learn_skip. done.
Qed.

Lemma learns_put_all fuel arrived kvs : forall i c ct, handlers ct = handlers c -> learns handlers ct (ClientMain.put_all fuel arrived i kvs c).
Proof.
  induction kvs as [|[key val] kvs IH]; intros i c ct Hct; [done |]. cbn [ClientMain.put_all]. apply (learns_bind (fun x => handlers x.2)).
  - unfold Client.Put, Client.ask. eapply learns_bind; [by apply learns_RequestAndWait |]. intros [rb c1] c' Hc'. by cbn.
  - intros x c' Hc'. by apply IH.
Qed.

(** The map the client got has no server for a key it puts. *)
Definition strays (parse : list Init.Byte.byte -> option json) (dump : json -> list Init.Byte.byte) (conn : option Session.conn)
    (kvs : list (list Init.Byte.byte * list Init.Byte.byte)) : Prop :=
  exists c im key, conn = Some c /\ Join.Client_Join parse dump c = Ret im /\ key ∈ map fst kvs /\ ~ routed im key.

Lemma safe_Work parse dump fuel letters arrived conn n :
  safe empty_device (ClientMain.Work parse dump fuel letters arrived conn n) (fun _ _ => True)
    (orderly (strays parse dump conn (ClientMain.items letters n))).
Proof.
  unfold ClientMain.Work. apply safe_try.
  2: { intros errno d. vskip. case_bool_decide; [done |]. apply safe_tail. by vskip. }
  apply safe_client_construct. intros c d Hc (c0 & -> & Him). apply safe_bind.
  apply safe_in_scope; [unfold ClientMain.now; avoid | by apply client_standing |]. unfold ClientMain.now. vskip.
  apply safe_put_all; [done | |].
  - apply list.Forall_forall. intros [key val] Hin. split.
    + unfold ClientMain.items in Hin. pose proof (elem_of_zip_l _ _ _ _ Hin) as Hk. pose proof (elem_of_zip_r _ _ _ _ Hin) as Hv.
      apply list_elem_of_fmap in Hk as (i & -> & _). apply elem_of_replicate in Hv as [-> _]. cbn [fst snd].
      rewrite length_map, length_seq, length_replicate. done.
    + intros Hn. exists c0, (Client.index_manager_ c), key. split; [done |]. split; [done |]. split; [| done].
      apply list_elem_of_fmap. by exists (key, val).
  - intros c' d' Hc'. vskip. cbn [safe]. apply safe_tail, safe_client_release; [by apply client_standing | done].
Qed.

(** ** The process *)

(** One of the threads strays. *)
Definition some_strays (parse : list Init.Byte.byte -> option json) (dump : json -> list Init.Byte.byte) (conns : nat -> option Session.conn)
    (letters : nat -> Init.Byte.byte) (n_items : option Z) : Prop :=
  exists i n, n_items = Some n /\ strays parse dump (conns i) (ClientMain.items letters (Z.to_nat (u64 n))).

(** Every thread gets the map of a formed cluster, and the hash of every key
    is below the largest 1024. *)
Definition well_mapped (parse : list Init.Byte.byte -> option json) (dump : json -> list Init.Byte.byte) (conns : nat -> option Session.conn)
    (letters : nat -> Init.Byte.byte) (n_items : option Z) : Prop :=
  (forall i c im, conns i = Some c -> Join.Client_Join parse dump c = Ret im -> formed im) /\
  forall n key, n_items = Some n -> key ∈ map fst (ClientMain.items letters (Z.to_nat (u64 n))) -> hash_of key < 2 ^ 64 - 1024.

Lemma well_mapped_stays parse dump conns letters n_items : well_mapped parse dump conns letters n_items -> ~ some_strays parse dump conns letters n_items.
Proof.
  intros [Hf Hk] (i & n & Hn & c & im & key & Hc & Him & Hin & Hr). apply Hr.
  destruct (formed_serves im (hash_of key) (Hf _ _ _ Hc Him) (Hash.Hash_range _ _) (Hk _ _ Hn Hin)) as (_ & sv & _ & _ & _ & _ & E). by exists sv.
Qed.

Lemma safe_start_threads {B} (E : stop -> device -> Prop) d ids (k : unit -> prog B) Q : E Terminate d -> safe d (k tt) Q E ->
  safe d (pbind (ClientMain.start_threads ids) k) Q E.
Proof.
  intros He Hk. induction ids as [|i ids IH]; cbn [ClientMain.start_threads]; [done |]. vassoc. apply safe_skip; [done | done |]. intros r.
  by destruct (r =? 0).
Qed.

(** The memory of the results next to what the threads have. *)
Definition results (p n : Z) : device := mkDev ∅ ∅ ∅ (if p =? 0 then ∅ else {[p := n]}).

Lemma safe_doubles {B} P n (k : Z -> prog B) Q :
  (forall p, safe (results p (8 * n)) (k p) Q (orderly P)) -> safe empty_device (pbind (ClientMain.doubles n) k) Q (orderly P).
Proof.
  intros Hk. unfold ClientMain.doubles, new_. destruct (n =? 0); [exact (Hk 0) |]. destruct (_ <? n); [done |]. vassoc. apply safe_sys; [done |].
  intros p Hp. cbn [after]. specialize (Hk p). unfold results in Hk. destruct (p =? 0); [done |]. exact Hk.
Qed.

Lemma safe_bench_main parse dump fuel letters arrived conns sched argc n_items threads :
  safe empty_device (ClientMain.bench_main parse dump fuel letters arrived conns sched argc n_items threads) (fun _ _ => True)
    (orderly (some_strays parse dump conns letters n_items)).
Proof.
  unfold ClientMain.bench_main, ClientMain.Usage, ClientMain.stoi. destruct (argc <? 4); [vassoc; vskip; by vskip |].
  destruct n_items as [n |]; [| done]. destruct threads as [t |]; [| done]. cbn [pbind]. cbv zeta. set (num_items := Z.to_nat _). set (num_threads := Z.to_nat _).
  apply safe_doubles. intros p. apply safe_start_threads; [done |]. apply safe_bind.
  assert (wired (results p (8 * u64 t)) /\ grounded (results p (8 * u64 t))) as [Hw Hg].
  { split; [exact wired_empty |]. unfold grounded, results. cbn [heap]. destruct (Z.eqb_spec p 0); [done |]. by rewrite lookup_singleton_ne. }
  set (works := map _ _).
  assert (apart empty_device (results p (8 * u64 t))) as Ha by (split; apply map_disjoint_empty_l).
  assert (results p (8 * u64 t) = both empty_device (results p (8 * u64 t))) as -> by (unfold both; cbn; by rewrite !(left_id_L ∅ (∪))).
  assert (Forall2 (fun w d => safe d w (fun _ _ => True) (orderly (some_strays parse dump conns letters (Some n)))) works (replicate (length works) empty_device)) as Hs.
  { apply Forall2_replicate_r; [done |]. apply list.Forall_forall. intros w (i & -> & _)%list_elem_of_fmap.
    eapply safe_stop_mono; [| apply safe_Work]. intros st d H Hst. exists i, n. by split; [| apply H]. }
  eapply safe_stop_mono; [| eapply safe_mono; [exact (safe_frame _ _ _ _ Hw Hg _ Ha (safe_interleave _ _ sched _ _ _ (parts_start _) Hs)) |]].
  { intros st d (d1 & di & H) Hst. by apply H. }
  intros rest d (d1 & -> & Ha' & _). destruct (forallb _ _); [| done]. cbn [pbind]. vassoc. unfold ClientMain.print_all.
  apply safe_bind. eapply safe_mono; [apply (safe_for_inv _ _ _ _ _ (fun _ d => d = both d1 (results p (8 * u64 t)))); [done |] |].
  { intros [] d ->. apply safe_tail. by vskip. }
  intros [] d ->. vskip. vassoc. destruct (Z.eqb_spec p 0) as [-> | Hp]; [done |].
  apply safe_sys; [| done]. cbn [allowed]. apply orb_true_iff. right. apply bool_decide_eq_true. rewrite both_comm by done. apply both_some.
  unfold results. rewrite (proj2 (Z.eqb_neq _ _) Hp). cbn [heap]. rewrite lookup_singleton_eq. by eexists.
Qed.

(** C19. The load generator keeps the rules of the verbs, with any number of
    threads, in any interleaving of their calls, whatever the device, the
    network and the servers do: every thread sets up a queue pair of its own
    in order, posts registered buffers only, one receive and one send at a
    time, and at the end, also when an exception ends it, releases what its
    objects own and nothing of another.
    The process reads through a wild pointer only when a thread was given a
    map that has no server for one of its keys, and never when the maps are
    those the coordinator forms of both servers and no key has one of the
    largest 1024 hashes. *)
Theorem load_follows_the_rules parse dump fuel letters arrived conns sched argc n_items threads e :
  let r := run e [] (ClientMain.main parse dump fuel letters arrived conns sched argc n_items threads) in
  misused (judge r.1) = false /\
  (r.2 = Stopped (Fault Segv) -> judge r.1 = Excused \/ some_strays parse dump conns letters n_items) /\
  (well_mapped parse dump conns letters n_items -> r.2 = Stopped (Fault Segv) -> judge r.1 = Excused).
Proof.
  intros r. unfold ClientMain.main in r. pose proof (safe_bench_main parse dump fuel letters arrived conns sched argc n_items threads) as Hs. split; [by eapply safe_not_misused |].
  assert (r.2 = Stopped (Fault Segv) -> judge r.1 = Excused \/ some_strays parse dump conns letters n_items) as Hr.
  { pose proof (safe_run e [] empty_device _ _ _ eq_refl Hs) as H. fold r in H. intros Er. rewrite Er in H.
    destruct (judge r.1) as [d | | ]; [right; by apply H | done | by left]. }
  split; [exact Hr |]. intros Hw Er. destruct (Hr Er) as [? | Hx]; [done |]. destruct (well_mapped_stays _ _ _ _ _ Hw Hx).
Qed.

(** With a device where every call succeeds a thread runs to its end, and so
    do two that take turns. *)
Definition answer_example : Message.t := Message.New (Message.mkHeader (Message.SenderType_code Message.COORDINATOR) (Message.Type_code Message.RES_JOIN) 0) [].

Definition whole_map_example : IndexManager :=
  mkIndex [0; 2] (replicate 4 (mkTabletInfo 0 0 false [Infiniband.mkQpi 1 2 3 4 5] [1])) (replicate 2 server_example).

Example work_runs :
  let r := run Loopback.loopback [] (ClientMain.Work (fun _ => Some (Obj [("index_manager"%string, to_json whole_map_example)])) (fun _ => [])
    5 (fun i => Byte.x62) (fun _ => ∅) (Some (Session.mkConn (encode answer_example) [] true)) 2) in
  r.2 = Returned tt /\ match judge r.1 with Running d => (map_to_list (cqs d), map_to_list (mrs d), map_to_list (heap d)) = ([], [], []) | _ => False end.
Proof. split; vm_compute; reflexivity. Qed.

Definition conn_example : Session.conn := Session.mkConn (encode answer_example) [] true.

Lemma join_example : Join.Client_Join (fun _ => Some (Obj [("index_manager"%string, to_json formed_example)])) (fun _ => []) conn_example = Ret formed_example.
Proof. vm_compute. reflexivity. Qed.

Lemma small_hashes : forallb (fun k => hash_of k <? 2 ^ 64 - 1024) (map fst (ClientMain.items (fun _ => Byte.x62) (Z.to_nat (u64 2)))) = true.
Proof. vm_compute. reflexivity. Qed.

Lemma Some_eq {A} (x y : A) : Some x = Some y -> x = y.
Proof. by intros [= ->]. Qed.

Example well_mapped_example :
  well_mapped (fun _ => Some (Obj [("index_manager"%string, to_json formed_example)])) (fun _ => []) (fun _ => Some conn_example)
    (fun _ => Byte.x62) (Some 2).
Proof.
  split.
  - intros i c im <-%Some_eq H. rewrite join_example in H. assert (formed_example = im) as <- by congruence. exact map_formed.
  - intros n key <-%Some_eq H. apply list_elem_of_In in H. apply Z.ltb_lt. exact (proj1 (forallb_forall _ _) small_hashes key H).
Qed.

Example load_runs :
  let r := run Loopback.loopback [] (ClientMain.main (fun _ => Some (Obj [("index_manager"%string, to_json whole_map_example)])) (fun _ => [])
    5 (fun i => Byte.x62) (fun _ _ => ∅) (fun _ => Some (Session.mkConn (encode answer_example) [] true)) (concat (replicate 400 [0; 1]%nat)) 4 (Some 2) (Some 2)) in
  r.2 = Returned 0 /\ match judge r.1 with Running d => (map_to_list (qps d), map_to_list (cqs d), map_to_list (mrs d), map_to_list (heap d)) = ([], [], [], []) | _ => False end.
Proof. split; vm_compute; reflexivity. Qed.
