(* ===== verification/CoordinatorRun.v ===== *)
(** * The coordinator as a service

    Any number of connections, any bytes on them, operations that complete in
    any order: what holds of the coordinator all along, and which messages
    stop it. *)

From S2P Require Import Prelude Wire Verbs Infiniband Index IndexSpec Message Session Coordinator BasicServer Join Cluster.
#[local] Open Scope Z_scope.
Import IndexManager Message Coordinator BasicServer.

#[local] Abbreviation joined2 := (joined kNumReplicas kNumServers kNumTabletsPerServer).

(** ** One message *)

Section Handlers.
Variables (parse : list Init.Byte.byte -> option json) (dump : json -> list Init.Byte.byte).

(** The body of a request to join that can be used; when the cluster is full
    it is not looked at in full. *)
Definition readable (full : bool) (b : list Init.Byte.byte) : bool :=
  match parse b with
  | None => false
  | Some j =>
      match at_key j "size" get_u64 with
      | None => false
      | Some _ =>
          full ||
          match (at_key j "ib_addr" from_json : option Infiniband.Address), at_key j "tablet_qpis" (get_vector from_json) with
          | Some _, Some qpis => kNumTabletAndBackupsPerServer <=? Z.of_nat (length (qpis : list Infiniband.QueuePairInfo))
          | _, _ => false
          end
      end
  end.

Definition no_answer (ty : Z) : bool :=
  (ty =? Type_code REQ_LEAVE) || (ty =? Type_code ACK_REJECT) || (ty =? Type_code ACK_ERROR) || (ty =? Type_code ACK_OK).

(** What stops a coordinator to which [n] servers have come: the messages it
    cannot use, and a request of a peer that is not connected any more when
    its address is asked for. *)
Definition stops (n : Z) (here : nat -> bool) (msg : Message.t) : bool :=
  let from := sender_type (header msg) in
  let ty := type (header msg) in
  if from =? SenderType_code SERVER then
    if ty =? Type_code REQ_JOIN
    then negb (readable (kNumServers <=? n) (body msg) && (here 0%nat && ((kNumServers <=? n) || here 1%nat)))
    else negb (no_answer ty)
  else if from =? SenderType_code CLIENT then
    if ty =? Type_code REQ_JOIN then negb ((n =? kNumServers) && here 0%nat) else negb (no_answer ty)
  else from =? SenderType_code COORDINATOR.

(** A coordinator between two handlers, after the servers [js]: those that
    wait for the others have sessions, and nobody waits in a full cluster. *)
Record holds (js : list join) (c : state) : Prop := {
  ho_map : joined2 js (index_manager_ c);
  ho_num : num_servers_ c = Z.of_nat (length js);
  ho_max : (length js <= 2)%nat;
  ho_wait : length (sessions_ c) = if decide (length js = 2)%nat then 0%nat else length js;
  ho_quiet : out c = [] /\ again c = [] }.

(** An answer with the map [im]. *)
Definition answer (im : IndexManager) (m : Message.t) : Prop :=
  (exists i, m = New res_join (dump (join_answer i im))) \/ m = client_answer dump im.

(** A handler did its work: [js'] are the servers now. *)
Record handled (from : string) (s : Z) (js js' : list join) (c c' : state) : Prop := {
  hd_holds : holds js' (started c').1;
  hd_more : js' = js /\ index_manager_ c' = index_manager_ c \/ (length js < 2)%nat /\ exists x, js' = js ++ [x] /\ j_addr x = from;
  hd_out : Forall (fun x => length js' = 2%nat /\ answer (index (index_manager_ c')) x.2) (out c');
  hd_again : again c' = [];
  hd_once : map fst (out c') ++ sessions_ c' ⊆+ s :: sessions_ c }.

Lemma ignored_handled from s js c : holds js c -> handled from s js js c c.
Proof.
  intros H. pose proof H as [H1 H2 H3 H4 [H5 H6]]. split; [by split | by left | by rewrite H5 | done |].
  rewrite H5. cbn. by apply submseteq_cons.
Qed.

(** The outcome of a handler: it stops on the messages [bad] says, and does
    its work on the others. *)
Definition outcome_of (bad : bool) (from : string) (s : Z) (js : list join) (c : state) (o : outcome state unit) : Prop :=
  match o with Ok _ c' => bad = false /\ exists js', handled from s js js' c c' | Err _ _ => bad = true end.

Lemma ignored_outcome from s js c : holds js c -> outcome_of false from s js c (Ok tt c).
Proof. intros H. split; [done |]. exists js. by apply ignored_handled. Qed.

(** What the socket says of its peer. *)
Definition sees (peer : Z -> nat -> option string) (s : Z) (here : nat -> bool) (from : string) : Prop :=
  forall k, peer s k = if here k then Some from else None.

Lemma join_outcome peer here from s msg js c : sees peer s here from -> holds js c ->
  outcome_of (negb (readable (kNumServers <=? num_servers_ c) (body msg) && (here 0%nat && ((kNumServers <=? num_servers_ c) || here 1%nat))))
    from s js c (HandleServerRequestJoin parse dump peer s msg c).
Proof.
  intros Hp H. pose proof H as [H1 H2 H3 H4 [H5 H6]]. unfold readable, HandleServerRequestJoin. unfold need at 1, bind at 1.
  destruct (parse (body msg)) as [j |]; [| done]. unfold need at 1, bind at 1. destruct (at_key j "size" _) as [size |]; [| done].
  unfold GetPeerAddr at 1, bind at 1. rewrite Hp. destruct (here 0%nat); [| cbn [outcome_of andb]; by rewrite andb_false_r]. cbn [andb].
  unfold gets, bind at 1. destruct (kNumServers <=? num_servers_ c) eqn:Hfull; cbn [orb]; [by apply ignored_outcome |].
  apply Z.leb_gt in Hfull. unfold GetPeerAddr, bind at 1. rewrite Hp. destruct (here 1%nat); [| cbn [outcome_of]; by rewrite andb_false_r].
  rewrite andb_true_r. unfold need at 1, bind at 1. destruct (at_key j "ib_addr" _) as [a |]; [| done].
  unfold need at 1, bind at 1. destruct (at_key j "tablet_qpis" _) as [qpis |]; [| done]. unfold on_index, bind at 1.
  set (x := mkJoin from a qpis). assert (length js < 2)%nat as Hl by (unfold kNumServers in Hfull; lia).
  destruct (Z.leb_spec kNumTabletAndBackupsPerServer (Z.of_nat (length qpis))) as [Hq | Hq].
  2:{ destruct (AddServer kNumReplicas kNumServers kNumTabletsPerServer from a qpis (index_manager_ c)) as [sv im | e im] eqn:E; [| done].
      apply AddServer_needs in E; [| done..]. exfalso. revert E Hq. unfold kNumTabletAndBackupsPerServer, kNumTabletsPerServer, kNumReplicas. lia. }
  destruct (AddServer_run kNumReplicas kNumServers kNumTabletsPerServer ltac:(done) ltac:(done) ltac:(done) ltac:(done) js x _ H1)
    as (sv & im & E & Hj' & _); [exact Hq | unfold kNumServers; lia |]. cbn [j_addr j_ib_addr j_qpis x] in E. rewrite E.
  unfold modify, bind at 1. cbn [num_servers_ set_index total_storage_ index_manager_ sessions_ out again]. unfold bind at 1. cbn [num_servers_].
  rewrite u32_small by (rewrite H2; lia). rewrite assert_true by (apply Z.leb_le; unfold kNumServers; lia).
  assert (length js = 0 \/ length js = 1)%nat as [Ej | Ej] by lia; rewrite Ej in *; cbn [decide] in H4.
  - rewrite (proj2 (Z.eqb_neq _ _)) by (unfold kNumServers; lia). split; [done |]. exists (js ++ [x]). destruct (sessions_ c) as [|] eqn:Es; [| done].
    assert (length (js ++ [x]) = 1%nat) as El by (rewrite length_app, Ej; done).
    split; cbn [started fst out again sessions_ index_manager_ num_servers_]; rewrite ?H5, ?H6; try done; [| right; split; [lia | by exists x] | by rewrite Es].
    split; cbn [out again sessions_ index_manager_ num_servers_]; rewrite ?El; [done | lia | lia | done | done].
  - rewrite (proj2 (Z.eqb_eq _ _)) by (unfold kNumServers; lia). destruct (sessions_ c) as [|b [|]] eqn:Es; try done.
    rewrite (ResponseAllJoins_run dump b s) by done. cbn [num_servers_ index_manager_ total_storage_ out again]. rewrite H5, H6. split; [done |].
    exists (js ++ [x]). assert (length (js ++ [x]) = 2%nat) as El by (rewrite length_app, Ej; done).
    split; cbn [started fst out again sessions_ index_manager_ num_servers_ app map snd].
    + split; cbn [out again sessions_ index_manager_ num_servers_]; rewrite ?El; [done | lia | lia | done | done].
    + right. split; [lia | by exists x].
    + constructor; [| constructor; [| by constructor]]; (split; [done |]); left; by eexists.
    + done.
    + rewrite Es. apply Permutation_submseteq. apply Permutation_swap.
Qed.

(** Every message is answered, ignored, or stops the coordinator. *)
Lemma message_outcome peer here from s msg js c : sees peer s here from -> holds js c ->
  outcome_of (stops (num_servers_ c) here msg) from s js c (HandleRecvMessage parse dump peer s msg c).
Proof.
  intros Hp H. unfold stops, HandleRecvMessage, HandleMessageFromServer, HandleMessageFromClient. fold (no_answer (type (header msg))).
  destruct (sender_type (header msg) =? SenderType_code SERVER).
  { destruct (type (header msg) =? Type_code REQ_JOIN); [by apply join_outcome |]. destruct (no_answer _); [by apply ignored_outcome | done]. }
  destruct (sender_type (header msg) =? SenderType_code CLIENT) eqn:Ec.
  2:{ destruct (sender_type (header msg) =? SenderType_code COORDINATOR); [done | by apply ignored_outcome]. }
  destruct (type (header msg) =? Type_code REQ_JOIN) eqn:Et; [| destruct (no_answer _); [by apply ignored_outcome | done]].
  unfold HandleClientRequestJoin, gets, bind at 1. destruct (num_servers_ c =? kNumServers) eqn:En; [| done].
  rewrite assert_true by done. rewrite assert_true, assert_true by done. cbn [andb]. unfold GetPeerAddr, bind at 1. rewrite Hp. destruct (here 0%nat); [| done].
  unfold bind at 1. split; [done |]. exists js.
  destruct H as [H1 H2 H3 H4 [H5 H6]]. apply Z.eqb_eq in En. assert (length js = 2%nat) as El by (unfold kNumServers in En; lia).
  split; cbn [modify started fst out again sessions_ index_manager_ num_servers_]; rewrite ?H5, ?H6; try done.
  - by left.
  - constructor; [| constructor]. split; [done |]. right. reflexivity.
Qed.

(** ** The sessions *)

Lemma AsyncRecv_ends c : exists r c', Session.AsyncRecvMessage c = Ok r c'.
Proof.
  rewrite AsyncRecv_is_Recv. unfold Session.RecvMessage, bind, ret, Session.read. repeat case_match; simplify_eq; cbn; by eexists _, _.
Qed.

Lemma AsyncSend_ends m c : exists r c', Session.AsyncSendMessage m c = Ok r c' /\ (r = Session.Handled m \/ r = Session.Logged).
Proof.
  unfold Session.AsyncSendMessage, Session.async, Session.write, bind, ret. repeat case_match; simplify_eq; eexists _, _; (split; [done |]); auto.
Qed.

#[local] Abbreviation service := (BasicServer.t (A := state)).
#[local] Abbreviation turn := (BasicServer.turn (HandleRecvMessage parse dump) (fun _ => HandleSendMessage) started).

(** Sessions with something outstanding, or waiting for the other servers. *)
Definition busy (sv : service) : list Z := map fst (pending sv) ++ sessions_ (program sv).

(** The service after the servers [js]: no session has two operations
    outstanding, so that messages are never mixed up, and everything that is
    on its way out is an answer with the map of the whole cluster. *)
Record serves (js : list join) (sv : service) : Prop := {
  se_holds : holds js (program sv);
  se_next : 0 <= next_session sv;
  se_once : NoDup (busy sv);
  se_known : forall s, s ∈ busy sv -> 0 <= s < next_session sv;
  se_conns : forall s, 0 <= s < next_session sv -> is_Some (conns sv !! s);
  se_peers : forall s, is_Some (peers sv !! s) <-> 0 <= s < next_session sv;
  se_answers : forall s m, (s, Send m) ∈ pending sv -> length js = 2%nat /\ answer (index (index_manager_ (program sv))) m;
  se_from : forall x, x ∈ js -> exists s, peers sv !! s = Some (j_addr x) }.

Lemma serves_logged js sv : serves js sv -> serves js (logged sv).
Proof. by intros [? ? ? ? ? ? ? ?]. Qed.

Lemma serves_conn js s c sv : serves js sv -> serves js (with_conn s c sv).
Proof.
  intros [H1 H2 H3 H4 H5 H6 H7 H8]. split; try done. intros s' Hs'. cbn [conns with_conn].
  rewrite lookup_insert_is_Some'. right. by apply H5.
Qed.

Lemma serves_accept js r sv : serves js sv -> serves js (Accept r sv).
Proof.
  intros H. destruct r as [[addr c] |]; [| by apply serves_logged]. destruct H as [H1 H2 H3 H4 H5 H6 H7 H8].
  assert (busy (Accept (Some (addr, c)) sv) ≡ₚ next_session sv :: busy sv) as Eb.
  { unfold busy. cbn [Accept pending program]. rewrite map_app, <- app_assoc. symmetry. apply Permutation_middle. }
  split; cbn [Accept program next_session conns peers pending]; try done; [lia | | | | | |].
  - rewrite Eb. constructor; [| done]. intros Hx%H4. lia.
  - intros s. rewrite Eb. intros [-> | Hs]%elem_of_cons; [| specialize (H4 s Hs)]; lia.
  - intros s Hs. rewrite lookup_insert_is_Some'. destruct (decide (next_session sv = s)); [by left | right; apply H5; lia].
  - intros s. rewrite lookup_insert_is_Some', H6. lia.
  - intros s m [Hm | Hm]%elem_of_app; [by apply (H7 s) |]. by apply list_elem_of_singleton in Hm.
  - intros x Hx. destruct (H8 x Hx) as (s & Hs). exists s. rewrite lookup_insert_ne; [done |]. intros <-.
    assert (0 <= next_session sv < next_session sv) by (apply H6; by eexists). lia.
Qed.

(** What is outstanding, without the operation that completed. *)
Lemma busy_without n s o sv : pending sv !! n = Some (s, o) -> busy sv ≡ₚ s :: busy (without n sv).
Proof.
  intros Hn. unfold busy. cbn [pending program without]. rewrite (delete_Permutation _ _ _ Hn) at 1. done.
Qed.

Lemma serves_without js n s o sv : pending sv !! n = Some (s, o) -> serves js sv ->
  serves js (without n sv) /\ s ∉ busy (without n sv) /\ 0 <= s < next_session sv.
Proof.
  intros En [H1 H2 H3 H4 H5 H6 H7 H8]. pose proof (busy_without _ _ _ _ En) as Eb. rewrite Eb in H3. apply list.NoDup_cons in H3 as [N1 N2].
  split; [| split; [done | apply H4; rewrite Eb; by left]]. split; try done.
  - intros s' Hs'. apply H4. rewrite Eb. by right.
  - intros s' m Hm. apply (H7 s'). cbn [pending without] in Hm. by eapply list_elem_of_delete_inv.
Qed.

(** ** The operations that handlers start *)

Lemma serves_with_app js js' s c' sv : serves js sv -> s ∉ busy sv -> 0 <= s < next_session sv -> handled (default ""%string (peers sv !! s)) s js js' (program sv) c' ->
  serves js' (with_app (started c').1 (started c').2 sv).
Proof.
  intros [H1 H2 H3 H4 H5 H6 H7 H8] Hs Hr [D1 D2 D3 D4 D5].
  assert (busy (with_app (started c').1 (started c').2 sv) ⊆+ s :: busy sv) as Hb.
  { unfold busy. cbn [pending program with_app started fst snd sessions_]. rewrite D4. cbn [map]. rewrite app_nil_r, !map_app, map_map. cbn [fst].
    rewrite Permutation_middle, <- app_assoc. by apply submseteq_skips_l. }
  split; try done.
  - assert (NoDup (s :: busy sv)) as Hn by (by constructor). destruct (submseteq_Permutation _ _ Hb) as [k Ek]. rewrite Ek in Hn.
    by apply list.NoDup_app in Hn as [? _].
  - intros s' Hs'. apply (elem_of_submseteq _ _ _ Hs') in Hb. apply elem_of_cons in Hb as [-> | Hb]; [done | by apply H4].
  - cbn [pending program with_app started fst snd]. rewrite D4. cbn [map]. rewrite app_nil_r. intros s' m [Hm | Hm]%elem_of_app.
    + destruct (H7 _ _ Hm) as [E1 E2]. destruct D2 as [[-> E] | [Hl _]]; [| lia]. cbn [index_manager_]. by rewrite E.
    + apply list_elem_of_fmap in Hm as ([s2 m2] & [= -> ->] & Hm). rewrite list.Forall_forall in D3. exact (D3 _ Hm).
  - intros x Hx. destruct D2 as [[-> _] | (_ & y & -> & Hy)]; [by apply H8 |]. apply elem_of_app in Hx as [Hx | ->%list_elem_of_singleton]; [by apply H8 |].
    exists s. rewrite Hy. cbn [peers with_app]. destruct (peers sv !! s) eqn:E; [done |]. apply H6 in Hr. rewrite E in Hr. by destruct Hr.
Qed.

Lemma serves_read js s sv : serves js sv -> s ∉ busy sv -> 0 <= s < next_session sv -> serves js (with_app (program sv) [(s, Recv)] sv).
Proof.
  intros [H1 H2 H3 H4 H5 H6 H7 H8] Hs Hr.
  assert (busy (with_app (program sv) [(s, Recv)] sv) ≡ₚ s :: busy sv) as Eb.
  { unfold busy. cbn [pending program with_app]. rewrite map_app, <- app_assoc. symmetry. apply Permutation_middle. }
  split; try done.
  - rewrite Eb. by constructor.
  - intros s'. rewrite Eb. intros [-> | Hx]%elem_of_cons; [done | by apply H4].
  - intros s' m [Hm | Hm]%elem_of_app; [by apply (H7 s') |]. by apply list_elem_of_singleton in Hm.
Qed.

(** What stops the service: an operation that completes with such a message. *)
Definition stopped_by (sv : service) (ev : event) : Prop := exists n here s c c' msg,
  ev = Completed n here /\ pending sv !! n = Some (s, Recv) /\ conns sv !! s = Some c /\
  Session.AsyncRecvMessage c = Ok (Session.Handled msg) c' /\ stops (num_servers_ (program sv)) here msg = true.

Lemma turn_serves js ev sv : serves js sv ->
  match turn ev sv with Ok _ sv' => exists js', serves js' sv' | Err _ _ => stopped_by sv ev end.
Proof.
  intros H. destruct ev as [r | n here]; cbn [BasicServer.turn]; [exists js; by apply serves_accept |].
  destruct (pending sv !! n) as [[s o] |] eqn:En; [| by exists js]. destruct (serves_without _ _ _ _ _ En H) as (Hw & Hs & Hr).
  unfold complete. destruct (se_conns _ _ H s Hr) as [c Hc]. change (conns (without n sv)) with (conns sv). rewrite Hc. destruct o as [| m].
  - destruct (AsyncRecv_ends c) as (r & c' & Er). rewrite Er. destruct r as [msg |]; [| exists js; by apply serves_logged, serves_conn].
    unfold handle. assert (sees (peer (without n sv) here) s here (default ""%string (peers sv !! s))) as Hp.
    { intros k. unfold peer. destruct (here k); [| done]. cbn [peers without]. apply (se_peers _ _ H) in Hr as [a Ha]. by rewrite Ha. }
    pose proof (message_outcome _ _ _ s msg js _ Hp (se_holds _ _ H)) as Ho.
    change (program (with_conn s c' (without n sv))) with (program sv). destruct (HandleRecvMessage _ _ _ s msg (program sv)) as [u p' | e p'].
    + destruct Ho as (_ & js' & Hd). exists js'. eapply serves_with_app; [by apply serves_conn | done | done | exact Hd].
    + by exists n, here, s, c, c', msg.
  - destruct (AsyncSend_ends m c) as (r & c' & Er & [-> | ->]); rewrite Er; [| exists js; by apply serves_logged, serves_conn].
    unfold handle, HandleSendMessage, modify. change (program (with_conn s c' (without n sv))) with (program sv). cbn [started].
    destruct (ho_quiet _ _ (se_holds _ _ H)) as [Eo Ea]. rewrite Eo, Ea. cbn [map app].
    exists js. pose proof (serves_read js s _ (serves_conn js s c' _ Hw) Hs Hr) as Hs'.
    unfold with_app in *. change (program (with_conn s c' (without n sv))) with (program sv) in Hs'.
    destruct (program sv) as [p1 p2 p3 p4 p5 p6]. cbn [out again] in Eo, Ea. subst p5 p6. exact Hs'.
Qed.

(** Any events, in any order. *)
Lemma service_serves evs : forall js sv, serves js sv ->
  match IndexManager.for_each turn evs sv with
  | Ok _ sv' => exists js', serves js' sv'
  | Err _ _ => exists evs1 ev evs2 js' sv', evs = evs1 ++ ev :: evs2 /\ IndexManager.for_each turn evs1 sv = Ok tt sv' /\ serves js' sv' /\ stopped_by sv' ev
  end.
Proof.
  induction evs as [|ev evs IH]; intros js sv H; cbn [IndexManager.for_each]; [by exists js |].
  pose proof (turn_serves js ev sv H) as Ht. unfold bind. destruct (turn ev sv) as [[] sv1 | e sv1] eqn:Et.
  - destruct Ht as (js1 & H1). specialize (IH js1 sv1 H1). destruct (IndexManager.for_each turn evs sv1) as [u sv2 | e sv2]; [done |].
    destruct IH as (evs1 & ev' & evs2 & js' & sv' & -> & E & Hs & Hb). exists (ev :: evs1), ev', evs2, js', sv'.
    split; [done |]. split; [| done]. cbn [IndexManager.for_each]. unfold bind. by rewrite Et.
  - exists [], ev, evs, js, sv. by split_and!.
Qed.
End Handlers.

#[local] Abbreviation Message_of ty from b := (New (mkHeader (SenderType_code from) (Type_code ty) 0) b).

(** C31. The coordinator under any load: whoever connects, whatever they send
    and whenever they go away, after every event the map describes exactly
    the servers that were admitted, at most as many as the cluster has, with
    the addresses they connected from; a session never has two operations
    outstanding; nobody is answered before the cluster is complete, and every
    answer has its map.  Only a message for which [stops] holds, of its bytes
    and of whether its sender is still connected, ends the service, and the
    very message that did is the one that arrived last. *)
Theorem coordinator_serves parse dump im evs : joined2 [] (IndexManager.mkState 0 im) ->
  match BasicServer.Run parse dump evs im with
  | Ok _ sv => exists js, serves dump js sv
  | Err _ _ => exists evs1 ev evs2 js sv, evs = evs1 ++ ev :: evs2 /\
      BasicServer.Run parse dump evs1 im = Ok tt sv /\ serves dump js sv /\ stopped_by parse sv ev
  end.
Proof.
  intros H0. apply service_serves with (js := []). split; cbn; try done.
  - split; [done | done | cbn; lia | done | done].
  - constructor.
  - intros s Hs. by apply elem_of_nil in Hs.
  - intros s Hs. lia.
  - intros s. rewrite lookup_empty. split; [by intros [] | lia].
  - intros s m Hm. by apply elem_of_nil in Hm.
  - intros x Hx. by apply elem_of_nil in Hx.
Qed.

(** Two servers and a client; a client that is too early. *)
Definition wish_example : json :=
  Obj [("size", Num 4096); ("ib_addr", to_json (j_ib_addr join_a)); ("tablet_qpis", Arr (map to_json (j_qpis join_a)))]%string.
Definition conn_example (from : SenderType) : Session.conn := Session.mkConn (encode (Message_of REQ_JOIN from [])) [] true.
(** The peers stay connected. *)
#[local] Abbreviation completed n := (Completed n (fun _ => true)).
Definition three_example : list event :=
  [Accepted (Some ("10.0.0.1"%string, conn_example SERVER)); Accepted None; Accepted (Some ("10.0.0.2"%string, conn_example SERVER));
   completed 1; completed 0; completed 1; Accepted (Some ("10.0.0.3"%string, conn_example CLIENT)); completed 2; completed 0].
#[local] Abbreviation run_example evs := (BasicServer.Run (fun _ => Some wish_example) (fun _ => []) evs blank_index).

Example three_are_served :
  match run_example three_example with
  | Ok _ sv => (map fst (pending sv), num_servers_ (program sv), errors sv) = ([0; 2; 1], 2, 1)
  | Err _ _ => False
  end /\
  match run_example [Accepted (Some ("10.0.0.3"%string, conn_example CLIENT)); completed 0] with Ok _ _ => False | Err e _ => e = AssertFail end /\
  (* a server that asks well and is gone *)
  match run_example [Accepted (Some ("10.0.0.1"%string, conn_example SERVER)); Completed 0 (fun k => Nat.ltb k 1)] with Ok _ _ => False | Err e _ => e = Session.system_error end.
Proof. split_and!; vm_compute; reflexivity. Qed.

Lemma coordinator_serves_witness : exists sv js, run_example three_example = Ok tt sv /\ serves (fun _ => []) js sv.
Proof.
  pose proof (coordinator_serves (fun _ => Some wish_example) (fun _ => []) blank_index three_example blank_joined) as H.
  destruct three_are_served as [E _]. destruct (run_example three_example) as [[] sv | e sv]; [| destruct E].
  destruct H as [js H]. exists sv, js. split; [reflexivity | exact H].
Defined.
