(* ===== verification/CoordinatorMain.v ===== *)
(** * [coordinator_main.cc]: starting the coordinator

    The process says where it can be reached and runs the service.  What the
    resolver has for the name of the host is [resolved]; the coordinator makes
    its socket before, and [im] is what its index held. *)

From S2P Require Import Prelude Format Wire Index Message BasicServer.
#[local] Open Scope string_scope.

Module CoordinatorMain.

(** The loop over the endpoints returns the first. *)
Definition GetLocalAddr (resolved : list string) : M unit string :=
  match resolved with ep :: _ => ret ep | [] => fail AssertFail end.

(** [NVDS_LOG] *)
Definition NVDS_LOG (fuel : nat) (format : string) (args : list arg) : M (list string) unit := fun out =>
  match Format.Format fuel format args tt with
  | Ok s _ => Ok tt (out ++ [s])%list
  | Err e _ => Err e out
  end.

(** [main]: the lines of the log, and the run of the service. *)
Definition main (fuel : nat) (parse : list Init.Byte.byte -> option json) (dump : json -> list Init.Byte.byte)
    (resolved : list string) (evs : list BasicServer.event) (im : IndexManager) :
    M (list string) (outcome BasicServer.t unit) :=
  addr <- (fun out => match GetLocalAddr resolved tt with Ok a _ => Ok a out | Err e _ => Err e out end) ;;
  NVDS_LOG fuel "Coordinator at: %s" [Chars addr] ;;;
  NVDS_LOG fuel "Listening at: %u" [Integer kCoordPort] ;;;
  NVDS_LOG fuel "......" [] ;;;
  ret (BasicServer.Run parse dump evs im).

End CoordinatorMain.

Import CoordinatorMain.

Lemma log_text fuel format args text out : render format args = Some text -> null_free text = true ->
  Z.of_nat (String.length text) < INT_MAX -> (2 <= fuel)%nat -> NVDS_LOG fuel format args out = Ok tt (out ++ [text])%list.
Proof. intros Hr Hn Hl Hf. unfold NVDS_LOG. by rewrite (Format_whole fuel format args text Hr Hl Hf), c_str_null_free. Qed.

Lemma append_empty s : s ++ "" = s.
Proof. induction s as [|c s IH]; [done |]. change (String c (s ++ "") = String c s). by rewrite IH. Qed.

(** The process names its first address and the port, and then does what the
    service does; without an address it stops. *)
Theorem main_serves fuel parse dump addr resolved evs im : null_free addr = true -> Z.of_nat (String.length addr) < 2 ^ 30 -> (2 <= fuel)%nat ->
  main fuel parse dump (addr :: resolved) evs im [] =
    Ok (BasicServer.Run parse dump evs im) ["Coordinator at: " ++ addr; "Listening at: 9090"; "......"] /\
  main fuel parse dump [] evs im [] = Err AssertFail [].
Proof.
  intros Hn Hl Hf. split; [| done]. unfold main. unfold bind at 1. cbn [GetLocalAddr ret].
  erewrite (bind_Ok (NVDS_LOG fuel "Coordinator at: %s" _)); [| by apply (log_text _ _ _ ("Coordinator at: " ++ addr)); [cbn; rewrite append_empty | | change (String.length ("Coordinator at: " ++ addr)) with (16 + String.length addr)%nat; unfold INT_MAX; lia |]].
  erewrite (bind_Ok (NVDS_LOG fuel "Listening at: %u" _)); [| by apply (log_text _ _ _ "Listening at: 9090")].
  erewrite (bind_Ok (NVDS_LOG fuel "......" _)); [| by apply (log_text _ _ _ "......")]. done.
Qed.
