(* ===== verification/Store.v ===== *)
(** * The store as a whole

    Any number of clients, the map of a formed cluster, and its servers: which
    server a datagram reaches, which of its workers serves it, and that all of
    the tablets together are one map to all of the clients. *)

From S2P Require Import Prelude Nvm Modification Allocator HeapSpec HeapLists Heap Objects Wire Tablet TabletRefine Verbs Loopback Infiniband WorkQueue Hash Index IndexSpec Cluster Sync SyncSpec Server Service Client ClientSpec.

#[local] Open Scope Z_scope.
#[local] Abbreviation len l := (Z.of_nat (length l)).
#[local] Abbreviation hash_of k := (Hash.Hash k (len k)).

(** ** Routing *)

(** The worker [Dispatch] gives a request to. *)
Definition worker_of (sv : Server.t) (request : mem) : option nat :=
  match IndexManager.GetTabletId (Server.index_manager_ sv) (Request.key_hash (Server.request_of request)) tt with
  | Ok id _ => Some (Z.to_nat (id mod kNumTabletAndBackupsPerServer))
  | Err _ _ => None
  end.

Lemma Dispatch_worker e h sv work h' sv' : run e h (Server.Dispatch sv work) = (h', Returned sv') ->
  exists j q st, worker_of sv (Server.mem_of sv work) = Some j /\ Server.workers_ sv !! j = Some q /\
    sv' = Server.with_worker st.1 j st.2 sv /\ st = WorkQueue.Enqueue (Server.bufs sv) q work.
Proof.
  unfold Server.Dispatch, worker_of. intros H. apply returned_bind in H as (h1 & x & [Ex ->]%returned_lift & H). rewrite Ex.
  apply returned_bind in H as (h1 & q & Hq & H). unfold Sync.elem in Hq. destruct (Server.workers_ sv !! _) as [q' |] eqn:E in Hq; [| done].
  injection Hq as <- <-. destruct (WorkQueue.Enqueue _ _ _) as [st q2] eqn:Eq. injection H as _ <-. exists (Z.to_nat (x.1 mod kNumTabletAndBackupsPerServer)), q', (st, q2).
  by rewrite Eq.
Qed.

(** ** The clients, the servers, and one operation *)

Record store := mkStore { clients : list Client.t; servers : list Server.t }.

Section Network.
(** Where the network takes what is sent with a handle. *)
Context (lead : Z -> Z).

Definition arrives (w : ibv_send_wr) (a : Infiniband.Address) : Prop :=
  lead (ud_ah (s_wr w)) = Infiniband.a_lid a /\ ud_remote_qpn (s_wr w) = Infiniband.a_qpn a.

(** A server after an operation on the [j]-th tablet of the [n]-th: queues,
    buffers and the backups, which replication writes, are any; the tablets it
    is the master of are kept. *)
Definition kept (n j : nat) (tb' : Server.tablet) (m : nat) (sv sv' : Server.t) : Prop :=
  Server.index_manager_ sv' = Server.index_manager_ sv /\ Server.ib_addr_ sv' = Server.ib_addr_ sv /\
  forall k, Z.of_nat k < kNumTabletsPerServer ->
    Server.tablets_ sv' !! k = if decide (m = n /\ k = j) then Some tb' else Server.tablets_ sv !! k.

(** A place where a request is served: the number of the server and that of
    its worker. *)
Abbreviation place := (nat * nat)%type.

(** One operation of one client: the datagram reaches the server it is
    addressed to, the [n]-th, which serves it with the worker it dispatches it
    to, the [j]-th. *)
Inductive served (fuel : nat) (o : op) (a : answer) (s : store) : place -> store -> Prop :=
  serve i c c' n sv j tb tb' h' w request svs' :
    clients s !! i = Some c -> delivery fuel o h' w request (Server.index_manager_ sv) a (c, tb) (c', tb') -> made_well lead h' ->
    servers s !! n = Some sv -> arrives w (Server.ib_addr_ sv) ->
    worker_of sv request = Some j -> Server.tablets_ sv !! j = Some tb ->
    length svs' = length (servers s) ->
    (forall m x x', servers s !! m = Some x -> svs' !! m = Some x' -> kept n j tb' m x x') ->
    served fuel o a s (n, j) (mkStore (<[i := c']> (clients s)) svs').

Inductive serves (fuel : nat) : list (op * answer) -> list place -> store -> store -> Prop :=
  | served_none s : serves fuel [] [] s s
  | served_more o a l p ps s t u : served fuel o a s p t -> serves fuel l ps t u -> serves fuel ((o, a) :: l) (p :: ps) s u.

(** Everyone has the map [im]; the servers are where it says, each at an
    address of its own. *)
Record deployed (im : IndexManager) (s : store) : Prop := {
  dp_clients : Forall (fun c => Client.index_manager_ c = im /\ handles_lead lead (Client.ib_ c) /\
    Infiniband.root_ (Client.send_bufs_ c) <> Infiniband.root_ (Client.recv_bufs_ c)) (clients s);
  dp_servers : forall n sv, servers s !! n = Some sv -> Server.index_manager_ sv = im /\
    exists info, servers_ im !! n = Some info /\ s_ib_addr info = Server.ib_addr_ sv;
  dp_apart : forall n m x y, servers_ im !! n = Some x -> servers_ im !! m = Some y ->
    Infiniband.a_lid (s_ib_addr x) = Infiniband.a_lid (s_ib_addr y) -> Infiniband.a_qpn (s_ib_addr x) = Infiniband.a_qpn (s_ib_addr y) -> n = m }.

(** Every server has a tablet with the objects [Bs], and there is fuel for [n]
    more. *)
Definition stocked (fuel n : nat) (s : store) (Bs : nat -> Z -> list object) : Prop :=
  forall m sv, servers s !! m = Some sv -> exists tb, Server.tablets_ sv !! 0%nat = Some tb /\
    holds (Server.heap tb) (Bs m) /\ (forall i, (length (Bs m i) + n < fuel)%nat) /\
    (forall k v, dict (Bs m) k = Some v -> len v <= kSendBufSize - Response.offsetof_val).

(** The tablets as one map: a key is in that of its server. *)
Definition home (im : IndexManager) (key : list Init.Byte.byte) : nat :=
  match IndexManager.GetServer im (hash_of key) tt with Ok sv _ => Z.to_nat (s_id sv) | Err _ _ => 0 end.
Definition whole (im : IndexManager) (Bs : nat -> Z -> list object) : map_of_values := fun key => dict (Bs (home im key)) key.

(** The datagram reaches the home of the key, and there the worker of the
    server's own tablet. *)
Lemma reaches_home im s fuel o a h' w request c tb c' tb' n sv j : formed im -> deployed im s ->
  len (op_key o) + len (op_val o) < 2 ^ 64 -> Client.index_manager_ c = im -> handles_lead lead (Client.ib_ c) ->
  Infiniband.root_ (Client.send_bufs_ c) <> Infiniband.root_ (Client.recv_bufs_ c) ->
  delivery fuel o h' w request (Server.index_manager_ sv) a (c, tb) (c', tb') -> made_well lead h' ->
  servers s !! n = Some sv -> arrives w (Server.ib_addr_ sv) -> worker_of sv request = Some j ->
  n = home im (op_key o) /\ j = 0%nat /\ Client.index_manager_ c' = im /\ handles_lead lead (Client.ib_ c').
Proof.
  intros Hf Hd H64 Hc Hh Hp Hx Hw Hn [A1 A2] Hj.
  destruct (delivery_goes _ _ _ _ _ _ _ _ _ _ _ H64 Hp Hx) as (sv0 & G1 & [G2 G3] & G4 & G5). rewrite Hc in G1.
  destruct (G3 _ Hh Hw) as [G6 G7]. pose proof (Hash.Hash_range (op_key o) (len (op_key o))) as Hr.
  destruct (formed_route _ _ _ Hf Hr G1) as (i & E1 & E2 & E3 & E4).
  destruct (dp_servers _ _ Hd _ _ Hn) as [Eim (info & E5 & E6)].
  assert (n = Z.to_nat i) as -> by (apply (dp_apart _ _ Hd _ _ info sv0); rewrite ?E6; congruence).
  split; [unfold home; by rewrite G1, E2 |]. split; [| by rewrite G4].
  unfold worker_of in Hj. rewrite G5, Eim, E4 in Hj. injection Hj as <-. change kNumTabletAndBackupsPerServer with 2.
  by rewrite Z.mul_comm, Z.mod_mul.
Qed.

Lemma served_map fuel n o a p im s s' Bs : formed im -> deployed im s -> stocked fuel (S n) s Bs ->
  op_fits o -> len (op_key o) + len (op_val o) < 2 ^ 64 -> served fuel o a s p s' ->
  p = (home im (op_key o), 0%nat) /\ exists Bs', deployed im s' /\ stocked fuel n s' Bs' /\ a = map_answer o (whole im Bs) /\
    forall k, whole im Bs' k = map_after o (whole im Bs) k.
Proof.
  intros Hf Hd Hs Hfit H64 [i c c' m sv j tb tb' h' w request svs' Hi Hx Hw Hm Ha Hj Htb Hlen Hk].
  destruct (list.Forall_lookup_1 _ _ _ _ (dp_clients _ _ Hd) Hi) as (C1 & C2 & C3).
  destruct (reaches_home _ _ _ _ _ _ _ _ _ _ _ _ _ _ _ Hf Hd H64 C1 C2 C3 Hx Hw Hm Ha Hj) as (-> & -> & C4 & C5).
  set (m := home im (op_key o)) in *. destruct (Hs _ _ Hm) as (tb0 & T1 & T2 & T3 & T4). rewrite Htb in T1. injection T1 as <-.
  destruct (delivery_map fuel n o a h' w request (Server.index_manager_ sv) c tb c' tb' (Bs m)) as (B' & [R1 R2 R3 R4] & Ea & Em); [by split | done | done | exact Hx |].
  set (Bs' := fun x => if decide (x = m) then B' else Bs x). split; [done |]. exists Bs'.
  assert (forall D D', D (op_key o) = D' (op_key o) -> map_answer o D = map_answer o D') as Hans by (intros D D' E; unfold map_answer; by rewrite E).
  split; [| split; [| split]].
  - split; [| | by apply Hd].
    + cbn [clients]. apply list.Forall_insert; [apply Hd | by split_and!].
    + cbn [servers]. intros x sv' Hx'. destruct (lookup_lt_is_Some_2 (servers s) x) as [sv0 Hsv0]; [rewrite <- Hlen; by eapply lookup_lt_Some |].
      destruct (Hk _ _ _ Hsv0 Hx') as (K1 & K2 & _). rewrite K1, K2. by apply Hd.
  - intros x sv' Hx'. cbn [servers] in Hx'. destruct (lookup_lt_is_Some_2 (servers s) x) as [sv0 Hsv0]; [rewrite <- Hlen; by eapply lookup_lt_Some |].
    destruct (Hk _ _ _ Hsv0 Hx') as (_ & _ & K3). specialize (K3 0%nat ltac:(done)). unfold Bs'. destruct (decide (x = m)) as [-> | E].
    + rewrite decide_True in K3 by done. by exists tb'.
    + rewrite decide_False in K3 by (intros [? _]; done). destruct (Hs _ _ Hsv0) as (tb1 & U1 & U2 & U3 & U4). exists tb1. rewrite K3.
      split_and!; try done. intros y. specialize (U3 y). lia.
  - rewrite Ea. by apply Hans.
  - intros k. unfold whole at 1, Bs'. case_decide as E.
    + rewrite Em. unfold map_after. case_decide; [done |]. unfold whole. by rewrite E.
    + unfold map_after. rewrite decide_False by (intros ->; done). done.
Qed.

(** The server of its key, and there the worker of the server's own tablet. *)
Definition at_home (im : IndexManager) (x : op * answer) : place := (home im (op_key x.1), 0%nat).

Lemma serves_map fuel im l ps s s' Bs : formed im -> deployed im s -> stocked fuel (length l) s Bs ->
  Forall (fun x => op_fits x.1 /\ len (op_key x.1) + len (op_val x.1) < 2 ^ 64) l ->
  serves fuel l ps s s' ->
  ps = map (at_home im) l /\ exists Bs', stocked fuel 0 s' Bs' /\ map snd l = map_answers (map fst l) (whole im Bs) /\
    forall k, whole im Bs' k = map_final (map fst l) (whole im Bs) k.
Proof.
  intros Hf Hd Hs Hl Hx. revert ps s Bs Hd Hs Hx. induction Hl as [|[o a] l [Hfit H64] Hl IH]; intros ps s Bs Hd Hs Hx; inversion Hx; subst.
  - split; [done |]. by exists Bs.
  - match goal with H : served _ _ _ _ _ _ |- _ => destruct (served_map _ _ _ _ _ _ _ _ _ Hf Hd Hs Hfit H64 H) as (-> & B1 & Hd1 & Hs1 & -> & Hm) end.
    edestruct IH as (Eps & B' & HB & Ha & Hk); [exact Hd1 | exact Hs1 | eassumption |]. split; [cbn [map]; by rewrite Eps |]. exists B'. split; [done |].
    destruct (map_ext (map fst l) _ _ Hm) as [Ea Em]. cbn. rewrite Ha, Ea. split; [done |]. intros k. rewrite Hk. apply Em.
Qed.

(** C1. To its clients the store is one map.  The map of the cluster is the
    one the coordinator forms of both servers, everyone has it, and the network
    takes a datagram where its address handle and queue pair number say.  Then,
    in whatever order the clients perform operations whose objects leave the
    allocator room for its footer ([op_fits]), every datagram is served by
    the server of its key and the worker of that server's own tablet, the
    answers of [Put], [Add], [Get] and [Del] are those of one map, the tablets of
    both servers together, and the tablets end with the map that the operations
    leave. *)
Theorem clients_see_one_map fuel im l ps s s' Bs : formed im -> deployed im s -> stocked fuel (length l) s Bs ->
  Forall (fun x => op_fits x.1 /\ len (op_key x.1) + len (op_val x.1) < 2 ^ 64) l ->
  serves fuel l ps s s' ->
  ps = map (at_home im) l /\ exists Bs', stocked fuel 0 s' Bs' /\ map snd l = map_answers (map fst l) (whole im Bs) /\
    forall k, whole im Bs' k = map_final (map fst l) (whole im Bs) k.
Proof. apply serves_map. Qed.
End Network.

(** ** Two clients and two servers *)

(** What an operation leaves when nothing else happens. *)
Definition with_tablet (tb : Server.tablet) (sv : Server.t) : Server.t := Server.with_reply (Server.ib_ sv) 0 ∅ 0 tb sv.
Definition next (i : nat) (c : Client.t) (n : nat) (tb : Server.tablet) (s : store) : store :=
  mkStore (<[i := c]> (clients s)) (alter (with_tablet tb) n (servers s)).

Lemma kept_next n sv tb : is_Some (Server.tablets_ sv !! 0%nat) -> forall m, kept n 0 tb m sv (if decide (m = n) then with_tablet tb sv else sv).
Proof.
  intros H0%lookup_lt_is_Some m. unfold kept. case_decide as E; [subst m | split_and!; try done].
  - split; [done |]. split; [done |]. intros k Hk. assert (k = 0%nat) as -> by (unfold kNumTabletsPerServer in Hk; lia).
    rewrite decide_True by done. cbn. by apply list_lookup_insert_eq.
  - intros k _. by rewrite decide_False by (intros [? _]; done).
Qed.

Lemma delivery_served lead im fuel s i c n sv tb o a h' w request c' tb' : formed im -> deployed lead im s -> clients s !! i = Some c ->
  n = home im (op_key o) -> servers s !! n = Some sv -> Server.tablets_ sv !! 0%nat = Some tb -> len (op_key o) + len (op_val o) < 2 ^ 64 ->
  delivery fuel o h' w request im a (c, tb) (c', tb') -> made_well lead h' -> served lead fuel o a s (n, 0%nat) (next i c' n tb' s).
Proof.
  intros Hf Hd Hi Hn Hsv Htb H64 Hx Hw. destruct (list.Forall_lookup_1 _ _ _ _ (dp_clients _ _ _ Hd) Hi) as (C1 & C2 & C3).
  destruct (dp_servers _ _ _ Hd _ _ Hsv) as [Eim (info & E5 & E6)].
  destruct (delivery_goes _ _ _ _ _ _ _ _ _ _ _ H64 C3 Hx) as (sv0 & G1 & [G2 G3] & _ & G5). rewrite C1 in G1.
  destruct (G3 _ C2 Hw) as [_ G6]. pose proof (Hash.Hash_range (op_key o) (len (op_key o))) as Hr.
  destruct (formed_route _ _ _ Hf Hr G1) as (j & E1 & E2 & E3 & E4).
  assert (n = Z.to_nat j) as -> by (rewrite Hn; unfold home; by rewrite G1, E2). rewrite E1 in E5. injection E5 as <-.
  eapply (serve _ _ _ _ _ _ c c' (Z.to_nat j) sv 0 tb tb'); [done | rewrite Eim; exact Hx | done | done | | | done | |].
  - split; by rewrite <- ?E6.
  - unfold worker_of. rewrite G5, Eim, E4. change kNumTabletAndBackupsPerServer with 2. by rewrite Z.mul_comm, Z.mod_mul.
  - apply length_alter.
  - intros m x x' Hx1 Hx2. destruct (decide (m = Z.to_nat j)) as [-> | Hm].
    + rewrite list_lookup_alter_eq, Hx1 in Hx2. injection Hx2 as <-. rewrite Hsv in Hx1. injection Hx1 as <-.
      pose proof (kept_next (Z.to_nat j) sv tb' ltac:(by eexists) (Z.to_nat j)) as H. by rewrite decide_True in H.
    + rewrite list_lookup_alter_ne, Hx1 in Hx2 by done. injection Hx2 as <-. split_and!; try done. intros k _.
      by rewrite decide_False by (intros [? _]; done).
Qed.

Lemma made_well_run {A} lead (e : env) (p : prog A) : (forall h pd attr, lead (e h (ibv_create_ah pd attr)) = dlid attr) ->
  forall h, made_well lead h -> made_well lead (run e h p).1.
Proof.
  intros He. induction p as [a | s | c k IH]; intros h Hh; cbn [run fst]; [done.. |]. apply IH. apply list.Forall_cons. split; [| done].
  cbn. destruct c; by try apply He.
Qed.

(** One operation in given environments of the client and the server. *)
Lemma exchange_in_served lead im fuel s i c n sv tb (e es : env) o a c' tb' : (forall h pd attr, lead (e h (ibv_create_ah pd attr)) = dlid attr) ->
  formed im -> deployed lead im s -> clients s !! i = Some c -> n = home im (op_key o) -> servers s !! n = Some sv ->
  Server.tablets_ sv !! 0%nat = Some tb -> len (op_key o) + len (op_val o) < 2 ^ 64 ->
  exchange_in fuel e es im o (c, tb) = Some (a, (c', tb')) -> served lead fuel o a s (n, 0%nat) (next i c' n tb' s).
Proof.
  intros He Hf Hd Hi Hn Hsv Htb H64 Hx. destruct (list.Forall_lookup_1 _ _ _ _ (dp_clients _ _ _ Hd) Hi) as (_ & _ & C3).
  destruct (delivery_in_sound _ _ _ _ _ (c, tb) _ _ H64 C3 Hx) as (arrived & w & request & Hdl).
  eapply delivery_served; [done.. |]. apply made_well_run; [done | apply list.Forall_nil_2].
Qed.

(** Handles are local ids, none of them null. *)
Definition lead_example (ah : Z) : Z := if ah <? 0 then ah else ah - 1.
Definition far_env : env := fun h c =>
  match c return reply c with ibv_create_ah _ attr => if dlid attr <? 0 then dlid attr else dlid attr + 1 | c => client_env h c end.

Lemma far_leads h pd attr : lead_example (far_env h (ibv_create_ah pd attr)) = dlid attr.
Proof. unfold lead_example. cbn. repeat case_match; lia. Qed.

Definition reader_example : Client.t :=
  Client.mkClient formed_example (Client.ib_ client_example) (Client.bufs client_example) ∅ (Client.send_bufs_ client_example)
    (Client.recv_bufs_ client_example) (Client.qp_ client_example) 0.
Definition site_example (id : Z) (j : join) : Server.t :=
  Server.mkServer id true 0 0 formed_example (Client.ib_ client_example) (j_ib_addr j) ∅ ∅ (Client.send_bufs_ client_example)
    (Client.recv_bufs_ client_example) (Client.qp_ client_example) [] [tablet_example; tablet_example] 0.
Definition store_example : store := mkStore [reader_example; reader_example] [site_example 0 join_a; site_example 1 join_b].

(** This key is on the other server. *)
Definition e_example : list Init.Byte.byte := [Byte.x65].
Definition put_other : op := mkOp Request.PUT e_example v_example.

Lemma homes : 1%nat = home formed_example (op_key put_example) /\ 0%nat = home formed_example (op_key put_other) /\
  1%nat = home formed_example (op_key get_example).
Proof. split_and!; vm_compute; reflexivity. Qed.

Lemma put_other_fits : op_fits put_other.
Proof. intros _. vm_compute. repeat split; discriminate. Qed.

Lemma deployed_example : deployed lead_example formed_example store_example.
Proof.
  split.
  - repeat constructor; done.
  - intros [|[|n]] sv Hsv; cbn in Hsv; [injection Hsv as <-.. | done]; (split; [done |]); eexists; (split; [vm_compute; reflexivity | reflexivity]).
  - intros [|[|n]] [|[|m]] x y Hx Hy; vm_compute in Hx, Hy; try done; injection Hx as <-; injection Hy as <-; done.
Qed.

Lemma stocked_example : stocked 5 3 store_example (fun _ _ => []).
Proof.
  intros [|[|m]] sv Hsv; cbn in Hsv; [injection Hsv as <-.. | done]; exists tablet_example;
    (split; [done |]; split; [exact holds_example |]; split; [cbn; lia | done]).
Qed.

Definition ask_example (o : op) (x : Client.t * Server.tablet) : option (answer * (Client.t * Server.tablet)) :=
  exchange_in 5 far_env obliging formed_example o x.
Definition left_by (o : op) (x : Client.t * Server.tablet) : Client.t * Server.tablet :=
  match ask_example o x with Some (_, y) => y | None => x end.

Lemma ask_left o x a : (fst <$> ask_example o x) = Some a -> ask_example o x = Some (a, ((left_by o x).1, (left_by o x).2)).
Proof. unfold left_by. destruct (ask_example o x) as [[b [c t]] |]; cbn; [by intros [= ->] | done]. Qed.

Definition c1_example : Client.t := (left_by put_other (reader_example, tablet_example)).1.
Definition t1_left : Server.tablet := (left_by put_example (reader_example, tablet_example)).2.

Lemma asks_example : (fst <$> ask_example put_example (reader_example, tablet_example)) = Some (Said true) /\
  (fst <$> ask_example put_other (reader_example, tablet_example)) = Some (Said true) /\
  (fst <$> ask_example get_example (c1_example, t1_left)) = Some (Gave v_example).
Proof. split_and!; vm_compute; reflexivity. Qed.

Lemma serves_example : exists s',
  serves lead_example 5 [(put_example, Said true); (put_other, Said true); (get_example, Gave v_example)] [(1, 0); (0, 0); (1, 0)]%nat store_example s'.
Proof.
  destruct asks_example as (E1%ask_left & E2%ask_left & E3%ask_left). unfold ask_example in E1, E2, E3.
  pose proof map_formed as Hf. pose proof homes as (H1 & H2 & H3).
  assert (forall h pd attr, lead_example (far_env h (ibv_create_ah pd attr)) = dlid attr) as He by exact far_leads.
  set (c0 := (left_by put_example _).1) in *. set (t1 := (left_by put_example _).2) in *. set (c1 := (left_by put_other _).1) in *. set (t0 := (left_by put_other _).2) in *.
  assert (served lead_example 5 put_example (Said true) store_example (1%nat, 0%nat) (next 0 c0 1 t1 store_example)) as S1.
  { eapply exchange_in_served; [exact He | exact Hf | exact deployed_example | reflexivity | exact H1 | reflexivity | reflexivity | done | exact E1]. }
  destruct (served_map _ 5 2 _ _ _ _ _ _ _ Hf deployed_example stocked_example put_example_fits ltac:(done) S1) as (_ & B1 & D1 & K1 & _).
  assert (served lead_example 5 put_other (Said true) (next 0 c0 1 t1 store_example) (0%nat, 0%nat) (next 1 c1 0 t0 (next 0 c0 1 t1 store_example))) as S2.
  { eapply exchange_in_served; [exact He | exact Hf | exact D1 | reflexivity | exact H2 | reflexivity | reflexivity | done | exact E2]. }
  destruct (served_map _ 5 1 _ _ _ _ _ _ _ Hf D1 K1 put_other_fits ltac:(done) S2) as (_ & B2 & D2 & K2 & _).
  eexists. eapply served_more; [exact S1 |]. eapply served_more; [exact S2 |]. eapply served_more; [| apply served_none].
  eapply (exchange_in_served _ _ _ _ 1 c1_example 1 _ t1_left); [exact He | exact Hf | exact D2 | reflexivity | exact H3 | reflexivity | reflexivity | done | exact E3].
Qed.

Lemma clients_see_one_map_witness : exists s' Bs',
  serves lead_example 5 [(put_example, Said true); (put_other, Said true); (get_example, Gave v_example)] [(1, 0); (0, 0); (1, 0)]%nat store_example s' /\
  stocked 5 0 s' Bs' /\ whole formed_example Bs' k_example = Some v_example /\ whole formed_example Bs' e_example = Some v_example.
Proof.
  destruct serves_example as (s' & Hx). exists s'.
  destruct (clients_see_one_map lead_example 5 formed_example [(put_example, Said true); (put_other, Said true); (get_example, Gave v_example)]
    [(1, 0); (0, 0); (1, 0)]%nat store_example s' (fun _ _ => []) map_formed deployed_example stocked_example) as (_ & Bs' & HB & _ & Hm); [| exact Hx |].
  - apply list.Forall_cons. split; [split; [exact put_example_fits | reflexivity] |].
    apply list.Forall_cons. split; [split; [exact put_other_fits | reflexivity] |].
    apply list.Forall_singleton. split; [exact get_example_fits | reflexivity].
  - exists Bs'. split; [exact Hx |]. split; [exact HB |]. rewrite !Hm. split; reflexivity.
Defined.
