(* ===== verification/StoreLive.v ===== *)
(** * Operations are answered

    With devices and a network that do what they are asked, an operation of a
    client comes back: the client sends, the server of the key serves and
    replicates, and the answer arrives.  What can keep it from that is what
    keeps the tablet from serving it: no room for a value, or the loop of
    [Del]. *)

From S2P Require Import Prelude Nvm Modification Allocator HeapSpec HeapLists Heap Objects Wire Tablet TabletRefine Logged Verbs Merge Loopback Infiniband WorkQueue Hash Index IndexSpec Cluster Sync SyncSpec Server Service Client ClientSpec Store.

Import Allocator.

#[local] Open Scope prog_scope.
#[local] Abbreviation len l := (Z.of_nat (length l)).
#[local] Abbreviation hash_of k := (Hash.Hash k (len k)).

(** ** The server *)

(** A device that says what became of a request when it is asked: it may
    refuse what replication posts, or fail it. *)
Definition obliges (e : env) : Prop := forall h cq n, exists wc, e h (ibv_poll_cq cq n) = Polled [wc].

Lemma poll_one_runs e h fuel cq : obliges e -> (0 < fuel)%nat -> exists h' wc, run e h (poll_one fuel cq) = (h', Returned wc).
Proof.
  intros He Hf. destruct fuel as [|fuel]; [lia |]. destruct (He h cq 1) as (wc & E).
  cbn [poll_one sys pbind run]. rewrite E. cbn [run]. by eexists _, wc.
Qed.

Lemma run_try {A} e (p : prog A) handler : forall h, run e h (try_ p handler) =
  match run e h p with (h', Stopped (Fault (Throw errno))) => run e h' (handler errno) | r => r end.
Proof. induction p as [a | s | c k IH]; intros h; cbn [run try_]; [done | by destruct s as [| [] |] | apply IH]. Qed.

Section Replication.
Variables (im : IndexManager) (tab : Sync.t) (q : Infiniband.QueuePair) (backup : TabletInfo)
  (peer : Infiniband.QueuePairInfo) (rest : list Infiniband.QueuePairInfo) (id lbase top : Z).
Hypothesis Hc : connected im tab q backup peer rest id lbase top.

(** Replication comes to its end, well or with an exception that is caught,
    and leaves the connection. *)
Lemma sync_returns e h fuel l : Forall (names lbase top) l -> obliges e -> (0 < fuel)%nat ->
  exists h' rp, run e h (Server.sync_tablet fuel im tab l) = (h', Returned rp) /\ connected im rp q backup peer rest id lbase top.
Proof using Hc.
  intros Hn He Hf. unfold Server.sync_tablet. rewrite run_try, run_bind. unfold Sync.Sync. case_bool_decide as Hl; [by eexists _, _ |].
  pose proof Hc as [H1 H2 H3 H4 H5 H6 Htop _ _]. destruct (merge_run lbase top Htop l Hl Hn) as (l1 & -> & Hne & _).
  destruct l1 as [|m ms]; [done |]. destruct (Sync.wrs tab) as [|old ws] eqn:Ew; [done |]. cbn [pbind]. rewrite H1. cbn [Sync.post_all].
  rewrite H2. cbn [pbind]. rewrite H3, H4. cbn [check pbind Sync.elem lookup list_lookup Sync.fill]. rewrite Ew.
  cbn [pbind rev app Sync.elem lookup list_lookup Sync.with_wrs Sync.qps_]. rewrite H5. change (Sync.elem [q] 0) with (Ret q).
  cbn [pbind sys run]. destruct (negb (_ =? 0)); [cbn; by eexists _, tab |]. cbn [pbind Sync.post_all Sync.wait_all run Sync.with_wrs Sync.qps_]. rewrite H5.
  cbn [Sync.wait_all]. set (h1 := mkCall _ _ :: h). destruct (poll_one_runs e h1 fuel (Infiniband.scq q) He Hf) as (h2 & wc & E).
  rewrite !run_bind, E. cbn [run]. destruct (negb _); [cbn; by eexists _, tab |]. cbn. eexists _, _. split; [reflexivity |]. split; cbn; apply Hc || done.
Qed.
End Replication.

(** An operation leaves the log of what it did. *)
Lemma operate_logs fuel h r sb resp h' mods : 0 <= Request.key_len r -> 0 <= Request.val_len r ->
  Server.operate fuel h r sb = Ret (resp, h', mods) -> logs h h' mods.
Proof.
  intros Hk Hv. unfold Server.operate, Server.lift.
  assert (forall A (o : outcome state A) a h1, leaves [] h o -> o = Ok a h1 -> logs h h1 (Server.modifications_of h1)) as Hl.
  { intros A o a h1 (l & Hm & Hl) ->. cbn [final app] in *. unfold Server.modifications_of. by rewrite Hm. }
  destruct (Request.Type_of_code (Request.type r)) as [[] |]; cbv zeta.
  - pose proof (fun a h1 => Hl _ _ a h1 (Put_logged r Hk Hv fuel [] h)) as H. destruct (Tablet.Put fuel r [] h) as [st h1 | er h1]; [| done].
    cbn. intros [= <- <- <-]. by eapply H.
  - pose proof (fun a h1 => Hl _ _ a h1 (Add_logged r Hk Hv fuel [] h)) as H. destruct (Tablet.Add fuel r [] h) as [st h1 | er h1]; [| done].
    cbn. intros [= <- <- <-]. by eapply H.
  - pose proof (fun a h1 => Hl _ _ a h1 (Get_logged r Hk Hv fuel (kSendBufSize - Response.offsetof_val) [] h)) as H.
    destruct (Tablet.Get fuel _ r [] h) as [[st bs] h1 | er h1]; [| done]. cbn. intros [= <- <- <-]. by eapply H.
  - pose proof (fun a h1 => Hl _ _ a h1 (Del_logged r Hk Hv fuel [] h)) as H. destruct (Tablet.Del fuel r [] h) as [st h1 | er h1]; [| done].
    cbn. intros [= <- <- <-]. by eapply H.
  - intros [= <- <- <-]. split_and!; done.
Qed.

(** A worker that has a request it can serve stops for the reasons of its
    tablet, or replies. *)
Lemma handle_returns e h fuel B r im tb request sb ty q backup peer rest id :
  connected im (Server.repl tb) q backup peer rest id (base_ (Server.heap tb)) (region (Server.heap tb)) -> obliges e ->
  holds (Server.heap tb) B -> r = Server.request_of request -> servable_request fuel B r ty -> 0 <= Request.key_len r -> 0 <= Request.val_len r ->
  (exists er, Server.handle fuel im tb request sb = Stop (Fault er) /\ stops_with ty er) \/
  exists h' resp tb' st v, run e h (Server.handle fuel im tb request sb) = (h', Returned (resp, tb')) /\
    says resp (Request.type r) st v /\ (length v = 0%nat \/ contents B (bucket_of r) (Request.key r) = Some v) /\
    connected im (Server.repl tb') q backup peer rest id (base_ (Server.heap tb')) (region (Server.heap tb')).
Proof.
  intros Hc He Hh Er Hs Hk Hv. unfold Server.handle, Server.lift. rewrite <- Er. cbn zeta. rewrite New_Response_run. cbn [pbind snd].
  destruct (operate_served fuel B r _ ty sb Hh Hs) as [(er & -> & H) | (resp & h1 & mods & B' & E & [_ F2 _])]; [left; by exists er | right].
  pose proof (operate_logs _ _ _ _ _ _ _ Hk Hv E) as (_ & Hok & Eb & Er2). rewrite E. cbn [pbind].
  assert (0 < fuel)%nat as Hf by (pose proof (sr_fuel _ _ _ _ Hs); lia).
  destruct (sync_returns _ _ _ _ _ _ _ _ _ Hc e h fuel mods Hok He Hf) as (h2 & rp & Ex & Hx).
  rewrite run_bind, Ex. cbn [run]. eexists _, _, _, _, _. split; [reflexivity |].
  split; [exact F2 |]. cbn [Server.heap Server.repl]. rewrite Eb, Er2. split; [| exact Hx]. unfold value_of. destruct ty; try by left. destruct (contents B (bucket_of r) (Request.key r)) as [v |]; [by right | by left].
Qed.

(** ** The client *)

(** A client between two operations: there is a buffer to send and one to
    receive. *)
Record able (c : Client.t) : Prop := {
  ab_send : Infiniband.root_ (Client.send_bufs_ c) <> 0 /\ is_Some (Client.bufs c !! Infiniband.root_ (Client.send_bufs_ c));
  ab_recv : Infiniband.root_ (Client.recv_bufs_ c) <> 0 /\ is_Some (Client.bufs c !! Infiniband.root_ (Client.recv_bufs_ c));
  ab_apart : Infiniband.root_ (Client.send_bufs_ c) <> Infiniband.root_ (Client.recv_bufs_ c);
  ab_ud : Infiniband.is_UD (Infiniband.type (Client.qp_ c)) = true;
  ab_handles : forall l ah, Infiniband.addr_handlers_ (Client.ib_ c) !! l = Some ah -> ah <> 0 }.

(** A device and a network that do what the client asks: handles are made,
    requests are taken and completed, and the answer comes into the buffer that
    was posted for it. *)
Record kind (c : Client.t) (e : env) : Prop := {
  kd_handle : forall h pd attr, e h (ibv_create_ah pd attr) <> 0;
  kd_post : forall h q w, e h (ibv_post_recv q w) = 0;
  kd_send : forall h q ws, e h (ibv_post_send q ws) = 0;
  kd_sent : forall h, exists wc, e h (ibv_poll_cq (Infiniband.scq (Client.qp_ c)) 1) = Polled [wc] /\ wc_status wc = IBV_WC_SUCCESS;
  kd_answer : forall h, exists wc, e h (ibv_poll_cq (Infiniband.rcq (Client.qp_ c)) 1) = Polled [wc] /\ wc_status wc = IBV_WC_SUCCESS /\
    wc_wr_id wc = Infiniband.root_ (Client.recv_bufs_ c) }.

Lemma run_check {B} e h b (k : unit -> prog B) : b = true -> run e h (pbind (check b) k) = run e h (k tt).
Proof. by intros ->. Qed.

Lemma run_lift {S A B} e h (c : M S A) s a s' (k : A * S -> prog B) : c s = Ok a s' -> run e h (pbind (Server.lift c s) k) = run e h (k (a, s')).
Proof. unfold Server.lift. by intros ->. Qed.

Lemma run_deref {B} e h c a b (k : Infiniband.Buffer -> prog B) : Client.bufs c !! a = Some b -> run e h (pbind (Client.deref c a) k) = run e h (k b).
Proof. unfold Client.deref. by intros ->. Qed.

(** The pieces of a message. *)
Section Message.
Variables (c : Client.t) (e : env).
Hypothesis He : kind c e.

Lemma PostReceive_returns h q b buf : exists h', run e h (Infiniband.PostReceive q b buf) = (h', Returned tt).
Proof using He. unfold Infiniband.PostReceive. cbn [sys pbind run]. rewrite (kd_post _ _ He). by eexists. Qed.

Lemma PostSendAndWait_returns h fuel ib b buf n peer : (0 < fuel)%nat -> Infiniband.is_UD (Infiniband.type (Client.qp_ c)) = true ->
  (forall l ah, Infiniband.addr_handlers_ ib !! l = Some ah -> ah <> 0) ->
  exists h' ib', run e h (Infiniband.PostSendAndWait fuel ib (Client.qp_ c) b buf n peer) = (h', Returned ib') /\
    forall l ah, Infiniband.addr_handlers_ ib' !! l = Some ah -> ah <> 0.
Proof using He.
  intros Hf Hu Hh. unfold Infiniband.PostSendAndWait, Infiniband.PostSend. rewrite run_check by done. rewrite run_bind, run_check by done.
  assert (exists h1 ah ib1, run e h (Infiniband.GetAddrHandler ib peer) = (h1, Returned (ah, ib1)) /\ ah <> 0 /\
    forall l x, Infiniband.addr_handlers_ ib1 !! l = Some x -> x <> 0) as (h1 & ah & ib1 & E & Hah & Hall).
  { unfold Infiniband.GetAddrHandler. destruct (Infiniband.addr_handlers_ ib !! Infiniband.a_lid peer) as [ah |] eqn:El.
    - eexists _, ah, _. split; [reflexivity |]. split; [by eapply Hh | done].
    - cbn [sys pbind run]. pose proof (kd_handle _ _ He h (Infiniband.pd_ ib) (mkAh 0 (Infiniband.a_lid peer) 1 0 Infiniband.kPort)) as Hn.
      rewrite run_check by (by apply negb_true_iff, Z.eqb_neq). eexists _, _, _. split; [reflexivity |]. split; [done |].
      cbn. intros l x [[_ <-] | [_ Hx]]%lookup_insert_Some; [done | by eapply Hh]. }
  rewrite run_bind, E, run_check by (by apply negb_true_iff, Z.eqb_neq). cbv zeta. cbn [sys pbind run]. rewrite (kd_send _ _ He).
  change (negb (0 =? 0)) with false. cbv iota. cbn [run]. destruct fuel as [|fuel]; [lia |]. unfold Infiniband.wait_one. cbn [poll_one sys pbind run].
  set (h2 := mkCall _ _ :: h1). destruct (kd_sent _ _ He h2) as (wc & Ew & Hs). rewrite Ew. cbn [pbind run]. rewrite Hs. cbn. eexists _, _. split; [reflexivity | exact Hall].
Qed.

Lemma Receive_returns h fuel st b : (0 < fuel)%nat -> Infiniband.root_ (Client.recv_bufs_ c) <> 0 -> st !! Infiniband.root_ (Client.recv_bufs_ c) = Some b ->
  exists h' st', run e h (Infiniband.Receive fuel (Client.qp_ c) st) = (h', Returned (Infiniband.root_ (Client.recv_bufs_ c), st')) /\
    forall x, is_Some (st !! x) -> is_Some (st' !! x).
Proof using He.
  intros Hf Hr Hb. destruct fuel as [|fuel]; [lia |]. cbn [Infiniband.Receive]. unfold Infiniband.TryReceive, Infiniband.PollCQ. cbn [sys pbind run].
  destruct (kd_answer _ _ He h) as (wc & Ew & Hs & Hw). rewrite Ew, Hs. change (negb (IBV_WC_SUCCESS =? IBV_WC_SUCCESS)) with false. cbv iota.
  rewrite Hw, Hb. cbn [pbind fst]. rewrite (proj2 (Z.eqb_neq _ _) Hr). cbn [run].
  eexists _, _. split; [reflexivity |]. intros x Hx. cbn [snd]. destruct (decide (x = Infiniband.root_ (Client.recv_bufs_ c))) as [-> | Hne].
  - rewrite lookup_insert_eq. by eexists.
  - by rewrite lookup_insert_ne.
Qed.
End Message.

(** The client keeps what it needs for the next operation. *)
Record keeps (c c' : Client.t) : Prop := {
  ke_qp : Client.qp_ c' = Client.qp_ c;
  ke_send : Infiniband.root_ (Client.send_bufs_ c') = Infiniband.root_ (Client.send_bufs_ c);
  ke_bufs : forall x, is_Some (Client.bufs c !! x) -> is_Some (Client.bufs c' !! x);
  ke_handles : forall l ah, Infiniband.addr_handlers_ (Client.ib_ c') !! l = Some ah -> ah <> 0 }.

Lemma keeps_able c c' rb : able c -> keeps c c' -> rb = Infiniband.root_ (Client.recv_bufs_ c) -> able (Client.free_recv rb c').
Proof.
  intros [[S1 S2] [R1 R2] Ha Hu _] [K1 K2 K3 K4] ->. split; cbn; rewrite ?K1, ?K2; try done; (split; [done |]); by apply lookup_alter_is_Some, K3.
Qed.

Lemma keeps_kind c c' rb e : kind c e -> keeps c c' -> rb = Infiniband.root_ (Client.recv_bufs_ c) -> kind (Client.free_recv rb c') e.
Proof. intros [D1 D2 D3 D4 D5] [K1 _ _ _] ->. by split; cbn; rewrite ?K1. Qed.

Lemma RequestAndWait_returns e h fuel arrived key val val_len v ty c sv : kind c e -> able c -> (0 < fuel)%nat ->
  given val val_len v -> len key + len v <= kMaxItemSize -> IndexManager.GetServer (Client.index_manager_ c) (hash_of key) tt = Ok sv tt ->
  exists h' c', run e h (Client.RequestAndWait fuel arrived key (len key) val val_len ty c) = (h', Returned (Infiniband.root_ (Client.recv_bufs_ c), c')) /\ keeps c c'.
Proof.
  intros He [[S1 [sbuf S2]] [R1 [rbuf R2]] Ha Hu Hh] Hf Hg Hs Hsv. assert (val_len = len v) as Ev by (destruct Hg as [[_ ?] | (_ & -> & ->)]; done).
  assert (len key + len v < 2 ^ 64) as H64 by (unfold kMaxItemSize in Hs; lia).
  unfold Client.RequestAndWait. rewrite run_check by (rewrite Ev, u64_small by lia; by apply Z.leb_le).
  rewrite (run_lift _ _ _ _ _ _ _ Hsv). cbn [Infiniband.Alloc]. rewrite run_check by (by apply negb_true_iff, Z.eqb_neq). cbv zeta.
  match goal with |- context [Client.with_send (Client.bufs c) ?p c] => set (p0 := p); clearbody p0 end.
  rewrite (run_lift _ _ _ _ _ _ _ (New_given _ _ _ _ _ v Hg Hs)). cbv zeta. cbn [fst snd Infiniband.Alloc].
  match goal with |- context [Client.with_recv _ ?p _] => set (p1 := p); clearbody p1 end.
  cbn [Client.with_send Client.with_mem Client.with_recv Client.recv_bufs_ Client.bufs Client.qp_ Client.ib_ Client.index_manager_ Client.mems].
  rewrite run_check by (by apply negb_true_iff, Z.eqb_neq). rewrite (run_deref _ _ _ _ rbuf) by exact R2.
  destruct (PostReceive_returns c e He h (Client.qp_ c) (Infiniband.root_ (Client.recv_bufs_ c)) rbuf) as [h1 E1]. rewrite run_bind, E1.
  rewrite (run_deref _ _ _ _ sbuf) by exact S2.
  match goal with |- context [Infiniband.PostSendAndWait fuel _ _ _ _ ?n ?peer] =>
    destruct (PostSendAndWait_returns c e He h1 fuel (Client.ib_ c) (Infiniband.root_ (Client.send_bufs_ c)) sbuf n peer Hf Hu Hh) as (h2 & ib & E2 & Hib) end.
  rewrite run_bind, E2. cbn [Infiniband.Free].
  cbn [Client.with_send Client.with_mem Client.with_recv Client.with_ib Client.recv_bufs_ Client.send_bufs_ Client.bufs Client.qp_ Client.ib_].
  match goal with |- context [Infiniband.Receive fuel _ ?st] => destruct (Receive_returns c e He h2 fuel st rbuf Hf R1) as (h3 & st' & E3 & Hst) end.
  { by rewrite lookup_alter_ne. }
  rewrite run_bind, E3. cbn [fst snd]. rewrite run_check by apply Z.eqb_refl. cbn [run].
  eexists _, _. split; [reflexivity |]. split; [done | done | | exact Hib]. intros x Hx. by apply Hst, lookup_alter_is_Some.
Qed.

(** The answer of the server is read from where it is. *)
Lemma perform_returns e h fuel arrived o c sv : kind c e -> able c -> (0 < fuel)%nat -> len (op_key o) + len (op_val o) <= kMaxItemSize ->
  IndexManager.GetServer (Client.index_manager_ c) (hash_of (op_key o)) tt = Ok sv tt ->
  rd16 arrived (kIBUDPadding + 2) <= kMaxItemSize ->
  exists h' a c', run e h (perform fuel arrived o c) = (h', Returned (a, c')) /\ able c' /\ kind c' e.
Proof.
  intros He Ha Hf Hs Hsv Hr. destruct o as [ty key v]. cbn [op_key op_val] in *. unfold perform. cbn [op_type op_key op_val].
  assert (forall ty val val_len w, given val val_len w -> len w <= len v -> exists h' c',
    run e h (Client.RequestAndWait fuel arrived key (len key) val val_len ty c) = (h', Returned (Infiniband.root_ (Client.recv_bufs_ c), c')) /\
    able (Client.free_recv (Infiniband.root_ (Client.recv_bufs_ c)) c') /\ kind (Client.free_recv (Infiniband.root_ (Client.recv_bufs_ c)) c') e) as Hask.
  { intros ty0 val val_len w Hg Hw. destruct (RequestAndWait_returns e h fuel arrived key val val_len w ty0 c sv He Ha Hf Hg ltac:(lia) Hsv) as (h1 & c1 & E & K).
    exists h1, c1. split; [exact E |]. split; [by eapply keeps_able | by eapply keeps_kind]. }
  assert (given None 0 []) as Hg by (by right).
  destruct ty.
  - destruct (Hask Request.PUT (Some v) (len v) v ltac:(by left) ltac:(done)) as (h1 & c1 & E & K). rewrite run_bind. unfold Client.Put, Client.ask. rewrite run_bind, E. by eexists _, _, _.
  - destruct (Hask Request.ADD (Some v) (len v) v ltac:(by left) ltac:(done)) as (h1 & c1 & E & K). rewrite run_bind. unfold Client.Add, Client.ask. rewrite run_bind, E. by eexists _, _, _.
  - destruct (Hask Request.GET None 0 [] Hg ltac:(cbn; lia)) as (h1 & c1 & E & K). rewrite run_bind. unfold Client.Get. rewrite run_bind, E.
    assert (len key + 0 < 2 ^ 64) as H0 by (unfold kMaxItemSize in Hs; lia).
    pose proof (RequestAndWait_run _ _ _ _ _ _ _ _ _ _ _ _ _ Hg H0 E) as [_ _ _ Em _ _].
    unfold Client.response_of, Client.mem_of. rewrite Em, lookup_insert_eq. cbn [default Response.MakeResponse Response.val Response.val_len]. change (id arrived) with arrived. rewrite load_length.
    rewrite (proj2 (Z.ltb_ge _ _)); [by eexists _, _, _ |]. unfold kMaxItemSize, kIBUDPadding, Client_kRecvBufSize, Response.offsetof_val in *. lia.
  - destruct (Hask Request.DEL None 0 [] Hg ltac:(cbn; lia)) as (h1 & c1 & E & K). rewrite run_bind. unfold Client.Del, Client.ask. rewrite run_bind, E. by eexists _, _, _.
Qed.

(** ** The store *)

(** The tablet is connected to its backup. *)
Definition linked (im : IndexManager) (tb : Server.tablet) : Prop := exists q backup peer rest id,
  connected im (Server.repl tb) q backup peer rest id (base_ (Server.heap tb)) (region (Server.heap tb)).

(** A store that is up, with fuel for [n] more operations: its map is formed,
    its clients and their devices can work, and each of its two servers has its
    tablet, connected to the backup. *)
Record healthy (lead : Z -> Z) (im : IndexManager) (fuel n : nat) (devices : list env) (s : store) (Bs : nat -> Z -> list object) : Prop := {
  hy_formed : formed im;
  hy_deployed : deployed lead im s;
  hy_clients : Forall2 (fun c e => able c /\ kind c e) (clients s) devices;
  hy_servers : length (servers s) = 2%nat;
  hy_tablets : forall m sv, servers s !! m = Some sv -> exists tb, Server.tablets_ sv !! 0%nat = Some tb /\ holds (Server.heap tb) (Bs m) /\
    (forall j, (length (Bs m j) + n < fuel)%nat) /\ (forall k v, dict (Bs m) k = Some v -> len v <= kMaxItemSize) /\ linked im tb }.

Lemma healthy_stocked lead im fuel n k devices s Bs : (k <= n)%nat -> healthy lead im fuel n devices s Bs -> stocked fuel k s Bs.
Proof.
  intros Hk [_ _ _ _ Ht] m sv Hsv. destruct (Ht _ _ Hsv) as (tb & T1 & T2 & T3 & T4 & _). exists tb. split_and!; try done.
  - intros i. specialize (T3 i). lia.
  - intros key v Hv. specialize (T4 _ _ Hv). unfold kMaxItemSize, kSendBufSize, Response.offsetof_val in *. lia.
Qed.

(** An operation the client and the heap take, with a key the map can route. *)
Definition sendable (o : op) : Prop :=
  op_fits o /\ len (op_key o) + len (op_val o) <= kMaxItemSize /\ hash_of (op_key o) < 2 ^ 64 - 1024.

(** The server of the key stops over the request: its heap has no room for the
    value, or [Del] looks for a key that is not first in its chain. *)
Definition stopped_by (im : IndexManager) (fuel : nat) (s : store) (o : op) : Prop := exists sv tb request er,
  servers s !! home im (op_key o) = Some sv /\ Server.tablets_ sv !! 0%nat = Some tb /\
  Request.key (Server.request_of request) = op_key o /\ Request.type (Server.request_of request) = Request.Type_code (op_type o) /\
  Server.handle fuel im tb request ∅ = Stop (Fault er) /\ stops_with (op_type o) er.

Lemma reply_short resp arrived ty st v : says resp ty st v -> len v <= kMaxItemSize ->
  datagram (Response.RespLen (Response.MakeResponse resp 0 kSendBufSize)) resp arrived -> rd16 arrived (kIBUDPadding + 2) <= kMaxItemSize.
Proof.
  intros [_ _ S3 _] Hv Hd. assert (exists n, Z.to_nat (Response.RespLen (Response.MakeResponse resp 0 kSendBufSize)) = (4 + n)%nat) as [n En].
  { exists (Z.to_nat (Response.RespLen (Response.MakeResponse resp 0 kSendBufSize)) - 4)%nat. unfold Response.RespLen.
    cbn [Response.type Response.val_len Response.MakeResponse]. change (0 + 2) with 2. rewrite S3. unfold Response.sizeof_Response. case_match; lia. }
  unfold datagram in Hd. rewrite En in Hd. replace (rd16 arrived (kIBUDPadding + 2)) with (len v); [done |].
  rewrite <- S3. unfold rd16. f_equal. symmetry. apply (load_part _ _ _ _ _ 2 2 Hd). lia.
Qed.

(** What arrives is a request the tablet can serve. *)
Lemma asks_servable fuel B o m request : op_fits o -> len (op_key o) + len (sent_val o) <= kMaxItemSize ->
  datagram (16 + len (op_key o) + len (sent_val o)) (built m 0 (op_type o) (op_key o) (sent_val o) (hash_of (op_key o))) request ->
  (forall j, (length (B j) < fuel)%nat) -> (forall k v, dict B k = Some v -> len v <= kMaxItemSize) ->
  let r := Server.request_of request in
  servable_request fuel B r (op_type o) /\ 0 <= Request.key_len r /\ 0 <= Request.val_len r /\
  Request.type r = Request.Type_code (op_type o) /\ contents B (bucket_of r) (Request.key r) = dict B (op_key o).
Proof.
  intros Hfit Hsent Hd Hf Hv. cbv zeta. destruct (request_arrives _ _ _ _ _ Hsent Hd) as (R1 & R2 & R3 & R4 & R5 & R6).
  set (r := Server.request_of request) in *.
  assert (contents B (bucket_of r) (Request.key r) = dict B (op_key o)) as Eo by (unfold bucket_of; by rewrite R4, R2).
  split; [split; [done | done | | apply Hf |] | split_and!; try done; apply rd16_range].
  - intros Hn. replace (request_size r) with (16 + len (op_key o) + len (op_val o)); [by apply Hfit |].
    unfold Request.ReqLen, Request.sizeof_Request in R6. unfold request_size. rewrite R6. unfold sent_val. by destruct Hn as [-> | ->].
  - intros w. rewrite Eo. intros Hw. specialize (Hv _ _ Hw). unfold kMaxItemSize, kSendBufSize, Response.offsetof_val in *. lia.
Qed.

(** One operation of the [i]-th client. *)
Lemma operation_returns lead im fuel n devices s Bs i c o (e es : env) : healthy lead im fuel (S n) devices s Bs -> clients s !! i = Some c ->
  devices !! i = Some e -> sendable o -> (forall h pd attr, lead (e h (ibv_create_ah pd attr)) = dlid attr) -> obliges es ->
  stopped_by im fuel s o \/ exists a c' sv tb tb' h' w request, servers s !! home im (op_key o) = Some sv /\ Server.tablets_ sv !! 0%nat = Some tb /\
    delivery fuel o h' w request im a (c, tb) (c', tb') /\ made_well lead h' /\ able c' /\ kind c' e /\ linked im tb'.
Proof.
  intros [Hf Hd Hcl Hn2 Ht] Hi Hdev (Hfit & Hsmall & Hhash) Hlead Hes.
  assert (len (op_key o) + len (op_val o) < 2 ^ 64) as H64 by (unfold kMaxItemSize in Hsmall; lia).
  destruct (list.Forall2_lookup_lr _ _ _ _ _ _ Hcl Hi Hdev) as [Hab He]. destruct (list.Forall_lookup_1 _ _ _ _ (dp_clients _ _ _ Hd) Hi) as (C1 & _ & C3).
  destruct (formed_serves im _ Hf (Hash.Hash_range _ _) Hhash) as (j & info & Hj & _ & _ & Hid & Hget).
  assert (home im (op_key o) = Z.to_nat j) as Hh by (unfold home; by rewrite Hget, Hid).
  destruct (lookup_lt_is_Some_2 (servers s) (Z.to_nat j)) as [sv Hsv]; [lia |].
  destruct (Ht _ _ Hsv) as (tb & T1 & T2 & T3 & T4 & q & backup & peer & rest & id & Hc).
  set (B := Bs (Z.to_nat j)) in *. set (sb := Infiniband.root_ (Client.send_bufs_ c)).
  assert (len (op_key o) + len (sent_val o) <= kMaxItemSize) as Hsent by (unfold sent_val; destruct (op_type o); cbn [length]; lia).
  set (request := Nvm.store ∅ kIBUDPadding (load (built (Client.mem_of c sb) 0 (op_type o) (op_key o) (sent_val o) (hash_of (op_key o))) 0
    (16 + length (op_key o) + length (sent_val o)))).
  assert (forall size, size = 16 + len (op_key o) + len (sent_val o) ->
    datagram size (built (Client.mem_of c sb) 0 (op_type o) (op_key o) (sent_val o) (hash_of (op_key o))) request) as Hreq.
  { intros size ->. unfold datagram, request. replace (Z.to_nat _) with (16 + length (op_key o) + length (sent_val o))%nat by lia. apply load_cut, load_length. }
  pose proof (asks_servable fuel B o _ request Hfit Hsent (Hreq _ eq_refl) (fun j => ltac:(specialize (T3 j); lia)) T4) as (R & Hk & Hv & Ety & Eold).
  destruct (handle_returns es [] fuel B _ im tb request ∅ _ _ _ _ _ _ Hc Hes T2 eq_refl R Hk Hv) as
    [(er & E & Hs) | (hs' & resp & tb' & st & v & E & Hsay & Hval & Hc')].
  { left. exists sv, tb, request, er. rewrite Hh. split_and!; try done; apply (request_arrives _ _ _ _ _ Hsent (Hreq _ eq_refl)). }
  right. set (arrived := Nvm.store ∅ kIBUDPadding (load resp 0 (Z.to_nat (Response.RespLen (Response.MakeResponse resp 0 kSendBufSize))))).
  assert (datagram (Response.RespLen (Response.MakeResponse resp 0 kSendBufSize)) resp arrived) as Harr by (apply load_cut, load_length).
  assert (len v <= kMaxItemSize) as Hv2 by (destruct Hval as [-> | Hval]; [done | apply (T4 (op_key o)); by rewrite <- Eold]).
  assert (0 < fuel)%nat as Hfuel by (specialize (T3 0); lia). rewrite <- C1 in Hget.
  destruct (perform_returns e [] fuel arrived o c info He Hab Hfuel Hsmall Hget (reply_short _ _ _ _ _ Hsay Hv2 Harr)) as (h' & a & c' & Ec & Hab' & He').
  destruct (perform_run _ _ _ _ _ _ _ _ _ H64 Ec) as (rb & c2 & Hask & -> & _).
  pose proof (asked_memory _ _ _ _ _ _ _ _ _ Hask C3) as Em. destruct Hask as [_ (sv0 & w & b & _ & W1 & _ & W2 & W3) _ _ _ _].
  assert (delivery fuel o h' w request im a (c, tb) (Client.free_recv rb c2, tb')) as Hdl.
  { eapply delivered; [exact Ec | exact W1 | exact W3 | | exact E | exact Harr].
    change (Client.mem_of (Client.free_recv rb c2) (s_wr_id w)) with (Client.mem_of c2 (s_wr_id w)). rewrite W2, Em. by apply Hreq. }
  assert (made_well lead h') as Hmade.
  { change h' with (fst (h', Returned (a, Client.free_recv rb c2))). rewrite <- Ec. apply made_well_run; [done | apply list.Forall_nil_2]. }
  exists a, (Client.free_recv rb c2), sv, tb, tb', h', w, request. rewrite Hh. split_and!; try done. do 5 eexists. exact Hc'.
Qed.

Lemma after_short o D : len (sent_val o) <= kMaxItemSize -> (forall k v, D k = Some v -> len v <= kMaxItemSize) ->
  forall k v, map_after o D k = Some v -> len v <= kMaxItemSize.
Proof.
  intros Hs HD k v. unfold map_after. case_decide; [| apply HD]. pose proof (HD (op_key o)) as H1. unfold after.
  unfold sent_val in Hs. revert Hs H1. destruct (op_type o), (D (op_key o)) as [y |]; intros Hs H1 [= <-]; (by apply H1) || done.
Qed.

(** The store stays up. *)
Lemma healthy_step lead im fuel n devices s Bs i c o (e es : env) : healthy lead im fuel (S n) devices s Bs -> clients s !! i = Some c ->
  devices !! i = Some e -> sendable o -> (forall h pd attr, lead (e h (ibv_create_ah pd attr)) = dlid attr) -> obliges es ->
  stopped_by im fuel s o \/
  exists a s' Bs', served lead fuel o a s (at_home im (o, a)) s' /\ healthy lead im fuel n devices s' Bs' /\ length (clients s') = length (clients s).
Proof.
  intros Hh Hi Hdev Ho Hlead Hes.
  destruct (operation_returns _ _ _ _ _ _ _ _ _ _ _ _ Hh Hi Hdev Ho Hlead Hes) as
    [| (a & c' & sv & tb & tb' & h' & w & request & Hsv & Htb & Hx & Hw & Hab & Hk & Hl)]; [by left | right].
  pose proof Hh as [Hf Hd Hcl Hn2 Ht]. destruct Ho as (Hfit & Hsmall & _). set (m := home im (op_key o)) in *.
  assert (len (op_key o) + len (op_val o) < 2 ^ 64) as H64 by (unfold kMaxItemSize in Hsmall; lia).
  pose proof (delivery_served lead im fuel s i c m sv tb o a h' w request c' tb' Hf Hd Hi eq_refl Hsv Htb H64 Hx Hw) as Hs.
  destruct (served_map _ _ _ _ _ _ _ _ _ _ Hf Hd (healthy_stocked _ _ _ _ (S n) _ _ _ ltac:(done) Hh) Hfit H64 Hs) as (_ & _ & Hd' & _).
  destruct (Ht _ _ Hsv) as (tb0 & T1 & T2 & T3 & T4 & _). rewrite Htb in T1. injection T1 as <-.
  destruct (list.Forall_lookup_1 _ _ _ _ (dp_clients _ _ _ Hd) Hi) as (_ & _ & C3).
  destruct (delivery_map fuel n o a h' w request im c tb c' tb' (Bs m)) as (B' & [R1 _ R3 _] & _ & Em); [| done | done | exact Hx |].
  { split; [done | done | done |]. intros k v Hv. specialize (T4 _ _ Hv). unfold kMaxItemSize, kSendBufSize, Response.offsetof_val in *. lia. }
  exists a, (next i c' m tb' s), (fun x => if decide (x = m) then B' else Bs x). split; [exact Hs |]. split; [| by apply length_insert].
  split; [exact Hf | exact Hd' | | by cbn; rewrite length_alter |].
  - cbn [next clients]. rewrite <- (list_insert_id devices i e Hdev). by apply list.Forall2_insert.
  - cbn [next servers]. intros x sv' Hx'. destruct (decide (x = m)) as [-> | Hne].
    + rewrite list_lookup_alter_eq, Hsv in Hx'. injection Hx' as <-. exists tb'. split; [| split_and!; try done].
      * cbn. apply list_lookup_insert_eq. by eapply lookup_lt_Some.
      * intros k v. rewrite Em. apply after_short; [| exact T4]. unfold sent_val. destruct (op_type o); cbn [length]; lia.
    + rewrite list_lookup_alter_ne in Hx' by done. destruct (Ht _ _ Hx') as (tb1 & U1 & U2 & U3 & U4 & U5). exists tb1. 
      split_and!; try done. intros y. specialize (U3 y). lia.
Qed.

(** A sequence comes to its end, or to an operation that is stopped. *)
Lemma sequence_returns lead im fuel devices es : Forall (fun e : env => forall h pd attr, lead (e h (ibv_create_ah pd attr)) = dlid attr) devices ->
  obliges es -> forall l s Bs, healthy lead im fuel (length l) devices s Bs -> Forall (fun x => (x.1 < length (clients s))%nat /\ sendable x.2) l ->
  exists answered s' rest, serves lead fuel answered (map (at_home im) answered) s s' /\ map snd l = map fst answered ++ rest /\
    match rest with [] => True | o :: _ => stopped_by im fuel s' o /\ op_type o <> Request.GET end.
Proof.
  intros Hlead Hes l. induction l as [|[i o] l IH]; intros s Bs Hh Hl; [by exists [], s, []; split; [apply served_none |] |].
  apply list.Forall_cons in Hl as [[Hi Ho] Hl]. cbn [fst snd] in *.
  destruct (lookup_lt_is_Some_2 _ _ Hi) as [c Hc]. destruct (lookup_lt_is_Some_2 devices i) as [e He].
  { rewrite <- (list.Forall2_length _ _ _ (hy_clients _ _ _ _ _ _ _ Hh)). exact Hi. }
  destruct (healthy_step _ _ _ _ _ _ _ _ _ _ _ _ Hh Hc He Ho (list.Forall_lookup_1 _ _ _ _ Hlead He) Hes) as [Hst | (a & t & Bt & Hs & Ht & Hlen)].
  - exists [], s, (o :: map snd l). split; [apply served_none |]. split; [done |]. split; [exact Hst |].
    destruct Hst as (sv & tb & request & er & _ & _ & _ & _ & _ & Hw). intros E. by rewrite E in Hw.
  - destruct (IH t Bt Ht) as (answered & s' & rest & H1 & H2 & H3); [by rewrite Hlen |].
    exists ((o, a) :: answered), s', rest. split; [by eapply served_more |]. split; [cbn; by rewrite H2 | exact H3].
Qed.


(** ** Two clients and two servers that are up *)

Definition info_example (id : Z) : TabletInfo := default (mkTabletInfo 0 0 false [] []) (tablets_ formed_example !! Z.to_nat id).
Definition linked_example (id : Z) : Server.tablet :=
  Server.mkTab t1_example (Sync.mkTablet (info_example id) 4096 (Sync.ib_ tab_example) (Sync.mr_ tab_example) [qp_example] [wr_example]).
Definition up_example (id : Z) (j : join) : Server.t :=
  Server.mkServer id true 0 0 formed_example (Client.ib_ client_example) (j_ib_addr j) ∅ ∅ (Client.send_bufs_ client_example)
    (Client.recv_bufs_ client_example) (Client.qp_ client_example) [] [linked_example (2 * id); linked_example (2 * id + 1)] 0.
Definition running_example : store := mkStore [reader_example; reader_example] [up_example 0 join_a; up_example 1 join_b].

Lemma linked_tablets id : id = 0 \/ id = 1 -> linked formed_example (linked_example (2 * id)).
Proof.
  intros [-> | ->]; eexists qp_example, _, _, _, _; split; try reflexivity; try discriminate; vm_compute; split; discriminate.
Qed.

Lemma reader_able : able reader_example.
Proof. split; try done; split; try done; by eexists. Qed.

Lemma reader_kind : kind reader_example far_env.
Proof.
  split; try done.
  - intros h pd attr. cbn. case_match; lia.
  - intros h. by eexists.
  - intros h. by eexists.
Qed.

Lemma healthy_example n : (n < 5)%nat -> healthy lead_example formed_example 5 n [far_env; far_env] running_example (fun _ _ => []).
Proof.
  intros Hn. split.
  - exact map_formed.
  - split.
    + repeat constructor; done.
    + intros [|[|m]] sv Hsv; cbn in Hsv; [injection Hsv as <-.. | done]; (split; [done |]); eexists; (split; [vm_compute; reflexivity | reflexivity]).
    + exact (dp_apart _ _ _ deployed_example).
  - constructor; [| constructor; [| constructor]]; (split; [exact reader_able | exact reader_kind]).
  - done.
  - intros [|[|m]] sv Hsv; cbn in Hsv; [injection Hsv as <-.. | done]; eexists; (split; [reflexivity |]);
      (split; [exact holds_example |]); (split; [cbn; lia |]); (split; [done |]); apply linked_tablets; auto.
Qed.

Lemma obliging_obliges : obliges obliging.
Proof. intros h cq n. by eexists. Qed.

