(* ===== verification/ServerRun.v ===== *)
(** * A server at work under the rules of the verbs

    The poller and the worker of a server, one pass and one request at a time,
    from the moment the server came up.  The one rule they can break is the
    limit on inline data. *)

From S2P Require Import Prelude Nvm Modification Allocator Wire Tablet TabletRefine Verbs Merge Protocol Loopback Infiniband Endpoint WorkQueue Index IndexSpec Message Session Sync SyncSpec SyncRules Server Service ServerSteps ServerView Join ServerMain ServerRules Coordinator Cluster.
Import Infiniband (QueuePair).

#[local] Open Scope prog_scope.
#[local] Abbreviation depth := Server.kMaxIBQueueDepth.

(** ** Runs that break certain rules only *)

Section Upheld.
Context (bad : call -> Prop).

(** A run broke no rule, or the last call of the rules it obeyed is bad. *)
Definition upheld {A} (Q : A -> device -> Prop) (r : trace * result A) : Prop :=
  match judge r.1 with
  | Running d => match r.2 with Returned a => Q a d | Stopped _ => True end
  | Misused c => bad c
  | Excused => True
  end.

Lemma upheld_safe {A} e h d (p : prog A) Q E : judge h = Running d -> safe d p Q E -> upheld Q (run e h p).
Proof.
  intros Hj Hs. pose proof (safe_run e h d p Q E Hj Hs) as H. unfold upheld. destruct (run e h p) as [h' [a | st]]; cbn [fst snd] in *;
    by destruct (judge h').
Qed.

Lemma excused_run {A} e h (p : prog A) : judge h = Excused -> judge (run e h p).1 = Excused.
Proof.
  revert h. induction p as [a | s | c k IH]; intros h Hj; cbn [run fst]; [done | done |]. apply IH. cbn [judge]. by rewrite Hj.
Qed.

Lemma upheld_bind {A B} e h (p : prog A) (k : A -> prog B) Q' Q : upheld Q' (run e h p) ->
  (forall h' a d, judge h' = Running d -> Q' a d -> upheld Q (run e h' (k a))) -> upheld Q (run e h (pbind p k)).
Proof.
  rewrite run_bind. destruct (run e h p) as [h' [a | s]]; unfold upheld at 1; cbn [fst snd]; intros H Hk.
  - destruct (judge h') as [d | c |] eqn:Ej; [by eapply Hk | |]; unfold upheld; [by rewrite (misused_run _ _ _ _ Ej) | by rewrite (excused_run _ _ _ Ej)].
  - exact H.
Qed.

Lemma misused_try {A} e h c (p : prog A) handler : judge (run e h p).1 = Misused c -> judge (run e h (try_ p handler)).1 = Misused c.
Proof.
  revert h. induction p as [a | s | c' k IH]; intros h Hj; cbn [try_ run fst] in *; [done | | by apply IH].
  destruct s as [| [] |]; try done. by apply misused_run.
Qed.

Lemma upheld_mono {A} (Q Q' : A -> device -> Prop) r : (forall a d, Q a d -> Q' a d) -> upheld Q r -> upheld Q' r.
Proof. intros H. unfold upheld. destruct (judge r.1); [| done | done]. destruct r.2; [apply H | done]. Qed.
End Upheld.

(** ** The length of a reply *)

Definition fits (m : mem) : Prop := rd16 m 2 <= kSendBufSize - Response.offsetof_val.

Lemma fits_RespLen m : fits m -> Response.RespLen (Response.MakeResponse m 0 kSendBufSize) <= kSendBufSize.
Proof.
  unfold fits, Response.RespLen, Response.MakeResponse. cbn [Response.type Response.val_len]. change (0 + 2) with 2.
  unfold Response.offsetof_val, Response.sizeof_Response. case_match; [lia | by intros _].
Qed.

Lemma says_fits m ty st v : says m ty st v -> Z.of_nat (length v) <= kSendBufSize - Response.offsetof_val -> fits m.
Proof. intros [_ _ H _] Hv. unfold fits. by rewrite H. Qed.

Lemma Get_length fuel cap r mods s st bs s' : 0 <= cap -> Tablet.Get fuel cap r mods s = Ok (st, bs) s' -> Z.of_nat (length bs) <= cap.
Proof.
  intros Hc H. unfold Tablet.Get in H. apply bind_inv_Ok in H as (_ & s1 & _ & H). apply bind_inv_Ok in H as (_ & s2 & _ & H).
  apply bind_inv_Ok in H as (p & s3 & _ & H). apply bind_inv_Ok in H as (p2 & s4 & _ & H). destruct (negb _); [| by injection H as _ <- _].
  apply bind_inv_Ok in H as (len & s5 & _ & H). apply bind_inv_Ok in H as (u6 & s6 & Hg & H). apply bind_inv_Ok in H as (bs' & s7 & Hb & H).
  injection H as _ Eb _. rewrite <- Eb. unfold guard in Hg. destruct (Z.leb_spec len cap) as [Hl |]; [| done].
  unfold Allocator.Memcpy_to_user, Allocator.nvm_bytes in Hb. apply bind_inv_Ok in Hb as (_ & s8 & _ & Hb). injection Hb as <- _.
  rewrite load_length. lia.
Qed.

(** What an operation leaves in the buffer of its reply fits in there. *)
Lemma operate_fits fuel h r sb m : 0 <= Request.type r < 2 ^ 8 -> Response.New_Response 0 kSendBufSize (Request.type r) OK sb = Ok tt m ->
  match Server.operate fuel h r m with Ret (resp, _, _) => fits resp | Stop _ => True | Vis _ _ => False end.
Proof.
  intros Hty Hm. rewrite New_Response_run in Hm. injection Hm as <-.
  assert (forall st, fits (Response.set_status 0 st (blank_reply sb (Request.type r)))) as Hf by (intros st; by eapply says_fits; [apply says_status |]).
  unfold Server.operate, Server.lift. destruct (Request.Type_of_code (Request.type r)) as [[] |].
  - destruct (Tablet.Put fuel r [] h); [apply Hf | done].
  - destruct (Tablet.Add fuel r [] h); [apply Hf | done].
  - destruct (Tablet.Get fuel _ r [] h) as [[st bs] h' | er ?] eqn:Eg; [| done]. cbn [pbind fst snd].
    destruct (decide (st = OK)) as [-> | Hne]; [| apply Hf]. assert (0 <= kSendBufSize - Response.offsetof_val) as Hcap by done. pose proof (Get_length _ _ _ _ _ _ _ _ Hcap Eg) as Hl.
    eapply says_fits; [apply says_value; [done |] | exact Hl]. eapply Z.le_lt_trans; [exact Hl | done].
  - destruct (Tablet.Del fuel r [] h); [apply Hf | done].
  - cbn. unfold fits. pose proof (sa_len _ _ _ _ (says_status sb (Request.type r) OK Hty)) as E. cbn [length] in E.
    unfold Response.set_status in E. unfold rd16 in *. unfold wr8 in E at 1. rewrite load_store_ne in E by (cbn; lia). rewrite E. done.
Qed.


(** ** Between two operations *)

(** The memory of every buffer is registered and as large as its kind says. *)
Definition sized (d : device) (st : Infiniband.bufs) : Prop := forall a b, st !! a = Some b ->
  sge_ok d (mkSge (Infiniband.b_buf b) (Infiniband.b_size b) (lkey (Infiniband.b_mr b))) /\
  Infiniband.b_size b = if Infiniband.is_recv b then kRecvBufSize else kSendBufSize.

Lemma sized_mrs d d' st : mrs d' = mrs d -> sized d st -> sized d' st.
Proof. intros E H a b Hb. destruct (H a b Hb). split; [by apply (sge_ok_mrs d) | done]. Qed.

Lemma sized_alter d st f a : same_body f -> sized d st -> sized d (alter f a st).
Proof.
  intros Hf H c b Hb. apply lookup_alter_Some in Hb as [(<- & b0 & Hb & ->) | [_ Hb]]; [| by apply (H c)].
  destruct (Hf b0) as (E1 & E2 & E3 & E4). rewrite E1, E2, E3, E4. by apply (H a).
Qed.

(** The worker's tablet is a master with one backup, connected to it. *)
Definition worker_ok (d : device) (sv : Server.t) : Prop := exists tb q backup peer rest id lbase top st,
  Server.tablets_ sv !! 0%nat = Some tb /\
  connected (Server.index_manager_ sv) (Server.repl tb) q backup peer rest id lbase top /\
  idle q st d /\ qp_num (Infiniband.qp q) <> qp_num (Infiniband.qp (Server.qp_ sv)).

Definition unfinished (ids : list Z) : list (Z * bool) := map (fun b => (b, true)) ids.

(** The poller is at [p], the worker waits. *)
Record at_work (p : ServerSteps.poller_pc) (d : device) (sv : Server.t) : Prop := {
  aw_queue : exists recvs ids n, endpoint depth d (Server.qp_ sv) IBV_QPS_RTS (unfinished ids) recvs n /\ buffers_at sv p recvs ids;
  aw_ud : Infiniband.type (Server.qp_ sv) = IBV_QPT_UD;
  aw_sized : sized d (Server.bufs sv);
  aw_worker : worker_ok d sv;
  aw_one : length (Server.workers_ sv) = 1%nat }.

Lemma worker_keep d d' sv sv' st sends recvs n : beside (Server.qp_ sv) d d' -> endpoint depth d' (Server.qp_ sv) st sends recvs n ->
  Server.tablets_ sv' = Server.tablets_ sv -> Server.index_manager_ sv' = Server.index_manager_ sv -> Server.qp_ sv' = Server.qp_ sv ->
  worker_ok d sv -> worker_ok d' sv'.
Proof.
  intros Hb He E1 E2 E3 (tb & q & backup & peer & rest & id & lbase & top & st' & H1 & H2 & (H3 & H4 & rs & n' & H5) & H6).
  exists tb, q, backup, peer, rest, id, lbase, top, st'. rewrite E1, E2, E3. split; [done |]. split; [done |]. split; [| done].
  split; [done |]. split; [done |]. exists rs, n'. by eapply endpoint_beside.
Qed.

(** A signaled request completes alone. *)
Lemma retire_unfinished id ids sends : retire id false (unfinished ids) = Some sends -> exists l, ids = id :: l /\ sends = unfinished l.
Proof.
  destruct ids as [|i l]; [done |]. cbn. destruct (Z.eqb_spec i id) as [-> |]; [| done]. intros [= <-]. by exists l.
Qed.

Section Poll.
Context {B : Type} (Q : B -> device -> Prop).
#[local] Abbreviation fine := (orderly True).

Lemma safe_try_receive d sv (k : Z * Infiniband.bufs -> prog B) : at_work ServerSteps.PRecv d sv ->
  (at_work ServerSteps.PSend d sv -> safe d (k (0, Server.bufs sv)) Q fine) ->
  (forall b st d', b <> 0 -> at_work (ServerSteps.PDispatch b) d' (Server.with_bufs st sv) -> safe d' (k (b, st)) Q fine) ->
  safe d (pbind (Infiniband.TryReceive (Server.qp_ sv) (Server.bufs sv)) k) Q fine.
Proof.
  intros [(recvs & ids & n & He & Hb) H2 H3 H4 H5] Hnone Hk. unfold Infiniband.TryReceive.
  eapply safe_PollCQ; [exact He | by right | done | done | |].
  - apply Hnone. split; [| done..]. exists recvs, ids, n. split; [done | by apply buffers_nothing].
  - intros wc x d' sends' recvs' Hx [M1 M2] Hbe He' _ Hr. destruct (Hr eq_refl) as [-> ->].
    destruct (buffers_receive _ _ _ _ wc _ Hb Hx) as [Hz Hb']. apply Hk; [done |]. split; cbn [Server.with_bufs Server.qp_ Server.bufs Server.workers_]; try done.
    + by exists recvs', ids, n.
    + apply (sized_mrs d); [done |]. rewrite (insert_known _ _ _ _ Hx). by apply sized_alter.
    + by eapply worker_keep.
Qed.

Lemma safe_try_send d sv (k : Z * Infiniband.bufs -> prog B) : at_work ServerSteps.PSend d sv ->
  (at_work ServerSteps.PAlloc d sv -> safe d (k (0, Server.bufs sv)) Q fine) ->
  (forall b st d', b <> 0 -> (forall x p, Infiniband.Free st (Server.send_bufs_ sv) b = (x, p) -> at_work ServerSteps.PAlloc d' (Server.with_send x p (Server.with_bufs st sv))) -> safe d' (k (b, st)) Q fine) ->
  safe d (pbind (Infiniband.TrySend (Server.qp_ sv) (Server.bufs sv)) k) Q fine.
Proof.
  intros [(recvs & ids & n & He & Hb) H2 H3 H4 H5] Hnone Hk. unfold Infiniband.TrySend.
  eapply safe_PollCQ; [exact He | by left | done | done | |].
  - apply Hnone. split; [| done..]. exists recvs, ids, n. split; [done | by apply buffers_not_sent].
  - intros wc y d' sends' recvs' Hy [M1 M2] Hbe He' Hs _. destruct (Hs eq_refl) as [(l & -> & ->)%retire_unfinished ->]. apply Hk.
    + destruct (Infiniband.Free (<[wc_wr_id wc := Infiniband.received wc y]> (Server.bufs sv)) (Server.send_bufs_ sv) (wc_wr_id wc)) as [x p] eqn:Ef.
      by apply (buffers_sent sv _ l recvs wc y x p).
    + intros x p Ef. destruct (buffers_sent sv _ l recvs wc y x p Hb Hy Ef) as [_ Hb'].
      split; cbn [Server.with_send Server.with_bufs Server.qp_ Server.bufs Server.workers_]; try done.
      * exists recvs, l, n. by split.
      * apply (sized_mrs d); [done |]. injection Ef as <- _. rewrite (insert_known _ _ _ _ Hy). by apply sized_alter; [| apply sized_alter].
      * by eapply worker_keep.
Qed.

Lemma safe_repost d sv (k : bool * Server.t -> prog B) : at_work ServerSteps.PAlloc d sv ->
  (forall b sv' d', at_work ServerSteps.PRecv d' sv' -> safe d' (k (b, sv')) Q fine) ->
  safe d (pbind (Server.post_receive sv) k) Q fine.
Proof.
  intros [(recvs & ids & n & He & Hb) H2 H3 H4 H5] Hk. unfold Server.post_receive.
  destruct (Infiniband.Alloc (Server.bufs sv) (Server.recv_bufs_ sv)) as [b p] eqn:Ea. destruct (Z.eqb_spec b 0) as [-> | Hb0].
  - apply Hk. split; [| done..]. exists recvs, ids, n. split; [done |]. by eapply buffers_none.
  - destruct (buffers_post _ _ _ _ _ Hb Ea Hb0) as [Hlen Hb']. vassoc. unfold Server.deref. destruct (Server.bufs sv !! b) as [x |] eqn:Hx; [| done].
    vassoc. eapply safe_PostReceive; [exact He | done | exact Hlen | by apply (H3 b) | done |]. intros d' M1 M2 Hbe He'. vassoc.
    apply Hk. split; cbn [Server.with_recv Server.qp_ Server.bufs Server.workers_]; try done.
    + by exists (recvs ++ [b]), ids, n.
    + by apply (sized_mrs d).
    + by eapply worker_keep.
Qed.

Lemma safe_Dispatch d sv b (k : Server.t -> prog B) : at_work (ServerSteps.PDispatch b) d sv ->
  (forall sv', at_work ServerSteps.PSend d sv' -> safe d (k sv') Q fine) -> safe d (pbind (Server.Dispatch sv b) k) Q fine.
Proof.
  intros [(recvs & ids & n & He & Hb) H2 H3 H4 H5] Hk. unfold Server.Dispatch. cbv zeta. unfold Server.lift.
  destruct (IndexManager.GetTabletId _ _ _) as [x u | er u]; [| done]. vassoc. apply safe_elem; [done |]. intros q Hq.
  destruct (WorkQueue.Enqueue (Server.bufs sv) q b) as [st q'] eqn:Ee. destruct (buffers_dispatch _ _ _ _ _ _ _ _ Hb Hq Ee) as [Hst Hb'].
  vassoc. apply Hk. split; cbn [Server.with_worker Server.qp_ Server.bufs Server.workers_]; try done.
  - by exists recvs, ids, n.
  - destruct Hst as [-> | (a & nx & ->)]; [done |]. by apply sized_alter.
  - by rewrite length_insert.
Qed.
End Poll.

(** A pass of the poller. *)
Lemma safe_poll_once m d sv : at_work ServerSteps.PRecv d sv ->
  safe d (Server.poll_once m sv) (fun sv' d' => at_work ServerSteps.PRecv d' sv') (orderly True).
Proof.
  intros Haw. unfold Server.poll_once.
  assert (forall sv1 d1, at_work ServerSteps.PSend d1 sv1 -> safe d1
    (r <- Infiniband.TrySend (Server.qp_ sv1) (Server.bufs sv1) ;;
     let sv := Server.with_bufs r.2 sv1 in
     let sv := if r.1 =? 0 then sv else let '(st, p) := Infiniband.Free (Server.bufs sv) (Server.send_bufs_ sv) r.1 in Server.with_send st p sv in
     r <- Server.post_receive sv ;; Ret r.2) (fun sv' d' => at_work ServerSteps.PRecv d' sv') (orderly True)) as Hrest.
  { intros sv1 d1 H1. apply safe_try_send; [done | |].
    - intros H2. cbn [fst snd Z.eqb]. apply safe_repost; [by destruct sv1 | done].
    - intros b st d2 Hz H2. cbn [fst snd]. rewrite (proj2 (Z.eqb_neq _ _) Hz). cbv zeta. cbn [Server.bufs Server.send_bufs_ Server.with_bufs].
      destruct (Infiniband.Free st (Server.send_bufs_ sv1) b) as [x p] eqn:Ef. apply safe_repost; [by apply H2 | done]. }
  apply safe_try_receive; [done | |].
  - intros H1. cbn [fst snd Z.eqb]. cbv zeta. vassoc. apply Hrest. by destruct sv.
  - intros b st d1 Hz H1. cbn [fst snd]. rewrite (proj2 (Z.eqb_neq _ _) Hz). cbv zeta. apply (safe_Dispatch _ d1 _ b).
    + destruct H1 as [A1 A2 A3 A4 A5]. by split.
    + intros sv2 H2. by apply Hrest.
Qed.

(** ** Serving a request *)

(** The one call that breaks a rule: data that is to go inline, and too long. *)
Definition too_long (c : call) : Prop := exists q w, c = ibv_post_send q [w] /\
  IBV_SEND_INLINE ∈ s_flags w /\ Infiniband.kMaxInlineData < sg_len (s_sg_list w).

Lemma upheld_here {A} bad (Q : A -> device -> Prop) e h d (p : prog A) : judge h = Running d ->
  match p with Ret a => Q a d | Stop _ => True | Vis _ _ => False end -> upheld bad Q (run e h p).
Proof. intros Hj H. destruct p; [| | done]; unfold upheld; cbn [run fst snd]; by rewrite Hj. Qed.

Lemma merge_cases l : l <> [] -> (exists m ms, MergeModifications l = Ret (m :: ms)) \/
  MergeModifications l = Ret [] \/ MergeModifications l = Stop (Fault Segv).
Proof.
  intros Hne. unfold MergeModifications. rewrite bool_decide_eq_false_2 by done. cbn [negb check pbind]. cbv zeta.
  case_decide; [| by right; right]. destruct (take _ _) as [|m ms]; [by right; left | left; by exists m, ms].
Qed.

Section Worker.
Variables (im : IndexManager) (q : QueuePair) (backup : TabletInfo) (peer : Infiniband.QueuePairInfo)
  (rest : list Infiniband.QueuePairInfo) (id lbase top : Z).
#[local] Abbreviation linked rp := (connected im rp q backup peer rest id lbase top).

Lemma with_wrs_linked rp ws : ws <> [] -> linked rp -> linked (Sync.with_wrs ws rp).
Proof. intros Hw [H1 H2 H3 H4 H5 H6 H7 H8 H9]. by split. Qed.

(** The queue pair of the tablet after replication: as good as before. *)
Definition synced (d : device) (rp : Sync.t) (d' : device) : Prop :=
  same_memory d d' /\ beside q d d' /\ (exists st, idle q st d') /\ linked rp.

Lemma sync_upheld e h d fuel rp l st : linked rp -> judge h = Running d -> idle q st d ->
  upheld too_long (synced d) (run e h (Server.sync_tablet fuel im rp l)).
Proof.
  intros Hc Hj Hi. unfold Server.sync_tablet. destruct (decide (l = [])) as [-> | Hne].
  { apply (upheld_here _ _ _ _ d); [done |]. cbn. split; [done |]. split; [done |]. split; [by exists st | done]. }
  destruct (merge_cases l Hne) as [(m & ms & Hm) | Hm].
  2:{ apply (upheld_here _ _ _ _ d); [done |]. destruct Hc as [H1 H2 H3 H4 H5 _ _ _ _]. unfold Sync.Sync.
      rewrite bool_decide_eq_false_2 by done. destruct Hm as [-> | ->]; [| done]. cbn [pbind]. rewrite H1. cbn [Sync.post_all].
      rewrite H2. cbn [pbind]. rewrite H3, H4. done. }
  destruct (Z.leb_spec (len m) Infiniband.kMaxInlineData) as [Hlen | Hlen].
  - apply (upheld_safe _ _ _ d _ _ (orderly True)); [done |]. apply safe_try_at, safe_bind.
    eapply safe_stop_mono; [| eapply safe_mono; [exact (safe_Sync _ _ _ _ _ _ _ _ _ fuel d st l m ms Hc Hne Hm Hlen Hi) |]].
    + intros [? | [] |] d' H; try done. destruct H as (H1 & H2 & H3). by vskip.
    + intros x d' (H1 & H2 & H3 & ws & Hws & E). cbn [safe]. rewrite E. split; [done |]. split; [done |]. split; [by exists st | by apply with_wrs_linked].
  - destruct (long_Sync _ _ _ _ _ _ _ _ _ e h d fuel st l m ms Hc Hne Hm Hlen Hj Hi) as (w & Ew & Hf & Hg).
    unfold upheld. erewrite misused_try; [| by apply misused_bind, Ew]. exists (Infiniband.qp q), w. rewrite Hf. split; [done |]. split; [set_solver | done].
Qed.
End Worker.

Lemma request_type m : 0 <= Request.type (Server.request_of m) < 2 ^ 8.
Proof. unfold Server.request_of, Request.MakeRequest. cbn [Request.type]. unfold rd8. apply byte.unsigned_range. Qed.

(** What [handle] leaves: a reply that fits, and the tablet. *)
Lemma handle_upheld e h d fuel im q backup peer rest id lbase top st tb request sb : connected im (Server.repl tb) q backup peer rest id lbase top ->
  judge h = Running d -> idle q st d ->
  upheld too_long (fun y d' => fits y.1 /\ synced im q backup peer rest id lbase top d (Server.repl y.2) d')
    (run e h (Server.handle fuel im tb request sb)).
Proof.
  intros Hc Hj Hi. unfold Server.handle. cbv zeta. set (r := Server.request_of request). pose proof (request_type request) as Hty. fold r in Hty.
  unfold Server.lift. rewrite New_Response_run. cbn [pbind fst snd].
  pose proof (operate_fits fuel (Server.heap tb) r sb _ Hty (New_Response_run sb (Request.type r))) as Hf.
  destruct (Server.operate _ _ _ _) as [[[resp hp] mods] | s | c k]; [| by apply (upheld_here _ _ _ _ d) | done]. cbn [pbind].
  eapply upheld_bind; [by eapply sync_upheld |]. intros h' rp d' Hj' Hs. by apply (upheld_here _ _ _ _ d').
Qed.

(** A request, from the work queue to the reply. *)
Lemma serve_upheld e h d fuel i sv : at_work ServerSteps.PRecv d sv -> judge h = Running d ->
  upheld too_long (fun sv' d' => at_work ServerSteps.PRecv d' sv') (run e h (Server.serve_once fuel i sv)).
Proof.
  intros Haw Hj. destruct (Haw) as [(recvs & ids & n & He & Hb) H2 H3 (tb & q & backup & peer & rest & id & lbase & top & st & T1 & T2 & T3 & T4) H5].
  unfold Server.serve_once. destruct (WorkQueue.Dequeue _ _) as [w wq] eqn:Ed. destruct (Z.eqb_spec w 0) as [Ew | Ew]; [by apply (upheld_here _ _ _ _ d) |].
  assert (i = 0%nat) as ->.
  { destruct (Server.workers_ sv !! i) eqn:Ei; [apply lookup_lt_Some in Ei; lia |]. cbn in Ed. injection Ed as <- _. done. }
  unfold Server.serve_work. cbn [Server.with_queue Server.bufs Server.send_bufs_].
  destruct (Infiniband.Alloc (Server.bufs sv) (Server.send_bufs_ sv)) as [sb p] eqn:Ea. cbv zeta. rewrite (proj2 (Z.eqb_neq _ _) Ew).
  destruct (Z.eqb_spec sb 0) as [Esb | Esb]; [by apply (upheld_here _ _ _ _ d) |]. cbn [negb andb check pbind].
  destruct (buffers_work _ _ _ _ _ _ _ _ Hb Ed Ew Ea Esb) as (Hlen & (x & Hx & Kx) & Hb').
  unfold Sync.elem. cbn [Server.with_send Server.with_queue Server.tablets_ Server.index_manager_]. rewrite T1. cbn [pbind].
  eapply upheld_bind; [by eapply handle_upheld |]. intros h1 [resp tb'] d1 Hj1 [Hf ([M1 M2] & B1 & (st' & I1) & L1)]. cbn [fst snd] in *.
  apply (upheld_safe _ _ _ d1 _ _ (orderly True)); [done |]. unfold Server.deref. cbn [Server.bufs Server.with_send Server.with_queue].
  destruct (Server.bufs sv !! w) as [wx |] eqn:Hw; [| done]. cbn [pbind]. rewrite Hx. cbn [pbind].
  assert (endpoint depth d1 (Server.qp_ sv) IBV_QPS_RTS (unfinished ids) recvs n) as He1.
  { destruct I1 as (_ & _ & rs & m' & I1). by eapply (endpoint_beside _ q). }
  destruct (H3 sb x Hx) as [Hsge Hsz]. rewrite Kx in Hsz.
  eapply safe_PostSend; [exact He1 | unfold unfinished; rewrite length_map; exact Hlen | by apply (sge_ok_mrs d) | rewrite Hsz; by apply fits_RespLen |].
  intros ib' d2 Er Em [M3 M4] B2 He2. cbv zeta.
  cbn [Server.with_reply Server.with_send Server.with_queue Server.bufs Server.recv_bufs_].
  destruct (Infiniband.Free (Server.bufs sv) (Server.recv_bufs_ sv) w) as [y p'] eqn:Ef. cbn [safe].
  split; cbn [Server.with_recv Server.with_reply Server.with_send Server.with_queue Server.qp_ Server.bufs Server.workers_ Server.tablets_ Server.index_manager_];
    [| done | | | by rewrite length_insert].
  - exists recvs, (ids ++ [sb]), (n + 1). split; [by unfold unfinished; rewrite List.map_app | by apply (Hb' y p')].
  - injection Ef as <- _. apply sized_alter; [done |]. apply (sized_mrs d); [congruence | done].
  - exists tb', q, backup, peer, rest, id, lbase, top, st'.
    split; [apply list_lookup_insert_eq; by eapply lookup_lt_Some |]. split; [done |]. split; [| done].
    destruct I1 as (J1 & J2 & rs & m' & I1). split; [done |]. split; [done |]. exists rs, m'. by eapply (endpoint_beside _ (Server.qp_ sv) d1).
Qed.

(** ** The server from its start *)

(** What happens next: a pass of the poller, with what a datagram wrote into
    its buffer, or a look of the [i]-th worker into its queue. *)
Inductive turn : Type := Pass (arrived : mem) | Look (fuel i : nat).

Definition take_turn (t : turn) : Server.t -> prog Server.t :=
  match t with Pass m => Server.poll_once m | Look fuel i => Server.serve_once fuel i end.

Definition work (ts : list turn) (sv : Server.t) : prog Server.t :=
  fold_right (fun t k sv => sv <- take_turn t sv ;; k sv) Ret ts sv.

Lemma turn_upheld e h d t sv : at_work ServerSteps.PRecv d sv -> judge h = Running d ->
  upheld too_long (fun sv' d' => at_work ServerSteps.PRecv d' sv') (run e h (take_turn t sv)).
Proof.
  intros Ha Hj. destruct t as [m | fuel i]; [| by eapply serve_upheld]. eapply upheld_safe; [done |]. by apply safe_poll_once.
Qed.

Lemma work_upheld e ts : forall h d sv, at_work ServerSteps.PRecv d sv -> judge h = Running d ->
  upheld too_long (fun sv' d' => at_work ServerSteps.PRecv d' sv') (run e h (work ts sv)).
Proof.
  induction ts as [|t ts IH]; intros h d sv Ha Hj; unfold work; cbn [fold_right].
  - by apply (upheld_here _ _ _ _ d).
  - eapply upheld_bind; [by apply (turn_upheld _ _ d) |]. intros h' sv' d' Hj' Ha'. by apply (IH _ d').
Qed.

(** The first tablet is a master, and the map names its backup. *)
Definition leads (sv : Server.t) : Prop := exists tb q backup peer rest id lbase top,
  Server.tablets_ sv !! 0%nat = Some tb /\ t_is_backup (Sync.info_ (Server.repl tb)) = false /\
  connected (Server.index_manager_ sv) (Server.repl tb) q backup peer rest id lbase top.

Lemma serving_at_work d sv : serving d sv -> leads sv -> at_work ServerSteps.PRecv d sv.
Proof.
  intros [(recvs & n & Hq & Hlen & Hb) Ht Hud Hst Hone _ _] (tb & q & backup & peer & rest & id & lbase & top & E & Hm & Hc). split; [| done | | | done].
  - by exists recvs, [], n.
  - intros a b Hab. destruct (so_bufs _ _ _ _ Hst _ _ Hab) as (H1 & H2 & _). done.
  - destruct (proj1 (list.Forall_lookup _ _) Ht _ _ E) as (q' & Eq & Hty & He & _ & Hne).
    assert (q' = q) as -> by (pose proof (cn_qps _ _ _ _ _ _ _ _ _ Hc); congruence).
    exists tb, q, backup, peer, rest, id, lbase, top, IBV_QPS_RTS. unfold role in He. rewrite Hm in He.
    split; [done |]. split; [done |]. split; [| done]. split; [done |]. split; [done |]. by exists [], 0.
Qed.

(** The array of requests of every tablet has its element. *)
Definition roomy (sv : Server.t) : Prop := Forall (fun tb => Sync.wrs (Server.repl tb) <> []) (Server.tablets_ sv).

(** Every server of such a cluster leads. *)
Lemma formed_leads d sv : serving d sv -> formed (Server.index_manager_ sv) -> roomy sv -> leads sv.
Proof.
  intros Hs (js & st & Em & Hj & Hl & Hv) Hr. destruct (sg_told _ _ Hs) as (s & Hid & Ht). rewrite <- Em in Hid, Ht.
  unfold IndexManager.GetServer_by_id, at_ in Hid. destruct (Z.ltb_spec (Server.id_ sv) 0); [done |].
  destruct (servers_ (IndexManager.index st) !! Z.to_nat (Server.id_ sv)) as [s' |] eqn:Es; [| done]. injection Hid as ->.
  assert (Server.id_ sv = 0 \/ Server.id_ sv = 1) as Hi.
  { apply lookup_lt_Some in Es. rewrite (sh_servers _ _ _ _ (jd_shaped _ _ _ _ _ Hj)) in Es. unfold kNumServers in Es. lia. }
  destruct (server_layout _ _ _ Hj Hl Hi) as (s2 & t & b & L1 & L2 & _ & _ & L5 & _ & _ & L8 & L9 & L10 & _ & _ & L13 & _).
  rewrite Es in L1. injection L1 as <-.
  assert (length (t_peers t) = 1%nat) as Hp by exact (sh_peers _ _ _ _ (jd_shaped _ _ _ _ _ Hj) _ _ L2).
  destruct (tablet_holdable js st Hj Hl Hv (1 - Server.id_ sv) 1) as (b' & Hb' & (_ & _ & (Q1 & Q2) & _)); [lia | lia |].
  replace (2 * (1 - Server.id_ sv) + 1) with (3 - 2 * Server.id_ sv) in Hb' by lia. rewrite L10 in Hb'. injection Hb' as <-.
  destruct (t_qpis b) as [|peer [|]] eqn:Eq; [done | | by rewrite !length_cons in Q1; unfold kNumReplicas in Q1; lia].
  apply list.Forall_singleton in Q2 as (_ & _ & _ & _ & Q2 & Q3).
  destruct (s_tablets s) as [|id0 ids]; [done |]. injection L5 as ->. change (Z.to_nat kNumTabletAndBackupsPerServer) with 2%nat in Ht. cbn [take] in Ht.
  unfold roomy in Hr. pose proof (sg_tablets _ _ Hs) as Hq. destruct (Server.tablets_ sv) as [|tb tbs] eqn:Etb; [by inversion Ht |].
  apply list.Forall2_cons in Ht as [Ht _]. apply list.Forall_cons in Hq as [(q & Eqs & _) _], Hr as [Hr _].
  unfold Sync.GetTablet, Sync.elem in Ht. rewrite (proj2 (Z.ltb_ge _ _)), L2 in Ht by lia. injection Ht as Ht.
  exists tb, q, b, peer, [], (3 - 2 * Server.id_ sv), 0, 0. rewrite Etb, <- Ht. split; [done |]. split; [done |]. rewrite <- Em. split; rewrite <- ?Ht; try done.
  - destruct (t_peers t) as [|x [|]] eqn:Ep; try done. unfold backups in *. rewrite Ep in *. by injection L9 as ->.
  - unfold Sync.GetTablet, Sync.elem. by rewrite (proj2 (Z.ltb_ge _ _)), L10 by lia.
  - lia.
Qed.

Section Rules.
Variables (parse : list Init.Byte.byte -> option json) (dump : json -> list Init.Byte.byte).

(** C6. A server of a cluster keeps the rules of the verbs for good, except
    for one.  When it came up with the map the coordinator made of both
    servers, then whatever the device, the network and the clients do, in
    whatever order passes of the poller and requests come, the only call it
    can misuse is a post of inline data longer than the limit.  Until then
    every buffer is where it belongs, no queue overflows, and both queue pairs
    are ready for the next turn. *)
Theorem server_keeps_the_rules argc m im u ws conn e ts sv :
  let r := run e [] (boot parse dump argc m im u ws conn) in
  r.2 = Returned (inr sv) -> formed (Server.index_manager_ sv) -> roomy sv ->
  upheld too_long (fun sv' d => at_work ServerSteps.PRecv d sv') (run e r.1 (work ts sv)).
Proof.
  intros r Er Hf Hr. pose proof (safe_run e [] empty_device _ _ _ eq_refl (safe_boot parse dump argc m im u ws conn)) as H. fold r in H. rewrite Er in H.
  destruct (judge r.1) as [d | c |] eqn:Ej; [| done | unfold upheld; by rewrite excused_run].
  apply (work_upheld _ _ _ d), Ej. by apply serving_at_work, (formed_leads d).
Qed.
End Rules.

(** The first server of the example cluster. *)
#[local] Abbreviation start_example := (run Loopback.loopback []
  (boot (fun _ => Some (Obj [("id", Num 0); ("index_manager", to_json formed_example)]%string)) (fun _ => []) 3 ∅
     Server.empty_index blank_tablet [wr_example] (Some (Session.mkConn (encode welcome_example) [] true)))).

#[local] Instance roomy_dec sv : Decision (roomy sv).
Proof. apply list.Forall_dec. intros tb. destruct (Sync.wrs (Server.repl tb)); [right; intros H; by apply H | by left]. Defined.

Definition first_of (x : result (Z + Server.t)) : option (bool * IndexManager) :=
  match x with Returned (inr sv) => Some (bool_decide (roomy sv), Server.index_manager_ sv) | _ => None end.

Lemma first_formed x : (forall y, first_of x = Some y -> y.2 = formed_example /\ y.1 = true) -> first_of x <> None ->
  exists sv, x = Returned (inr sv) /\ formed (Server.index_manager_ sv) /\ roomy sv.
Proof.
  intros H Hn. destruct x as [[code | sv] | s]; try done. exists sv. destruct (H _ eq_refl) as [E1 E2]. cbn [fst snd] in E1, E2.
  split; [done |]. split; [rewrite E1; exact map_formed |]. by apply bool_decide_eq_true in E2.
Qed.

Lemma start_formed : exists sv, start_example.2 = Returned (inr sv) /\ formed (Server.index_manager_ sv) /\ roomy sv.
Proof. apply first_formed; vm_compute; [by intros y [= <-] | discriminate]. Qed.

Lemma server_keeps_the_rules_witness : exists sv, start_example.2 = Returned (inr sv) /\ formed (Server.index_manager_ sv) /\ roomy sv /\
  forall ts, upheld too_long (fun sv' d => at_work ServerSteps.PRecv d sv') (run Loopback.loopback start_example.1 (work ts sv)).
Proof.
  destruct start_formed as (sv & H1 & H2 & H3). exists sv. split; [exact H1 |]. split; [exact H2 |]. split; [exact H3 |]. intros ts.
  exact (server_keeps_the_rules _ _ _ _ _ _ _ _ _ ts sv H1 H2 H3).
Defined.

(** Two requests to put a value, each with the turns that serve it: replies
    go out, but a long value in the place of another breaks the rule. *)
Definition asked (v : list Init.Byte.byte) : mem :=
  match Request.New_Request kIBUDPadding kRecvBufSize Request.PUT k_example (Z.of_nat (length k_example)) (Some v) (Z.of_nat (length v)) 0 ∅ with Ok _ m | Err _ m => m end.
Definition turns (v v' : list Init.Byte.byte) : list turn := [Pass (asked v); Look 5 0; Pass (asked v'); Look 5 0].
Definition after_turns (ts : list turn) : option (bool * nat) :=
  match start_example.2 with
  | Returned (inr sv) => let h := (run Loopback.loopback start_example.1 (work ts sv)).1 in Some (misused (judge h), length (accepted h))
  | _ => None
  end.

Example server_serves :
  after_turns (turns v_example (take 3 v_example)) = Some (false, 4%nat) /\
  after_turns (turns v_long (take 129 v_long)) = Some (true, 3%nat).
Proof. split; vm_compute; reflexivity. Qed.
