(* ===== verification/RcPerf.v ===== *)
(** * The common part of the RC experiments

    [send_rc.c], [write_rc.c], their variants and [cs/rdma.c] share the data
    types of their headers, the set-up of the device, the transitions of the
    queue pair and the exchange of connection data over TCP; what differs is
    a parameter here and is fixed in the file of each program. *)

From S2P Require Import Prelude Verbs Protocol.

#[local] Open Scope prog_scope.

(** ** [send_rc.h] *)

Definition s32 (z : Z) : Z := if u32 z <? 2 ^ 31 then u32 z else u32 z - 2 ^ 32.

Record nvds_ib_connection := mkConn { lid : Z; qpn : Z; psn : Z; c_rkey : Z; vaddr : Z }.

Record nvds_context := mkCtx {
  context : Z; pd : Z; mr : ibv_mr; rcq : Z; scq : Z; qp : ibv_qp; buf : Z; size : Z; tx_depth : Z;
  sge : ibv_sge; wr : ibv_send_wr }.

Record nvds_data := mkData {
  port : Z; ib_port : Z; d_size : Z; d_tx_depth : Z; server_name : option string;
  local_conn : nvds_ib_connection; remote_conn : nvds_ib_connection; ib_dev : Z }.

Definition zero_conn : nvds_ib_connection := mkConn 0 0 0 0 0.
Definition zero_wr : ibv_send_wr := mkSend 0 [] IBV_WR_RDMA_WRITE [] (mkUnion 0 0 0) 0.

Definition with_local (c : nvds_ib_connection) (d : nvds_data) : nvds_data :=
  mkData (port d) (ib_port d) (d_size d) (d_tx_depth d) (server_name d) c (remote_conn d) (ib_dev d).
Definition with_remote (c : nvds_ib_connection) (d : nvds_data) : nvds_data :=
  mkData (port d) (ib_port d) (d_size d) (d_tx_depth d) (server_name d) (local_conn d) c (ib_dev d).
Definition with_dev (v : Z) (d : nvds_data) : nvds_data :=
  mkData (port d) (ib_port d) (d_size d) (d_tx_depth d) (server_name d) (local_conn d) (remote_conn d) v.
Definition with_wr (g : ibv_sge) (w : ibv_send_wr) (c : nvds_context) : nvds_context :=
  mkCtx (context c) (pd c) (mr c) (rcq c) (scq c) (qp c) (buf c) (size c) (tx_depth c) g w.

(** The bytes of a [nvds_ib_connection_t]: four [int]s or [unsigned]s and an
    [unsigned long long]. *)
Definition sizeof_conn : Z := 24.
Definition conn_bytes (c : nvds_ib_connection) : list Init.Byte.byte :=
  le_split 4 (u32 (lid c)) ++ le_split 4 (u32 (qpn c)) ++ le_split 4 (u32 (psn c)) ++
  le_split 4 (u32 (c_rkey c)) ++ le_split 8 (u64 (vaddr c)).
Definition conn_of_bytes (bs : list Init.Byte.byte) : nvds_ib_connection :=
  let f n k := le_combine (take k (drop n bs)) in
  mkConn (s32 (f 0 4)%nat) (s32 (f 4 4)%nat) (s32 (f 8 4)%nat) (f 12 4)%nat (f 16 8)%nat.

(** [nvds_error], [nvds_expect] *)
Definition nvds_error {A} (err : string) : prog A :=
  sys (printf "error: %s: %d: " []) ;;; sys (printf err []) ;;; sys (printf "\n" []) ;;; exit (-1).
Definition nvds_expect (cond : bool) (err : string) : prog unit :=
  if cond then Ret tt else nvds_error err.

(** ** [send_rc.c] *)

Definition RDMA_WRITE_ID : Z := 3.
Definition RDMA_READ_ID : Z := 4.
Definition RDMA_MAX_LEN : Z := 128 * 1024.

Definition nvds_print_ib_connection (c : nvds_ib_connection) : prog unit :=
  sys (printf "lid: %d\n" [lid c]) ;;;
  sys (printf "qpn: %d\n" [qpn c]) ;;;
  sys (printf "psn: %d\n" [psn c]) ;;;
  sys (printf "rkey: %u\n" [c_rkey c]) ;;;
  sys (printf "vaddr: %llu\n" [vaddr c]).

Definition nvds_set_qp_state_init (q : ibv_qp) (data : nvds_data) : prog unit :=
  let attr := [qp_state IBV_QPS_INIT; pkey_index 0; port_num (ib_port data);
               qp_access_flags [IBV_ACCESS_LOCAL_WRITE; IBV_ACCESS_REMOTE_READ; IBV_ACCESS_REMOTE_WRITE]] in
  r <- sys (ibv_modify_qp q attr [IBV_QP_STATE; IBV_QP_PKEY_INDEX; IBV_QP_PORT; IBV_QP_ACCESS_FLAGS]) ;;
  nvds_expect (r =? 0) "ibv_modify_qp() failed".

Definition nvds_set_qp_state_rtr (q : ibv_qp) (data : nvds_data) : prog unit :=
  let attr := [qp_state IBV_QPS_RTR; path_mtu IBV_MTU_2048;
               dest_qp_num (u32 (qpn (remote_conn data))); rq_psn (u32 (psn (remote_conn data)));
               max_dest_rd_atomic 1; min_rnr_timer 12;
               ah_attr (mkAh 0 (u16 (lid (remote_conn data))) 1 0 (u8 (ib_port data)))] in
  r <- sys (ibv_modify_qp q attr
         [IBV_QP_STATE; IBV_QP_AV; IBV_QP_PATH_MTU; IBV_QP_DEST_QPN; IBV_QP_RQ_PSN;
          IBV_QP_MAX_DEST_RD_ATOMIC; IBV_QP_MIN_RNR_TIMER]) ;;
  nvds_expect (r =? 0) "ibv_modify_qp() failed".

Definition nvds_set_qp_state_rts (q : ibv_qp) (data : nvds_data) : prog unit :=
  nvds_set_qp_state_rtr q data ;;;
  let attr := [qp_state IBV_QPS_RTS; timeout 14; retry_cnt 7; rnr_retry 7;
               sq_psn (u32 (psn (local_conn data))); max_rd_atomic 1] in
  r <- sys (ibv_modify_qp q attr
         [IBV_QP_STATE; IBV_QP_TIMEOUT; IBV_QP_RETRY_CNT; IBV_QP_RNR_RETRY; IBV_QP_SQ_PSN;
          IBV_QP_MAX_QP_RD_ATOMIC]) ;;
  nvds_expect (r =? 0) "ibv_modify_qp() failed".

(** [int len = read(fd, &conn, sizeof conn); nvds_expect(len == sizeof conn)] *)
Definition read_conn (fd : Z) : prog nvds_ib_connection :=
  bs <- sys (read fd sizeof_conn) ;;
  nvds_expect (match bs with Some bs => Z.of_nat (length bs) =? sizeof_conn | None => false end) "read() failed" ;;;
  Ret (conn_of_bytes (default [] bs)).

Definition write_conn (fd : Z) (c : nvds_ib_connection) : prog unit :=
  len <- sys (write fd (conn_bytes c)) ;;
  nvds_expect (len =? sizeof_conn) "write() failed".

Definition nvds_server_exch_info (data : nvds_data) : prog nvds_data :=
  listen_fd <- sys (socket "AF_INET" "SOCK_STREAM") ;;
  nvds_expect (0 <=? listen_fd) "socket() failed" ;;;
  r <- sys (setsockopt listen_fd "SO_REUSEADDR" 1) ;;
  nvds_expect (negb (r =? -1)) "sotsockopt() failed" ;;;
  r <- sys (bind_ listen_fd (port data)) ;;
  nvds_expect (0 <=? r) "bind() failed" ;;;
  sys (printf "server listening at port %d\n" [port data]) ;;;
  sys (listen listen_fd 1024) ;;;
  fd <- sys (accept listen_fd) ;;
  nvds_expect (0 <=? fd) "accept() failed" ;;;
  remote <- read_conn fd ;;
  write_conn fd (local_conn data) ;;;
  sys (close fd) ;;;
  sys (close listen_fd) ;;;
  sys (printf "information exchanged\n" []) ;;;
  Ret (with_remote remote data).

Definition nvds_client_exch_info (data : nvds_data) : prog nvds_data :=
  fd <- sys (socket "AF_INET" "SOCK_STREAM") ;;
  nvds_expect (negb (fd =? -1)) "socket() failed" ;;;
  a <- sys (inet_pton (default ""%string (server_name data))) ;;
  nvds_expect (a.1 =? 1) "inet_pton() failed" ;;;
  r <- sys (connect fd a.2 (port data)) ;;
  nvds_expect (r =? 0) "connect() failed" ;;;
  write_conn fd (local_conn data) ;;;
  remote <- read_conn fd ;;
  sys (close fd) ;;;
  sys (printf "information exchanged\n" []) ;;;
  Ret (with_remote remote data).

Definition time_diff (lhs rhs : Z * Z) : Z := (lhs.1 - rhs.1) * 1000000000 + (lhs.2 - rhs.2).

(** [assert(clock_gettime(CLOCK_REALTIME, &t) == 0)] *)
Definition now : prog (Z * Z) :=
  r <- sys clock_gettime ;; check (r.1 =? 0) ;;; Ret r.2.

(** [ibv_post_send(ctx->qp, &ctx->wr, &bad_wr)] *)
Definition post_wr (ctx : nvds_context) : prog nvds_context :=
  r <- sys (ibv_post_send (qp ctx) [wr ctx]) ;;
  nvds_expect (r =? 0) "ibv_post_send() failed" ;;;
  Ret ctx.

Definition nvds_poll_send (fuel : nat) (ctx : nvds_context) : prog unit :=
  wc <- poll_one fuel (scq ctx) ;;
  nvds_expect (wc_status wc =? IBV_WC_SUCCESS) "rdma write failed" ;;;
  nvds_expect (wc_wr_id wc =? s_wr_id (wr ctx)) "wr id not matched".

Definition nvds_init_local_ib_connection (ctx : nvds_context) (data : nvds_data) : prog nvds_data :=
  r <- sys (ibv_query_port (context ctx) (ib_port data)) ;;
  nvds_expect (r.1 =? 0) "ibv_query_port() failed" ;;;
  Ret (with_local (mkConn (port_lid r.2) (s32 (qp_num (qp ctx))) 33 (rkey (mr ctx)) (buf ctx)) data).

(** [for (int i = 0; i < ctx->buf_size; ++i) ctx->buf[i] = v], of the programs
    whose buffer the peer writes. *)
Definition fill_buf (ctx : nvds_context) (v : Z) : prog Z :=
  for_ (Z.to_nat (size ctx)) (fun i => sys (store_byte (buf ctx + i) v) ;;; Ret (i + 1)) 0.

(** [while ( *ctx->buf == v) {}], [*ctx->buf = v'] *)
Fixpoint wait_buf (fuel : nat) (ctx : nvds_context) (v v' : Z) : prog unit :=
  match fuel with
  | O => Stop (Fault OutOfFuel)
  | S fuel' =>
      b <- sys (load_byte (buf ctx)) ;;
      if b =? v then wait_buf fuel' ctx v v' else sys (store_byte (buf ctx) v')
  end.

(** [for (int32_t len = 1; len <= 1024; len <<= 1)] *)
Definition for_len (fuel : nat) {S} (body : S -> Z -> prog S) (s : S) : prog (S * Z) :=
  while_ fuel (fun sl => sl.2 <=? 1024)
    (fun sl => s <- body sl.1 sl.2 ;; Ret (s, s32 (Z.shiftl sl.2 1))) (s, 1).

Section Variants.
(** The depth of the receive queue and of its completion queue, the type of
    the queue pair, whether the buffer is cleared, and the program's
    [nvds_set_qp_state_init]. *)
Variables (max_recv rcq_cqe : Z) (QP_TYPE : ibv_qp_type) (clear : bool) (set_init : ibv_qp -> nvds_data -> prog unit).

(** From [// Alloc buffer for write] on. *)
Definition init_queues (context pd dev page_size : Z) (data : nvds_data) : prog (nvds_context * nvds_data) :=
  (* Alloc buffer for write *)
  buf <- sys (memalign page_size (d_size data)) ;;
  (if clear then sys (memset buf 0 (d_size data)) else Ret tt) ;;;
  (* Register memory region *)
  m <- sys (ibv_reg_mr pd buf (d_size data)
         [IBV_ACCESS_LOCAL_WRITE; IBV_ACCESS_REMOTE_READ; IBV_ACCESS_REMOTE_WRITE]) ;;
  nvds_expect (bool_decide (is_Some m)) "ibv_reg_mr() failed" ;;;
  (* Create complete queue *)
  rcq <- sys (ibv_create_cq context rcq_cqe) ;;
  nvds_expect (negb (rcq =? 0)) "ibv_create_cq() failed" ;;;
  scq <- sys (ibv_create_cq context (d_tx_depth data)) ;;
  nvds_expect (negb (rcq =? 0)) "ibv_create_cq() failed" ;;;
  (* Create & init queue pair *)
  q <- sys (ibv_create_qp pd (mkInit scq rcq QP_TYPE 0 (d_tx_depth data) max_recv 1 1 0)) ;;
  nvds_expect (bool_decide (is_Some q)) "ibv_create_qp() failed" ;;;
  let q := default (mkQp 0 QP_TYPE) q in
  set_init q data ;;;
  Ret (mkCtx context pd (default (mkMr 0 0 0) m) rcq scq q buf (d_size data) (d_tx_depth data)
         (mkSge 0 0 0) zero_wr, with_dev dev data).

Definition nvds_init_ctx (page_size : Z) (data : nvds_data) : prog (nvds_context * nvds_data) :=
  (* Get IB device *)
  l <- sys ibv_get_device_list ;;
  nvds_expect (bool_decide (is_Some l)) "ibv_get_device_list() failed" ;;;
  let dev := hd 0 (default [] l) in
  (* Open IB device *)
  context <- sys (ibv_open_device dev) ;;
  nvds_expect (negb (context =? 0)) "ibv_open_device() failed" ;;;
  (* Alloc protection domain *)
  pd <- sys (ibv_alloc_pd context) ;;
  nvds_expect (negb (pd =? 0)) "ibv_alloc_pd() failed" ;;;
  init_queues context pd dev page_size data.

(** [main], given the two roles. *)
Definition main_ (buf_size : Z) (run_server run_client : nvds_context -> nvds_data -> prog unit)
    (argc : Z) (argv : list string) : prog Z :=
  let data := mkData 5500 1 buf_size 100 None zero_conn zero_conn 0 in
  nvds_expect (argc <=? 2) "too many arguments" ;;;
  let is_client := argc =? 2 in
  let data := if is_client then
      mkData 5500 1 buf_size 100 (nth_error argv 1) zero_conn zero_conn 0 else data in
  pid <- sys getpid ;;
  t <- sys time_ ;;
  sys (srand48 (pid * t)) ;;;
  page_size <- sys sysconf_pagesize ;;
  cd <- nvds_init_ctx page_size data ;;
  data <- nvds_init_local_ib_connection cd.1 cd.2 ;;
  (if is_client then run_client cd.1 data else run_server cd.1 data) ;;;
  Ret 0.
End Variants.

(** ** The set-up is legal *)

Section Setup.
Context (max_recv rcq_cqe : Z) (QP_TYPE : ibv_qp_type).

(** The device a context stands for: its queues, region and buffer exist, and
    the queue pair is in state [st] with these requests outstanding. *)
Record ready (d : device) (ctx : nvds_context) (st : ibv_qp_state) (sends : list (Z * bool))
    (recvs : list Z) (posted : Z) : Prop := mkReady {
  ready_qp : qps d !! qp_num (qp ctx) =
    Some (mkQpInfo QP_TYPE st (mkInit (scq ctx) (rcq ctx) QP_TYPE 0 (tx_depth ctx) max_recv 1 1 0)
            sends recvs posted);
  ready_scq : cqs d !! scq ctx = Some (tx_depth ctx);
  ready_rcq : cqs d !! rcq ctx = Some rcq_cqe;
  ready_ne : scq ctx <> rcq ctx;
  ready_mr : mrs d !! mr_ptr (mr ctx) = Some (lkey (mr ctx), buf ctx, size ctx);
  ready_buf : heap d !! buf ctx = Some (size ctx);
  ready_own : forall m q, qps d !! m = Some q -> m <> qp_num (qp ctx) ->
    send_cq (q_init q) <> scq ctx /\ recv_cq (q_init q) <> scq ctx /\
    send_cq (q_init q) <> rcq ctx /\ recv_cq (q_init q) <> rcq ctx }.

Lemma ready_with_wr d ctx g w st sends recvs n :
  ready d (with_wr g w ctx) st sends recvs n <-> ready d ctx st sends recvs n.
Proof. split; intros []; by constructor. Qed.

Lemma ready_heap d ctx st sends recvs n p k :
  ready d ctx st sends recvs n -> buf ctx <= p -> p + k <= buf ctx + size ctx -> in_heap d p k.
Proof. intros H ? ?. exists (buf ctx), (size ctx). by split; [apply (ready_buf _ _ _ _ _ _ H) |]. Qed.

Lemma ready_sge d ctx st sends recvs n g :
  ready d ctx st sends recvs n -> sge_lkey g = lkey (mr ctx) -> buf ctx <= sge_addr g ->
  sge_addr g + sge_length g <= buf ctx + size ctx -> sge_ok d g.
Proof. intros H ? ? ?. eexists _, _. by split; [apply (ready_mr _ _ _ _ _ _ H) |]. Qed.

(** Another state of the queue pair of the context. *)
Lemma ready_set d ctx st sends recvs n st' sends' recvs' n' :
  ready d ctx st sends recvs n ->
  ready (set_qp d (qp_num (qp ctx))
    (mkQpInfo QP_TYPE st' (mkInit (scq ctx) (rcq ctx) QP_TYPE 0 (tx_depth ctx) max_recv 1 1 0) sends' recvs' n'))
    ctx st' sends' recvs' n'.
Proof.
  intros [H1 H2 H3 H4 H5 H6 H7]. constructor; cbn; try done; [by rewrite lookup_insert_eq |].
  intros m q Hm Hne. apply (H7 m); [| done]. by rewrite lookup_insert_ne in Hm.
Qed.

(** A step of another queue pair. *)
Lemma ready_frame d ctx st sends recvs n m q q0 :
  m <> qp_num (qp ctx) -> qps d !! m = Some q0 -> q_init q = q_init q0 ->
  ready d ctx st sends recvs n -> ready (set_qp d m q) ctx st sends recvs n.
Proof.
  intros Hne Hq Hi [H1 H2 H3 H4 H5 H6 H7]. constructor; cbn; try done; [by rewrite lookup_insert_ne |].
  intros m' q' Hm Hne'. destruct (decide (m' = m)) as [-> | Hmm].
  - rewrite lookup_insert_eq in Hm. injection Hm as <-. rewrite Hi. by apply (H7 m).
  - rewrite lookup_insert_ne in Hm by done. by apply (H7 m').
Qed.
End Setup.

Lemma safe_expect {B} E d (b : bool) err (k : unit -> prog B) Q :
  (forall d, E (Exit (-1)) d) -> (b = true -> safe d (k tt) Q E) -> safe d (pbind (nvds_expect b err) k) Q E.
Proof. intros HE Hk. destruct b; cbn; [by apply Hk |]. by split_and!; [| intros [] _; split_and!; [| intros [] _; split_and!]]. Qed.

Ltac vexpect :=
  cbv beta zeta;
  lazymatch goal with |- safe _ (pbind (nvds_expect _ _) _) _ _ => idtac end;
  apply safe_expect; [intros ?; exact I | intros ?].

(** The bytes on the wire give back the connection. *)
Definition conn_ok (c : nvds_ib_connection) : Prop :=
  0 <= lid c < 2 ^ 31 /\ 0 <= qpn c < 2 ^ 31 /\ 0 <= psn c < 2 ^ 31 /\
  0 <= c_rkey c < 2 ^ 32 /\ 0 <= vaddr c < 2 ^ 64.

Section Exchange.
Context {B : Type} (d : device) (Q : B -> device -> Prop).

Lemma safe_server_exch_info data (k : nvds_data -> prog B) :
  (forall c, safe d (k (with_remote c data)) Q any_stop) ->
  safe d (pbind (nvds_server_exch_info data) k) Q any_stop.
Proof.
  intros Hk. unfold nvds_server_exch_info, read_conn, write_conn. repeat (vassoc; first [vskip | vexpect]).
  apply Hk.
Qed.

Lemma safe_client_exch_info data (k : nvds_data -> prog B) :
  (forall c, safe d (k (with_remote c data)) Q any_stop) ->
  safe d (pbind (nvds_client_exch_info data) k) Q any_stop.
Proof.
  intros Hk. unfold nvds_client_exch_info, read_conn, write_conn. repeat (vassoc; first [vskip | vexpect]).
  apply Hk.
Qed.

Lemma safe_now (k : Z * Z -> prog B) :
  (forall t, safe d (k t) Q any_stop) -> safe d (pbind now k) Q any_stop.
Proof. intros Hk. unfold now. vassoc. vskip. vassoc. apply safe_check; [done | intros _]. apply Hk. Qed.

Lemma safe_print_conn c (k : unit -> prog B) :
  safe d (k tt) Q any_stop -> safe d (pbind (nvds_print_ib_connection c) k) Q any_stop.
Proof. intros Hk. unfold nvds_print_ib_connection. repeat (vassoc; vskip). cbn in r3. by destruct r3. Qed.
End Exchange.

Section Transitions.
Context {B : Type} (max_recv rcq_cqe : Z) (ty : ibv_qp_type) (Q : B -> device -> Prop).
#[local] Abbreviation ready := (ready max_recv rcq_cqe ty).

(** A transition the rules allow, with its result tested. *)
Lemma safe_transition d ctx st to sends recvs n attr mask err (k : unit -> prog B) :
  ready d ctx st sends recvs n -> target_state attr = Some to ->
  transition_ok (mkQpInfo ty st (mkInit (scq ctx) (rcq ctx) ty 0 (tx_depth ctx) max_recv 1 1 0) sends recvs n)
    attr mask = true ->
  (forall q, ready (set_qp d (qp_num (qp ctx)) q) ctx to sends recvs n ->
    safe (set_qp d (qp_num (qp ctx)) q) (k tt) Q any_stop) ->
  safe d (pbind (r <- sys (ibv_modify_qp (qp ctx) attr mask) ;; nvds_expect (r =? 0) err) k) Q any_stop.
Proof.
  intros H Ht Hok Hk. apply safe_assoc, safe_sys.
  - cbn [allowed]. by rewrite (ready_qp _ _ _ _ _ _ _ _ _ H).
  - intros r _. vexpect. cbn [after]. rewrite (ready_qp _ _ _ _ _ _ _ _ _ H), Ht, H0.
    apply Hk. by eapply ready_set.
Qed.

Lemma safe_fill_buf d ctx st sends recvs n v (k : Z -> prog B) :
  ready d ctx st sends recvs n -> (forall i, safe d (k i) Q any_stop) ->
  safe d (pbind (fill_buf ctx v) k) Q any_stop.
Proof.
  intros H Hk. apply safe_bind. unfold fill_buf.
  eapply safe_mono; [apply (safe_for _ _ _ _ _ (fun m i d' => d' = d /\ 0 <= i /\ i + Z.of_nat m <= Z.max 0 (size ctx))) |].
  - split_and!; [done | lia | lia].
  - intros m i d1 (-> & Hi & Hm). apply safe_sys; [| by intros r _; split_and!; [done | lia | lia]].
    apply bool_decide_eq_true. eapply ready_heap; [done | lia | lia].
  - intros i d1 [-> _]. apply Hk.
Qed.

Lemma safe_wait_buf fuel d ctx st sends recvs n v v' (k : unit -> prog B) :
  ready d ctx st sends recvs n -> 0 < size ctx -> safe d (k tt) Q any_stop ->
  safe d (pbind (wait_buf fuel ctx v v') k) Q any_stop.
Proof.
  intros H Hz Hk. assert (bool_decide (in_heap d (buf ctx) 1) = true) as Hin.
  { apply bool_decide_eq_true. eapply ready_heap; [done | lia | lia]. }
  induction fuel as [|fuel IH]; [done |]. cbn [wait_buf]. apply safe_assoc, safe_sys; [done |].
  intros b _. cbn [after]. destruct (b =? v); [done |]. apply safe_sys; [done |]. by intros [] _.
Qed.

(** One work request out of the buffer. *)
Lemma safe_post_wr d ctx sends recvs n (k : nvds_context -> prog B) :
  ready d ctx IBV_QPS_RTS sends recvs n ->
  opcode_ok ty (s_opcode (wr ctx)) = true -> (ty = IBV_QPT_UD -> ud_ah (s_wr (wr ctx)) <> 0) -> s_sg_list (wr ctx) = [sge ctx] ->
  IBV_SEND_INLINE ∉ s_flags (wr ctx) -> sge_ok d (sge ctx) -> Z.of_nat (length sends) < tx_depth ctx ->
  (forall q, ready (set_qp d (qp_num (qp ctx)) q) ctx IBV_QPS_RTS
      (sends ++ [(s_wr_id (wr ctx), signaled (wr ctx))]) recvs (n + 1) ->
    safe (set_qp d (qp_num (qp ctx)) q) (k ctx) Q any_stop) ->
  safe d (pbind (post_wr ctx) k) Q any_stop.
Proof.
  intros H Hop Hah Hsg Hin Hmr Hlen Hk. unfold post_wr. apply safe_assoc, safe_sys.
  - cbn [allowed]. rewrite (ready_qp _ _ _ _ _ _ _ _ _ H). cbn [sends_ok]. unfold send_ok.
    cbn [q_state q_type q_sends q_init max_send_wr max_send_sge send_cq]. rewrite Hop, Hsg, (decide_False (P := IBV_SEND_INLINE ∈ _)) by done.
    assert ((if decide (ty = IBV_QPT_UD) then negb (ud_ah (s_wr (wr ctx)) =? 0) else true) = true) as ->
      by (case_decide; [by rewrite (proj2 (Z.eqb_neq _ _)) by auto | done]).
    cbn [forallb length]. rewrite (bool_decide_eq_true_2 (sge_ok d (sge ctx))) by done.
    unfold cq_room. cbn [q_init send_cq]. rewrite (ready_scq _ _ _ _ _ _ _ _ _ H). unfold cq_load.
    cbn [q_init send_cq recv_cq q_sends]. rewrite Z.eqb_refl.
    rewrite (proj2 (Z.eqb_neq (rcq ctx) (scq ctx))) by (intros E; by apply (ready_ne _ _ _ _ _ _ _ _ _ H)).
    pose proof (length_filter (fun x : Z * bool => x.2 = true) sends).
    rewrite !andb_true_r. cbn. rewrite (proj2 (Z.ltb_lt _ _)) by lia. cbn.
    rewrite (proj2 (Z.ltb_lt _ _)) by lia. by destruct (signaled (wr ctx)).
  - intros r _. vassoc. vexpect. cbn [after pbind]. rewrite (ready_qp _ _ _ _ _ _ _ _ _ H), H0.
    cbn [foldl push_send q_type q_state q_init q_sends q_recvs q_posted]. apply Hk. by eapply ready_set.
Qed.

(** A completion on one of the two queues of the context. *)
Lemma complete_ready d ctx st sends recvs n cq wc d' :
  ready d ctx st sends recvs n -> cq = scq ctx \/ cq = rcq ctx -> wc_status wc = IBV_WC_SUCCESS ->
  complete d cq wc = Some d' ->
  exists q sends' recvs', d' = set_qp d (qp_num (qp ctx)) q /\ ready d' ctx st sends' recvs' n /\
    (cq = scq ctx -> retire (wc_wr_id wc) false sends = Some sends' /\ recvs' = recvs) /\
    (cq = rcq ctx -> recvs = wc_wr_id wc :: recvs' /\ sends' = sends).
Proof.
  intros H Hcq Hst Hd. unfold complete in Hd. rewrite Hst in Hd. cbn [Z.eqb IBV_WC_SUCCESS negb] in Hd.
  destruct (qps d !! wc_qp_num wc) as [q |] eqn:Hq; [| done].
  destruct (decide (wc_qp_num wc = qp_num (qp ctx))) as [E | Hne].
  2:{ exfalso. destruct (ready_own _ _ _ _ _ _ _ _ _ H _ _ Hq Hne) as (N1 & N2 & N3 & N4).
      destruct (wc_recv wc).
      - destruct (q_recvs q); [done |]. destruct Hcq as [-> | ->].
        + by rewrite (proj2 (Z.eqb_neq _ _) N2) in Hd.
        + by rewrite (proj2 (Z.eqb_neq _ _) N4) in Hd.
      - destruct Hcq as [-> | ->].
        + by rewrite (proj2 (Z.eqb_neq _ _) N1) in Hd.
        + by rewrite (proj2 (Z.eqb_neq _ _) N3) in Hd. }
  pose proof (ready_ne _ _ _ _ _ _ _ _ _ H) as Hne.
  rewrite E, (ready_qp _ _ _ _ _ _ _ _ _ H) in Hq. injection Hq as <-.
  cbn [q_recvs q_sends q_init recv_cq send_cq q_type q_state q_posted] in Hd. rewrite E in Hd.
  destruct (wc_recv wc).
  - destruct recvs as [|id recvs]; [done |]. destruct (Z.eqb_spec (rcq ctx) cq) as [<- |]; [| done].
    cbn [andb] in Hd. destruct (Z.eqb_spec id (wc_wr_id wc)) as [-> |]; [| done]. injection Hd as <-.
    eexists _, sends, recvs. split_and!; [done | by eapply ready_set | congruence | done].
  - destruct (Z.eqb_spec (scq ctx) cq) as [<- |]; [| done].
    destruct (retire _ _ _) as [rest |] eqn:Hr; [| done]. injection Hd as <-.
    eexists _, rest, recvs. split_and!; [done | by eapply ready_set | done | congruence].
Qed.

(** Waiting for the send that was posted last. *)
Lemma safe_poll_send fuel d ctx sends recvs n (k : unit -> prog B) :
  ready d ctx IBV_QPS_RTS sends recvs n ->
  (forall q rest, retire (s_wr_id (wr ctx)) false sends = Some rest ->
    ready (set_qp d (qp_num (qp ctx)) q) ctx IBV_QPS_RTS rest recvs n ->
    safe (set_qp d (qp_num (qp ctx)) q) (k tt) Q any_stop) ->
  safe d (pbind (nvds_poll_send fuel ctx) k) Q any_stop.
Proof.
  intros H Hk. unfold nvds_poll_send. apply safe_assoc, safe_poll_one.
  { by rewrite (ready_scq _ _ _ _ _ _ _ _ _ H). }
  intros wc d' Hd. vassoc. vexpect. vexpect. apply Z.eqb_eq in H0, H1.
  destruct (complete_ready _ _ _ _ _ _ _ _ _ H (or_introl eq_refl) H0 Hd) as (q & s' & r' & -> & Hr & Hs & _).
  destruct (Hs eq_refl) as [Hs' ->]. rewrite H1 in Hs'. by eapply Hk.
Qed.

(** Waiting for a message: the oldest receive is used up. *)
Lemma safe_poll_recv fuel d ctx st sends recvs n err (k : unit -> prog B) :
  ready d ctx st sends recvs n ->
  (forall q id rest, recvs = id :: rest ->
    ready (set_qp d (qp_num (qp ctx)) q) ctx st sends rest n ->
    safe (set_qp d (qp_num (qp ctx)) q) (k tt) Q any_stop) ->
  safe d (pbind (wc <- poll_one fuel (rcq ctx) ;; nvds_expect (wc_status wc =? IBV_WC_SUCCESS) err) k) Q any_stop.
Proof.
  intros H Hk. apply safe_assoc, safe_poll_one.
  { by rewrite (ready_rcq _ _ _ _ _ _ _ _ _ H). }
  intros wc d' Hd. vexpect. apply Z.eqb_eq in H0.
  destruct (complete_ready _ _ _ _ _ _ _ _ _ H (or_intror eq_refl) H0 Hd) as (q & s' & r' & -> & Hr & _ & Hs).
  destruct (Hs eq_refl) as [Hs' ->]. by eapply Hk.
Qed.

(** One more receive into the buffer. *)
Lemma safe_post_recv d ctx st sends recvs n w g (k : Z -> prog B) :
  ready d ctx st sends recvs n -> st <> IBV_QPS_RESET -> r_sg_list w = [g] -> sge_ok d g ->
  Z.of_nat (length recvs) < max_recv -> max_recv <= rcq_cqe ->
  (forall q, ready (set_qp d (qp_num (qp ctx)) q) ctx st sends (recvs ++ [r_wr_id w]) n ->
    safe (set_qp d (qp_num (qp ctx)) q) (k 0) Q any_stop) ->
  (forall r, r <> 0 -> safe d (k r) Q any_stop) ->
  safe d (pbind (sys (ibv_post_recv (qp ctx) w)) k) Q any_stop.
Proof.
  intros H Hst Hsg Hmr Hlen Hcap Hk Hk'. apply safe_sys.
  - cbn [allowed]. rewrite (ready_qp _ _ _ _ _ _ _ _ _ H). unfold recv_ok.
    cbn [q_state q_init q_recvs max_recv_wr max_recv_sge recv_cq]. rewrite Hsg.
    rewrite (bool_decide_eq_true_2 (st <> _)) by done. cbn [forallb length].
    rewrite (bool_decide_eq_true_2 (sge_ok d g)) by done.
    unfold cq_room. cbn [q_init recv_cq]. rewrite (ready_rcq _ _ _ _ _ _ _ _ _ H). unfold cq_load.
    cbn [q_init send_cq recv_cq q_recvs]. rewrite Z.eqb_refl.
    rewrite (proj2 (Z.eqb_neq (scq ctx) (rcq ctx))) by apply (ready_ne _ _ _ _ _ _ _ _ _ H).
    rewrite (proj2 (Z.ltb_lt _ _)) by lia. cbn. by rewrite (proj2 (Z.ltb_lt _ _)) by lia.
  - intros r _. cbn [after]. rewrite (ready_qp _ _ _ _ _ _ _ _ _ H).
    destruct (Z.eqb_spec r 0) as [-> |]; [| by apply Hk'].
    cbn [q_type q_state q_init q_sends q_recvs q_posted]. apply Hk. by eapply ready_set.
Qed.
End Transitions.

Section RcTransitions.
Context {B : Type} (max_recv rcq_cqe : Z) (Q : B -> device -> Prop).
#[local] Abbreviation ready := (ready max_recv rcq_cqe IBV_QPT_RC).

Lemma safe_rtr d ctx data sends recvs n (k : unit -> prog B) :
  ready d ctx IBV_QPS_INIT sends recvs n ->
  (forall q, ready (set_qp d (qp_num (qp ctx)) q) ctx IBV_QPS_RTR sends recvs n ->
    safe (set_qp d (qp_num (qp ctx)) q) (k tt) Q any_stop) ->
  safe d (pbind (nvds_set_qp_state_rtr (qp ctx) data) k) Q any_stop.
Proof. intros H Hk. by eapply safe_transition; [eassumption | ..]. Qed.

Lemma set_qp_twice d m q q' : set_qp (set_qp d m q) m q' = set_qp d m q'.
Proof. unfold set_qp. cbn. by rewrite insert_insert_eq. Qed.

Lemma safe_rts d ctx data sends recvs n (k : unit -> prog B) :
  ready d ctx IBV_QPS_INIT sends recvs n ->
  (forall q, ready (set_qp d (qp_num (qp ctx)) q) ctx IBV_QPS_RTS sends recvs n ->
    safe (set_qp d (qp_num (qp ctx)) q) (k tt) Q any_stop) ->
  safe d (pbind (nvds_set_qp_state_rts (qp ctx) data) k) Q any_stop.
Proof.
  intros H Hk. unfold nvds_set_qp_state_rts. vassoc. eapply safe_rtr; [done |]. intros q1 H1.
  eapply safe_transition; [eassumption | done | done |]. intros q2. rewrite set_qp_twice. apply Hk.
Qed.
End RcTransitions.

(** What is there stays, and what is new uses new completion queues. *)
Record extends (d d' : device) : Prop := {
  ext_qps : qps d ⊆ qps d'; ext_cqs : cqs d ⊆ cqs d'; ext_mrs : mrs d ⊆ mrs d'; ext_heap : heap d ⊆ heap d';
  ext_new : forall m q, qps d' !! m = Some q -> qps d !! m = None ->
    cqs d !! send_cq (q_init q) = None /\ cqs d !! recv_cq (q_init q) = None }.

Section Init.
Context {B : Type} (max_recv rcq_cqe : Z) (ty : ibv_qp_type) (clear : bool)
  (set_init : ibv_qp -> nvds_data -> prog unit) (Q : B -> device -> Prop).

Lemma after_memalign d a n p : p <> 0 ->
  after d (memalign a n) p = mkDev (qps d) (cqs d) (mrs d) (<[p := n]> (heap d)).
Proof. intros ?%Z.eqb_neq. cbn [after]. by rewrite H. Qed.

Lemma after_create_cq d c n p : p <> 0 ->
  after d (ibv_create_cq c n) p = mkDev (qps d) (<[p := n]> (cqs d)) (mrs d) (heap d).
Proof. intros ?%Z.eqb_neq. cbn [after]. by rewrite H. Qed.

Lemma ready_extends d d' ctx st sends recvs n :
  ready max_recv rcq_cqe ty d ctx st sends recvs n -> extends d d' -> ready max_recv rcq_cqe ty d' ctx st sends recvs n.
Proof.
  intros [H1 H2 H3 H4 H5 H6 H7] [E1 E2 E3 E4 E5].
  constructor; try (by eapply lookup_weaken); [done |].
  intros m q Hm Hne. destruct (qps d !! m) as [q' |] eqn:Hq.
  - assert (q' = q) as -> by (apply (lookup_weaken _ _ _ _ Hq) in E1; congruence). by apply (H7 m).
  - destruct (E5 m q Hm Hq) as [N1 N2]. split_and!; congruence.
Qed.

(** The device after the set-up of a context in the device [d]. *)
Definition with_context (d : device) (b sz : Z) (m : ibv_mr) (rc sc tx : Z) (q : ibv_qp) : device :=
  set_qp (mkDev (qps d) (<[sc := tx]> (<[rc := rcq_cqe]> (cqs d))) (<[mr_ptr m := (lkey m, b, sz)]> (mrs d))
    (<[b := sz]> (heap d))) (qp_num q) (new_qp (mkInit sc rc ty 0 tx max_recv 1 1 0) IBV_QPS_RESET).

Section New.
Context (d : device) (b sz c p rc sc tx : Z) (m : ibv_mr) (q : ibv_qp).
Context (Hb : heap d !! b = None) (Hm : mrs d !! mr_ptr m = None) (Hrc : cqs d !! rc = None).
Context (Hsc : cqs d !! sc = None) (Hne : sc <> rc) (Hq : qps d !! qp_num q = None).

Lemma ready_new : wired d ->
  ready max_recv rcq_cqe ty (with_context d b sz m rc sc tx q)
    (mkCtx c p m rc sc q b sz tx (mkSge 0 0 0) zero_wr) IBV_QPS_RESET [] [] 0.
Proof.
  intros Hw. constructor; cbn [qps cqs mrs heap set_qp scq rcq tx_depth qp mr buf size with_context].
  - apply lookup_insert_eq.
  - apply lookup_insert_eq.
  - by rewrite lookup_insert_ne, lookup_insert_eq by done.
  - done.
  - apply lookup_insert_eq.
  - apply lookup_insert_eq.
  - intros i q' Hq' Hi. rewrite lookup_insert_ne in Hq' by done. destruct (Hw i q' Hq') as [[? W1] [? W2]].
    split_and!; congruence.
Qed.

Lemma extends_new q' : q_init q' = mkInit sc rc ty 0 tx max_recv 1 1 0 ->
  extends d (set_qp (with_context d b sz m rc sc tx q) (qp_num q) q').
Proof.
  intros Hi. constructor; cbn [qps cqs mrs heap set_qp with_context].
  - rewrite insert_insert_eq. by apply insert_subseteq.
  - transitivity (<[rc:=rcq_cqe]> (cqs d)); apply insert_subseteq; [done |]. by rewrite lookup_insert_ne.
  - by apply insert_subseteq.
  - by apply insert_subseteq.
  - intros i qi. rewrite insert_insert_eq. destruct (decide (i = qp_num q)) as [-> | Hne'].
    + rewrite lookup_insert_eq. intros [= <-] _. by rewrite Hi.
    + rewrite lookup_insert_ne by done. congruence.
Qed.

Lemma wired_new q' : q_init q' = mkInit sc rc ty 0 tx max_recv 1 1 0 -> wired d ->
  wired (set_qp (with_context d b sz m rc sc tx q) (qp_num q) q').
Proof.
  intros Hi Hw i qi. cbn [qps cqs set_qp with_context]. rewrite insert_insert_eq.
  destruct (decide (i = qp_num q)) as [-> | Hne'].
  - rewrite lookup_insert_eq. intros [= <-]. rewrite Hi. cbn.
    rewrite lookup_insert_eq, lookup_insert_ne, lookup_insert_eq by done. done.
  - rewrite lookup_insert_ne by done. intros Hqi. destruct (Hw i qi Hqi) as [W1 W2].
    rewrite !lookup_insert_is_Some. destruct W1 as [? W1], W2 as [? W2]. split.
    + destruct (decide (sc = send_cq (q_init qi))); [by left | right; split; [done |]].
      destruct (decide (rc = send_cq (q_init qi))); [by left | by right].
    + destruct (decide (sc = recv_cq (q_init qi))); [by left | right; split; [done |]].
      destruct (decide (rc = recv_cq (q_init qi))); [by left | by right].
Qed.
End New.

(** What the program's [nvds_set_qp_state_init] has to do. *)
Definition goes_to_init : Prop :=
  forall C d ctx data (k : unit -> prog C) (Q' : C -> device -> Prop),
    ready max_recv rcq_cqe ty d ctx IBV_QPS_RESET [] [] 0 ->
    (forall q, ready max_recv rcq_cqe ty (set_qp d (qp_num (qp ctx)) q) ctx IBV_QPS_INIT [] [] 0 ->
      safe (set_qp d (qp_num (qp ctx)) q) (k tt) Q' any_stop) ->
    safe d (pbind (set_init (qp ctx) data) k) Q' any_stop.

Context (Hinit : goes_to_init).

(** Setting up a context next to the ones that exist. *)
Lemma safe_init_queues d c p dev page_size data (k : nvds_context * nvds_data -> prog B) :
  wired d ->
  (forall ctx d', ready max_recv rcq_cqe ty d' ctx IBV_QPS_INIT [] [] 0 ->
    size ctx = d_size data -> tx_depth ctx = d_tx_depth data ->
    extends d d' -> wired d' -> qps d !! qp_num (qp ctx) = None ->
    safe d' (k (ctx, with_dev dev data)) Q any_stop) ->
  safe d (pbind (init_queues max_recv rcq_cqe ty clear set_init c p dev page_size data) k) Q any_stop.
Proof.
  intros Hw Hk. unfold init_queues. vassoc.
  apply safe_sys; [done |]. intros b (Hb & Hbf & _)%fresh_block_spec. rewrite after_memalign by lia.
  set (d1 := mkDev _ _ _ _). assert (in_heap d1 b (d_size data)) as Hin.
  { exists b, (d_size data). split; [apply lookup_insert_eq | lia]. }
  assert (forall {C} (k' : unit -> prog C) Q', safe d1 (k' tt) Q' any_stop ->
    safe d1 (pbind (if clear then sys (memset b 0 (d_size data)) else Ret tt) k') Q' any_stop) as Hclear.
  { intros C k' Q' Hs. destruct clear; [| done]. apply safe_skip; [by apply bool_decide_eq_true | done |]. by intros []. }
  vassoc. apply Hclear. vassoc. apply safe_sys; [by apply bool_decide_eq_true |]. intros m Hm. vassoc. vexpect.
  destruct m as [m |]; [| done]. apply fresh_spec in Hm as [_ Hm]. cbn [default after].
  vassoc. apply safe_sys; [done |]. intros rc [Hrc Hrcf]%fresh_spec.
  rewrite after_create_cq by done. vassoc. vexpect.
  vassoc. apply safe_sys; [done |]. intros sc [Hsc Hne]%fresh_spec.
  rewrite after_create_cq by done. vassoc. vexpect. cbn [qps cqs mrs heap d1] in *.
  assert (sc <> rc) as Hscrc by (intros ->; by rewrite lookup_insert_eq in Hne).
  rewrite lookup_insert_ne in Hne by done.
  vassoc. apply safe_sys.
  { cbn [allowed send_cq recv_cq cqs]. apply bool_decide_eq_true.
    rewrite lookup_insert_eq, lookup_insert_ne, lookup_insert_eq by done. done. }
  intros q Hq. vassoc. vexpect. destruct q as [q |]; [| done]. cbn [default after].
  apply andb_true_iff in Hq as [[Hq%bool_decide_eq_true _]%andb_true_iff _]. cbn [qps] in Hq.
  vassoc. apply (Hinit _ _ (mkCtx c p m rc sc q b (d_size data) (d_tx_depth data) (mkSge 0 0 0) zero_wr)).
  - by apply (ready_new d b (d_size data) c p rc sc (d_tx_depth data) m q).
  - intros qi Hr. cbn [qp] in *.
    assert (q_init qi = mkInit sc rc ty 0 (d_tx_depth data) max_recv 1 1 0) as Hi.
    { pose proof (ready_qp _ _ _ _ _ _ _ _ _ Hr) as E. cbn [qps set_qp qp] in E.
      rewrite lookup_insert_eq in E. by injection E as ->. }
    apply Hk; [exact Hr | done | done | | | done].
    + by apply (extends_new d b (d_size data) rc sc (d_tx_depth data) m q).
    + by apply (wired_new d b (d_size data) rc sc (d_tx_depth data) m q).
Qed.

(** The set-up of a program that starts with nothing. *)
Lemma safe_init_ctx page_size data (k : nvds_context * nvds_data -> prog B) :
  (forall ctx d dev, ready max_recv rcq_cqe ty d ctx IBV_QPS_INIT [] [] 0 ->
    size ctx = d_size data -> tx_depth ctx = d_tx_depth data ->
    safe d (k (ctx, with_dev dev data)) Q any_stop) ->
  safe empty_device (pbind (nvds_init_ctx max_recv rcq_cqe ty clear set_init page_size data) k) Q any_stop.
Proof.
  intros Hk. unfold nvds_init_ctx. vassoc. apply safe_sys; [done |]. intros l Hl. cbn [after].
  vassoc. vexpect. destruct l as [[|dev l] |]; [done | | done]. cbn [reply_ok default hd] in *.
  vassoc. apply safe_skip; [done | done |]. intros c. repeat (vassoc; first [vskip | vexpect]).
  apply safe_init_queues; [apply wired_empty |]. intros ctx d' Hr Hz Ht _ _ _. by apply Hk.
Qed.
End Init.

Lemma rc_goes_to_init max_recv rcq_cqe : goes_to_init max_recv rcq_cqe IBV_QPT_RC nvds_set_qp_state_init.
Proof. intros C d ctx data k Q' H Hk. by eapply safe_transition; [exact H | ..]. Qed.

Section Main.
Context (max_recv rcq_cqe : Z) (ty : ibv_qp_type) (clear : bool) (set_init : ibv_qp -> nvds_data -> prog unit)
  (buf_size : Z)
  (run_server run_client : nvds_context -> nvds_data -> prog unit).

(** A role is legal when it is from every context the set-up can produce. *)
Definition legal_role (role : nvds_context -> nvds_data -> prog unit) : Prop :=
  forall ctx d data, ready max_recv rcq_cqe ty d ctx IBV_QPS_INIT [] [] 0 ->
    size ctx = buf_size -> tx_depth ctx = 100 -> safe d (role ctx data) (fun _ _ => True) any_stop.

Lemma safe_init_local {B} d ctx data (k : nvds_data -> prog B) Q :
  (forall c, safe d (k (with_local c data)) Q any_stop) ->
  safe d (pbind (nvds_init_local_ib_connection ctx data) k) Q any_stop.
Proof. intros Hk. unfold nvds_init_local_ib_connection. vassoc. vskip. vassoc. vexpect. apply Hk. Qed.

Lemma safe_main argc argv :
  goes_to_init max_recv rcq_cqe ty set_init -> legal_role run_server -> legal_role run_client ->
  safe empty_device (main_ max_recv rcq_cqe ty clear set_init buf_size run_server run_client argc argv)
    (fun _ _ => True) any_stop.
Proof.
  intros Hi Hs Hc. unfold main_. vexpect. do 4 vskip.
  set (data := if argc =? 2 then _ else _).
  assert (d_size data = buf_size /\ d_tx_depth data = 100) as [E1 E2] by (by subst data; destruct (argc =? 2)).
  apply safe_init_ctx; [exact Hi |]. intros ctx d dev Hr Hz Ht. apply safe_init_local. intros c.
  apply safe_bind. eapply safe_mono; [| by cbn].
  destruct (argc =? 2); [apply Hc | apply Hs]; first [exact Hr | cbn [fst]; congruence].
Qed.
Lemma safe_main_rules e argc argv :
  goes_to_init max_recv rcq_cqe ty set_init -> legal_role run_server -> legal_role run_client ->
  misused (judge (run e [] (main_ max_recv rcq_cqe ty clear set_init buf_size run_server run_client argc argv)).1) = false.
Proof. intros Hi Hs Hc. eapply safe_not_misused. by apply safe_main. Qed.
End Main.

(** After a step that changes the queue pair of the context: forget how. *)
Ltac vstate d H :=
  let q := fresh "q" in
  clear H; intros q; match goal with |- context [set_qp d ?m q] => generalize (set_qp d m q) end;
  clear q; try clear d; let d' := fresh "d" in intros d'.

(** The message sizes are the powers of two up to 1024. *)
Lemma safe_for_len {S} fuel (body : S -> Z -> prog S) s d (I : S -> device -> Prop) :
  I s d -> (forall s d len, I s d -> 1 <= len <= 1024 -> safe d (body s len) I any_stop) ->
  safe d (for_len fuel body s) (fun sl d => I sl.1 d) any_stop.
Proof.
  intros HI Hb. unfold for_len.
  eapply safe_mono; [apply (safe_while _ _ _ _ _ _ (fun sl d => I sl.1 d /\ 1 <= sl.2 <= 2048)) |].
  - done.
  - done.
  - intros [s1 len] d1 [H1 H2] Hc%Z.leb_le. cbn [fst snd] in *. apply safe_bind.
    eapply safe_mono; [apply Hb; [done | lia] |]. intros s2 d2 H. cbn. split; [done |].
    rewrite Z.shiftl_mul_pow2 by lia. unfold s32, u32. rewrite Z.mod_small by lia.
    destruct (Z.ltb_spec (len * 2 ^ 1) (2 ^ 31)); lia.
  - by intros [s1 len] d1 [[H1 _] _].
Qed.
