(* ===== verification/SendRc.v ===== *)
(** * [experiments/send_rc.c]: latency of SEND over a reliable connection

    The server keeps ten spare receives posted and takes one message per
    round; the client posts a signaled SEND and waits for its completion. *)

From S2P Require Import Prelude Verbs Protocol RcPerf.

#[local] Open Scope prog_scope.

Definition n : Z := 1000 * 1000.

Definition nvds_poll_recv (fuel : nat) (ctx : nvds_context) : prog unit :=
  wc <- poll_one fuel (rcq ctx) ;;
  nvds_expect (wc_status wc =? IBV_WC_SUCCESS) "rdma read failed".

Definition nvds_post_send (ctx : nvds_context) (len : Z) : prog nvds_context :=
  let g := mkSge (buf ctx) len (lkey (mr ctx)) in
  let w := mkSend RDMA_WRITE_ID [g] IBV_WR_SEND [IBV_SEND_SIGNALED] (s_wr (wr ctx)) (s_imm (wr ctx)) in
  post_wr (with_wr g w ctx).

Definition nvds_post_recv (ctx : nvds_context) : prog unit :=
  let g := mkSge (buf ctx) (size ctx) (lkey (mr ctx)) in
  r <- sys (ibv_post_recv (qp ctx) (mkRecv (buf ctx) [g])) ;;
  check (r =? 0).

Definition nvds_run_server (fuel : nat) (ctx : nvds_context) (data : nvds_data) : prog unit :=
  data <- nvds_server_exch_info data ;;
  (* Set queue pair state to RTR(Ready to receive) *)
  nvds_set_qp_state_rtr (qp ctx) data ;;;
  sys (printf "server side: \n" []) ;;;
  sys (printf "local connection: \n" []) ;;;
  nvds_print_ib_connection (local_conn data) ;;;
  sys (printf "remote connection: \n" []) ;;;
  nvds_print_ib_connection (remote_conn data) ;;;
  for_ 10 (fun _ => nvds_post_recv ctx) tt ;;;
  for_len fuel (fun _ _ =>
    for_ (Z.to_nat n) (fun _ => nvds_post_recv ctx ;;; nvds_poll_recv fuel ctx) tt) tt ;;;
  exit 0.

Definition nvds_run_client (fuel : nat) (ctx : nvds_context) (data : nvds_data) : prog unit :=
  data <- nvds_client_exch_info data ;;
  nvds_set_qp_state_rts (qp ctx) data ;;;
  sys (sleep 1000000) ;;; (* waiting for server to get ready *)
  for_len fuel (fun ctx len =>
    begin <- now ;;
    ctx <- for_ (Z.to_nat n) (fun ctx =>
      ctx <- nvds_post_send ctx len ;; nvds_poll_send fuel ctx ;;; Ret ctx) ctx ;;
    end_ <- now ;;
    sys (printf "%d, %f\n" [len; time_diff end_ begin]) ;;;
    Ret ctx) ctx ;;;
  exit 0.

Definition main (fuel : nat) : Z -> list string -> prog Z :=
  main_ 100 100 IBV_QPT_RC true nvds_set_qp_state_init RDMA_MAX_LEN (nvds_run_server fuel) (nvds_run_client fuel).

(** ** Both roles follow the rules *)

#[local] Abbreviation ready := (ready 100 100 IBV_QPT_RC).

Lemma safe_send_rc_post_recv {B} d ctx st sends recvs m (k : unit -> prog B) Q :
  ready d ctx st sends recvs m -> st <> IBV_QPS_RESET -> Z.of_nat (length recvs) < 100 ->
  (forall q, ready (set_qp d (qp_num (qp ctx)) q) ctx st sends (recvs ++ [buf ctx]) m ->
    safe (set_qp d (qp_num (qp ctx)) q) (k tt) Q any_stop) ->
  safe d (pbind (nvds_post_recv ctx) k) Q any_stop.
Proof.
  intros H Hst Hl Hk. unfold nvds_post_recv. vassoc. eapply RcPerf.safe_post_recv; [done | done | done | | done | lia | |].
  - eapply ready_sge; [done | done | cbn; lia | cbn; lia].
  - intros q Hq. cbn. by apply Hk.
  - intros r Hr. apply safe_check; [done |]. intros E. lia.
Qed.

Lemma send_rc_server_legal fuel : legal_role 100 100 IBV_QPT_RC RDMA_MAX_LEN (nvds_run_server fuel).
Proof.
  intros ctx d data H Hz Ht. unfold nvds_run_server. vassoc. apply safe_server_exch_info. intros c.
  vassoc. eapply safe_rtr; [exact H |]. vstate d H. intros H. do 2 vskip. apply safe_print_conn.
  vskip. apply safe_print_conn.
  set (I j (_ : unit) d := exists recvs, ready d ctx IBV_QPS_RTR [] recvs 0 /\ (length recvs + j = 10)%nat).
  apply safe_bind. eapply safe_mono; [apply (safe_for _ _ _ _ _ I) |]; unfold I.
  - by exists [].
  - intros j u d1 (recvs & H1 & Hl). apply safe_tail. eapply safe_send_rc_post_recv; [done | done | lia |].
    vstate d1 H1. intros H1. eexists. split; [done |]. rewrite length_app. cbn. lia.
  - intros u d1 H1. apply safe_bind. eapply safe_mono; [apply (safe_for_len _ _ _ _ (I O)); [done |] | by cbn].
    intros u2 d2 len H2 _. apply safe_for_inv; [done |]. clear. intros u d (recvs & H & Hl).
    eapply safe_send_rc_post_recv; [done | done | lia |]. vstate d H. intros H.
    apply safe_tail. eapply safe_poll_recv; [exact H |]. intros q id rest E H2. exists rest. split; [done |].
    apply (f_equal length) in E. rewrite length_app in E. cbn in E. lia.
Qed.

Lemma send_rc_client_legal fuel : legal_role 100 100 IBV_QPT_RC RDMA_MAX_LEN (nvds_run_client fuel).
Proof.
  intros ctx d data H Hz Ht. unfold nvds_run_client. vassoc. apply safe_client_exch_info. intros c.
  vassoc. eapply safe_rts; [exact H |]. vstate d H. intros H. vskip.
  set (I ctx d := exists posted, ready d ctx IBV_QPS_RTS [] [] posted /\ size ctx = RDMA_MAX_LEN /\ tx_depth ctx = 100).
  apply safe_bind. eapply safe_mono; [apply (safe_for_len _ _ _ _ I) |]; [by exists 0 | | by cbn].
  clear. intros ctx d len HI Hlen. apply safe_now. intros begin. apply safe_bind.
  eapply safe_mono; [apply (safe_for_inv _ _ _ _ _ I); [done |] |].
  - clear ctx d HI. intros ctx d (posted & H & Hz & Ht). unfold nvds_post_send.
    eapply safe_post_wr; [by apply ready_with_wr | done | done | done | set_solver | | cbn; lia |].
    + eapply ready_sge; [done | done | cbn; lia | cbn; unfold RDMA_MAX_LEN in *; lia].
    + vstate d H. intros H. eapply safe_poll_send; [exact H |]. intros q rest Hr. injection Hr as <-.
      intros H2. exists (posted + 1). split; [| done]. exact H2.
  - intros ctx2 d2 HI2. apply safe_now. intros end_. by vskip.
Qed.

(** Whatever the device, the network and the other side answer, the
    program only makes calls the verbs allow: it brings the queue pair up in
    order with the attributes of each transition, posts only what lies in its
    registered buffer, and never exceeds the depth of a queue (of ten spare
    receives and one outstanding send). *)
Theorem send_rc_follows_the_rules fuel argc argv e :
  misused (judge (run e [] (main fuel argc argv)).1) = false.
Proof. unfold main. exact (safe_main_rules _ _ _ _ _ _ _ _ _ _ _ (rc_goes_to_init _ _) (send_rc_server_legal fuel) (send_rc_client_legal fuel)). Qed.
