(* ===== verification/Memc.v ===== *)
(** * [memc.cc]: the memcached benchmark

    The program stores ten thousand values in memcached and asks for them.
    libmemcached and the clock are parameters, operations on a state [S] of
    the outside world; the distribution over the generator is the sequence
    [letters], the same for every generator since each starts from the default
    seed.  The times it prints are left out. *)

From Stdlib Require Strings.Byte.
From stdpp Require Import countable.
From S2P Require Import Prelude.

Module Memc.

Section Memc.
Context {S : Type}.
Variables (MEMCACHED_SUCCESS MEMCACHED_NOTFOUND : Z).
Variables (memcached : string -> M S Z) (memcached_set : Z -> list Init.Byte.byte -> list Init.Byte.byte -> M S Z)
  (memcached_get : Z -> list Init.Byte.byte -> M S Z) (memcached_free : Z -> M S unit) (clock_gettime : M S Z).
Variable letters : nat -> Init.Byte.byte.

(** The two loops, letter after letter. *)
Definition GenRandomStrings (len n : nat) : list (list Init.Byte.byte) :=
  map (fun i => map (fun j => letters (i * len + j)) (seq 0 len)) (seq 0 n).

(** [(lhs - rhs)] in nanoseconds, as an [int64_t]. *)
Definition TimeDiff (lhs rhs : Z * Z) : Z := (lhs.1 - rhs.1) * 1000000000 + (lhs.2 - rhs.2).

Definition take_time : M S unit := r <- clock_gettime ;; assert (r =? 0).

Fixpoint set_all (memc : Z) (kvs : list (list Init.Byte.byte * list Init.Byte.byte)) : M S unit :=
  match kvs with
  | [] => ret tt
  | (key, val) :: kvs' =>
      rc <- memcached_set memc key val ;;
      assert (rc =? MEMCACHED_SUCCESS) ;;;
      set_all memc kvs'
  end.

Fixpoint get_all (memc : Z) (keys : list (list Init.Byte.byte)) : M S unit :=
  match keys with
  | [] => ret tt
  | key :: keys' =>
      rc <- memcached_get memc key ;;
      assert ((rc =? MEMCACHED_SUCCESS) || (rc =? MEMCACHED_NOTFOUND)) ;;;
      get_all memc keys'
  end.

(** [Test] with [n] keys. *)
Definition Test (n : nat) (server : string) (len : nat) : M S unit :=
  memc <- memcached (String.append "--SERVER=" server) ;;
  assert (negb (memc =? 0)) ;;;
  let keys := GenRandomStrings 16 n in
  let vals := GenRandomStrings len n in
  take_time ;;;
  set_all memc (combine keys vals) ;;;
  take_time ;;;
  take_time ;;;
  get_all memc keys ;;;
  take_time ;;;
  memcached_free memc.

Definition n : Z := 10000.

Definition main (argc : Z) (server : string) (len : nat) : M S Z :=
  assert (argc =? 3) ;;;
  Test (Z.to_nat n) server len ;;;
  ret 0.
End Memc.

End Memc.

Import Memc.

(** ** What the benchmark leaves *)

#[export] Instance byte_countable : Countable Init.Byte.byte := inj_countable Byte.to_N Byte.of_N Byte.of_to_N.

Section Runs.
Context {S : Type} (view : S -> gmap (list Init.Byte.byte) (list Init.Byte.byte)).
Variables (success notfound : Z).
Variables (memcached : string -> M S Z) (memcached_set : Z -> list Init.Byte.byte -> list Init.Byte.byte -> M S Z)
  (memcached_get : Z -> list Init.Byte.byte -> M S Z) (memcached_free : Z -> M S unit) (clock_gettime : M S Z).
Variable letters : nat -> Init.Byte.byte.

(** A call that succeeds with a result in [P] and keeps the contents. *)
Definition keeps {A} (c : M S A) (P : A -> Prop) : Prop := forall s, exists a s', c s = Ok a s' /\ view s' = view s /\ P a.

Hypothesis connects : forall server, keeps (memcached server) (fun memc => memc <> 0).
Hypothesis sets : forall memc key val s, exists s', memcached_set memc key val s = Ok success s' /\ view s' = <[key := val]> (view s).
Hypothesis gets : forall memc key, keeps (memcached_get memc key) (fun rc => rc = success \/ rc = notfound).
Hypothesis frees : forall memc, keeps (memcached_free memc) (fun _ => True).
Hypothesis ticks : keeps clock_gettime (fun r => r = 0).

Definition store_all (l : list (list Init.Byte.byte * list Init.Byte.byte)) (m : gmap (list Init.Byte.byte) (list Init.Byte.byte)) :=
  foldl (fun m kv => <[kv.1 := kv.2]> m) m l.

Lemma keeps_bind {A B} (c : M S A) P (k : A -> M S B) Q : keeps c P -> (forall a, P a -> keeps (k a) Q) -> keeps (bind c k) Q.
Proof.
  intros Hc Hk s. destruct (Hc s) as (a & s1 & E1 & V1 & Ha). destruct (Hk a Ha s1) as (b & s2 & E2 & V2 & Hb).
  exists b, s2. rewrite (bind_Ok _ _ _ _ _ E1), V2. done.
Qed.

Lemma keeps_assert b : b = true -> keeps (assert b) (fun _ => True).
Proof. intros -> s. by exists tt, s. Qed.

Lemma keeps_time : keeps (take_time clock_gettime) (fun _ => True).
Proof. apply (keeps_bind _ _ _ _ ticks). intros r ->. by apply keeps_assert. Qed.

Lemma keeps_get memc keys : keeps (get_all success notfound memcached_get memc keys) (fun _ => True).
Proof.
  induction keys as [|key keys IH]; [intros s; by exists tt, s |]. apply (keeps_bind _ _ _ _ (gets memc key)). intros rc Hrc.
  eapply keeps_bind; [apply keeps_assert; destruct Hrc as [-> | ->]; rewrite Z.eqb_refl, ?orb_true_r; done | by intros _ _].
Qed.

Lemma set_all_run memc kvs : forall s, exists s', set_all success memcached_set memc kvs s = Ok tt s' /\ view s' = store_all kvs (view s).
Proof.
  induction kvs as [|[key val] kvs IH]; intros s; [by exists s |]. destruct (sets memc key val s) as (s1 & E1 & V1).
  destruct (IH s1) as (s2 & E2 & V2). exists s2. cbn [set_all]. rewrite (bind_Ok _ _ _ _ _ E1), assert_true by apply Z.eqb_refl. split; [exact E2 |].
  by rewrite V2, V1.
Qed.

(** With a library that stores what it is given, and a clock that works, the
    benchmark ends and leaves every value under its key. *)
Theorem Test_stores n server len s : exists s',
  Test success notfound memcached memcached_set memcached_get memcached_free clock_gettime letters n server len s = Ok tt s' /\
  view s' = store_all (combine (GenRandomStrings letters 16 n) (GenRandomStrings letters len n)) (view s).
Proof using connects sets gets frees ticks.
  unfold Test. destruct (connects (String.append "--SERVER=" server) s) as (memc & s1 & E1 & V1 & Hm).
  rewrite (bind_Ok _ _ _ _ _ E1), assert_true by (by apply negb_true_iff, Z.eqb_neq). cbv zeta.
  destruct (keeps_time s1) as ([] & s2 & E2 & V2 & _). rewrite (bind_Ok _ _ _ _ _ E2).
  destruct (set_all_run memc (combine (GenRandomStrings letters 16 n) (GenRandomStrings letters len n)) s2) as (s3 & E3 & V3).
  rewrite (bind_Ok _ _ _ _ _ E3). rewrite <- V1, <- V2, <- V3.
  assert (keeps (take_time clock_gettime ;;; take_time clock_gettime ;;;
    get_all success notfound memcached_get memc (GenRandomStrings letters 16 n) ;;; take_time clock_gettime ;;; memcached_free memc) (fun _ => True)) as H.
  { do 2 (apply (keeps_bind _ _ _ _ keeps_time); intros _ _). apply (keeps_bind _ _ _ _ (keeps_get _ _)). intros _ _.
    apply (keeps_bind _ _ _ _ keeps_time). intros _ _. apply frees. }
  destruct (H s3) as ([] & s4 & E4 & V4 & _). by exists s4.
Qed.
End Runs.

(** A library that is a map, and two values. *)
Example test_runs :
  let letters i := if Nat.even i then Byte.x61 else Byte.x62 in
  match Test 0 16 (fun _ => ret 1) (fun _ k v => modify (fun m : gmap _ _ => <[k := v]> m) ;;; ret 0)
    (fun _ k => m <- get ;; ret (match m !! k with Some _ => 0 | None => 16 end)) (fun _ => ret tt) (ret 0) letters 2 "10.0.0.1" 3 ∅ with
  | Ok _ m => size m = 1%nat
  | Err _ _ => False
  end.
Proof. vm_compute. reflexivity. Qed.
