(* ===== verification/WriteRc.v ===== *)
(** * [experiments/write_rc.c]: latency of RDMA WRITE over a reliable connection

    The client writes to the server's buffer and waits for the completion of
    every write; the server's processor does nothing. *)

From S2P Require Import Prelude Verbs Protocol RcPerf.

#[local] Open Scope prog_scope.

(** ** What it shares with the other programs *)

Definition nvds_print_ib_connection := RcPerf.nvds_print_ib_connection.
Definition nvds_set_qp_state_init := RcPerf.nvds_set_qp_state_init.
Definition nvds_set_qp_state_rtr := RcPerf.nvds_set_qp_state_rtr.
Definition nvds_set_qp_state_rts := RcPerf.nvds_set_qp_state_rts.
Definition nvds_server_exch_info := RcPerf.nvds_server_exch_info.
Definition nvds_client_exch_info := RcPerf.nvds_client_exch_info.
Definition nvds_poll_send := RcPerf.nvds_poll_send.
Definition nvds_init_local_ib_connection := RcPerf.nvds_init_local_ib_connection.
Definition nvds_init_ctx := RcPerf.nvds_init_ctx 1 1 IBV_QPT_RC true nvds_set_qp_state_init.

(** ** The measurement *)

Definition n : Z := 1000 * 1000.

Definition nvds_rdma_write (ctx : nvds_context) (data : nvds_data) (len : Z) : prog nvds_context :=
  let g := mkSge (buf ctx) len (lkey (mr ctx)) in
  let u := set_rdma (vaddr (remote_conn data)) (c_rkey (remote_conn data)) (s_wr (wr ctx)) in
  post_wr (with_wr g (mkSend RDMA_WRITE_ID [g] IBV_WR_RDMA_WRITE [IBV_SEND_SIGNALED] u (s_imm (wr ctx))) ctx).

Definition nvds_run_server (fuel : nat) (ctx : nvds_context) (data : nvds_data) : prog unit :=
  data <- nvds_server_exch_info data ;;
  (* Set queue pair state to RTR(Ready to receive) *)
  nvds_set_qp_state_rtr (qp ctx) data ;;;
  sys (printf "server side: \n" []) ;;;
  sys (printf "local connection: \n" []) ;;;
  nvds_print_ib_connection (local_conn data) ;;;
  sys (printf "remote connection: \n" []) ;;;
  nvds_print_ib_connection (remote_conn data) ;;;
  while_ fuel (fun _ => true) Ret tt.

Definition nvds_run_client (fuel : nat) (ctx : nvds_context) (data : nvds_data) : prog unit :=
  data <- nvds_client_exch_info data ;;
  nvds_set_qp_state_rts (qp ctx) data ;;;
  for_len fuel (fun ctx len =>
    begin <- now ;;
    ctx <- for_ (Z.to_nat n) (fun ctx =>
      ctx <- nvds_rdma_write ctx data len ;; nvds_poll_send fuel ctx ;;; Ret ctx) ctx ;;
    end_ <- now ;;
    sys (printf "%d, %f\n" [len; time_diff end_ begin]) ;;;
    Ret ctx) ctx ;;;
  exit 0.

Definition main (fuel : nat) : Z -> list string -> prog Z :=
  main_ 1 1 IBV_QPT_RC true nvds_set_qp_state_init RDMA_MAX_LEN (nvds_run_server fuel) (nvds_run_client fuel).

(** ** Both roles follow the rules *)

#[local] Abbreviation ready := (ready 1 1 IBV_QPT_RC).

Lemma write_rc_server_legal fuel : legal_role 1 1 IBV_QPT_RC RDMA_MAX_LEN (nvds_run_server fuel).
Proof.
  intros ctx d data H Hz Ht. unfold nvds_run_server. vassoc. apply safe_server_exch_info. intros c.
  vassoc. eapply safe_rtr; [exact H |]. vstate d H. intros H. do 2 vskip. apply safe_print_conn.
  vskip. apply safe_print_conn. eapply safe_mono; [by apply (safe_while _ _ _ _ _ _ (fun _ _ => True)) | done].
Qed.

(** One write, signaled, of a message that fits. *)
Lemma safe_write_rc_write {B} d ctx data len sends recvs m (k : nvds_context -> prog B) Q :
  ready d ctx IBV_QPS_RTS sends recvs m -> size ctx = RDMA_MAX_LEN -> tx_depth ctx = 100 ->
  1 <= len <= 1024 -> Z.of_nat (length sends) < 100 ->
  (forall q g w, s_wr_id w = RDMA_WRITE_ID ->
    ready (set_qp d (qp_num (qp ctx)) q) (with_wr g w ctx) IBV_QPS_RTS (sends ++ [(RDMA_WRITE_ID, true)]) recvs (m + 1) ->
    safe (set_qp d (qp_num (qp ctx)) q) (k (with_wr g w ctx)) Q any_stop) ->
  safe d (pbind (nvds_rdma_write ctx data len) k) Q any_stop.
Proof.
  intros H Hz Ht Hlen Hs Hk. unfold nvds_rdma_write.
  eapply safe_post_wr; [by apply ready_with_wr | done | done | done | set_solver | | cbn; lia |].
  - eapply ready_sge; [done | done | cbn; lia | cbn; unfold RDMA_MAX_LEN in *; lia].
  - intros q Hq. by apply Hk.
Qed.

Lemma write_rc_client_legal fuel : legal_role 1 1 IBV_QPT_RC RDMA_MAX_LEN (nvds_run_client fuel).
Proof.
  intros ctx d data H Hz Ht. unfold nvds_run_client. vassoc. apply safe_client_exch_info. intros c.
  vassoc. eapply safe_rts; [exact H |]. vstate d H. intros H.
  set (I ctx d := exists posted, ready d ctx IBV_QPS_RTS [] [] posted /\ size ctx = RDMA_MAX_LEN /\ tx_depth ctx = 100).
  apply safe_bind. eapply safe_mono; [apply (safe_for_len _ _ _ _ I) |]; [by exists 0 | | by cbn].
  clear H Hz Ht. clear d ctx. intros ctx d len HI Hlen. apply safe_now. intros begin. apply safe_bind.
  eapply safe_mono; [apply (safe_for_inv _ _ _ _ _ I); [done |] |].
  - clear ctx d HI. intros ctx d (posted & H & Hz & Ht).
    eapply safe_write_rc_write; [exact H | done | done | done | cbn; lia |].
    intros q g w Hw H2. generalize dependent (set_qp d (qp_num (qp ctx)) q). clear d H q. intros d H.
    eapply safe_poll_send; [exact H |]. cbn [wr with_wr]. rewrite Hw. intros q rest Hr. injection Hr as <-.
    intros H2. by exists (posted + 1).
  - intros ctx2 d2 HI2. apply safe_now. intros end_. by vskip.
Qed.

(** Under any answers of the device, the network and the peer the program
    makes legal calls only: transitions in order with their attributes, writes
    from inside the registered buffer, one write outstanding at a time. *)
Theorem write_rc_follows_the_rules fuel argc argv e :
  misused (judge (run e [] (main fuel argc argv)).1) = false.
Proof. unfold main. exact (safe_main_rules _ _ _ _ _ _ _ _ _ _ _ (rc_goes_to_init _ _) (write_rc_server_legal fuel) (write_rc_client_legal fuel)). Qed.
