(* ===== verification/WriteRcUnsignaled.v ===== *)
(** * [experiments/write_rc_unsignaled.c]: ping-pong with unsignaled writes

    Client and server write to each other's buffer and wait for the first byte
    of their own to change; only every hundredth write is signaled and waited
    for, which frees the ninety-nine before it. *)

From S2P Require Import Prelude Verbs Protocol RcPerf.

#[local] Open Scope prog_scope.

(** ** What it shares with the other programs *)

Definition nvds_print_ib_connection := RcPerf.nvds_print_ib_connection.
Definition nvds_set_qp_state_init := RcPerf.nvds_set_qp_state_init.
Definition nvds_set_qp_state_rtr := RcPerf.nvds_set_qp_state_rtr.
Definition nvds_set_qp_state_rts := RcPerf.nvds_set_qp_state_rts.
Definition nvds_server_exch_info := RcPerf.nvds_server_exch_info.
Definition nvds_client_exch_info := RcPerf.nvds_client_exch_info.
Definition nvds_poll_send := RcPerf.nvds_poll_send.
Definition nvds_init_local_ib_connection := RcPerf.nvds_init_local_ib_connection.
Definition nvds_init_ctx := RcPerf.nvds_init_ctx 1 1 IBV_QPT_RC false nvds_set_qp_state_init.

(** ** The measurement *)

Definition n : Z := 1000 * 1000.

(** The static [k] is part of the state. *)
Definition nvds_rdma_write (fuel : nat) (data : nvds_data) (len : Z) (ck : nvds_context * Z) :
    prog (nvds_context * Z) :=
  let ctx := ck.1 in
  let k := ck.2 in
  let g := mkSge (buf ctx) len (lkey (mr ctx)) in
  let u := set_rdma (vaddr (remote_conn data)) (c_rkey (remote_conn data)) (s_wr (wr ctx)) in
  let flags := if k =? 99 then [IBV_SEND_SIGNALED] else [] in
  ctx <- post_wr (with_wr g (mkSend RDMA_WRITE_ID [g] IBV_WR_RDMA_WRITE flags u (s_imm (wr ctx))) ctx) ;;
  (if k =? 99 then nvds_poll_send fuel ctx else Ret tt) ;;;
  Ret (ctx, (k + 1) mod 100).

Definition nvds_run_client (fuel : nat) (ctx : nvds_context) (data : nvds_data) : prog unit :=
  data <- nvds_client_exch_info data ;;
  nvds_set_qp_state_rts (qp ctx) data ;;;
  sys (sleep 1000000) ;;;
  fill_buf ctx 1 ;;;
  for_len fuel (fun ck len =>
    begin <- now ;;
    ck <- for_ (Z.to_nat n) (fun ck =>
      ck <- nvds_rdma_write fuel data len ck ;; wait_buf fuel ck.1 1 1 ;;; Ret ck) ck ;;
    end_ <- now ;;
    sys (printf "%d, %f\n" [len; time_diff end_ begin]) ;;;
    Ret ck) (ctx, 0) ;;;
  exit 0.

Definition nvds_run_server (fuel : nat) (ctx : nvds_context) (data : nvds_data) : prog unit :=
  data <- nvds_server_exch_info data ;;
  nvds_set_qp_state_rts (qp ctx) data ;;;
  fill_buf ctx 0 ;;;
  while_ fuel (fun _ => true) (fun ck => wait_buf fuel ck.1 0 0 ;;; nvds_rdma_write fuel data 1 ck) (ctx, 0) ;;;
  Ret tt.

Definition main (fuel : nat) : Z -> list string -> prog Z :=
  main_ 1 1 IBV_QPT_RC false nvds_set_qp_state_init RDMA_MAX_LEN (nvds_run_server fuel) (nvds_run_client fuel).

(** ** Both roles follow the rules *)

#[local] Abbreviation ready := (ready 1 1 IBV_QPT_RC).

(** [k] counts the unsignaled writes outstanding. *)
Definition counted (ck : nvds_context * Z) (d : device) : Prop :=
  exists posted, ready d ck.1 IBV_QPS_RTS (replicate (Z.to_nat ck.2) (RDMA_WRITE_ID, false)) [] posted /\
    size ck.1 = RDMA_MAX_LEN /\ tx_depth ck.1 = 100 /\ 0 <= ck.2 < 100.

Lemma safe_unsignaled_write fuel d data len ck :
  counted ck d -> 1 <= len <= 1024 -> safe d (nvds_rdma_write fuel data len ck) counted any_stop.
Proof.
  destruct ck as [ctx k]. intros (posted & H & Hz & Ht & Hk) Hlen. cbn [fst snd] in *.
  unfold nvds_rdma_write. cbn [fst snd].
  eapply safe_post_wr; [by apply ready_with_wr | done | done | done | | | |].
  - cbn. destruct (k =? 99); set_solver.
  - eapply ready_sge; [done | done | cbn; lia | cbn; unfold RDMA_MAX_LEN in *; lia].
  - rewrite length_replicate. cbn. lia.
  - vstate d H. cbn [wr with_wr s_wr_id s_flags]. intros H. destruct (Z.eqb_spec k 99) as [-> | Hne].
    + eapply safe_poll_send; [exact H |]. intros q rest Hr. cbn [wr with_wr s_wr_id] in Hr.
      unfold signaled in Hr. cbn [s_flags] in Hr. rewrite bool_decide_eq_true_2 in Hr by set_solver.
      rewrite retire_batch in Hr. injection Hr as <-. intros H2. exists (posted + 1). by split.
    + exists (posted + 1). cbn [fst snd]. rewrite Z.mod_small by lia. split_and!; [| done | done | lia | lia].
      replace (Z.to_nat (k + 1)) with (Z.to_nat k + 1)%nat by lia. by rewrite replicate_add.
Qed.

Lemma unsignaled_server_legal fuel : legal_role 1 1 IBV_QPT_RC RDMA_MAX_LEN (nvds_run_server fuel).
Proof.
  intros ctx d data H Hz Ht. unfold nvds_run_server. vassoc. apply safe_server_exch_info. intros c.
  vassoc. eapply safe_rts; [exact H |]. vstate d H. intros H. vassoc. eapply safe_fill_buf; [exact H |]. intros i.
  apply safe_bind. eapply safe_mono; [apply (safe_while _ _ _ _ _ _ counted) | done].
  - exists 0. by split_and!.
  - done.
  - clear. intros ck d (posted & H & Hz & Ht & Hk) _. eapply safe_wait_buf; [exact H | by rewrite Hz |].
    apply safe_unsignaled_write; [by exists posted | lia].
Qed.

Lemma unsignaled_client_legal fuel : legal_role 1 1 IBV_QPT_RC RDMA_MAX_LEN (nvds_run_client fuel).
Proof.
  intros ctx d data H Hz Ht. unfold nvds_run_client. vassoc. apply safe_client_exch_info. intros c.
  vassoc. eapply safe_rts; [exact H |]. vstate d H. intros H. vskip. vassoc. eapply safe_fill_buf; [exact H |]. intros i.
  apply safe_bind. eapply safe_mono; [apply (safe_for_len _ _ _ _ counted) |]; [by exists 0 | | by cbn].
  clear. intros ck d len HI Hlen. apply safe_now. intros begin. apply safe_bind.
  eapply safe_mono; [apply (safe_for_inv _ _ _ _ _ counted); [done |] |].
  - clear ck d HI. intros ck d HI. apply safe_bind. eapply safe_mono; [by apply safe_unsignaled_write |].
    clear. intros ck d (posted & H & Hz & Ht & Hk). eapply safe_wait_buf; [exact H | by rewrite Hz |]. by exists posted.
  - intros ck2 d2 HI2. apply safe_now. intros end_. by vskip.
Qed.

(** C16. With one write in a hundred signaled the send queue of depth 100 never
    overflows: the counter [k] is the number of writes outstanding, and the
    completion of the hundredth retires them all, for any number of rounds
    and any answers of the device, the network and the peer. *)
Theorem write_rc_unsignaled_follows_the_rules fuel argc argv e :
  misused (judge (run e [] (main fuel argc argv)).1) = false.
Proof. unfold main. exact (safe_main_rules _ _ _ _ _ _ _ _ _ _ _ (rc_goes_to_init _ _) (unsignaled_server_legal fuel) (unsignaled_client_legal fuel)). Qed.
