(* ===== verification/WriteRcMulti.v ===== *)
(** * [experiments/write_rc_multi.c]: ping-pong over many queue pairs

    As [write_rc_unsignaled.c], but round robin over [NUM_QP] queue pairs that
    share one device context; one static counter decides for all of them
    which writes are signaled. *)

From S2P Require Import Prelude Verbs Protocol Loopback RcPerf.

#[local] Open Scope prog_scope.

(** ** What it shares with the other programs *)

Definition nvds_print_ib_connection := RcPerf.nvds_print_ib_connection.
Definition nvds_set_qp_state_init := RcPerf.nvds_set_qp_state_init.
Definition nvds_set_qp_state_rtr := RcPerf.nvds_set_qp_state_rtr.
Definition nvds_set_qp_state_rts := RcPerf.nvds_set_qp_state_rts.
Definition nvds_server_exch_info := RcPerf.nvds_server_exch_info.
Definition nvds_poll_send := RcPerf.nvds_poll_send.

(** Unlike in the other programs the client prints nothing here. *)
Definition nvds_client_exch_info (data : nvds_data) : prog nvds_data :=
  fd <- sys (socket "AF_INET" "SOCK_STREAM") ;;
  nvds_expect (negb (fd =? -1)) "socket() failed" ;;;
  a <- sys (inet_pton (default ""%string (server_name data))) ;;
  nvds_expect (a.1 =? 1) "inet_pton() failed" ;;;
  r <- sys (connect fd a.2 (port data)) ;;
  nvds_expect (r =? 0) "connect() failed" ;;;
  write_conn fd (local_conn data) ;;;
  remote <- read_conn fd ;;
  sys (close fd) ;;;
  Ret (with_remote remote data).

Definition n : Z := 1000 * 1000.

(** [for (i = 0; i < num; ++i)] over the two arrays, from the context before. *)
Fixpoint for_each {A B} (body : option B -> A -> prog B) (prev : option B) (l : list A) : prog (list B) :=
  match l with
  | [] => Ret []
  | a :: l' => b <- body prev a ;; bs <- for_each body (Some b) l' ;; Ret (b :: bs)
  end.

Section Multi.
Variable NUM_QP : Z.

Definition nvds_rdma_write (fuel : nat) (data : nvds_data) (len : Z) (ck : nvds_context * Z) :
    prog (nvds_context * Z) :=
  let ctx := ck.1 in
  let k := ck.2 in
  let g := mkSge (buf ctx) len (lkey (mr ctx)) in
  let u := set_rdma (vaddr (remote_conn data)) (c_rkey (remote_conn data)) (s_wr (wr ctx)) in
  let flags := if k / NUM_QP =? 99 then [IBV_SEND_SIGNALED] else [] in
  ctx <- post_wr (with_wr g (mkSend RDMA_WRITE_ID [g] IBV_WR_RDMA_WRITE flags u (s_imm (wr ctx))) ctx) ;;
  (if k / NUM_QP =? 99 then nvds_poll_send fuel ctx else Ret tt) ;;;
  Ret (ctx, (k + 1) mod (NUM_QP * 100)).

(** The body of the loop of [nvds_init_ctx]: every context but the first
    takes the device context and the protection domain from the one before. *)
Definition init_one (page_size : Z) (prev : option (nvds_context * nvds_data)) (data : nvds_data) :
    prog (nvds_context * nvds_data) :=
  l <- sys ibv_get_device_list ;;
  nvds_expect (bool_decide (is_Some l)) "ibv_get_device_list() failed" ;;;
  let dev := hd 0 (default [] l) in
  cp <- match prev with
        | None =>
            context <- sys (ibv_open_device dev) ;;
            nvds_expect (negb (context =? 0)) "ibv_open_device() failed" ;;;
            pd <- sys (ibv_alloc_pd context) ;;
            nvds_expect (negb (pd =? 0)) "ibv_alloc_pd() failed" ;;;
            Ret ((context, pd) : Z * Z)
        | Some cd => Ret (context cd.1, pd cd.1)
        end ;;
  init_queues 1 1 IBV_QPT_RC true nvds_set_qp_state_init cp.1 cp.2 dev page_size data.

Definition nvds_init_ctx (page_size : Z) (data_arr : list nvds_data) : prog (list (nvds_context * nvds_data)) :=
  for_each (init_one page_size) None data_arr.

Definition nvds_init_local_ib_connection (arr : list (nvds_context * nvds_data)) : prog (list (nvds_context * nvds_data)) :=
  for_each (fun _ cd => data <- RcPerf.nvds_init_local_ib_connection cd.1 cd.2 ;; Ret (cd.1, data)) None arr.

(** The arrays, the index [j] of the context whose turn it is, and the static
    [k] of [nvds_rdma_write]. *)
Record turns := mkTurns { arr : list (nvds_context * nvds_data); j_ : Z; k_ : Z }.

(** One round: [before] the write and [after_] it, then the next context. *)
Definition turn (fuel : nat) (len : Z) (before after_ : nvds_context -> prog unit) (t : turns) : prog turns :=
  match arr t !! Z.to_nat (j_ t) with
  | None => Stop (Fault Segv)
  | Some (ctx, data) =>
      before ctx ;;;
      ck <- nvds_rdma_write fuel data len (ctx, k_ t) ;;
      after_ ck.1 ;;;
      Ret (mkTurns (<[Z.to_nat (j_ t) := (ck.1, data)]> (arr t)) ((j_ t + 1) mod Z.of_nat (length (arr t))) ck.2)
  end.

Definition nvds_run_server (fuel : nat) (a : list (nvds_context * nvds_data)) : prog unit :=
  a <- for_each (fun _ cd =>
    data <- nvds_server_exch_info cd.2 ;;
    nvds_set_qp_state_rts (qp cd.1) data ;;;
    fill_buf cd.1 0 ;;;
    Ret (cd.1, data)) None a ;;
  while_ fuel (fun _ => true) (turn fuel 1 (fun ctx => wait_buf fuel ctx 0 0) (fun _ => Ret tt)) (mkTurns a 0 0) ;;;
  Ret tt.

Definition nvds_run_client (fuel : nat) (a : list (nvds_context * nvds_data)) : prog unit :=
  a <- for_each (fun _ cd =>
    data <- nvds_client_exch_info cd.2 ;;
    nvds_set_qp_state_rts (qp cd.1) data ;;;
    fill_buf cd.1 1 ;;;
    sys (sleep 1000) ;;;
    Ret (cd.1, data)) None a ;;
  sys (sleep 1000) ;;;
  (* [for (int32_t len = 128; len <= 128; len <<= 1)]: once *)
  while_ fuel (fun tl => tl.2 <=? 128) (fun tl =>
    begin <- now ;;
    t <- for_ (Z.to_nat n) (turn fuel tl.2 (fun _ => Ret tt) (fun ctx => wait_buf fuel ctx 1 1)) tl.1 ;;
    end_ <- now ;;
    sys (printf "%d %d, %f\n" [NUM_QP; tl.2; time_diff end_ begin]) ;;;
    Ret (t, s32 (Z.shiftl tl.2 1))) (mkTurns a 0 0, 128) ;;;
  exit 0.

Definition main (fuel : nat) (argc : Z) (argv : list string) : prog Z :=
  nvds_expect (argc <=? 2) "too many arguments" ;;;
  let is_client := argc =? 2 in
  let data_arr := replicate (Z.to_nat NUM_QP)
    (mkData 5500 1 RDMA_MAX_LEN 100 (if argc =? 2 then nth_error argv 1 else None) zero_conn zero_conn 0) in
  pid <- sys getpid ;;
  t <- sys time_ ;;
  sys (srand48 (pid * t)) ;;;
  page_size <- sys sysconf_pagesize ;;
  a <- nvds_init_ctx page_size data_arr ;;
  a <- nvds_init_local_ib_connection a ;;
  (if is_client then nvds_run_client fuel a else nvds_run_server fuel a) ;;;
  Ret 0.

(** ** Both roles follow the rules *)

#[local] Abbreviation ready := (ready 1 1 IBV_QPT_RC).

(** The contexts: number [i] in state [st i] with the sends [f i], and no two
    with one queue pair. *)
Definition all_ready (st : nat -> ibv_qp_state) (f : nat -> list (Z * bool)) (cs : list nvds_context)
    (d : device) : Prop :=
  NoDup (map (fun c => qp_num (qp c)) cs) /\
  forall i c, cs !! i = Some c ->
    (exists posted, ready d c (st i) (f i) [] posted) /\ size c = RDMA_MAX_LEN /\ tx_depth c = 100.

Lemma nodup_qp (cs : list nvds_context) i i' c c' :
  NoDup (map (fun c => qp_num (qp c)) cs) -> cs !! i = Some c -> cs !! i' = Some c' -> i <> i' ->
  qp_num (qp c) <> qp_num (qp c').
Proof.
  intros Hn Hi Hi' Hne E. apply Hne. eapply (NoDup_lookup _ _ _ _ Hn); rewrite list_lookup_fmap.
  - by rewrite Hi.
  - rewrite Hi'. cbn. by rewrite E.
Qed.

Lemma ready_init d ctx st sends recvs m q :
  ready (set_qp d (qp_num (qp ctx)) q) ctx st sends recvs m ->
  q_init q = mkInit (scq ctx) (rcq ctx) IBV_QPT_RC 0 (tx_depth ctx) 1 1 1 0.
Proof. intros H. pose proof (ready_qp _ _ _ _ _ _ _ _ _ H) as E. cbn in E. rewrite lookup_insert_eq in E. by injection E as ->. Qed.

(** A step of one context leaves the others alone. *)
Lemma all_ready_step st f cs d i ctx g w q st' sends m :
  all_ready st f cs d -> cs !! i = Some ctx ->
  ready (set_qp d (qp_num (qp ctx)) q) (with_wr g w ctx) st' sends [] m ->
  all_ready (fun j => if decide (j = i) then st' else st j) (fun j => if decide (j = i) then sends else f j)
    (<[i := with_wr g w ctx]> cs) (set_qp d (qp_num (qp ctx)) q).
Proof.
  intros [Hn H] Hi Hr. destruct (H i _ Hi) as ([pi Hpi] & Hz & Ht). split.
  - rewrite list_fmap_insert, list_insert_id; [done |]. by rewrite list_lookup_fmap, Hi.
  - intros j cj Hj. destruct (decide (j = i)) as [-> | Hne].
    + rewrite list_lookup_insert_eq in Hj by (by apply lookup_lt_is_Some; eexists). injection Hj as <-.
      by split_and!; [exists m | |].
    + rewrite list_lookup_insert_ne in Hj by done. destruct (H j _ Hj) as ([p Hp] & ? & ?). split_and!; [| done | done].
      exists p. eapply ready_frame; [| apply (ready_qp _ _ _ _ _ _ _ _ _ Hpi) | | done].
      * intros E. by eapply (nodup_qp cs i j).
      * by apply (ready_init d (with_wr g w ctx) st' sends [] m).
Qed.

(** ** The loops over the contexts *)

Lemma safe_for_each {A B} (body : option B -> A -> prog B) (I : list B -> list A -> device -> Prop) E l d :
  I [] l d ->
  (forall done a rest d, I done (a :: rest) d ->
    safe d (body (list.last done) a) (fun b d' => I (done ++ [b]) rest d') E) ->
  safe d (for_each body None l) (fun bs d' => I bs [] d') E.
Proof.
  intros HI Hb. change (@None B) with (list.last (@nil B)).
  enough (forall done, I done l d -> safe d (for_each body (list.last done) l) (fun bs d' => I (done ++ bs) [] d') E) as H
    by (by apply (H [])).
  clear HI. revert d. induction l as [|a l IH]; intros d done HI; cbn [for_each safe]; [by rewrite app_nil_r |].
  apply safe_bind. eapply safe_mono; [by apply Hb |]. intros b d1 H1. apply safe_bind.
  specialize (IH d1 (done ++ [b]) H1). rewrite last_snoc in IH. eapply safe_mono; [exact IH |].
  intros bs d2. cbn [safe]. by rewrite <- app_assoc.
Qed.

Hypothesis NUM_QP_pos : 0 < NUM_QP.

(** The writes of context [i] that are outstanding when [k] of a cycle of
    [100 * NUM_QP] have been posted. *)
Definition outstanding (k : Z) (i : nat) : Z :=
  (k / NUM_QP + (if Z.of_nat i <? k mod NUM_QP then 1 else 0)) mod 100.

Lemma next_k k : 0 <= k < NUM_QP * 100 ->
  let k' := (k + 1) mod (NUM_QP * 100) in
  0 <= k' < NUM_QP * 100 /\ k' mod NUM_QP = (k mod NUM_QP + 1) mod NUM_QP /\
  forall i, Z.of_nat i < NUM_QP ->
    outstanding k' i = if decide (i = Z.to_nat (k mod NUM_QP)) then (k / NUM_QP + 1) mod 100 else outstanding k i.
Proof using NUM_QP_pos.
  intros Hk k'. pose proof (Z.mod_pos_bound k NUM_QP NUM_QP_pos) as Hm.
  pose proof (Z.div_mod k NUM_QP ltac:(lia)) as Hdm.
  assert (0 <= k / NUM_QP < 100) as Hd by (split; [apply Z.div_pos; lia | apply Z.div_lt_upper_bound; lia]).
  split; [apply Z.mod_pos_bound; lia |].
  destruct (decide (k mod NUM_QP + 1 < NUM_QP)) as [Hlt | Hge].
  - assert (k' = k + 1) as E by (apply Z.mod_small; nia).
    assert (k' / NUM_QP = k / NUM_QP /\ k' mod NUM_QP = k mod NUM_QP + 1) as [E1 E2].
    { rewrite E. split; [symmetry; apply (Z.div_unique _ _ _ (k mod NUM_QP + 1)); lia |
        symmetry; apply (Z.mod_unique _ _ (k / NUM_QP)); lia]. }
    rewrite E2. split; [by rewrite (Z.mod_small (_ + 1)) by lia |]. intros i Hi. unfold outstanding. rewrite E1, E2.
    case_decide as Hc; [by rewrite (proj2 (Z.ltb_lt _ _)) by lia |]. f_equal. f_equal.
    destruct (Z.ltb_spec (Z.of_nat i) (k mod NUM_QP)), (Z.ltb_spec (Z.of_nat i) (k mod NUM_QP + 1)); lia.
  - assert (k mod NUM_QP + 1 = NUM_QP) as Hl by lia.
    assert (k' / NUM_QP = (k / NUM_QP + 1) mod 100 /\ k' mod NUM_QP = 0) as [E1 E2].
    { unfold k'. replace (k + 1) with (NUM_QP * (k / NUM_QP + 1)) by nia.
      rewrite Z.mul_mod_distr_l by lia. split; [rewrite Z.mul_comm; by apply Z.div_mul; lia |].
      rewrite Z.mul_comm. by apply Z.mod_mul; lia. }
    rewrite E2, Hl. split; [by rewrite Z.mod_same by lia |]. intros i Hi. unfold outstanding. rewrite E1, E2.
    rewrite (proj2 (Z.ltb_ge _ _)), Z.add_0_r, Z.mod_mod by lia.
    case_decide; [done |]. by rewrite (proj2 (Z.ltb_lt _ _)) by lia.
Qed.

Definition in_turn (t : turns) (d : device) : Prop :=
  Z.of_nat (length (arr t)) = NUM_QP /\ 0 <= k_ t < NUM_QP * 100 /\ j_ t = k_ t mod NUM_QP /\
  all_ready (fun _ => IBV_QPS_RTS) (fun i => replicate (Z.to_nat (outstanding (k_ t) i)) (RDMA_WRITE_ID, false))
    (map fst (arr t)) d.

(** What may come before and after a write. *)
Definition quiet (p : nvds_context -> prog unit) : Prop :=
  forall B d ctx st sends recvs m (k : unit -> prog B) Q, ready d ctx st sends recvs m -> 0 < size ctx ->
    safe d (k tt) Q any_stop -> safe d (pbind (p ctx) k) Q any_stop.

Lemma quiet_wait fuel v v' : quiet (fun ctx => wait_buf fuel ctx v v').
Proof. intros B d ctx st sends recvs m k Q H Hz Hk. by eapply safe_wait_buf. Qed.

Lemma quiet_ret : quiet (fun _ => Ret tt).
Proof. intros B d ctx st sends recvs m k Q _ _ Hk. exact Hk. Qed.

(** A write by a context with [m] unsignaled writes outstanding. *)
Lemma safe_multi_write {B} fuel d data len ctx k posted (kk : nvds_context * Z -> prog B) Q :
  0 <= k < NUM_QP * 100 ->
  ready d ctx IBV_QPS_RTS (replicate (Z.to_nat (k / NUM_QP)) (RDMA_WRITE_ID, false)) [] posted ->
  size ctx = RDMA_MAX_LEN -> tx_depth ctx = 100 -> 1 <= len <= 1024 ->
  (forall q g w, ready (set_qp d (qp_num (qp ctx)) q) (with_wr g w ctx) IBV_QPS_RTS
      (replicate (Z.to_nat ((k / NUM_QP + 1) mod 100)) (RDMA_WRITE_ID, false)) [] (posted + 1) ->
    safe (set_qp d (qp_num (qp ctx)) q) (kk (with_wr g w ctx, (k + 1) mod (NUM_QP * 100))) Q any_stop) ->
  safe d (pbind (nvds_rdma_write fuel data len (ctx, k)) kk) Q any_stop.
Proof using NUM_QP_pos.
  intros Hk H Hz Ht Hlen Hkk. unfold nvds_rdma_write. cbn [fst snd]. vassoc.
  assert (0 <= k / NUM_QP < 100) as Hd by (split; [apply Z.div_pos; lia | apply Z.div_lt_upper_bound; lia]).
  eapply safe_post_wr; [by apply ready_with_wr | done | done | done | | | |].
  - cbn. destruct (k / NUM_QP =? 99); set_solver.
  - eapply ready_sge; [done | done | cbn; lia | cbn; unfold RDMA_MAX_LEN in *; lia].
  - rewrite length_replicate. cbn. lia.
  - cbn [wr with_wr s_wr_id s_flags qp]. intros q1 H1. vassoc.
    destruct (Z.eqb_spec (k / NUM_QP) 99) as [E | Hne].
    + eapply safe_poll_send; [exact H1 |]. cbn [wr with_wr s_wr_id qp]. intros q rest Hr H2.
      unfold signaled in Hr. cbn [s_flags] in Hr. rewrite bool_decide_eq_true_2 in Hr by set_solver.
      rewrite retire_batch in Hr. injection Hr as <-. rewrite set_qp_twice in *. vassoc. apply Hkk.
      by rewrite E.
    + vassoc. apply Hkk. rewrite Z.mod_small by lia.
      replace (Z.to_nat (k / NUM_QP + 1)) with (Z.to_nat (k / NUM_QP) + 1)%nat by lia.
      by rewrite replicate_add.
Qed.

Lemma safe_turn fuel len before after_ t d :
  quiet before -> quiet after_ -> 1 <= len <= 1024 -> in_turn t d ->
  safe d (turn fuel len before after_ t) in_turn any_stop.
Proof using NUM_QP_pos.
  intros Hb Ha Hlen (Hl & Hk & Hj & Hall). destruct t as [a j k]. cbn [arr j_ k_] in *. unfold turn. cbn [arr j_ k_].
  destruct (a !! Z.to_nat j) as [[ctx data] |] eqn:Ha2; [| done].
  pose proof (Z.mod_pos_bound k NUM_QP NUM_QP_pos) as Hm.
  assert (map fst a !! Z.to_nat j = Some ctx) as Hctx by (by rewrite list_lookup_fmap, Ha2).
  destruct (proj2 Hall _ _ Hctx) as ([posted H] & Hz & Ht).
  assert (outstanding k (Z.to_nat j) = k / NUM_QP) as Eo.
  { unfold outstanding. rewrite (proj2 (Z.ltb_ge _ _)), Z.add_0_r by lia.
    apply Z.mod_small. split; [apply Z.div_pos; lia | apply Z.div_lt_upper_bound; lia]. }
  rewrite Eo in H. eapply Hb; [exact H | by rewrite Hz |].
  eapply safe_multi_write; [done | exact H | done | done | done |]. intros q g w H2.
  eapply Ha; [exact H2 | cbn; by rewrite Hz |]. cbn [safe]. destruct (next_k k Hk) as (N1 & N2 & N3).
  split; [by cbn; rewrite length_insert | split; [exact N1 | split; cbn [arr j_ k_ fst snd]]].
  - by rewrite Hl, N2, Hj.
  - destruct (all_ready_step _ _ _ _ _ _ _ _ _ _ _ _ Hall Hctx H2) as [Hn Hs].
    rewrite list_fmap_insert. split; [done |]. intros i cd Hi.
    destruct (Hs i cd Hi) as ([p Hp] & ? & ?). split_and!; [| done | done]. exists p.
    apply lookup_lt_Some in Hi as Hlt. rewrite length_insert, length_map in Hlt. rewrite N3 by lia. subst j. by case_decide.
Qed.

(** ** Setting up and connecting *)

Definition sized (data : nvds_data) : Prop := d_size data = RDMA_MAX_LEN /\ d_tx_depth data = 100.

Definition initialised (done : list (nvds_context * nvds_data)) (rest : list nvds_data) (d : device) : Prop :=
  all_ready (fun _ => IBV_QPS_INIT) (fun _ => []) (map fst done) d /\ wired d /\
  Z.of_nat (length done + length rest) = NUM_QP /\ Forall sized rest.

(** One more context after those that are ready. *)
Lemma all_ready_snoc st f cs d d' ctx m :
  all_ready (fun _ => st) f cs d -> extends d d' -> ready d' ctx st (f (length cs)) [] m ->
  qps d !! qp_num (qp ctx) = None -> size ctx = RDMA_MAX_LEN -> tx_depth ctx = 100 ->
  all_ready (fun _ => st) f (cs ++ [ctx]) d'.
Proof.
  intros [Hn H] He Hr Hq Hz Ht. split.
  - rewrite map_app. apply list.NoDup_app. split_and!; [done | | apply list.NoDup_singleton].
    intros x (c & -> & Hc)%list_elem_of_fmap Hx%list_elem_of_singleton.
    apply list_elem_of_lookup in Hc as [i Hi]. destruct (H i c Hi) as ([p Hp] & _).
    pose proof (ready_qp _ _ _ _ _ _ _ _ _ Hp) as E. rewrite Hx in E. congruence.
  - intros i c [Hi | [Hl Hi]]%lookup_app_Some.
    + destruct (H i c Hi) as ([p Hp] & ? & ?). split_and!; [| done | done]. exists p. by eapply ready_extends.
    + destruct (i - length cs)%nat eqn:E; [| done]. injection Hi as <-.
      replace i with (length cs) by lia. split_and!; [by exists m | done | done].
Qed.

Lemma safe_init_one page_size done data rest d :
  initialised done (data :: rest) d ->
  safe d (init_one page_size (list.last done) data) (fun cd d' => initialised (done ++ [cd]) rest d') any_stop.
Proof.
  intros (Hall & Hw & Hl & [[Hz Ht] Hrest]%Forall_cons_iff). unfold init_one.
  apply safe_sys; [reflexivity |]. intros l Hl'. cbn [after]. vassoc. vexpect.
  destruct l as [[|dev l] |]; [discriminate | | discriminate]. cbn [reply_ok default hd] in *.
  apply safe_bind. apply safe_mono with (Q := fun _ d' => d' = d).
  { destruct (list.last done) as [cd |]; [reflexivity |]. apply safe_skip; [exact Hl' | reflexivity |]. intros c.
    vexpect. vskip. vexpect. reflexivity. }
  intros cp d1 ->. apply safe_tail, safe_init_queues; [apply rc_goes_to_init | done |].
  intros ctx d' Hr Hz' Ht' He Hw' Hq. cbn [safe]. split; [| split; [done | split; [| done]]].
  - rewrite map_app. eapply all_ready_snoc; [exact Hall | done | exact Hr | done | cbn; congruence | cbn; congruence].
  - rewrite length_app. cbn in *. lia.
Qed.

(** The contexts during a pass that changes the data only. *)
Definition connecting (to : ibv_qp_state) (done rest : list (nvds_context * nvds_data)) (d : device) : Prop :=
  all_ready (fun i => if decide (i < length done)%nat then to else IBV_QPS_INIT) (fun _ => [])
    (map fst (done ++ rest)) d /\ Z.of_nat (length (done ++ rest)) = NUM_QP.

Lemma safe_local_pass a d :
  connecting IBV_QPS_INIT [] a d ->
  safe d (nvds_init_local_ib_connection a) (fun a' d' => connecting IBV_QPS_INIT [] a' d') any_stop.
Proof.
  intros H. eapply safe_mono; [apply (safe_for_each _ (connecting IBV_QPS_INIT)); [exact H |] |].
  - intros dn [ctx data] rest d1 [H1 H2]. apply safe_init_local. intros c. cbn [safe]. split.
    + destruct H1 as [Hn H1]. split; [by rewrite !map_app in *; cbn in *; rewrite <- app_assoc in * |].
      intros i c' Hi. rewrite !map_app in *. cbn in *. rewrite <- app_assoc in Hi. destruct (H1 i c' Hi) as ([p Hp] & ? & ?).
      split_and!; [| done | done]. exists p. repeat case_decide; done.
    + rewrite <- app_assoc. rewrite !length_app in *. cbn in *. lia.
  - intros a' d' [H1 H2]. rewrite app_nil_r in *. split; [| done].
    destruct H1 as [Hn H1]. split; [done |]. intros i c' Hi. destruct (H1 i c' Hi) as ([p Hp] & ? & ?).
    split_and!; [| done | done]. exists p. repeat case_decide; done.
Qed.

Lemma with_same ctx : with_wr (sge ctx) (wr ctx) ctx = ctx.
Proof. by destruct ctx. Qed.

(** The context whose turn it is goes from INIT to RTS. *)
Lemma connecting_step dn ctx data data' rest d q m :
  connecting IBV_QPS_RTS dn ((ctx, data) :: rest) d ->
  ready (set_qp d (qp_num (qp ctx)) q) ctx IBV_QPS_RTS [] [] m ->
  connecting IBV_QPS_RTS (dn ++ [(ctx, data')]) rest (set_qp d (qp_num (qp ctx)) q).
Proof.
  intros [Hall Hl] Hr. set (cs := map fst (dn ++ (ctx, data) :: rest)) in *.
  assert (cs !! length dn = Some ctx) as Hi.
  { unfold cs. by rewrite list_lookup_fmap, lookup_app_r, Nat.sub_diag by lia. }
  assert (map fst ((dn ++ [(ctx, data')]) ++ rest) = cs) as E by (unfold cs; by rewrite !map_app, <- app_assoc).
  split; [| rewrite <- Hl; f_equal; rewrite !length_app; cbn; lia].
  rewrite E. apply (ready_with_wr _ _ _ _ _ (sge ctx) (wr ctx)) in Hr.
  destruct (all_ready_step _ _ _ _ _ _ _ _ _ _ _ _ Hall Hi Hr) as [Hn H].
  rewrite with_same, list_insert_id in Hn, H by done. split; [done |]. intros i c Hc.
  destruct (H i c Hc) as ([p Hp] & ? & ?). split_and!; [| done | done]. exists p. revert Hp.
  rewrite length_app. cbn [length]. repeat case_decide; first [done | lia].
Qed.

(** The whole pass, for a [body] that ends like the two roles do. *)
Lemma safe_connect_pass (body : option (nvds_context * nvds_data) -> nvds_context * nvds_data -> prog (nvds_context * nvds_data)) a d :
  (forall prev ctx data d Q,
    (exists m, ready d ctx IBV_QPS_INIT [] [] m) -> size ctx = RDMA_MAX_LEN ->
    (forall data' q m, ready (set_qp d (qp_num (qp ctx)) q) ctx IBV_QPS_RTS [] [] m ->
      Q (ctx, data') (set_qp d (qp_num (qp ctx)) q)) ->
    safe d (body prev (ctx, data)) Q any_stop) ->
  connecting IBV_QPS_INIT [] a d ->
  safe d (for_each body None a) (fun a' d' => in_turn (mkTurns a' 0 0) d') any_stop.
Proof.
  intros Hb [H1 H2]. eapply safe_mono; [apply (safe_for_each _ (connecting IBV_QPS_RTS)) |].
  - split; [| exact H2]. cbn. destruct H1 as [Hn H1]. split; [exact Hn |]. intros i c Hc.
    destruct (H1 i c Hc) as ([p Hp] & ? & ?). split_and!; [| done | done]. exists p. cbn [length] in *.
    rewrite decide_False in Hp by lia. by rewrite decide_False by lia.
  - intros dn [ctx data] rest d1 HI. assert (map fst (dn ++ (ctx, data) :: rest) !! length dn = Some ctx) as Hi.
    { by rewrite list_lookup_fmap, lookup_app_r, Nat.sub_diag by lia. }
    destruct (proj2 (proj1 HI) _ _ Hi) as (Hr & Hz & _). rewrite decide_False in Hr by lia.
    apply Hb; [exact Hr | done |]. intros data' q m Hq. by eapply connecting_step.
  - intros a' d' [Hall Hl]. rewrite app_nil_r in *. split; [done |]. split; [cbn; lia |].
    split; [cbn; by rewrite Z.mod_0_l by lia |]. destruct Hall as [Hn Hall]. split; [done |]. intros i c Hc.
    destruct (Hall i c Hc) as ([p Hp] & ? & ?). split_and!; [| done | done]. exists p.
    apply lookup_lt_Some in Hc as Hlt. rewrite length_map in Hlt. rewrite decide_True in Hp by done. cbn.
    unfold outstanding. rewrite Z.div_0_l, Z.mod_0_l by lia. by rewrite (proj2 (Z.ltb_ge _ _)) by lia.
Qed.

Lemma safe_client_exch_quiet {B} d data (k : nvds_data -> prog B) Q :
  (forall c, safe d (k (with_remote c data)) Q any_stop) -> safe d (pbind (nvds_client_exch_info data) k) Q any_stop.
Proof.
  intros Hk. unfold nvds_client_exch_info, read_conn, write_conn. repeat (vassoc; first [vskip | vexpect]). apply Hk.
Qed.

Lemma multi_server_legal fuel a d :
  connecting IBV_QPS_INIT [] a d -> safe d (nvds_run_server fuel a) (fun _ _ => True) any_stop.
Proof.
  intros H. unfold nvds_run_server. apply safe_bind. eapply safe_mono; [apply safe_connect_pass; [| exact H] |].
  - clear. intros _ ctx data d Q [m H] Hz Hk. apply safe_server_exch_info. intros c.
    eapply safe_rts; [exact H |]. intros q Hq. eapply safe_fill_buf; [exact Hq |]. intros _. by apply (Hk _ q m).
  - clear - NUM_QP_pos. intros a d H. apply safe_bind. eapply safe_mono; [apply (safe_while _ _ _ _ _ _ in_turn); [exact H | done |] | done].
    intros t d1 Ht _. apply safe_turn; [apply quiet_wait | apply quiet_ret | lia | done].
Qed.

Lemma multi_client_legal fuel a d :
  connecting IBV_QPS_INIT [] a d -> safe d (nvds_run_client fuel a) (fun _ _ => True) any_stop.
Proof.
  intros H. unfold nvds_run_client. apply safe_bind. eapply safe_mono; [apply safe_connect_pass; [| exact H] |].
  - clear. intros _ ctx data d Q [m H] Hz Hk. apply safe_client_exch_quiet. intros c.
    eapply safe_rts; [exact H |]. intros q Hq. eapply safe_fill_buf; [exact Hq |]. intros _. vskip. by apply (Hk _ q m).
  - clear - NUM_QP_pos. intros a d H. vskip. apply safe_bind. eapply safe_mono;
      [apply (safe_while _ _ _ _ _ _ (fun tl d => in_turn tl.1 d /\ 128 <= tl.2)); [by split | done |] | by cbn].
    intros [t len] d1 [Ht Hl] Hc%Z.leb_le. cbn [fst snd] in *. apply safe_now. intros begin. apply safe_bind.
    eapply safe_mono; [apply (safe_for_inv _ _ _ _ _ in_turn); [exact Ht |] |].
    + intros t1 d2 H2. apply safe_turn; [apply quiet_ret | apply quiet_wait | lia | done].
    + intros t1 d2 H2. apply safe_now. intros end_. vskip. cbn [safe]. split; [done |].
      assert (len = 128) as -> by lia. by vm_compute.
Qed.

(** C17. With any number of queue pairs in round robin, one counter decides for
    all of them which write is signaled, and no send queue ever holds more
    than its hundred requests: in the last hundredth of a cycle every queue
    pair gets its signaled write and is drained. *)
Theorem write_rc_multi_follows_the_rules fuel argc argv e :
  misused (judge (run e [] (main fuel argc argv)).1) = false.
Proof using NUM_QP_pos.
  apply (safe_not_misused _ _ (fun _ _ => True) any_stop). unfold main. vexpect. do 4 vskip.
  set (data_arr := replicate _ _). apply safe_bind.
  eapply safe_mono; [apply (safe_for_each _ initialised) |].
  - split_and!.
    + split; [apply list.NoDup_nil; exact I |]. done.
    + apply wired_empty.
    + cbn [length]. unfold data_arr. rewrite length_replicate. lia.
    + apply Forall_replicate. by split.
  - intros. by apply safe_init_one.
  - intros a d (Hall & Hw & Hl & _). apply safe_bind. eapply safe_mono; [apply safe_local_pass |].
    + split; [| cbn in *; lia]. destruct Hall as [Hn Hall]. split; [exact Hn |]. intros i c Hc.
      destruct (Hall i c Hc) as ([p Hp] & ? & ?). split_and!; [| done | done]. exists p.
      by rewrite decide_False by (cbn; lia).
    + intros a' d' Hc. apply safe_bind. eapply safe_mono; [| by cbn].
      destruct (argc =? 2); [by apply multi_client_legal | by apply multi_server_legal].
Qed.
End Multi.

(** The program as it is built, with 1024 queue pairs, as the client. *)
Lemma write_rc_multi_follows_the_rules_witness :
  0 < 1024 /\ misused (judge (run loopback [] (main 1024 10 2 ["write_rc_multi"%string; "10.0.0.1"%string])).1) = false.
Proof. split; [lia | apply (write_rc_multi_follows_the_rules 1024); lia]. Defined.
