(* ===== verification/SendRcUnsignaled.v ===== *)
(** * [experiments/send_rc_unsignaled.c]

    Line by line the program of [send_rc.c] with another header: every SEND
    is signaled and waited for, in spite of the file's name. *)

From S2P Require Import Prelude Verbs Protocol RcPerf SendRc.

Definition nvds_print_ib_connection := RcPerf.nvds_print_ib_connection.
Definition nvds_set_qp_state_init := RcPerf.nvds_set_qp_state_init.
Definition nvds_set_qp_state_rtr := RcPerf.nvds_set_qp_state_rtr.
Definition nvds_set_qp_state_rts := RcPerf.nvds_set_qp_state_rts.
Definition nvds_server_exch_info := RcPerf.nvds_server_exch_info.
Definition nvds_client_exch_info := RcPerf.nvds_client_exch_info.
Definition nvds_run_server := SendRc.nvds_run_server.
Definition nvds_run_client := SendRc.nvds_run_client.
Definition nvds_poll_send := RcPerf.nvds_poll_send.
Definition nvds_poll_recv := SendRc.nvds_poll_recv.
Definition nvds_post_send := SendRc.nvds_post_send.
Definition nvds_post_recv := SendRc.nvds_post_recv.
Definition nvds_init_local_ib_connection := RcPerf.nvds_init_local_ib_connection.
Definition nvds_init_ctx := RcPerf.nvds_init_ctx 100 100 IBV_QPT_RC true RcPerf.nvds_set_qp_state_init.
Definition main := SendRc.main.
