(* ===== verification/Rdma.v ===== *)
(** * [cs/rdma.c]: latency of RDMA WRITE and RDMA READ

    The client writes 64 bytes a million times, then reads 64 bytes into the
    part of the buffer behind them a million times. *)

From S2P Require Import Prelude Verbs Protocol RcPerf WriteRc.

#[local] Open Scope prog_scope.

(** ** What it shares with the other programs *)

Definition nvds_print_ib_connection := RcPerf.nvds_print_ib_connection.
Definition nvds_set_qp_state_init := RcPerf.nvds_set_qp_state_init.
Definition nvds_set_qp_state_rtr := RcPerf.nvds_set_qp_state_rtr.
Definition nvds_set_qp_state_rts := RcPerf.nvds_set_qp_state_rts.
Definition nvds_server_exch_info := RcPerf.nvds_server_exch_info.
Definition nvds_client_exch_info := RcPerf.nvds_client_exch_info.
Definition nvds_poll_send := RcPerf.nvds_poll_send.
Definition nvds_init_local_ib_connection := RcPerf.nvds_init_local_ib_connection.
Definition nvds_init_ctx := RcPerf.nvds_init_ctx 1 1 IBV_QPT_RC true nvds_set_qp_state_init.

(** ** The measurement *)

Definition RDMA_WRITE_LEN : Z := 64.
Definition RDMA_READ_LEN : Z := RDMA_WRITE_LEN.
Definition rdma_n : Z := 1000 * 1000.
Definition buf_size : Z := 3 * 64 * 1024 * 1024.

Definition nvds_rdma_write (ctx : nvds_context) (data : nvds_data) : prog nvds_context :=
  let g := mkSge (buf ctx) RDMA_WRITE_LEN (lkey (mr ctx)) in
  let u := set_rdma (vaddr (remote_conn data)) (c_rkey (remote_conn data)) (s_wr (wr ctx)) in
  post_wr (with_wr g (mkSend RDMA_WRITE_ID [g] IBV_WR_RDMA_WRITE [IBV_SEND_SIGNALED] u (s_imm (wr ctx))) ctx).

Definition nvds_rdma_read (ctx : nvds_context) (data : nvds_data) : prog nvds_context :=
  let g := mkSge (buf ctx + RDMA_WRITE_LEN) RDMA_READ_LEN (lkey (mr ctx)) in
  let u := set_rdma (vaddr (remote_conn data)) (c_rkey (remote_conn data)) (s_wr (wr ctx)) in
  post_wr (with_wr g (mkSend RDMA_READ_ID [g] IBV_WR_RDMA_READ [IBV_SEND_SIGNALED] u (s_imm (wr ctx))) ctx).

(** The server is that of [write_rc.c]. *)
Definition nvds_run_server := WriteRc.nvds_run_server.

(** [printf] of times: the clock ticks between. *)
Definition report (what : string) (begin : Z) : prog unit :=
  t <- sys clock ;;
  sys (printf "time: %fs\n" [t - begin]) ;;;
  sys (printf what [t - begin; rdma_n]).

Definition nvds_run_client (fuel : nat) (ctx : nvds_context) (data : nvds_data) : prog unit :=
  data <- nvds_client_exch_info data ;;
  nvds_set_qp_state_rts (qp ctx) data ;;;
  sys (printf "client side: \n" []) ;;;
  sys (printf "local connection: \n" []) ;;;
  nvds_print_ib_connection (local_conn data) ;;;
  sys (printf "remote connection: \n" []) ;;;
  nvds_print_ib_connection (remote_conn data) ;;;
  sys (snprintf (buf ctx) RDMA_WRITE_LEN "hello rdma\n") ;;;
  (* Test write latency *)
  begin <- sys clock ;;
  ctx <- for_ (Z.to_nat rdma_n) (fun ctx =>
    ctx <- nvds_rdma_write ctx data ;; nvds_poll_send fuel ctx ;;; Ret ctx) ctx ;;
  report "write latency: %fus\n" begin ;;;
  (* Test read latency *)
  begin <- sys clock ;;
  ctx <- for_ (Z.to_nat rdma_n) (fun ctx =>
    ctx <- nvds_rdma_read ctx data ;; nvds_poll_send fuel ctx ;;; Ret ctx) ctx ;;
  report "read latency: %fus\n" begin ;;;
  exit 0.

Definition main (fuel : nat) : Z -> list string -> prog Z :=
  main_ 1 1 IBV_QPT_RC true nvds_set_qp_state_init buf_size (nvds_run_server fuel) (nvds_run_client fuel).

(** ** Both roles follow the rules *)

#[local] Abbreviation ready := (ready 1 1 IBV_QPT_RC).

Definition idle (ctx : nvds_context) (d : device) : Prop :=
  exists posted, ready d ctx IBV_QPS_RTS [] [] posted /\ size ctx = buf_size /\ tx_depth ctx = 100.

(** One request out of [buf], waited for. *)
Lemma safe_one_request fuel d ctx g w :
  idle ctx d -> s_sg_list w = [g] -> s_flags w = [IBV_SEND_SIGNALED] ->
  sge_lkey g = lkey (mr ctx) -> buf ctx <= sge_addr g -> sge_addr g + sge_length g <= buf ctx + buf_size ->
  safe d (ctx <- post_wr (with_wr g w ctx) ;; nvds_poll_send fuel ctx ;;; Ret ctx) idle any_stop.
Proof.
  intros (posted & H & Hz & Ht) Hsg Hf Hl Ha Hb.
  eapply safe_post_wr; [by apply ready_with_wr | cbn; by destruct (s_opcode w) | done | exact Hsg | cbn; rewrite Hf; set_solver | | cbn; lia |].
  { eapply ready_sge; [exact H | done | done | by rewrite Hz]. }
  vstate d H. intros H. eapply safe_poll_send; [exact H |]. cbn [wr with_wr].
  unfold signaled. rewrite Hf, bool_decide_eq_true_2 by set_solver. intros q rest Hr H2.
  cbn in Hr. rewrite Z.eqb_refl in Hr. injection Hr as <-. by exists (posted + 1).
Qed.

Lemma rdma_server_legal fuel : legal_role 1 1 IBV_QPT_RC buf_size (nvds_run_server fuel).
Proof.
  intros ctx d data H Hz Ht. unfold nvds_run_server, WriteRc.nvds_run_server. vassoc. apply safe_server_exch_info. intros c.
  vassoc. eapply safe_rtr; [exact H |]. vstate d H. intros H. do 2 vskip. apply safe_print_conn.
  vskip. apply safe_print_conn. eapply safe_mono; [by apply (safe_while _ _ _ _ _ _ (fun _ _ => True)) | done].
Qed.

Lemma safe_report {B} d what begin (k : unit -> prog B) Q :
  safe d (k tt) Q any_stop -> safe d (pbind (report what begin) k) Q any_stop.
Proof. intros Hk. unfold report. vassoc. vskip. vassoc. vskip. vskip. cbn in *. by destruct r1. Qed.

Lemma rdma_client_legal fuel : legal_role 1 1 IBV_QPT_RC buf_size (nvds_run_client fuel).
Proof.
  intros ctx d data H Hz Ht. unfold nvds_run_client. vassoc. apply safe_client_exch_info. intros c.
  vassoc. eapply safe_rts; [exact H |]. vstate d H. intros H. do 2 vskip. apply safe_print_conn.
  vskip. apply safe_print_conn. apply safe_sys.
  { apply bool_decide_eq_true. eapply ready_heap; [exact H | lia | rewrite Hz; cbn; unfold buf_size, RDMA_WRITE_LEN; lia]. }
  intros rs _. cbn [after]. vskip. assert (idle ctx d) as HI by (by exists 0).
  apply safe_bind. eapply safe_mono; [apply (safe_for_inv _ _ _ _ _ idle); [exact HI |] |].
  { clear. intros ctx d HI. by apply safe_one_request; [| | | | cbn; lia | cbn; unfold buf_size, RDMA_WRITE_LEN; lia]. }
  clear. intros ctx d HI. apply safe_report. vskip.
  apply safe_bind. eapply safe_mono; [apply (safe_for_inv _ _ _ _ _ idle); [exact HI |] |].
  { clear. intros ctx d HI. by apply safe_one_request; [| | | | cbn; unfold RDMA_WRITE_LEN; lia
      | cbn; unfold buf_size, RDMA_READ_LEN, RDMA_WRITE_LEN; lia]. }
  clear. intros ctx d HI. by apply safe_report.
Qed.

(** The program follows the rules of the verbs under any answers: what it
    writes and what it reads into lie in the registered buffer, apart from
    each other, and one request is outstanding at a time. *)
Theorem rdma_follows_the_rules fuel argc argv e :
  misused (judge (run e [] (main fuel argc argv)).1) = false.
Proof.
  unfold main.
  exact (safe_main_rules _ _ _ _ _ _ _ _ _ _ _ (rc_goes_to_init _ _) (rdma_server_legal fuel) (rdma_client_legal fuel)).
Qed.
