(* ===== verification/SendUd.v ===== *)
(** * [experiments/send_ud.c]: ping-pong over unreliable datagrams

    Both sides keep ten receives posted and answer each message with one; the
    address handle of the peer is created at the first send and kept in a
    static, which is part of the state here. *)

From S2P Require Import Prelude Verbs Protocol RcPerf SendRc.

#[local] Open Scope prog_scope.

(** ** What it shares with the other programs *)

Definition nvds_print_ib_connection := RcPerf.nvds_print_ib_connection.
Definition nvds_server_exch_info := RcPerf.nvds_server_exch_info.
Definition nvds_client_exch_info := RcPerf.nvds_client_exch_info.
Definition nvds_poll_send := RcPerf.nvds_poll_send.
Definition nvds_poll_recv := SendRc.nvds_poll_recv.
Definition nvds_post_recv := SendRc.nvds_post_recv.
Definition nvds_init_local_ib_connection := RcPerf.nvds_init_local_ib_connection.

(** ** The queue pair *)

Definition DEFAULT_PSN : Z := 33.

Definition nvds_set_qp_state_init (q : ibv_qp) (data : nvds_data) : prog unit :=
  r <- sys (ibv_modify_qp q [qp_state IBV_QPS_INIT; pkey_index 0; port_num (ib_port data); qkey 0]
         [IBV_QP_STATE; IBV_QP_PKEY_INDEX; IBV_QP_PORT; IBV_QP_QKEY]) ;;
  nvds_expect (r =? 0) "ibv_modify_qp() failed".

Definition nvds_set_qp_state_rtr (q : ibv_qp) (data : nvds_data) : prog unit :=
  r <- sys (ibv_modify_qp q [qp_state IBV_QPS_RTR] [IBV_QP_STATE]) ;;
  check (r =? 0).

Definition nvds_set_qp_state_rts (q : ibv_qp) (data : nvds_data) : prog unit :=
  nvds_set_qp_state_rtr q data ;;;
  r <- sys (ibv_modify_qp q [qp_state IBV_QPS_RTS; sq_psn DEFAULT_PSN] [IBV_QP_STATE; IBV_QP_SQ_PSN]) ;;
  check (r =? 0).

Definition nvds_init_ctx := RcPerf.nvds_init_ctx 100 100 IBV_QPT_UD true nvds_set_qp_state_init.

(** ** The measurement *)

Definition ud_n : Z := 1000 * 1000.

(** The static [ah]; 0 before the first call. *)
Definition get_ah (pd lid ah : Z) : prog Z :=
  if negb (ah =? 0) then Ret ah
  else
    ah <- sys (ibv_create_ah pd (mkAh 0 (u16 lid) 1 0 1)) ;;
    check (negb (ah =? 0)) ;;;
    Ret ah.

Definition nvds_post_send (data : nvds_data) (len : Z) (ca : nvds_context * Z) : prog (nvds_context * Z) :=
  let ctx := ca.1 in
  let g := mkSge (buf ctx) len (lkey (mr ctx)) in
  ah <- get_ah (pd ctx) (lid (remote_conn data)) ca.2 ;;
  let u := set_ud ah (u32 (qpn (remote_conn data))) 0 (mkUnion 0 0 0) in
  ctx <- post_wr (with_wr g (mkSend RDMA_WRITE_ID [g] IBV_WR_SEND [IBV_SEND_SIGNALED] u 0) ctx) ;;
  Ret (ctx, ah).

Definition nvds_run_server (fuel : nat) (ctx : nvds_context) (data : nvds_data) : prog unit :=
  data <- nvds_server_exch_info data ;;
  nvds_set_qp_state_rts (qp ctx) data ;;;
  sys (printf "server side: \n" []) ;;;
  sys (printf "local connection: \n" []) ;;;
  nvds_print_ib_connection (local_conn data) ;;;
  sys (printf "remote connection: \n" []) ;;;
  nvds_print_ib_connection (remote_conn data) ;;;
  for_ 10 (fun _ => nvds_post_recv ctx) tt ;;;
  for_len fuel (fun ca _ =>
    for_ (Z.to_nat ud_n) (fun ca =>
      nvds_poll_recv fuel ca.1 ;;;
      nvds_post_recv ca.1 ;;;
      ca <- nvds_post_send data 1 ca ;;
      nvds_poll_send fuel ca.1 ;;;
      Ret ca) ca) (ctx, 0) ;;;
  exit 0.

Definition nvds_run_client (fuel : nat) (ctx : nvds_context) (data : nvds_data) : prog unit :=
  data <- nvds_client_exch_info data ;;
  nvds_set_qp_state_rts (qp ctx) data ;;;
  sys (printf "client side: \n" []) ;;;
  sys (printf "local connection: \n" []) ;;;
  nvds_print_ib_connection (local_conn data) ;;;
  sys (printf "remote connection: \n" []) ;;;
  nvds_print_ib_connection (remote_conn data) ;;;
  sys (sleep 1000000) ;;; (* waiting for server to get ready *)
  for_ 10 (fun _ => nvds_post_recv ctx) tt ;;;
  for_len fuel (fun ca len =>
    begin <- now ;;
    ca <- for_ (Z.to_nat ud_n) (fun ca =>
      ca <- nvds_post_send data len ca ;;
      nvds_poll_send fuel ca.1 ;;;
      nvds_poll_recv fuel ca.1 ;;;
      nvds_post_recv ca.1 ;;;
      Ret ca) ca ;;
    end_ <- now ;;
    sys (printf "%d, %f\n" [len; time_diff end_ begin]) ;;;
    Ret ca) (ctx, 0) ;;;
  exit 0.

Definition main (fuel : nat) : Z -> list string -> prog Z :=
  main_ 100 100 IBV_QPT_UD true nvds_set_qp_state_init RDMA_MAX_LEN (nvds_run_server fuel) (nvds_run_client fuel).

(** ** Both roles follow the rules *)

#[local] Abbreviation ready := (ready 100 100 IBV_QPT_UD).

Lemma ud_goes_to_init : goes_to_init 100 100 IBV_QPT_UD nvds_set_qp_state_init.
Proof. intros C d ctx data k Q' H Hk. by eapply safe_transition; [exact H | ..]. Qed.

(** A transition whose result is asserted. *)
Lemma safe_ud_transition {B} d ctx st to attr mask (k : unit -> prog B) Q :
  ready d ctx st [] [] 0 -> target_state attr = Some to ->
  transition_ok (mkQpInfo IBV_QPT_UD st (mkInit (scq ctx) (rcq ctx) IBV_QPT_UD 0 (tx_depth ctx) 100 1 1 0) [] [] 0)
    attr mask = true ->
  (forall q, ready (set_qp d (qp_num (qp ctx)) q) ctx to [] [] 0 ->
    safe (set_qp d (qp_num (qp ctx)) q) (k tt) Q any_stop) ->
  safe d (pbind (r <- sys (ibv_modify_qp (qp ctx) attr mask) ;; check (r =? 0)) k) Q any_stop.
Proof.
  intros H Ht Hok Hk. apply safe_assoc, safe_sys.
  - cbn [allowed]. by rewrite (ready_qp _ _ _ _ _ _ _ _ _ H).
  - intros r _. apply safe_check; [done |]. intros Hr. cbn [after].
    rewrite (ready_qp _ _ _ _ _ _ _ _ _ H), Ht, Hr. apply Hk. by eapply ready_set.
Qed.

Lemma safe_ud_rts {B} d ctx data (k : unit -> prog B) Q :
  ready d ctx IBV_QPS_INIT [] [] 0 ->
  (forall d', ready d' ctx IBV_QPS_RTS [] [] 0 -> safe d' (k tt) Q any_stop) ->
  safe d (pbind (nvds_set_qp_state_rts (qp ctx) data) k) Q any_stop.
Proof.
  intros H Hk. unfold nvds_set_qp_state_rts. vassoc. eapply safe_ud_transition; [exact H | done | done |].
  vstate d H. intros H. eapply safe_ud_transition; [exact H | done | done |]. intros q Hq. by apply Hk.
Qed.

(** Between two rounds: ten receives or so, and no send outstanding. *)
Definition spare (j : nat) (ca : nvds_context * Z) (d : device) : Prop :=
  exists recvs posted, ready d ca.1 IBV_QPS_RTS [] recvs posted /\ length recvs = j /\
    size ca.1 = RDMA_MAX_LEN /\ tx_depth ca.1 = 100.

Lemma safe_get_ah {B} d p l ah (k : Z -> prog B) Q :
  (forall ah, ah <> 0 -> safe d (k ah) Q any_stop) -> safe d (pbind (get_ah p l ah) k) Q any_stop.
Proof.
  intros Hk. unfold get_ah. destruct (Z.eqb_spec ah 0) as [-> |]; cbn [negb]; [| by apply Hk].
  vassoc. vskip. vassoc. apply safe_check; [done |]. intros Hr. apply Hk. cbn in *. lia.
Qed.

Lemma safe_ud_post_recv {B} d j ca (k : unit -> prog B) Q :
  spare j ca d -> (j < 100)%nat -> (forall d', spare (S j) ca d' -> safe d' (k tt) Q any_stop) ->
  safe d (pbind (nvds_post_recv ca.1) k) Q any_stop.
Proof.
  intros (recvs & posted & H & Hl & Hz & Ht) Hj Hk. unfold nvds_post_recv, SendRc.nvds_post_recv. vassoc.
  eapply RcPerf.safe_post_recv; [exact H | done | done | | lia | lia | |].
  - eapply ready_sge; [exact H | done | cbn; lia | cbn; lia].
  - vstate d H. intros H. apply Hk. eexists _, posted. split_and!; [exact H | | done | done].
    rewrite length_app. cbn. lia.
  - intros r Hr. apply safe_check; [done |]. intros E. lia.
Qed.

Lemma safe_ud_poll_recv {B} fuel d j ca (k : unit -> prog B) Q :
  spare j ca d -> (forall d' j', j = S j' -> spare j' ca d' -> safe d' (k tt) Q any_stop) ->
  safe d (pbind (nvds_poll_recv fuel ca.1) k) Q any_stop.
Proof.
  intros (recvs & posted & H & Hl & Hz & Ht) Hk. eapply safe_poll_recv; [exact H |].
  intros q id rest -> Hq. apply (Hk _ (length rest)); [done |]. by exists rest, posted.
Qed.

(** One datagram, sent and waited for. *)
Lemma safe_ud_send {B} fuel d j data len ca (k : nvds_context * Z -> prog B) Q :
  spare j ca d -> 1 <= len <= 1024 -> (forall ca' d', spare j ca' d' -> safe d' (k ca') Q any_stop) ->
  safe d (ca <- nvds_post_send data len ca ;; nvds_poll_send fuel ca.1 ;;; k ca) Q any_stop.
Proof.
  destruct ca as [ctx ah0]. intros (recvs & posted & H & Hl & Hz & Ht) Hlen Hk. cbn [fst snd] in *.
  unfold nvds_post_send. cbn [fst snd]. vassoc. apply safe_get_ah. intros ah Hah. vassoc.
  eapply safe_post_wr; [by apply ready_with_wr | done | done | done | set_solver | | cbn; lia |].
  - eapply ready_sge; [exact H | done | cbn; lia | cbn; unfold RDMA_MAX_LEN in *; lia].
  - vstate d H. intros H. vassoc. eapply safe_poll_send; [exact H |]. intros q rest Hr. injection Hr as <-.
    intros H2. apply Hk. by exists recvs, (posted + 1).
Qed.

(** The ten receives posted at the start. *)
Lemma safe_ten {B} d ctx (k : unit -> prog B) Q :
  spare 0 (ctx, 0) d -> (forall d', spare 10 (ctx, 0) d' -> safe d' (k tt) Q any_stop) ->
  safe d (pbind (for_ 10 (fun _ => nvds_post_recv ctx) tt) k) Q any_stop.
Proof.
  intros H Hk. apply safe_bind. eapply safe_mono;
    [apply (safe_for _ _ _ _ _ (fun m _ d => (m <= 10)%nat /\ spare (10 - m) (ctx, 0) d)); [done |] |].
  - intros m u d1 [Hm H1]. apply safe_tail. apply (safe_ud_post_recv d1 _ (ctx, 0) _ _ H1); [lia |].
    intros d' H'. split; [lia |]. by replace (10 - m)%nat with (S (10 - S m)) by lia.
  - intros [] d' [_ H']. by apply Hk.
Qed.

Lemma ud_server_legal fuel : legal_role 100 100 IBV_QPT_UD RDMA_MAX_LEN (nvds_run_server fuel).
Proof.
  intros ctx d data H Hz Ht. unfold nvds_run_server. vassoc. apply safe_server_exch_info. intros c.
  apply safe_ud_rts; [exact H |]. clear d H. intros d H. do 2 vskip. apply safe_print_conn.
  vskip. apply safe_print_conn. apply safe_ten; [by exists [], 0 |]. clear d H. intros d H. apply safe_bind.
  eapply safe_mono; [apply (safe_for_len _ _ _ _ (spare 10)); [exact H |] | by cbn].
  clear. intros ca d len H _. apply safe_for_inv; [exact H |]. clear. intros ca d H.
  eapply safe_ud_poll_recv; [exact H |]. clear d H. intros d j [= <-] H.
  eapply safe_ud_post_recv; [exact H | lia |]. clear d H. intros d H.
  eapply safe_ud_send; [exact H | lia |]. by intros.
Qed.

Lemma ud_client_legal fuel : legal_role 100 100 IBV_QPT_UD RDMA_MAX_LEN (nvds_run_client fuel).
Proof.
  intros ctx d data H Hz Ht. unfold nvds_run_client. vassoc. apply safe_client_exch_info. intros c.
  apply safe_ud_rts; [exact H |]. clear d H. intros d H. do 2 vskip. apply safe_print_conn.
  vskip. apply safe_print_conn. vskip. apply safe_ten; [by exists [], 0 |]. clear d H. intros d H. apply safe_bind.
  eapply safe_mono; [apply (safe_for_len _ _ _ _ (spare 10)); [exact H |] | by cbn].
  clear. intros ca d len H Hlen. apply safe_now. intros begin. apply safe_bind.
  eapply safe_mono; [apply (safe_for_inv _ _ _ _ _ (spare 10)); [exact H |] |].
  - clear - Hlen. intros ca d H. eapply safe_ud_send; [exact H | done |]. clear d H. intros ca' d H.
    eapply safe_ud_poll_recv; [exact H |]. clear d H. intros d j [= <-] H.
    eapply safe_ud_post_recv; [exact H | lia |]. by intros.
  - clear. intros ca d H. apply safe_now. intros end_. by vskip.
Qed.

(** C18. Over datagrams too every call is legal under any answers: the three
    transitions carry the attributes a datagram queue pair takes, every send
    has an address handle, and the receive queue goes between nine and
    eleven requests. *)
Theorem send_ud_follows_the_rules fuel argc argv e :
  misused (judge (run e [] (main fuel argc argv)).1) = false.
Proof.
  unfold main.
  exact (safe_main_rules _ _ _ _ _ _ _ _ _ _ _ ud_goes_to_init (ud_server_legal fuel) (ud_client_legal fuel)).
Qed.
