(* ===== verification/Ledger.v ===== *)
(** * Accounting for resources

    What a program acquires it has to release, once.  A ledger follows the
    calls of a program: which resources it holds, and which requests the
    connection manager still owes an event for.  [tidy] is a weakest
    precondition over all environments that answer fairly. *)

From stdpp Require Import gmultiset.
From S2P Require Import Prelude Verbs.

Inductive kind := PD | CQ | QP | AH | MR | MEM | ID | CHANNEL.

#[export] Instance kind_eq_dec : EqDecision kind.
Proof. solve_decision. Defined.
#[export] Instance kind_countable : Countable kind.
Proof.
  apply (inj_countable' (fun k => match k with PD => 0 | CQ => 1 | QP => 2 | AH => 3 | MR => 4 | MEM => 5 | ID => 6 | CHANNEL => 7 end)%nat
    (fun n => match n with 0 => PD | 1 => CQ | 2 => QP | 3 => AH | 4 => MR | 5 => MEM | 6 => ID | _ => CHANNEL end)%nat). by intros [].
Defined.

Abbreviation resource := (kind * Z)%type.

(** [resolving] and [joining]: the ids with a request that has no event yet. *)
Record ledger := mkLedger { stock : gmultiset resource; resolving : gset Z; joining : gset Z }.
Definition no_debts : ledger := mkLedger ∅ ∅ ∅.

Definition gain (k : kind) (p : Z) (s : ledger) : ledger :=
  if p =? 0 then s else mkLedger (stock s ⊎ {[+ (k, p) +]}) (resolving s) (joining s).
Definition lose (k : kind) (p : Z) (s : ledger) : option ledger :=
  if decide ((k, p) ∈ stock s) then Some (mkLedger (stock s ∖ {[+ (k, p) +]}) (resolving s) (joining s)) else None.

(** The entry of a call; [None] when something is released that is not held. *)
Definition enter (s : ledger) (c : call) : reply c -> option ledger :=
  match c return reply c -> option ledger with
  | ibv_alloc_pd _ => fun p => Some (gain PD p s)
  | ibv_create_cq _ _ => fun p => Some (gain CQ p s)
  | ibv_create_ah _ _ => fun p => Some (gain AH p s)
  | ibv_reg_mr _ _ _ _ => fun m => match m with Some m => Some (gain MR (mr_ptr m) s) | None => Some s end
  | malloc _ => fun p => Some (gain MEM p s)
  | rdma_create_event_channel => fun p => Some (gain CHANNEL p s)
  | rdma_create_id _ _ _ => fun r => if r.1 =? 0 then Some (gain ID r.2 s) else Some s
  | rdma_create_qp id _ _ => fun r => if r.1 =? 0 then Some (gain QP id s) else Some s
  | ibv_dealloc_pd p => fun _ => lose PD p s
  | ibv_destroy_cq p => fun _ => lose CQ p s
  | ibv_destroy_ah p => fun _ => lose AH p s
  | ibv_dereg_mr p => fun _ => lose MR p s
  | free p => fun _ => if p =? 0 then Some s else lose MEM p s
  | rdma_destroy_event_channel p => fun _ => lose CHANNEL p s
  | rdma_destroy_id p => fun _ => lose ID p s
  | rdma_destroy_qp p => fun _ => lose QP p s
  | rdma_resolve_addr id _ _ _ => fun r => Some (mkLedger (stock s) (if r =? 0 then {[id]} ∪ resolving s else resolving s) (joining s))
  | rdma_join_multicast id _ => fun r => Some (mkLedger (stock s) (resolving s) (if r =? 0 then {[id]} ∪ joining s else joining s))
  | rdma_get_cm_event _ => fun r =>
      if r.1 =? 0 then
        match ev_type r.2 with
        | RDMA_CM_EVENT_ADDR_RESOLVED => Some (mkLedger (stock s) (resolving s ∖ {[ev_id r.2]}) (joining s))
        | RDMA_CM_EVENT_MULTICAST_JOIN => Some (mkLedger (stock s) (resolving s) (joining s ∖ {[ev_id r.2]}))
        | _ => Some s
        end
      else Some s
  | _ => fun _ => Some s
  end.

Fixpoint account (h : trace) : option ledger :=
  match h with
  | [] => Some no_debts
  | ev :: h' => s ← account h'; enter s (ev_call ev) (ev_reply ev)
  end.

(** What an environment is expected to answer: memory that can be registered,
    regions and ids that are not null, an id of its own for every request, and
    for every address to resolve and every group to join one event. *)
Definition fair (s : ledger) (c : call) : reply c -> Prop :=
  match c return reply c -> Prop with
  | ibv_reg_mr _ _ _ _ => fun m => exists m', m = Some m' /\ mr_ptr m' <> 0
  | rdma_create_id _ _ _ => fun r => r.1 = 0 -> r.2 <> 0 /\ (ID, r.2) ∉ stock s
  | rdma_get_cm_event _ => fun r => r.1 = 0 ->
      match ev_type r.2 with
      | RDMA_CM_EVENT_ADDR_RESOLVED => ev_id r.2 ∈ resolving s
      | RDMA_CM_EVENT_MULTICAST_JOIN => ev_id r.2 ∈ joining s
      | _ => True
      end
  | _ => fun _ => True
  end.

(** How a program may stop: not at a null pointer, and with [exit] when it
    holds at most an event channel. *)
Definition stop_ok (st : stop) (s : ledger) : Prop :=
  match st with
  | Fault Segv => False
  | Exit _ => stock s = ∅ \/ exists ch, stock s = {[+ (CHANNEL, ch) +]}
  | _ => True
  end.

(** Whatever the fair answers, every entry is in order and the program does
    not read through a null pointer; [Q] holds when it returns. *)
Fixpoint tidy {A} (p : prog A) (Q : A -> ledger -> Prop) (s : ledger) : Prop :=
  match p with
  | Ret a => Q a s
  | Stop st => stop_ok st s
  | Vis c k => forall r, fair s c r -> exists s', enter s c r = Some s' /\ tidy (k r) Q s'
  end.

Lemma tidy_bind {A B} (p : prog A) (k : A -> prog B) Q s : tidy p (fun a => tidy (k a) Q) s -> tidy (pbind p k) Q s.
Proof.
  revert s. induction p as [a | st | c k' IH]; intros s; cbn; [done | done |].
  intros H r Hr. destruct (H r Hr) as (s' & E & Ht). eauto.
Qed.

Lemma tidy_mono {A} (p : prog A) (Q Q' : A -> ledger -> Prop) s : tidy p Q s -> (forall a s', Q a s' -> Q' a s') -> tidy p Q' s.
Proof.
  intros H HQ. revert s H. induction p as [a | st | c k' IH]; intros s; cbn; [apply HQ | done |].
  intros H r Hr. destruct (H r Hr) as (s' & E & Ht). eauto.
Qed.

Lemma tidy_sys c (Q : reply c -> ledger -> Prop) s :
  (forall r, fair s c r -> exists s', enter s c r = Some s' /\ Q r s') -> tidy (sys c) Q s.
Proof. done. Qed.

(** A call that makes no entry. *)
Lemma tidy_quiet c (Q : reply c -> ledger -> Prop) s : (forall r, enter s c r = Some s) -> (forall r, Q r s) -> tidy (sys c) Q s.
Proof. intros He HQ r _. exists s. split; [apply He | apply HQ]. Qed.

Lemma tidy_run {A} e h s (p : prog A) Q : (forall h s c, account h = Some s -> fair s c (e h c)) ->
  account h = Some s -> tidy p Q s ->
  match run e h p with
  | (h', Returned a) => exists s', account h' = Some s' /\ Q a s'
  | (h', Stopped st) => exists s', account h' = Some s' /\ stop_ok st s'
  end.
Proof.
  intros He. revert h s. induction p as [a | st | c k IH]; intros h s Hs Hp; cbn in *; [by eauto | by eauto |].
  destruct (Hp _ (He _ _ _ Hs)) as (s' & E & Ht). apply (IH _ _ s'); [cbn; by rewrite Hs | done].
Qed.
