(* ===== verification/Mckey.v ===== *)
(** * [experiments/ud.c] (and [cs/ud.c]): the multicast benchmark mckey

    Every connection resolves an address, builds its queue pair, joins the
    multicast group and then sends or receives; at the end everything is taken
    down again.  The connection manager delivers the events; [verbs] and
    [port] are the device and port it bound an id to.  [getopt], [atoi] and
    [strtol] deliver the options as a list. *)

From S2P Require Import Prelude Verbs.

#[local] Open Scope prog_scope.

Module Mckey.

Definition ENOMEM : Z := 12.
Definition EINVAL : Z := 22.
Definition sizeof_ibv_grh : Z := 40.
Definition RDMA_PS_UDP : Z := 273.   (* 0x0111 *)

(** [struct cmatest_node]; [cma_qp] is [cma_id->qp]. *)
Record cmatest_node := mkNode {
  n_id : Z; cma_id : Z; cma_qp : option ibv_qp; connected : bool; pd : Z; cq : Z; mr : option ibv_mr; ah : Z;
  remote_qpn : Z; remote_qkey : Z; mem : Z }.
Definition sizeof_cmatest_node : Z := 72.

Definition with_pd (x : Z) (n : cmatest_node) : cmatest_node :=
  mkNode (n_id n) (cma_id n) (cma_qp n) (connected n) x (cq n) (mr n) (ah n) (remote_qpn n) (remote_qkey n) (mem n).
Definition with_cq (x : Z) (n : cmatest_node) : cmatest_node :=
  mkNode (n_id n) (cma_id n) (cma_qp n) (connected n) (pd n) x (mr n) (ah n) (remote_qpn n) (remote_qkey n) (mem n).
Definition with_qp (x : option ibv_qp) (n : cmatest_node) : cmatest_node :=
  mkNode (n_id n) (cma_id n) x (connected n) (pd n) (cq n) (mr n) (ah n) (remote_qpn n) (remote_qkey n) (mem n).
Definition with_mem (x : Z) (n : cmatest_node) : cmatest_node :=
  mkNode (n_id n) (cma_id n) (cma_qp n) (connected n) (pd n) (cq n) (mr n) (ah n) (remote_qpn n) (remote_qkey n) x.
Definition with_mr (x : option ibv_mr) (n : cmatest_node) : cmatest_node :=
  mkNode (n_id n) (cma_id n) (cma_qp n) (connected n) (pd n) (cq n) x (ah n) (remote_qpn n) (remote_qkey n) (mem n).
Definition with_ah (qpn qkey x : Z) (n : cmatest_node) : cmatest_node :=
  mkNode (n_id n) (cma_id n) (cma_qp n) (connected n) (pd n) (cq n) (mr n) x qpn qkey (mem n).
Definition with_connected (n : cmatest_node) : cmatest_node :=
  mkNode (n_id n) (cma_id n) (cma_qp n) true (pd n) (cq n) (mr n) (ah n) (remote_qpn n) (remote_qkey n) (mem n).

(** [struct cmatest] and the global [message_count], which changes. *)
Record cmatest := mkTest {
  channel : Z; nodes_ptr : Z; nodes : list cmatest_node; connects_left : Z; message_count : Z; dst_in : Z; src_in : Z }.

Definition with_nodes (p : Z) (l : list cmatest_node) (t : cmatest) : cmatest :=
  mkTest (channel t) p l (connects_left t) (message_count t) (dst_in t) (src_in t).
Definition with_left (n : Z) (t : cmatest) : cmatest :=
  mkTest (channel t) (nodes_ptr t) (nodes t) n (message_count t) (dst_in t) (src_in t).
Definition with_count (n : Z) (t : cmatest) : cmatest :=
  mkTest (channel t) (nodes_ptr t) (nodes t) (connects_left t) n (dst_in t) (src_in t).
Definition with_dst (a : Z) (t : cmatest) : cmatest :=
  mkTest (channel t) (nodes_ptr t) (nodes t) (connects_left t) (message_count t) a (src_in t).
Definition with_src (a : Z) (t : cmatest) : cmatest :=
  mkTest (channel t) (nodes_ptr t) (nodes t) (connects_left t) (message_count t) (dst_in t) a.

(** [test.nodes[i]] *)
Definition node_at (i : nat) (t : cmatest) : prog cmatest_node :=
  match nodes t !! i with Some n => Ret n | None => Stop (Fault Segv) end.
Definition set_node (i : nat) (f : cmatest_node -> cmatest_node) (t : cmatest) : cmatest :=
  with_nodes (nodes_ptr t) (alter f i (nodes t)) t.

(** The other globals. *)
Record options := mkOptions {
  connections : Z; message_size : Z; init_count : Z; is_sender : bool; unmapped_addr : bool;
  dst_addr : option string; src_addr : option string; port_space : Z }.
Definition defaults : options := mkOptions 1 100 10 false false None None RDMA_PS_UDP.

Definition say (s : string) : prog unit := sys (printf s []).

Definition htonl (z : Z) : Z :=
  Z.lor (Z.lor (Z.shiftl (Z.land z 255) 24) (Z.shiftl (Z.land (Z.shiftr z 8) 255) 16))
        (Z.lor (Z.shiftl (Z.land (Z.shiftr z 16) 255) 8) (Z.land (Z.shiftr z 24) 255)).

Section Options.
Variables (o : options) (verbs port : Z -> Z).

Definition create_message (i : nat) (t : cmatest) : prog (cmatest * Z) :=
  let t := if message_size o =? 0 then with_count 0 t else t in
  if message_count t =? 0 then Ret (t, 0) else
  m <- sys (malloc (u64 (message_size o + sizeof_ibv_grh))) ;;
  let t := set_node i (with_mem m) t in
  if m =? 0 then say "failed message allocation\n" ;;; Ret (t, -1) else
  n <- node_at i t ;;
  r <- sys (ibv_reg_mr (pd n) m (u64 (message_size o + sizeof_ibv_grh)) [IBV_ACCESS_LOCAL_WRITE]) ;;
  let t := set_node i (with_mr r) t in
  match r with
  | None => say "failed to reg MR\n" ;;; sys (free m) ;;; Ret (t, -1)
  | Some _ => Ret (t, 0)
  end.

Definition verify_test_params (i : nat) (t : cmatest) : prog Z :=
  n <- node_at i t ;;
  r <- sys (ibv_query_port (verbs (cma_id n)) (port (cma_id n))) ;;
  if negb (r.1 =? 0) then Ret r.1 else
  if negb (message_count t =? 0) && (2 ^ (active_mtu r.2 + 7) <? message_size o) then
    say "mckey: message_size %d is larger than active mtu %d\n" ;;; Ret (- EINVAL)
  else Ret 0.

Definition init_node (i : nat) (t : cmatest) : prog (cmatest * Z) :=
  n <- node_at i t ;;
  p <- sys (ibv_alloc_pd (verbs (cma_id n))) ;;
  let t := set_node i (with_pd p) t in
  if p =? 0 then say "mckey: unable to allocate PD\n" ;;; Ret (t, - ENOMEM) else
  let cqe := if message_count t =? 0 then 2 else message_count t * 2 in
  c <- sys (ibv_create_cq (verbs (cma_id n)) cqe) ;;
  let t := set_node i (with_cq c) t in
  if c =? 0 then say "mckey: unable to create CQ\n" ;;; Ret (t, - ENOMEM) else
  let depth := u32 (if message_count t =? 0 then 1 else message_count t) in
  r <- sys (rdma_create_qp (cma_id n) p (mkInit c c IBV_QPT_UD 0 depth depth 1 1 0)) ;;
  if negb (r.1 =? 0) then say "mckey: unable to create QP: %d\n" ;;; Ret (t, r.1) else
  let t := set_node i (with_qp (Some r.2)) t in
  x <- create_message i t ;;
  let '(t, ret) := x in
  if negb (ret =? 0) then say "mckey: failed to create messages: %d\n" ;;; Ret (t, ret) else
  Ret (t, ret).

(** The queue pair and the registered memory; through a null pointer there is
    none. *)
Definition need {A} (x : option A) : prog A := match x with Some a => Ret a | None => Stop (Fault Segv) end.

(** [for (i = 0; i < message_count && !ret; i++)] *)
Fixpoint repeat_until (n : nat) (p : prog Z) : prog Z :=
  match n with
  | O => Ret 0
  | S n' => ret <- p ;; if ret =? 0 then repeat_until n' p else Ret ret
  end.

Definition post_recvs (i : nat) (t : cmatest) : prog Z :=
  if message_count t =? 0 then Ret 0 else
  n <- node_at i t ;;
  m <- need (mr n) ;;
  q <- need (cma_qp n) ;;
  let wr := mkRecv (nodes_ptr t + sizeof_cmatest_node * Z.of_nat i)
              [mkSge (mem n) (u32 (message_size o + sizeof_ibv_grh)) (lkey m)] in
  repeat_until (Z.to_nat (message_count t))
    (ret <- sys (ibv_post_recv q wr) ;;
     if negb (ret =? 0) then say "failed to post receives: %d\n" ;;; Ret ret else Ret ret).

Definition post_sends (i : nat) (signal_flag : list ibv_send_flag) (t : cmatest) : prog Z :=
  n <- node_at i t ;;
  if negb (connected n) || (message_count t =? 0) then Ret 0 else
  q <- need (cma_qp n) ;;
  m <- need (mr n) ;;
  let wr := mkSend (nodes_ptr t + sizeof_cmatest_node * Z.of_nat i) [mkSge (mem n) (u32 (message_size o)) (lkey m)]
              IBV_WR_SEND_WITH_IMM signal_flag (mkUnion (ah n) (remote_qpn n) (remote_qkey n)) (htonl (qp_num q)) in
  repeat_until (Z.to_nat (message_count t))
    (ret <- sys (ibv_post_send q [wr]) ;;
     if negb (ret =? 0) then say "failed to post sends: %d\n" ;;; Ret ret else Ret ret).

(** ** Events *)

Definition connect_error (t : cmatest) : cmatest := with_left (connects_left t - 1) t.

Definition addr_handler (i : nat) (t : cmatest) : prog (cmatest * Z) :=
  ret <- verify_test_params i t ;;
  if negb (ret =? 0) then Ret (connect_error t, ret) else
  x <- init_node i t ;;
  let '(t, ret) := x in
  if negb (ret =? 0) then Ret (connect_error t, ret) else
  ret <- (if is_sender o then Ret 0 else post_recvs i t) ;;
  if negb (ret =? 0) then Ret (connect_error t, ret) else
  n <- node_at i t ;;
  ret <- sys (rdma_join_multicast (cma_id n) (dst_in t)) ;;
  if negb (ret =? 0) then say "mckey: failure joining: %d\n" ;;; Ret (connect_error t, ret : Z) else
  Ret (t, 0).

Definition join_handler (i : nat) (ev : rdma_cm_event) (t : cmatest) : prog (cmatest * Z) :=
  sys (os "inet_ntop" []) ;;;
  say "mckey: joined dgid: %s\n" ;;;
  n <- node_at i t ;;
  a <- sys (ibv_create_ah (pd n) (ev_ah_attr ev)) ;;
  let t := set_node i (with_ah (ev_qp_num ev) (ev_qkey ev) a) t in
  if a =? 0 then say "mckey: failure creating address handle\n" ;;; Ret (connect_error t, -1)
  else Ret (with_left (connects_left t - 1) (set_node i with_connected t), 0).

(** [cma_id->context]: the node the id was created for. *)
Fixpoint context_of (id : Z) (i : nat) (l : list cmatest_node) : option nat :=
  match l with [] => None | n :: l' => if cma_id n =? id then Some i else context_of id (S i) l' end.

Definition cma_handler (ev : rdma_cm_event) (t : cmatest) : prog (cmatest * Z) :=
  match ev_type ev with
  | RDMA_CM_EVENT_ADDR_RESOLVED => i <- need (context_of (ev_id ev) 0 (nodes t)) ;; addr_handler i t
  | RDMA_CM_EVENT_MULTICAST_JOIN => i <- need (context_of (ev_id ev) 0 (nodes t)) ;; join_handler i ev t
  | RDMA_CM_EVENT_ADDR_ERROR | RDMA_CM_EVENT_ROUTE_ERROR | RDMA_CM_EVENT_MULTICAST_ERROR =>
      say "mckey: event: %s, error: %d\n" ;;; Ret (connect_error t, ev_status ev)
  | RDMA_CM_EVENT_DEVICE_REMOVAL => Ret (t, 0)
  | RDMA_CM_EVENT_OTHER => Ret (t, 0)
  end.

(** ** Set-up and the end *)

Definition destroy_node (n : cmatest_node) : prog unit :=
  if cma_id n =? 0 then Ret tt else
  (if ah n =? 0 then Ret tt else sys (ibv_destroy_ah (ah n)) ;;; Ret tt) ;;;
  (if bool_decide (is_Some (cma_qp n)) then sys (rdma_destroy_qp (cma_id n)) else Ret tt) ;;;
  (if cq n =? 0 then Ret tt else sys (ibv_destroy_cq (cq n)) ;;; Ret tt) ;;;
  (if mem n =? 0 then Ret tt
   else m <- need (mr n) ;; sys (ibv_dereg_mr (mr_ptr m)) ;;; sys (free (mem n))) ;;;
  (if pd n =? 0 then Ret tt else sys (ibv_dealloc_pd (pd n)) ;;; Ret tt) ;;;
  (* Destroy the RDMA ID after all device resources *)
  sys (rdma_destroy_id (cma_id n)) ;;;
  Ret tt.

(** [while (--i >= 0) rdma_destroy_id(test.nodes[i].cma_id)] *)
Fixpoint destroy_ids (l : list cmatest_node) : prog unit :=
  match l with [] => Ret tt | n :: l' => sys (rdma_destroy_id (cma_id n)) ;;; destroy_ids l' end.

(** The ids, from the [i]-th node on; [made] are the nodes that have one,
    latest first. *)
Fixpoint create_ids (n : nat) (i : Z) (made : list cmatest_node) (ch : Z) : prog (list cmatest_node * Z) :=
  match n with
  | O => Ret (rev made, 0)
  | S n' =>
      r <- sys (rdma_create_id ch i (port_space o)) ;;
      if negb (r.1 =? 0) then destroy_ids made ;;; Ret ([], r.1)
      else create_ids n' (i + 1) (mkNode i r.2 None false 0 0 None 0 0 0 0 :: made) ch
  end.

Definition alloc_nodes (t : cmatest) : prog (cmatest * Z) :=
  p <- sys (malloc (u64 (sizeof_cmatest_node * connections o))) ;;
  if p =? 0 then say "mckey: unable to allocate memory for test nodes\n" ;;; Ret (with_nodes p [] t, - ENOMEM) else
  sys (memset p 0 (u64 (sizeof_cmatest_node * connections o))) ;;;
  r <- create_ids (Z.to_nat (connections o)) 0 [] (channel t) ;;
  if negb (r.2 =? 0) then sys (free p) ;;; Ret (with_nodes p [] t, r.2) else
  Ret (with_nodes p r.1 t, 0).

Fixpoint destroy_all (l : list cmatest_node) : prog unit :=
  match l with [] => Ret tt | n :: l' => destroy_node n ;;; destroy_all l' end.
Definition destroy_nodes (t : cmatest) : prog unit := destroy_all (nodes t) ;;; sys (free (nodes_ptr t)).

(** The completions of one node: [for (done = 0; done < message_count; done += ret)] *)
Fixpoint poll_done (fuel : nat) (c done : Z) (count : Z) : prog Z :=
  if done <? count then
    match fuel with
    | O => Stop (Fault OutOfFuel)
    | S fuel' =>
        p <- sys (ibv_poll_cq c 8) ;;
        if poll_ret p <? 0 then say "mckey: failed polling CQ: %d\n" ;;; Ret (poll_ret p)
        else poll_done fuel' c (done + poll_ret p) count
    end
  else Ret 0.

Fixpoint poll_nodes (fuel : nat) (count : Z) (l : list cmatest_node) : prog Z :=
  match l with
  | [] => Ret 0
  | n :: l' =>
      if connected n then
        r <- poll_done fuel (cq n) 0 count ;;
        if negb (r =? 0) then Ret r else poll_nodes fuel count l'
      else poll_nodes fuel count l'
  end.
Definition poll_cqs (fuel : nat) (t : cmatest) : prog Z := poll_nodes fuel (message_count t) (nodes t).

(** [while (test.connects_left && !ret)] *)
Fixpoint connect_events (fuel : nat) (t : cmatest) : prog (cmatest * Z) :=
  if connects_left t =? 0 then Ret (t, 0) else
  match fuel with
  | O => Stop (Fault OutOfFuel)
  | S fuel' =>
      r <- sys (rdma_get_cm_event (channel t)) ;;
      if negb (r.1 =? 0) then Ret (t, r.1) else
      x <- cma_handler r.2 t ;;
      sys (rdma_ack_cm_event r.2) ;;;
      let '(t, ret) := x in
      if ret =? 0 then connect_events fuel' t else Ret (t, ret)
  end.

Definition get_addr (dst : option string) : prog (Z * Z) :=
  r <- sys (getaddrinfo dst "") ;;
  if negb (r.1 =? 0) then say "getaddrinfo failed - invalid hostname or IP address\n" ;;; Ret (0, r.1) else
  sys freeaddrinfo ;;;
  Ret (hd 0 r.2, r.1).

(** The loop that starts to resolve; the flag says that [run] returns. *)
Fixpoint start_all (n : nat) (i : nat) (t : cmatest) : prog (cmatest * Z) :=
  match n with
  | O => Ret (t, 0)
  | S n' =>
      nd <- node_at i t ;;
      ret <- (if bool_decide (is_Some (src_addr o)) then sys (rdma_bind_addr (cma_id nd) (src_in t)) else Ret 0) ;;
      if negb (ret =? 0) then say "mckey: addr bind failure: %d\n" ;;; Ret (connect_error t, ret : Z) else
      x <- (if unmapped_addr o then addr_handler i t
            else r <- sys (rdma_resolve_addr (cma_id nd) (if bool_decide (is_Some (src_addr o)) then src_in t else 0) (dst_in t) 2000) ;;
                 Ret (t, r : Z)) ;;
      let '(t, ret) := x in
      if negb (ret =? 0) then say "mckey: resolve addr failure: %d\n" ;;; Ret (connect_error t, ret) else
      start_all n' (S i) t
  end.

Fixpoint send_all (n : nat) (i : nat) (t : cmatest) : prog Z :=
  match n with
  | O => Ret 0
  | S n' => ret <- post_sends i [] t ;; if negb (ret =? 0) then Ret ret else send_all n' (S i) t
  end.

(** What follows the label [out]: the result is that of the last call. *)
Fixpoint leave_all (l : list cmatest_node) (ret : Z) (t : cmatest) : prog Z :=
  match l with
  | [] => Ret ret
  | n :: l' =>
      ret <- sys (rdma_leave_multicast (cma_id n) (dst_in t)) ;;
      (if negb (ret =? 0) then say "mckey: failure leaving: %d\n" else Ret tt) ;;;
      leave_all l' ret t
  end.

Definition transfer (fuel : nat) (t : cmatest) : prog Z :=
  if message_count t =? 0 then Ret 0 else
  ret <- (if is_sender o then say "initiating data transfers\n" ;;; send_all (Z.to_nat (connections o)) 0 t
          else say "receiving data transfers\n" ;;; poll_cqs fuel t) ;;
  if negb (ret =? 0) then Ret ret else say "data transfers complete\n" ;;; Ret 0.

Definition run (fuel : nat) (t : cmatest) : prog (cmatest * Z) :=
  say (if is_sender o then "mckey: starting client\n" else "mckey: starting server\n") ;;;
  x <- (if bool_decide (is_Some (src_addr o)) then get_addr (src_addr o) else Ret (src_in t, 0)) ;;
  let t := with_src x.1 t in
  if negb (x.2 =? 0) then Ret (t, x.2) else
  x <- get_addr (dst_addr o) ;;
  let t := with_dst x.1 t in
  if negb (x.2 =? 0) then Ret (t, x.2) else
  say "mckey: joining\n" ;;;
  x <- start_all (Z.to_nat (connections o)) 0 t ;;
  let '(t, ret) := x in
  if negb (ret =? 0) then Ret (t, ret) else
  x <- connect_events fuel t ;;
  let '(t, ret) := x in
  ret <- (if negb (ret =? 0) then Ret ret
          else (* Pause to give SM chance to configure switches. *) sys (sleep 3000000) ;;; transfer fuel t) ;;
  ret <- leave_all (nodes t) ret t ;;
  Ret (t, ret).
End Options.

(** ** [main] *)

Inductive opt :=
  | opt_m (s : string) | opt_M (s : string) | opt_s | opt_b (s : string) | opt_c (v : Z) | opt_C (v : Z) | opt_S (v : Z)
  | opt_p (v : Z) | opt_unknown.

Fixpoint parse (o : options) (l : list opt) : option options :=
  let 'mkOptions cs sz ct snd um dst src ps := o in
  match l with
  | [] => Some o
  | opt_m s :: l' => parse (mkOptions cs sz ct snd um (Some s) src ps) l'
  | opt_M s :: l' => parse (mkOptions cs sz ct snd true (Some s) src ps) l'
  | opt_s :: l' => parse (mkOptions cs sz ct true um dst src ps) l'
  | opt_b s :: l' => parse (mkOptions cs sz ct snd um dst (Some s) ps) l'
  | opt_c v :: l' => parse (mkOptions v sz ct snd um dst src ps) l'
  | opt_C v :: l' => parse (mkOptions cs sz v snd um dst src ps) l'
  | opt_S v :: l' => parse (mkOptions cs v ct snd um dst src ps) l'
  | opt_p v :: l' => parse (mkOptions cs sz ct snd um dst src v) l'
  | opt_unknown :: _ => None
  end.

Definition usage : prog unit :=
  say "usage: %s\n" ;;;
  say "\t-m multicast_address\n" ;;;
  say "\t[-M unmapped_multicast_address]\n\t replaces -m and requires -b\n" ;;;
  say "\t[-s(ender)]\n" ;;;
  say "\t[-b bind_address]\n" ;;;
  say "\t[-c connections]\n" ;;;
  say "\t[-C message_count]\n" ;;;
  say "\t[-S message_size]\n" ;;;
  say "\t[-p port_space - %#x for UDP (default), %#x for IPOIB]\n".

Definition main (fuel : nat) (verbs port : Z -> Z) (opts : list opt) : prog Z :=
  match parse defaults opts with
  | None => usage ;;; exit 1
  | Some o =>
      ch <- sys rdma_create_event_channel ;;
      if ch =? 0 then say "failed to create event channel\n" ;;; exit 1 else
      x <- alloc_nodes o (mkTest ch 0 [] (connections o) (init_count o) 0 0) ;;
      let '(t, err) := x in
      if negb (err =? 0) then exit 1 else
      x <- run o verbs port fuel t ;;
      let '(t, ret) := x in
      say "test complete\n" ;;;
      destroy_nodes t ;;;
      sys (rdma_destroy_event_channel (channel t)) ;;;
      say "return status %d\n" ;;;
      Ret ret
  end.

End Mckey.
