(* ===== verification/MckeySpec.v ===== *)
(** * The multicast benchmark gives everything back

    With an environment that answers fairly, a run of mckey releases each
    resource it acquired once, also on the paths where a call fails, and never
    reads through a null pointer. *)

From stdpp Require Import gmultiset.
From S2P Require Import Prelude Verbs Ledger Mckey.
Import Mckey.

#[local] Open Scope prog_scope.

(** ** What a node holds *)

Definition one (k : kind) (p : Z) : gmultiset resource := if p =? 0 then ∅ else {[+ (k, p) +]}.

Lemma one_zero k : one k 0 = ∅.
Proof. done. Qed.

Definition owned_qp (n : cmatest_node) : gmultiset resource := if bool_decide (is_Some (cma_qp n)) then one QP (cma_id n) else ∅.
Definition owned_mem (n : cmatest_node) : gmultiset resource :=
  if mem n =? 0 then ∅ else {[+ (MEM, mem n) +]} ⊎ match mr n with Some m => {[+ (MR, mr_ptr m) +]} | None => ∅ end.
Definition owned (n : cmatest_node) : gmultiset resource :=
  one AH (ah n) ⊎ owned_qp n ⊎ one CQ (cq n) ⊎ owned_mem n ⊎ one PD (pd n) ⊎ one ID (cma_id n).

Definition owned_all (l : list cmatest_node) : gmultiset resource := foldr (fun n X => owned n ⊎ X) ∅ l.

Lemma gain_stock k p L R J : gain k p (mkLedger L R J) = mkLedger (L ⊎ one k p) R J.
Proof. unfold gain, one. case_match; [by rewrite gmultiset_disj_union_right_id | done]. Qed.

Lemma lose_stock k p X R J : lose k p (mkLedger (X ⊎ {[+ (k, p) +]}) R J) = Some (mkLedger X R J).
Proof. unfold lose. cbn. rewrite decide_True by multiset_solver. f_equal. f_equal. multiset_solver. Qed.

Lemma owned_cons n l : owned_all (n :: l) = owned n ⊎ owned_all l.
Proof. done. Qed.

Lemma owned_split l i n : l !! i = Some n -> owned_all l = owned n ⊎ owned_all (delete i l).
Proof.
  revert i. induction l as [|m l IH]; intros [|i] H; [done | done | by injection H as -> |].
  change (delete (S i) (m :: l)) with (m :: delete i l). rewrite !owned_cons, (IH _ H). multiset_solver.
Qed.

Lemma owned_insert l i n n' : l !! i = Some n -> owned_all (<[i := n']> l) = owned n' ⊎ owned_all (delete i l).
Proof.
  intros H. rewrite (owned_split _ i n'); [| apply list_lookup_insert_eq; by eapply lookup_lt_Some].
  f_equal. f_equal. clear. revert i. induction l as [|m l IH]; intros [|i]; cbn; [done.. |]. f_equal. apply IH.
Qed.

(** ** Releasing *)

(** [if (p) release(p)] *)
Lemma tidy_release (c : call) k p X R J (Q : unit -> ledger -> Prop) :
  (forall s (r : reply c), enter s c r = lose k p s) -> Q tt (mkLedger X R J) ->
  tidy (if p =? 0 then Ret tt else sys c ;;; Ret tt) Q (mkLedger (X ⊎ one k p) R J).
Proof.
  intros He HQ. unfold one. destruct (p =? 0).
  - cbn. by rewrite gmultiset_disj_union_right_id.
  - apply tidy_bind, tidy_sys. intros r _. exists (mkLedger X R J). by rewrite He, lose_stock.
Qed.

Definition memok (n : cmatest_node) : Prop := mem n <> 0 -> is_Some (mr n).

Lemma tidy_destroy_node n X R J Q : cma_id n <> 0 -> memok n -> Q tt (mkLedger X R J) ->
  tidy (destroy_node n) Q (mkLedger (X ⊎ owned n) R J).
Proof.
  intros Hid Hm HQ. unfold destroy_node. rewrite (proj2 (Z.eqb_neq _ _) Hid).
  unfold owned. replace (X ⊎ _) with (X ⊎ one ID (cma_id n) ⊎ one PD (pd n) ⊎ owned_mem n ⊎ one CQ (cq n) ⊎ owned_qp n ⊎ one AH (ah n)) by multiset_solver.
  apply tidy_bind, tidy_release; [done |]. apply tidy_bind.
  assert (forall Y (Q : unit -> ledger -> Prop), Q tt (mkLedger Y R J) ->
    tidy (if bool_decide (is_Some (cma_qp n)) then sys (rdma_destroy_qp (cma_id n)) else Ret tt) Q (mkLedger (Y ⊎ owned_qp n) R J)) as Hqp.
  { intros Y Q' HY. unfold owned_qp, one. case_bool_decide; [| by rewrite gmultiset_disj_union_right_id].
    rewrite (proj2 (Z.eqb_neq _ _) Hid). apply tidy_sys. intros [] _. eexists. split; [apply lose_stock | done]. }
  apply Hqp, tidy_bind, tidy_release; [done |]. apply tidy_bind.
  assert (forall Y (Q : unit -> ledger -> Prop), Q tt (mkLedger Y R J) ->
    tidy (if mem n =? 0 then Ret tt else m <- need (mr n) ;; sys (ibv_dereg_mr (mr_ptr m)) ;;; sys (free (mem n))) Q
      (mkLedger (Y ⊎ owned_mem n) R J)) as Hmem.
  { intros Y Q' HY. unfold owned_mem. destruct (Z.eqb_spec (mem n) 0) as [E | E]; [by rewrite gmultiset_disj_union_right_id |].
    destruct (Hm E) as [m ->]. cbn [need pbind]. rewrite gmultiset_disj_union_assoc. apply tidy_bind, tidy_sys. intros r _.
    eexists. split; [apply lose_stock |]. apply tidy_sys. intros [] _. cbn [enter]. rewrite (proj2 (Z.eqb_neq _ _) E).
    eexists. split; [apply lose_stock | done]. }
  apply Hmem, tidy_bind, tidy_release; [done |]. apply tidy_bind, tidy_sys. intros r _. exists (mkLedger X R J). split; [| done].
  unfold one. rewrite (proj2 (Z.eqb_neq _ _) Hid). apply lose_stock.
Qed.

Lemma tidy_destroy_all l : forall X R J (Q : unit -> ledger -> Prop), Forall (fun n => cma_id n <> 0 /\ memok n) l -> Q tt (mkLedger X R J) ->
  tidy (destroy_all l) Q (mkLedger (X ⊎ owned_all l) R J).
Proof.
  induction l as [|n l IH]; intros X R J Q Hl HQ; cbn [destroy_all].
  - cbn. by rewrite gmultiset_disj_union_right_id.
  - apply list.Forall_cons in Hl as [[H1 H2] Hl]. rewrite owned_cons.
    replace (X ⊎ (owned n ⊎ owned_all l)) with (X ⊎ owned_all l ⊎ owned n) by multiset_solver.
    apply tidy_bind, tidy_destroy_node; [done | done |]. by apply IH.
Qed.

(** ** Making the ids *)

Definition fresh (n : cmatest_node) : Prop :=
  cma_qp n = None /\ connected n = false /\ pd n = 0 /\ cq n = 0 /\ mr n = None /\ ah n = 0 /\ mem n = 0.

Lemma owned_fresh n : fresh n -> owned n = one ID (cma_id n).
Proof.
  intros (H1 & _ & H2 & H3 & H4 & H5 & H6). unfold owned, owned_qp, owned_mem. rewrite H1, H2, H3, H5, H6.
  change (one AH 0) with (∅ : gmultiset resource). change (one CQ 0) with (∅ : gmultiset resource). change (one PD 0) with (∅ : gmultiset resource).
  rewrite bool_decide_eq_false_2 by (by intros []). change (0 =? 0) with true. cbv iota. multiset_solver.
Qed.

Lemma fresh_memok n : fresh n -> memok n.
Proof. intros (_ & _ & _ & _ & _ & _ & H) H'. done. Qed.

(** Nodes that have an id and nothing else, with no two the same. *)
Record blank (l : list cmatest_node) : Prop := {
  bk_fresh : Forall fresh l; bk_ids : Forall (fun n => cma_id n <> 0) l; bk_nodup : NoDup (cma_id <$> l) }.

Lemma blank_cons n l : blank (n :: l) <-> fresh n /\ cma_id n <> 0 /\ (cma_id n ∉ (cma_id <$> l)) /\ blank l.
Proof.
  split.
  - intros [H1 H2 H3]. apply list.Forall_cons in H1 as [? ?]. apply list.Forall_cons in H2 as [? ?]. cbn in H3.
    apply list.NoDup_cons in H3 as [? ?]. done.
  - intros (H1 & H2 & H3 & [H4 H5 H6]). split; [by apply list.Forall_cons | by apply list.Forall_cons | cbn; by apply list.NoDup_cons].
Qed.

Lemma id_in_stock l n : n ∈ l -> blank l -> (ID, cma_id n) ∈ owned_all l.
Proof.
  intros Hn Hb. induction l as [|m l IH]; [by apply not_elem_of_nil in Hn |]. apply blank_cons in Hb as (H1 & H2 & H3 & H4).
  rewrite owned_cons, gmultiset_elem_of_disj_union. apply elem_of_cons in Hn as [-> | Hn]; [left | right; by apply IH].
  rewrite owned_fresh by done. unfold one. rewrite (proj2 (Z.eqb_neq _ _) H2). multiset_solver.
Qed.

Lemma tidy_destroy_ids l : forall X R J (Q : unit -> ledger -> Prop), blank l -> Q tt (mkLedger X R J) ->
  tidy (destroy_ids l) Q (mkLedger (X ⊎ owned_all l) R J).
Proof.
  induction l as [|n l IH]; intros X R J Q Hl HQ; cbn [destroy_ids].
  - cbn. by rewrite gmultiset_disj_union_right_id.
  - apply blank_cons in Hl as (H1 & H2 & _ & Hl). rewrite owned_cons, (owned_fresh n H1).
    replace (X ⊎ (one ID (cma_id n) ⊎ owned_all l)) with (X ⊎ owned_all l ⊎ one ID (cma_id n)) by multiset_solver.
    apply tidy_bind, tidy_sys. intros r _. exists (mkLedger (X ⊎ owned_all l) R J). split; [| by apply IH].
    unfold one. rewrite (proj2 (Z.eqb_neq _ _) H2). apply lose_stock.
Qed.

Lemma owned_perm l l' : l ≡ₚ l' -> owned_all l = owned_all l'.
Proof. induction 1; rewrite ?owned_cons; [done | by f_equal | multiset_solver | congruence]. Qed.

Lemma blank_perm l l' : l ≡ₚ l' -> blank l -> blank l'.
Proof. intros Hp [H1 H2 H3]. split; by rewrite <- Hp. Qed.

Lemma tidy_create_ids o ch n : forall i made X R J (Q : list cmatest_node * Z -> ledger -> Prop), blank made ->
  (forall l ret, (ret = 0 -> blank l /\ length l = (length made + n)%nat) -> (ret <> 0 -> l = []) ->
    Q (l, ret) (mkLedger (X ⊎ owned_all l) R J)) ->
  tidy (create_ids o n i made ch) Q (mkLedger (X ⊎ owned_all made) R J).
Proof.
  induction n as [|n IH]; intros i made X R J Q Hb HQ; cbn [create_ids].
  - cbn [tidy]. rewrite (owned_perm made (rev made)) by apply Permutation_rev. apply HQ; [| done]. intros _.
    split; [by apply (blank_perm made); [apply Permutation_rev |] | rewrite length_rev; lia].
  - apply tidy_bind, tidy_sys. intros r Hf. cbn [enter fair] in *. destruct (Z.eqb_spec r.1 0) as [E | E]; cbn [negb].
    + destruct (Hf E) as [Hz Hnew]. eexists. split; [rewrite gain_stock; reflexivity |].
      set (nd := mkNode i r.2 None false 0 0 None 0 0 0 0). assert (fresh nd) as Hfr by done.
      replace (X ⊎ owned_all made ⊎ one ID r.2) with (X ⊎ owned_all (nd :: made)) by (rewrite owned_cons, (owned_fresh nd Hfr); cbn; multiset_solver).
      apply IH.
      * apply blank_cons. split_and!; try done. intros Hin. apply list_elem_of_fmap in Hin as (m & Hm & Hin). apply Hnew.
        cbn in Hm |- *. rewrite Hm. apply gmultiset_elem_of_disj_union. right. by apply id_in_stock.
      * intros l ret H1 H2. apply HQ; [| done]. intros Hr. destruct (H1 Hr) as [? Hl]. split; [done |]. rewrite Hl. cbn. lia.
    + eexists. split; [reflexivity |]. apply tidy_bind, tidy_destroy_ids; [done |]. cbn [tidy].
      replace X with (X ⊎ owned_all []) by (cbn; apply gmultiset_disj_union_right_id). by apply HQ.
Qed.

Definition base (t : cmatest) : gmultiset resource := one CHANNEL (channel t) ⊎ one MEM (nodes_ptr t).

Lemma tidy_alloc_nodes o t R J (Q : cmatest * Z -> ledger -> Prop) :
  (forall p l ret, (ret = 0 -> p <> 0 /\ blank l /\ length l = Z.to_nat (connections o)) ->
    (ret = 0 -> Q (with_nodes p l t, ret) (mkLedger (base (with_nodes p l t) ⊎ owned_all l) R J)) /\
    (ret <> 0 -> Q (with_nodes p l t, ret) (mkLedger (one CHANNEL (channel t)) R J))) ->
  tidy (alloc_nodes o t) Q (mkLedger (one CHANNEL (channel t)) R J).
Proof.
  intros HQ. unfold alloc_nodes. apply tidy_bind, tidy_sys. intros p _. cbn [enter]. eexists. split; [reflexivity |].
  rewrite gain_stock. destruct (Z.eqb_spec p 0) as [E | E].
  - apply tidy_bind, tidy_quiet; [done |]. intros r. cbn [tidy]. rewrite E, one_zero, gmultiset_disj_union_right_id. by apply HQ.
  - apply tidy_bind, tidy_quiet; [done |]. intros _. apply tidy_bind.
    replace (one CHANNEL (channel t) ⊎ one MEM p) with (one CHANNEL (channel t) ⊎ one MEM p ⊎ owned_all []) by (cbn; apply gmultiset_disj_union_right_id).
    apply tidy_create_ids; [by split; constructor |]. intros l ret H1 H2. cbn [fst snd]. destruct (Z.eqb_spec ret 0) as [Er | Er]; cbn [negb].
    + cbn [tidy]. destruct (H1 Er) as [Hb Hl]. destruct (HQ p l 0 ltac:(done)) as [Hok _]. by apply Hok.
    + apply tidy_bind, tidy_sys. intros r _. cbn [enter]. rewrite (proj2 (Z.eqb_neq _ _) E), (H2 Er). unfold one at 2.
      rewrite (proj2 (Z.eqb_neq _ _) E). cbn [owned_all foldr]. rewrite gmultiset_disj_union_right_id.
      eexists. split; [apply lose_stock |]. cbn [tidy]. by apply HQ.
Qed.

(** ** While the events come in *)

(** What the transfers need. *)
Definition usable (count : Z) (n : cmatest_node) : Prop := is_Some (cma_qp n) /\ (count <> 0 -> is_Some (mr n)).

(** A node and the requests that are open for it: with an address to resolve
    it is as it was made, with a group to join it has no address handle yet. *)
Definition node_ok (count : Z) (R J : gset Z) (n : cmatest_node) : Prop :=
  (cma_id n ∈ R -> fresh n /\ cma_id n ∉ J) /\ (cma_id n ∈ J -> ah n = 0 /\ usable count n) /\ (connected n = true -> usable count n).

Record inv (k : nat) (t : cmatest) (s : ledger) : Prop := {
  iv_length : length (nodes t) = k;
  iv_stock : stock s = base t ⊎ owned_all (nodes t);
  iv_ptr : nodes_ptr t <> 0 /\ channel t <> 0;
  iv_ids : NoDup (cma_id <$> nodes t);
  iv_nodes : Forall (fun n => cma_id n <> 0 /\ memok n /\ node_ok (message_count t) (resolving s) (joining s) n) (nodes t);
  iv_debts : forall id, id ∈ resolving s ∪ joining s -> id ∈ cma_id <$> nodes t }.

(** [t'] is [t] with another node [i]; the message count can become 0. *)
Record changed (i : nat) (t t' : cmatest) (n' : cmatest_node) : Prop := {
  ch_nodes : nodes t' = <[i := n']> (nodes t);
  ch_channel : channel t' = channel t; ch_ptr : nodes_ptr t' = nodes_ptr t;
  ch_count : message_count t' = message_count t \/ message_count t' = 0 }.

Lemma usable_mono count count' n : count' = count \/ count' = 0 -> usable count n -> usable count' n.
Proof. intros [-> | ->] [H1 H2]; split; done. Qed.

Lemma inv_update k i t t' n n' s s' : inv k t s -> nodes t !! i = Some n -> changed i t t' n' -> cma_id n' = cma_id n -> memok n' ->
  stock s' = base t ⊎ owned_all (delete i (nodes t)) ⊎ owned n' ->
  (forall id, id <> cma_id n -> (id ∈ resolving s' <-> id ∈ resolving s) /\ (id ∈ joining s' <-> id ∈ joining s)) ->
  node_ok (message_count t') (resolving s') (joining s') n' -> inv k t' s'.
Proof.
  intros [I0 I1 I2 I3 I4 I5] Hi [C1 C2 C3 C4] Hid Hm Hs Hsets Hok. pose proof (lookup_lt_Some _ _ _ Hi) as Hlt.
  assert (cma_id <$> nodes t' = cma_id <$> nodes t) as Eids.
  { rewrite C1, list_fmap_insert, Hid. apply list_insert_id. by rewrite list_lookup_fmap, Hi. }
  split.
  - by rewrite C1, length_insert.
  - unfold base. rewrite C1, C2, C3, (owned_insert _ _ n) by done. fold (base t). rewrite Hs. multiset_solver.
  - by rewrite C2, C3.
  - by rewrite Eids.
  - rewrite C1. apply list.Forall_lookup_2. intros j m Hj. destruct (decide (i = j)) as [<- | Hne].
    + rewrite list_lookup_insert_eq in Hj by done. injection Hj as <-. split; [| by split].
      rewrite Hid. by apply (list.Forall_lookup_1 _ _ _ _ I4 Hi).
    + rewrite list_lookup_insert_ne in Hj by done. destruct (list.Forall_lookup_1 _ _ _ _ I4 Hj) as (N1 & N2 & N3 & N4 & N5).
      assert (cma_id m <> cma_id n) as Hd.
      { intros E. apply Hne. apply (NoDup_lookup (cma_id <$> nodes t) i j (cma_id n)); [done | by rewrite list_lookup_fmap, Hi |].
        by rewrite list_lookup_fmap, Hj, <- E. }
      destruct (Hsets _ Hd) as [HR HJ]. split; [done |]. split; [done |]. unfold node_ok. rewrite HR, HJ. split_and!; [done | |].
      * intros Hin. destruct (N4 Hin). split; [done |]. by apply (usable_mono (message_count t)).
      * intros Hc. apply (usable_mono (message_count t)); [done | by apply N5].
  - intros id Hin. rewrite Eids. destruct (decide (id = cma_id n)) as [-> | Hne].
    + apply list_elem_of_fmap. exists n. split; [done | by eapply list_elem_of_lookup_2].
    + destruct (Hsets _ Hne) as [HR HJ]. apply I5. apply elem_of_union. apply elem_of_union in Hin. by rewrite <- HR, <- HJ.
Qed.

Lemma alter_insert {A} (f : A -> A) (l : list A) (i : nat) x : l !! i = Some x -> alter f i l = <[i := f x]> l.
Proof. revert i. induction l as [|y l IH]; intros [|i] H; [done | done | by injection H as -> |]. cbn. f_equal. by apply IH. Qed.

(** What a node gains when one of its resources is made. *)

Lemma one_some k p : p <> 0 -> one k p = {[+ (k, p) +]}.
Proof. intros H. unfold one. by rewrite (proj2 (Z.eqb_neq _ _) H). Qed.

Lemma owned_with_pd x n : pd n = 0 -> owned (with_pd x n) = owned n ⊎ one PD x.
Proof.
  intros E. unfold owned. rewrite E, one_zero. change (owned_qp (with_pd x n)) with (owned_qp n).
  change (owned_mem (with_pd x n)) with (owned_mem n). cbn [with_pd pd ah cq cma_id]. multiset_solver.
Qed.

Lemma owned_with_cq x n : cq n = 0 -> owned (with_cq x n) = owned n ⊎ one CQ x.
Proof.
  intros E. unfold owned. rewrite E, one_zero. change (owned_qp (with_cq x n)) with (owned_qp n).
  change (owned_mem (with_cq x n)) with (owned_mem n). cbn [with_cq pd ah cq cma_id]. multiset_solver.
Qed.

Lemma owned_with_ah q k x n : ah n = 0 -> owned (with_ah q k x n) = owned n ⊎ one AH x.
Proof.
  intros E. unfold owned. rewrite E, one_zero. change (owned_qp (with_ah q k x n)) with (owned_qp n).
  change (owned_mem (with_ah q k x n)) with (owned_mem n). cbn [with_ah pd ah cq cma_id]. multiset_solver.
Qed.

Lemma owned_with_qp q n : cma_qp n = None -> owned (with_qp (Some q) n) = owned n ⊎ one QP (cma_id n).
Proof.
  intros E. unfold owned. change (owned_mem (with_qp (Some q) n)) with (owned_mem n).
  change (owned_qp (with_qp (Some q) n)) with (one QP (cma_id n)). unfold owned_qp. rewrite E, bool_decide_eq_false_2 by (by intros []).
  cbn [with_qp pd ah cq cma_id]. multiset_solver.
Qed.

Lemma owned_with_mem m r n : mem n = 0 -> m <> 0 -> mr_ptr r <> 0 ->
  owned (with_mr (Some r) (with_mem m n)) = owned n ⊎ one MEM m ⊎ one MR (mr_ptr r).
Proof.
  intros E Hm Hr. unfold owned, owned_mem. rewrite E. change (owned_qp (with_mr (Some r) (with_mem m n))) with (owned_qp n).
  change (0 =? 0) with true. cbn [with_mr with_mem pd ah cq cma_id mem mr].
  rewrite (one_some MEM m Hm), (one_some MR _ Hr), (proj2 (Z.eqb_neq _ _) Hm). multiset_solver.
Qed.

(** The parts of setting up a node, [X] being the rest of the stock. *)
Section Node.
Variables (o : options) (verbs port : Z -> Z) (i : nat) (X : gmultiset resource) (R J : gset Z).

Record built_from (t : cmatest) (n : cmatest_node) (t' : cmatest) (n' : cmatest_node) : Prop := {
  bf_changed : changed i t t' n'; bf_id : cma_id n' = cma_id n; bf_mem : memok n'; bf_ah : ah n' = ah n;
  bf_connected : connected n' = connected n; bf_left : connects_left t' = connects_left t }.

Lemma changed_set t f n : nodes t !! i = Some n -> changed i t (set_node i f t) (f n).
Proof. intros H. split; cbn; [by apply alter_insert | done.. | by left]. Qed.

Lemma changed_trans t t' t'' n' n'' : changed i t t' n' -> changed i t' t'' n'' -> changed i t t'' n''.
Proof.
  intros [A1 A2 A3 A4] [B1 B2 B3 B4]. split; [rewrite B1, A1; apply list_insert_insert_eq | congruence | congruence |].
  destruct B4 as [-> | ->]; [done | by right].
Qed.

Lemma node_at_run t n (Q : cmatest_node -> ledger -> Prop) s : nodes t !! i = Some n -> Q n s -> tidy (node_at i t) Q s.
Proof. intros H HQ. unfold node_at. by rewrite H. Qed.

Lemma tidy_say m (Q : unit -> ledger -> Prop) s : Q tt s -> tidy (say m) Q s.
Proof. intros HQ. apply tidy_quiet; [done |]. by intros []. Qed.

(** What [create_message] leaves: without an error, memory to use. *)
Lemma tidy_create_message t n : nodes t !! i = Some n -> mem n = 0 -> mr n = None ->
  tidy (create_message o i t) (fun x s => exists n', built_from t n x.1 n' /\ s = mkLedger (X ⊎ owned n') R J /\ cma_qp n' = cma_qp n /\
    (x.2 = 0 -> message_count x.1 <> 0 -> is_Some (mr n'))) (mkLedger (X ⊎ owned n) R J).
Proof.
  intros Hn Hm Hr. unfold create_message. set (t1 := if message_size o =? 0 then with_count 0 t else t).
  assert (nodes t1 !! i = Some n /\ changed i t t1 n /\ connects_left t1 = connects_left t) as (Hn1 & Hc & Hl).
  { unfold t1. split_and!; [by case_match | | by case_match]. split; [| by case_match..| case_match; auto].
    rewrite list_insert_id by done. by case_match. }
  assert (memok n) as Hmok by (intros H; by rewrite Hm in H).
  destruct (Z.eqb_spec (message_count t1) 0) as [E | E].
  { cbn [tidy]. exists n. split; [by split |]. split_and!; try done. }
  apply tidy_bind, tidy_sys. intros m _. cbn [enter]. eexists. split; [reflexivity |]. rewrite gain_stock.
  pose proof (changed_set t1 (with_mem m) n Hn1) as Hc1.
  assert (nodes (set_node i (with_mem m) t1) !! i = Some (with_mem m n)) as Hn2.
  { rewrite (ch_nodes _ _ _ _ Hc1). apply list_lookup_insert_eq. by eapply lookup_lt_Some. }
  destruct (Z.eqb_spec m 0) as [Em | Em].
  { apply tidy_bind, tidy_say. cbn [tidy]. exists (with_mem m n). split; [split; try done; [by eapply changed_trans | intros H; cbn in H; done] |].
    rewrite Em. cbn. split_and!; try done. rewrite gmultiset_disj_union_right_id. f_equal. f_equal. unfold owned, owned_mem. cbn. by rewrite Hm. }
  apply tidy_bind, (node_at_run _ (with_mem m n)); [done |]. apply tidy_bind, tidy_sys. intros r (mreg & -> & Hnz). cbn [enter].
  eexists. split; [reflexivity |]. rewrite gain_stock. cbn [tidy].
  set (t2 := set_node i (with_mem m) t1) in *. pose proof (changed_set t2 (with_mr (Some mreg)) _ Hn2) as Hc2.
  exists (with_mr (Some mreg) (with_mem m n)). split.
  { split; try done; [eapply changed_trans; [by eapply changed_trans |]; exact Hc2 | by intros _]. }
  split; [| done]. rewrite owned_with_mem by done. f_equal. multiset_solver.
Qed.

Lemma built_refl t n : nodes t !! i = Some n -> memok n -> built_from t n t n.
Proof. intros H Hm. split; [| done..]. split; [by rewrite list_insert_id | done | done | by left]. Qed.

Lemma built_lookup t n t' n' : nodes t !! i = Some n -> built_from t n t' n' -> nodes t' !! i = Some n'.
Proof. intros H [[-> _ _ _] _ _ _ _ _]. apply list_lookup_insert_eq. by eapply lookup_lt_Some. Qed.

Lemma built_trans t n t' n' t'' n'' : built_from t n t' n' -> built_from t' n' t'' n'' -> built_from t n t'' n''.
Proof. intros [A1 A2 A3 A4 A5 A6] [B1 B2 B3 B4 B5 B6]. split; [by eapply changed_trans | congruence | done | congruence..]. Qed.

Lemma built_set f t n t' n' : nodes t !! i = Some n -> built_from t n t' n' ->
  cma_id (f n') = cma_id n' -> memok (f n') -> ah (f n') = ah n' -> connected (f n') = connected n' ->
  built_from t n (set_node i f t') (f n').
Proof.
  intros H B F1 F2 F3 F4. eapply built_trans; [done |]. split; [| done..]. apply changed_set. by eapply built_lookup.
Qed.

(** What [init_node] leaves of a node that was only made. *)
Lemma tidy_init_node t n : nodes t !! i = Some n -> fresh n ->
  tidy (init_node o verbs i t) (fun x s => exists n', built_from t n x.1 n' /\ s = mkLedger (X ⊎ owned n') R J /\
    (x.2 = 0 -> usable (message_count x.1) n')) (mkLedger (X ⊎ owned n) R J).
Proof.
  intros Hn Hf. pose proof Hf as (F1 & F2 & F3 & F4 & F5 & F6 & F7). pose proof (fresh_memok n Hf) as Hmok.
  unfold init_node. apply tidy_bind, (node_at_run _ n); [done |]. apply tidy_bind, tidy_sys. intros p _. cbn [enter].
  eexists. split; [reflexivity |]. rewrite gain_stock, <- gmultiset_disj_union_assoc, <- owned_with_pd by done.
  pose proof (built_set (with_pd p) t n t n Hn (built_refl t n Hn Hmok) eq_refl Hmok eq_refl eq_refl) as B1.
  destruct (p =? 0). { apply tidy_bind, tidy_say. cbn [tidy]. eexists. by split. }
  apply tidy_bind, tidy_sys. intros c _. cbn [enter].
  eexists. split; [reflexivity |]. rewrite gain_stock, <- gmultiset_disj_union_assoc, <- owned_with_cq by done.
  pose proof (built_set (with_cq c) t n _ _ Hn B1 eq_refl Hmok eq_refl eq_refl) as B2.
  destruct (c =? 0). { apply tidy_bind, tidy_say. cbn [tidy]. eexists. by split. }
  apply tidy_bind, tidy_sys. intros r _. cbn [enter].
  destruct (Z.eqb_spec r.1 0) as [Er | Er]; cbn [negb].
  2: { eexists. split; [reflexivity |]. apply tidy_bind, tidy_say. cbn [tidy]. eexists. split; [exact B2 |]. by split. }
  eexists. split; [reflexivity |]. rewrite gain_stock, <- gmultiset_disj_union_assoc.
  change (cma_id n) with (cma_id (with_cq c (with_pd p n))). rewrite <- (owned_with_qp r.2) by done.
  pose proof (built_set (with_qp (Some r.2)) t n _ _ Hn B2 eq_refl Hmok eq_refl eq_refl) as B3.
  apply tidy_bind. eapply tidy_mono; [by apply tidy_create_message; [apply (built_lookup t n) | |] |].
  intros [t' ret] s' (n' & B4 & -> & Eq & Hu). cbn [fst snd] in *. destruct (Z.eqb_spec ret 0) as [E | E]; cbn [negb].
  - cbn [tidy]. exists n'. split; [by eapply built_trans |]. split; [done |]. intros _. split; [by rewrite Eq | auto].
  - apply tidy_bind, tidy_say. cbn [tidy]. exists n'. split; [by eapply built_trans |]. by split.
Qed.
End Node.

(** ** Calls that make no entry *)

Definition quiet {A} (p : prog A) : Prop := forall s, tidy p (fun _ s' => s' = s) s.

Lemma tidy_of_quiet {A} (p : prog A) (Q : A -> ledger -> Prop) s : quiet p -> (forall a, Q a s) -> tidy p Q s.
Proof. intros H HQ. eapply tidy_mono; [apply H |]. by intros a s' ->. Qed.

Lemma quiet_return {A} (a : A) : quiet (Ret a).
Proof. done. Qed.
Lemma quiet_sys c : (forall s r, enter s c r = Some s) -> quiet (sys c).
Proof. intros H s r _. by exists s. Qed.
Lemma quiet_say m : quiet (say m).
Proof. by apply quiet_sys. Qed.
Lemma quiet_bind {A B} (p : prog A) (k : A -> prog B) : quiet p -> (forall a, quiet (k a)) -> quiet (pbind p k).
Proof. intros Hp Hk s. apply tidy_bind, tidy_of_quiet; [done |]. intros a. apply Hk. Qed.
Lemma quiet_repeat n (p : prog Z) : quiet p -> quiet (repeat_until n p).
Proof. intros H. induction n as [|n IH]; cbn [repeat_until]; [apply quiet_return |]. apply quiet_bind; [done |]. intros r. by case_match. Qed.

#[local] Hint Resolve quiet_return quiet_say quiet_repeat : core.

Section Quiet.
Variables (o : options) (verbs port : Z -> Z).

Lemma quiet_node_at i t n : nodes t !! i = Some n -> quiet (node_at i t).
Proof. intros H s. unfold node_at. by rewrite H. Qed.

Lemma quiet_verify i t n : nodes t !! i = Some n -> quiet (verify_test_params o verbs port i t).
Proof.
  intros H. apply quiet_bind; [by eapply quiet_node_at |]. intros m. apply quiet_bind; [by apply quiet_sys |]. intros r.
  case_match; [done |]. case_match; [| done]. by apply quiet_bind.
Qed.

Lemma quiet_post_recvs i t n : nodes t !! i = Some n -> usable (message_count t) n -> quiet (post_recvs o i t).
Proof.
  intros H [[q Hq] Hm]. unfold post_recvs. destruct (Z.eqb_spec (message_count t) 0) as [E | E]; [done |].
  destruct (Hm E) as [m Hm']. intros s. apply tidy_bind, (node_at_run i t n); [done |]. rewrite Hq, Hm'. revert s.
  apply quiet_repeat, quiet_bind; [by apply quiet_sys |]. intros r. case_match; [by apply quiet_bind | done].
Qed.

Lemma quiet_post_sends i f t n : nodes t !! i = Some n -> (connected n = true -> usable (message_count t) n) -> quiet (post_sends o i f t).
Proof.
  intros H Hu s. unfold post_sends. apply tidy_bind, (node_at_run i t n); [done |]. destruct (connected n); [| done]. cbn [negb orb].
  destruct (Hu eq_refl) as [[q Hq] Hm]. destruct (Z.eqb_spec (message_count t) 0) as [E | E]; [done |]. destruct (Hm E) as [m Hm'].
  rewrite Hq, Hm'. revert s. apply quiet_repeat, quiet_bind; [by apply quiet_sys |]. intros r. case_match; [by apply quiet_bind | done].
Qed.

Lemma quiet_poll_done fuel c done count : quiet (poll_done fuel c done count).
Proof.
  revert done. induction fuel as [|fuel IH]; intros d; cbn [poll_done]; (case_match; [| apply quiet_return]); [by intros s |].
  apply quiet_bind; [by apply quiet_sys |]. intros r. case_match; [by apply quiet_bind | apply IH].
Qed.

Lemma quiet_poll_nodes fuel count l : quiet (poll_nodes fuel count l).
Proof.
  induction l as [|n l IH]; cbn [poll_nodes]; [done |]. case_match; [| done]. apply quiet_bind; [apply quiet_poll_done |].
  intros r. by case_match.
Qed.

Lemma quiet_get_addr d : quiet (get_addr d).
Proof.
  apply quiet_bind; [by apply quiet_sys |]. intros r. case_match; [by apply quiet_bind |]. apply quiet_bind; [by apply quiet_sys | done].
Qed.

Lemma quiet_leave_all l : forall ret t, quiet (leave_all l ret t).
Proof.
  induction l as [|n l IH]; intros ret t; cbn [leave_all]; [done |]. apply quiet_bind; [by apply quiet_sys |]. intros r.
  apply quiet_bind; [by case_match | intros _; apply IH].
Qed.
End Quiet.

(** ** The handlers keep the invariant *)

Lemma inv_left k t n s : inv k t s -> inv k (with_left n t) s.
Proof. by intros [I0 I1 I2 I3 I4 I5]. Qed.

(** An event settles a debt. *)
Lemma inv_settle k t X R J R' J' : inv k t (mkLedger X R J) -> R' ⊆ R -> J' ⊆ J -> inv k t (mkLedger X R' J').
Proof.
  intros [I0 I1 I2 I3 I4 I5] HR HJ. cbn [stock resolving joining] in *. split; try done; cbn [resolving joining].
  - eapply list.Forall_impl; [apply I4 |]; cbv beta. intros n (H1 & H2 & N1 & N2 & N3). split; [done |]. split; [done |].
    split; [| split; [| done]]; intros H; [destruct (N1 ltac:(set_solver)); split; [done | set_solver] | apply N2; set_solver].
  - set_solver.
Qed.

(** A node can be set up. *)
Definition idle (t : cmatest) (s : ledger) (i : nat) : Prop :=
  forall n, nodes t !! i = Some n -> fresh n /\ (cma_id n ∉ resolving s) /\ (cma_id n ∉ joining s).

(** What a step for node [i] leaves alone. *)
Definition others (i : nat) (t t' : cmatest) (s s' : ledger) : Prop := forall j, j <> i -> idle t s j -> idle t' s' j.

Lemma others_intro k i t t' n n' s s' : inv k t s -> nodes t !! i = Some n -> changed i t t' n' ->
  (forall id, id <> cma_id n -> (id ∈ resolving s' <-> id ∈ resolving s) /\ (id ∈ joining s' <-> id ∈ joining s)) -> others i t t' s s'.
Proof.
  intros [_ _ _ Hnd _ _] Hi [Hc _ _ _] Hs j Hj Hidle m Hm. rewrite Hc, list_lookup_insert_ne in Hm by done.
  destruct (Hidle m Hm) as (H1 & H2 & H3). split; [done |].
  assert (cma_id m <> cma_id n) as Hd.
  { intros E. apply Hj. apply (NoDup_lookup (cma_id <$> nodes t) j i (cma_id n)); [done | by rewrite list_lookup_fmap, Hm, <- E |].
    by rewrite list_lookup_fmap, Hi. }
  destruct (Hs _ Hd) as [-> ->]. done.
Qed.

Section Handlers.
Variables (o : options) (verbs port : Z -> Z) (k : nat).

Lemma tidy_addr_handler i t n s : inv k t s -> nodes t !! i = Some n -> idle t s i ->
  tidy (addr_handler o verbs port i t) (fun x s' => inv k x.1 s' /\ others i t x.1 s s') s.
Proof.
  intros Hinv Hn Hidle. destruct (Hidle n Hn) as (Hf & HR & HJ). pose proof Hf as (F1 & F2 & F3 & F4 & F5 & F6 & F7).
  assert (forall t' n' J', built_from i t n t' n' -> (cma_id n ∈ J' -> usable (message_count t') n') -> (forall id, id <> cma_id n -> (id ∈ J' <-> id ∈ joining s)) ->
    let s' := mkLedger (base t ⊎ owned_all (delete i (nodes t)) ⊎ owned n') (resolving s) J' in inv k t' s' /\ others i t t' s s') as Hkeep.
  { intros t' n' J' [B1 B2 B3 B4 B5 B6] Hu HJ' s'. split.
    - apply (inv_update k i t t' n n' s); try done; [by intros id Hid; split; [| apply HJ'] |]. unfold node_ok. cbn. rewrite B2, B4, B5, F2.
      split_and!; [done | | done]. intros H. auto.
    - eapply others_intro; [done.. |]. intros id Hid. split; [done | by apply HJ']. }
  unfold addr_handler. apply tidy_bind, tidy_of_quiet; [by eapply quiet_verify |]. intros r. destruct (Z.eqb_spec r 0); cbn [negb].
  2: { cbn [tidy fst]. split; [by apply inv_left |]. by intros j _ Hj. }
  apply tidy_bind. destruct s as [X R J]. pose proof (iv_stock _ _ _ Hinv) as Hs. cbn [stock] in Hs. subst X. rewrite (owned_split _ _ _ Hn).
  replace (base t ⊎ (owned n ⊎ owned_all (delete i (nodes t)))) with (base t ⊎ owned_all (delete i (nodes t)) ⊎ owned n) by multiset_solver.
  eapply tidy_mono; [by apply tidy_init_node |]. intros [t' ret] s' (n' & B & -> & Hu). cbn [fst snd resolving joining] in *.
  pose proof (Hkeep t' n' J B ltac:(done) ltac:(done)) as Hk0. pose proof (built_lookup _ _ _ _ _ Hn B) as Hn'.
  destruct (Z.eqb_spec ret 0) as [E | E]; cbn [negb].
  2: { cbn [tidy fst]. destruct Hk0. split; [by apply inv_left | done]. }
  specialize (Hu E). apply tidy_bind, tidy_of_quiet; [case_match; [done | by eapply quiet_post_recvs] |]. intros r2.
  destruct (Z.eqb_spec r2 0); cbn [negb]. 2: { cbn [tidy fst]. destruct Hk0. split; [by apply inv_left | done]. }
  apply tidy_bind, (node_at_run _ _ n'); [done |]. apply tidy_bind, tidy_sys. intros r3 _. cbn [enter stock resolving joining].
  eexists. split; [reflexivity |]. destruct (r3 =? 0); cbn [negb].
  - cbn [tidy fst]. apply Hkeep; [done | by intros _ |]. intros id Hid. rewrite (bf_id _ _ _ _ _ B). set_solver.
  - apply tidy_bind, tidy_say. cbn [tidy fst]. destruct Hk0. split; [by apply inv_left | done].
Qed.

Lemma tidy_join_handler i ev t n s : inv k t s -> nodes t !! i = Some n -> ah n = 0 -> usable (message_count t) n ->
  cma_id n ∉ resolving s -> cma_id n ∉ joining s -> tidy (join_handler i ev t) (fun x s' => inv k x.1 s') s.
Proof.
  intros Hinv Hn Hah Hu HR HJ. unfold join_handler. apply tidy_bind, tidy_of_quiet; [by apply quiet_sys |]. intros _.
  apply tidy_bind, tidy_say. apply tidy_bind, (node_at_run _ _ n); [done |]. apply tidy_bind, tidy_sys. intros a _. cbn [enter].
  destruct s as [X R J]. pose proof (iv_stock _ _ _ Hinv) as Hs. cbn [stock] in Hs. subst X. eexists. split; [reflexivity |].
  rewrite gain_stock, (owned_split _ _ _ Hn).
  replace (base t ⊎ (owned n ⊎ owned_all (delete i (nodes t))) ⊎ one AH a)
    with (base t ⊎ owned_all (delete i (nodes t)) ⊎ (owned n ⊎ one AH a)) by multiset_solver.
  rewrite <- (owned_with_ah (ev_qp_num ev) (ev_qkey ev)) by done. rewrite (owned_split _ _ _ Hn) in Hinv.
  destruct (list.Forall_lookup_1 _ _ _ _ (iv_nodes _ _ _ Hinv) Hn) as (Hid & Hm & _). cbn [resolving joining] in *.
  pose proof (changed_set i t (with_ah (ev_qp_num ev) (ev_qkey ev) a) n Hn) as Hc.
  set (n1 := with_ah (ev_qp_num ev) (ev_qkey ev) a n) in *. destruct (Z.eqb_spec a 0) as [E | E].
  - apply tidy_bind, tidy_say. cbn [tidy fst]. apply inv_left. eapply inv_update; [exact Hinv | exact Hn | exact Hc | done | done | done | by intros id _ | by split_and!].
  - cbn [tidy fst]. apply inv_left.
    assert (changed i t (set_node i with_connected (set_node i (with_ah (ev_qp_num ev) (ev_qkey ev) a) t)) (with_connected n1)) as Hc2.
    { eapply changed_trans; [exact Hc |]. apply changed_set. rewrite (ch_nodes _ _ _ _ Hc). apply list_lookup_insert_eq. by eapply lookup_lt_Some. }
    eapply inv_update; [exact Hinv | exact Hn | exact Hc2 | done | done | done | by intros id _ | by split_and!].
Qed.

Lemma context_found id l : forall i, id ∈ cma_id <$> l -> exists j n, context_of id i l = Some (i + j)%nat /\ l !! j = Some n /\ cma_id n = id.
Proof.
  induction l as [|n l IH]; intros i Hin; [by apply not_elem_of_nil in Hin |]. cbn [context_of]. destruct (Z.eqb_spec (cma_id n) id) as [E | E].
  - exists 0%nat, n. split; [f_equal; lia | done].
  - cbn in Hin. apply elem_of_cons in Hin as [? | Hin]; [congruence |]. destruct (IH (S i) Hin) as (j & m & H1 & H2 & H3).
    exists (S j), m. split; [rewrite H1; f_equal; lia | done].
Qed.

Lemma tidy_cma_handler ch ev t s s' : inv k t s -> fair s (rdma_get_cm_event ch) (0, ev) -> enter s (rdma_get_cm_event ch) (0, ev) = Some s' ->
  tidy (cma_handler o verbs port ev t) (fun x s'' => inv k x.1 s'') s'.
Proof.
  intros Hinv Hf He. destruct s as [X R J]. cbn [fair enter fst snd] in Hf, He. change (0 =? 0) with true in He. cbv iota in He.
  specialize (Hf eq_refl). unfold cma_handler. destruct (ev_type ev); cbn [stock resolving joining] in Hf, He; injection He as <-.
  2,3,5: apply tidy_bind, tidy_say; cbn [tidy fst]; by apply inv_left.
  3,4: done.
  - destruct (context_found (ev_id ev) (nodes t) 0) as (i & n & -> & Hn & Hid).
    { apply (iv_debts _ _ _ Hinv). cbn. set_solver. }
    destruct (list.Forall_lookup_1 _ _ _ _ (iv_nodes _ _ _ Hinv) Hn) as (_ & _ & N1 & _). cbn in N1. rewrite Hid in N1.
    destruct (N1 Hf) as [Hfr HJ]. eapply tidy_mono; [eapply (tidy_addr_handler i t n) |].
    + eapply inv_settle; [exact Hinv | set_solver | done].
    + done.
    + intros m Hm. cbn. assert (m = n) as -> by congruence. rewrite Hid. split; [done |]. set_solver.
    + by intros x s'' [? _].
  - destruct (context_found (ev_id ev) (nodes t) 0) as (i & n & -> & Hn & Hid).
    { apply (iv_debts _ _ _ Hinv). cbn. set_solver. }
    destruct (list.Forall_lookup_1 _ _ _ _ (iv_nodes _ _ _ Hinv) Hn) as (_ & _ & N1 & N2 & _). cbn in N1, N2. rewrite Hid in N1, N2.
    destruct (N2 Hf) as [Hah Hu]. apply (tidy_join_handler i ev t n); [| done | done | done | |].
    + eapply inv_settle; [exact Hinv | done | set_solver].
    + cbn. rewrite Hid. intros HR. by apply (N1 HR).
    + cbn. rewrite Hid. set_solver.
Qed.

Lemma tidy_connect_events fuel : forall t s, inv k t s ->
  tidy (connect_events o verbs port fuel t) (fun x s' => inv k x.1 s') s.
Proof.
  induction fuel as [|fuel IH]; intros t s Hinv; cbn [connect_events]; (case_match; [done |]); [done |].
  apply tidy_bind, tidy_sys. intros [r ev] Hf. cbn [fst snd]. destruct (Z.eqb_spec r 0) as [-> | E]; cbn [negb].
  - assert (exists s', enter s (rdma_get_cm_event (channel t)) (0, ev) = Some s') as [s' He] by (cbn; case_match; eauto).
    exists s'. split; [done |]. apply tidy_bind. eapply tidy_mono; [by eapply tidy_cma_handler |].
    intros [t' ret] s'' Hx. apply tidy_bind, tidy_quiet; [done |]. intros _. case_match; [by apply IH | done].
  - exists s. split; [cbn; by rewrite (proj2 (Z.eqb_neq _ _) E) | done].
Qed.

Lemma tidy_start_all m : forall i t s, inv k t s -> (i + m = k)%nat -> (forall j, (i <= j)%nat -> idle t s j) ->
  tidy (start_all o verbs port m i t) (fun x s' => inv k x.1 s') s.
Proof.
  induction m as [|m IH]; intros i t s Hinv Hk Hidle; cbn [start_all]; [done |].
  destruct (lookup_lt_is_Some_2 (nodes t) i) as [n Hn]; [rewrite (iv_length _ _ _ Hinv); lia |].
  apply tidy_bind, (node_at_run _ _ n); [done |]. apply tidy_bind, tidy_of_quiet; [case_match; [by apply quiet_sys | done] |].
  intros r. case_match. { apply tidy_bind, tidy_say. cbn [tidy fst]. by apply inv_left. }
  apply tidy_bind. apply (tidy_mono _ (fun x s' => inv k x.1 s' /\ forall j, (S i <= j)%nat -> idle x.1 s' j)).
  - destruct (unmapped_addr o).
    + eapply tidy_mono; [eapply (tidy_addr_handler i t n); [done | done | apply Hidle; lia] |].
      intros x s' [Hx Ho]. split; [done |]. intros j Hj. apply Ho; [lia |]. apply Hidle. lia.
    + destruct (Hidle i ltac:(lia) n Hn) as (Hfr & HR & HJ). apply tidy_bind, tidy_sys. intros r2 _. cbn [enter]. eexists. split; [reflexivity |].
      cbn [tidy fst]. destruct s as [X R J]. cbn [stock resolving joining] in *.
      assert (changed i t t n) as Hc by (split; [by rewrite list_insert_id | done | done | by left]).
      assert (forall id, id <> cma_id n -> (id ∈ (if r2 =? 0 then {[cma_id n]} ∪ R else R) <-> id ∈ R) /\ (id ∈ J <-> id ∈ J)) as Hs.
      { intros id Hid. split; [| done]. destruct (r2 =? 0); [| done]. rewrite elem_of_union, elem_of_singleton. tauto. }
      destruct (list.Forall_lookup_1 _ _ _ _ (iv_nodes _ _ _ Hinv) Hn) as (_ & Hm & _ & _ & N3). split.
      * eapply inv_update; [exact Hinv | exact Hn | exact Hc | done | done | | exact Hs |].
        -- pose proof (iv_stock _ _ _ Hinv) as Hst. cbn in Hst |- *. rewrite Hst, (owned_split _ _ _ Hn). multiset_solver.
        -- by split_and!.
      * intros j Hj. eapply others_intro; [exact Hinv | exact Hn | exact Hc | exact Hs | lia |]. apply Hidle. lia.
  - intros [t' ret] s' [Hx Hi]. cbn [fst] in *. case_match; [apply tidy_bind, tidy_say; by apply inv_left |].
    apply IH; [done | lia | done].
Qed.

Lemma quiet_send_all m : forall i t s, inv k t s -> (i + m = k)%nat -> tidy (send_all o m i t) (fun _ s' => s' = s) s.
Proof.
  induction m as [|m IH]; intros i t s Hinv Hk; cbn [send_all]; [done |].
  destruct (lookup_lt_is_Some_2 (nodes t) i) as [n Hn]; [rewrite (iv_length _ _ _ Hinv); lia |].
  destruct (list.Forall_lookup_1 _ _ _ _ (iv_nodes _ _ _ Hinv) Hn) as (_ & _ & _ & _ & N3).
  apply tidy_bind, tidy_of_quiet; [by eapply quiet_post_sends |]. intros r. case_match; [done |]. apply IH; [done | lia].
Qed.

Lemma tidy_transfer fuel t s : inv k t s -> k = Z.to_nat (connections o) -> tidy (transfer o fuel t) (fun _ s' => s' = s) s.
Proof.
  intros Hinv Hk. unfold transfer. case_match; [done |]. apply tidy_bind.
  apply (tidy_mono _ (fun _ s' => s' = s)).
  - case_match; apply tidy_bind, tidy_say; [apply quiet_send_all; [done | lia] | apply quiet_poll_nodes].
  - intros r s' ->. case_match; [done |]. by apply tidy_bind, tidy_say.
Qed.

Lemma tidy_run_nodes fuel t s : inv k t s -> k = Z.to_nat (connections o) -> (forall j, idle t s j) ->
  tidy (run o verbs port fuel t) (fun x s' => inv k x.1 s') s.
Proof.
  intros Hinv Hk Hidle. unfold run. apply tidy_bind, tidy_say. apply tidy_bind, tidy_of_quiet; [case_match; [apply quiet_get_addr | done] |].
  intros x. case_match; [by destruct Hinv |]. apply tidy_bind, tidy_of_quiet; [apply quiet_get_addr |].
  intros y. case_match; [by destruct Hinv |]. apply tidy_bind, tidy_say. apply tidy_bind. eapply tidy_mono.
  - apply tidy_start_all; [by destruct Hinv | lia | by intros j _ m Hm; apply (Hidle j)].
  - intros [t' ret] s' Hx. cbn [fst] in Hx. case_match; [done |]. apply tidy_bind. eapply tidy_mono; [by apply tidy_connect_events |].
    clear s' t' Hx ret H1. intros [t' ret] s' Hx. cbn [fst] in Hx. apply tidy_bind. apply (tidy_mono _ (fun _ s'' => s'' = s')).
    + case_match; [done |]. apply tidy_bind, tidy_quiet; [done |]. intros _. by apply tidy_transfer.
    + intros r s'' ->. apply tidy_bind, tidy_of_quiet; [apply quiet_leave_all | done].
Qed.
End Handlers.

Lemma inv_alloc t p l : channel t <> 0 -> p <> 0 -> blank l ->
  inv (length l) (with_nodes p l t) (mkLedger (base (with_nodes p l t) ⊎ owned_all l) ∅ ∅) /\
  forall j, idle (with_nodes p l t) (mkLedger (base (with_nodes p l t) ⊎ owned_all l) ∅ ∅) j.
Proof.
  intros Hch Hp [B1 B2 B3]. split.
  - split; try done; cbn [nodes with_nodes message_count resolving joining].
    apply list.Forall_lookup_2. intros i n Hn. pose proof (list.Forall_lookup_1 _ _ _ _ B1 Hn) as Hf.
    split; [by apply (list.Forall_lookup_1 _ _ _ _ B2 Hn) |]. split; [by apply fresh_memok |]. destruct Hf as (_ & E & _).
    split; [set_solver |]. split; [set_solver |]. by rewrite E.
  - intros j n Hn. split; [by apply (list.Forall_lookup_1 _ _ _ _ B1 Hn) |]. cbn. set_solver.
Qed.

(** ** The whole program *)

Lemma tidy_main fuel verbs port opts : tidy (main fuel verbs port opts) (fun _ s => stock s = ∅) no_debts.
Proof.
  unfold main. destruct (parse defaults opts) as [o|]; [| apply tidy_bind; do 8 apply tidy_bind, tidy_say; apply tidy_say; by left].
  apply tidy_bind, tidy_sys. intros ch _. cbn [enter]. eexists. split; [reflexivity |]. unfold no_debts. rewrite gain_stock.
  rewrite gmultiset_disj_union_left_id. destruct (Z.eqb_spec ch 0) as [E | E]; [apply tidy_bind, tidy_say; left; by rewrite E |].
  apply tidy_bind. change ch with (channel (mkTest ch 0 [] (connections o) (init_count o) 0 0)) at 2. apply tidy_alloc_nodes.
  intros p l ret Hret. split; intros Er.
  2: { rewrite (proj2 (Z.eqb_neq _ _) Er). right. exists ch. cbn [channel stock]. unfold one. by rewrite (proj2 (Z.eqb_neq _ _) E). }
  destruct (Hret Er) as (Hp & Hb & Hl). subst ret. change (negb (0 =? 0)) with false. cbv iota.
  destruct (inv_alloc (mkTest ch 0 [] (connections o) (init_count o) 0 0) p l E Hp Hb) as [Hinv Hidle].
  set (t := with_nodes p l _) in *. apply tidy_bind. eapply tidy_mono; [by eapply tidy_run_nodes |].
  intros [t' r] s Hx. cbn [fst] in Hx. apply tidy_bind, tidy_say. destruct Hx as [_ Hst [Hp' Hch'] _ Hnodes _]. destruct s as [X R J].
  cbn [stock] in Hst. subst X. unfold base. rewrite !one_some by done. apply tidy_bind, tidy_bind, tidy_destroy_all.
  { eapply list.Forall_impl; [apply Hnodes |]. cbv beta. intros m Hm. by destruct Hm as (? & ? & _). }
  apply tidy_sys. intros [] _. cbn [enter]. rewrite (proj2 (Z.eqb_neq _ _) Hp'). eexists. split; [apply lose_stock |].
  apply tidy_bind, tidy_sys. intros [] _. cbn [enter]. eexists.
  split; [rewrite <- (gmultiset_disj_union_left_id {[+ (CHANNEL, channel t') +]}); apply lose_stock |]. by apply tidy_bind, tidy_say.
Qed.

Definition answers_fairly (e : env) : Prop := forall h s c, account h = Some s -> fair s c (e h c).

(** A run that returns has nothing left.  [exit] comes early: without options
    or a channel, with nothing, or without nodes, with the event channel and
    nothing else.  No run reads through a null pointer or releases what it does
    not hold. *)
Definition gives_back (x : trace * result Z) : Prop :=
  match x with
  | (h, Returned _) => exists s, account h = Some s /\ stock s = ∅
  | (h, Stopped (Exit _)) => exists s, account h = Some s /\ (stock s = ∅ \/ exists ch, stock s = {[+ (CHANNEL, ch) +]})
  | (h, Stopped st) => st <> Fault Segv /\ is_Some (account h)
  end.

(** C20. Whatever fails on the way, as long as memory can be registered, the
    multicast benchmark releases everything it acquired, each thing once, when
    [main] returns; when it exits before it has nodes, nothing is left but
    possibly the event channel; and it does not read through a null pointer. *)
Theorem mckey_leaves_nothing e fuel verbs port opts : answers_fairly e ->
  gives_back (Verbs.run e [] (main fuel verbs port opts)).
Proof.
  intros He. pose proof (tidy_run e [] no_debts _ _ He eq_refl (tidy_main fuel verbs port opts)) as H.
  unfold gives_back. destruct (Verbs.run e [] (main fuel verbs port opts)) as [h [a | st]]; [done |]. destruct H as (s & Hs & Hst).
  destruct st as [code | [] |]; try done; eauto.
Qed.

(** An environment in which everything works: fresh ids, the events in the
    order of the requests, a completion for every poll. *)
Definition obliging : env := fun h c =>
  let new := 1 + Z.of_nat (length h) in
  match c return reply c with
  | ibv_get_device_list => None
  | ibv_get_device_name _ => ""%string
  | ibv_query_port _ _ => (0, mkPort 1 5)
  | ibv_reg_mr _ _ _ _ => Some (mkMr new new new)
  | ibv_create_qp _ _ | ibv_create_qp_srq _ _ _ => None
  | ibv_query_qp _ _ => (0, IBV_QPS_RTS, 0)
  | ibv_poll_cq _ _ => Polled [mkWc 0 IBV_WC_SUCCESS true 0 0 0 0]
  | ibv_get_cq_event _ => (0, 0)
  | rdma_create_id _ _ _ =>
      match account h with
      | Some s => if decide ((ID, new) ∈ stock s) then (1, 0) else (0, new)
      | None => (1, 0)
      end
  | rdma_create_qp _ _ _ => (0, mkQp new IBV_QPT_UD)
  | rdma_get_cm_event _ =>
      let event id ty := mkEvent id ty 0 0 0 (mkAh 0 0 0 0 0) in
      match account h with
      | Some s =>
          match elements (resolving s), elements (joining s) with
          | id :: _, _ => (0, event id RDMA_CM_EVENT_ADDR_RESOLVED)
          | [], id :: _ => (0, event id RDMA_CM_EVENT_MULTICAST_JOIN)
          | [], [] => (1, event 0 RDMA_CM_EVENT_OTHER)
          end
      | None => (1, event 0 RDMA_CM_EVENT_OTHER)
      end
  | inet_pton _ => (0, 0)
  | getaddrinfo _ _ => (0, [7])
  | read _ _ => None
  | clock_gettime => (0, (0, 0))
  | ibv_free_device_list | freeaddrinfo | free _ | memset _ _ _ | store_byte _ _ | sleep _
  | srand48 _ | printf _ _ | perror _ | ibv_ack_cq_events _ _ | rdma_destroy_qp _ | rdma_destroy_event_channel _ => tt
  | malloc _ | ibv_alloc_pd _ | ibv_create_cq _ _ | ibv_create_ah _ _ | rdma_create_event_channel => new
  | _ => 0
  end.

Lemma obliging_fair : answers_fairly obliging.
Proof.
  intros h s c Hs. destruct c; try done; cbn [fair obliging].
  - eexists. split; [reflexivity |]. cbn. lia.
  - rewrite Hs. case_decide; cbn [fst snd]; [done |]. intros _. split; [lia | done].
  - rewrite Hs. destruct (elements (resolving s)) as [|id l] eqn:E; [destruct (elements (joining s)) as [|id l] eqn:E' |]; cbn.
    + done.
    + intros _. apply elem_of_elements. rewrite E'. by left.
    + intros _. apply elem_of_elements. rewrite E. by left.
Qed.

Lemma mckey_leaves_nothing_witness :
  (Verbs.run obliging [] (main 10 (fun id => id) (fun _ => 1) [opt_m "239.0.0.1"; opt_s; opt_c 2; opt_C 3])).2 = Returned 0 /\
  gives_back (Verbs.run obliging [] (main 10 (fun id => id) (fun _ => 1) [opt_m "239.0.0.1"; opt_s; opt_c 2; opt_C 3])).
Proof. split; [vm_compute; reflexivity | apply mckey_leaves_nothing, obliging_fair]. Defined.
