(* ===== verification/Prime.v ===== *)
(** * [prime.cc]: choosing the number of buckets

    The program prints the candidates for the size of the hash table of a
    tablet.  Its test stops before the square root, so the square of a prime
    passes; in the range it searches there is none. *)

From Stdlib Require Import Znumtheory Sorting.Sorted.
From S2P Require Import Prelude Tablet.

Module Prime.

(** A product of two [int]s; [None] when it overflows, which is undefined. *)
Definition int_mul (a b : Z) : option Z := if (- 2 ^ 31 <=? a * b) && (a * b <? 2 ^ 31) then Some (a * b) else None.

(** [for (int i = 2; i * i < x; ++i)], from [i] on; [None] also when the fuel
    is used up. *)
Fixpoint divisor_loop (fuel : nat) (i x : Z) : option bool :=
  match fuel with
  | O => None
  | S fuel' =>
      sq ← int_mul i i;
      if sq <? x then if Z.rem x i =? 0 then Some false else divisor_loop fuel' (i + 1) x
      else Some true
  end.

Definition is_prime (fuel : nat) (x : Z) : option bool := divisor_loop fuel 2 x.

(** The loop of [main]: what it prints, from [i] on for [n] numbers. *)
Fixpoint print_primes (fuel n : nat) (i : Z) : option (list Z) :=
  match n with
  | O => Some []
  | S n' => b ← is_prime fuel i; l ← print_primes fuel n' (i + 1); Some (if b : bool then i :: l else l)
  end.

Definition main (fuel : nat) : option (list Z) := print_primes fuel (Z.to_nat (1000100 - 999900)) 999900.

(** ** What the test decides *)

Definition no_small_divisor (x : Z) : Prop := forall d, 2 <= d -> d * d < x -> ~ (d | x).

Lemma int_mul_small a b : 0 <= a * b < 2 ^ 31 -> int_mul a b = Some (a * b).
Proof. intros H. unfold int_mul. by rewrite (proj2 (Z.leb_le _ _)), (proj2 (Z.ltb_lt _ _)) by lia. Qed.

(** Up to the largest square of an [int] nothing overflows, and as much fuel
    as the square root is enough. *)
Lemma divisor_loop_spec x fuel : forall i, 2 <= i -> x <= 46340 * 46340 -> (i = 2 \/ (i - 1) * (i - 1) < x) ->
  (forall d, 2 <= d < i -> ~ (d | x)) -> (0 < fuel)%nat -> x <= (i + Z.of_nat fuel - 1) * (i + Z.of_nat fuel - 1) ->
  exists b, divisor_loop fuel i x = Some b /\ (b = true <-> no_small_divisor x).
Proof.
  induction fuel as [|fuel IH]; intros i Hi Hx Hp Hd H0 Hf; [lia |]. cbn [divisor_loop].
  assert (i <= 46340) by nia. rewrite int_mul_small by nia. cbn [mbind option_bind]. destruct (Z.ltb_spec (i * i) x) as [Hlt | Hge].
  - destruct (Z.eqb_spec (Z.rem x i) 0) as [E | E].
    + exists false. split; [done |]. split; [done |]. intros Hn. destruct (Hn i Hi Hlt). by apply Z.rem_divide; [lia |].
    + destruct fuel as [|fuel]; [nia |]. apply IH; [lia | done | right; nia | | lia | nia].
      intros d Hd2. destruct (decide (d = i)) as [-> | Hne]; [| apply Hd; lia]. by rewrite <- Z.rem_divide by lia.
  - exists true. split; [done |]. split; [| done]. intros _ d Hd2 Hdx. apply Hd. nia.
Qed.

(** Numbers without a divisor below the square root are the primes and their
    squares. *)
Lemma no_small_divisor_prime x : 2 <= x -> (no_small_divisor x <-> Z.prime x \/ exists p, Z.prime p /\ x = p * p).
Proof.
  intros Hx. split.
  - intros Hn. destruct (prime_dec x) as [?%prime_alt | Hnp]; [by left |]. right.
    destruct (not_prime_divide x ltac:(lia) Hnp) as (n & Hnx & m & Hm).
    assert (1 < m < x) as Hmx by nia. assert (forall a b, x = a * b -> 1 < a -> x <= a * a) as Hsq.
    { intros a b E Ha. destruct (Z.le_gt_cases x (a * a)); [done |]. destruct (Hn a); [lia | lia |]. exists b. lia. }
    pose proof (Hsq n m ltac:(lia) ltac:(lia)). pose proof (Hsq m n Hm ltac:(lia)).
    assert (m = n) as -> by nia. exists n. split; [| done]. split; [lia |]. intros e He Hen.
    apply (Hn e); [lia | nia |]. rewrite Hm. by apply Z.divide_mul_l.
  - intros [Hp | (p & Hp & ->)] d Hd Hlt Hdx.
    + destruct (Z.divide_prime_r d x Hp Hdx) as [? | [? | [? | ?]]]; nia.
    + assert (2 <= p) by (by apply Z.prime_ge_2). assert (d < p) by nia.
      apply (proj2 Hp d); [lia |]. apply (Z.gauss _ p); [done |]. rewrite Z.gcd_comm.
      apply Z.coprime_prime_small; [done | lia].
Qed.

Lemma is_prime_spec fuel x : 2 <= x <= 46340 * 46340 -> x <= (Z.of_nat fuel + 1) * (Z.of_nat fuel + 1) -> (0 < fuel)%nat ->
  exists b, is_prime fuel x = Some b /\ (b = true <-> Z.prime x \/ exists p, Z.prime p /\ x = p * p).
Proof.
  intros Hx Hf H0. destruct (divisor_loop_spec x fuel 2) as (b & E & Hb); [lia | lia | by left | lia | done | nia |].
  exists b. split; [done |]. by rewrite Hb, no_small_divisor_prime by lia.
Qed.

Lemma print_primes_spec fuel n : forall i, 2 <= i -> i + Z.of_nat n <= 46340 * 46340 ->
  i + Z.of_nat n <= (Z.of_nat fuel + 1) * (Z.of_nat fuel + 1) -> (0 < fuel)%nat ->
  exists l, print_primes fuel n i = Some l /\ StronglySorted Z.lt l /\
    forall x, x ∈ l <-> i <= x < i + Z.of_nat n /\ (Z.prime x \/ exists p, Z.prime p /\ x = p * p).
Proof.
  induction n as [|n IH]; intros i Hi Hn Hf H0; cbn [print_primes].
  - exists []. split; [done |]. split; [constructor |]. intros x. split; [by intros ?%not_elem_of_nil | lia].
  - destruct (is_prime_spec fuel i) as (b & -> & Hb); [lia | lia | done |]. cbn [mbind option_bind].
    destruct (IH (i + 1)) as (l & -> & Hs & Hl); [lia.. | done |]. cbn [mbind option_bind]. eexists. split; [reflexivity |].
    assert (forall x, x ∈ l -> i < x) as Hlt by (intros x Hx; apply Hl in Hx; lia). split.
    + destruct b; [| done]. constructor; [done |]. by apply list.Forall_forall.
    + intros x. destruct b; [rewrite elem_of_cons |]; rewrite Hl.
      * split; [intros [-> | ?]; [split; [lia | by apply Hb] | split; [lia | tauto]] |].
        intros [Hr Hx]. destruct (decide (x = i)); [by left | right; split; [lia | done]].
      * split; [intros [? ?]; split; [lia | done] |]. intros [Hr Hx]. split; [| done].
        destruct (decide (x = i)) as [-> | ?]; [| lia]. by apply Hb in Hx.
Qed.

(** C40. The test takes the primes and the squares of primes; between 999900
    and 1000100 there is no square of a prime, so the program prints exactly
    the primes of the range, in order.  The size of the hash table of a tablet
    is the first of them above a million. *)
Theorem main_prints_primes : exists l, main 1000 = Some l /\ StronglySorted Z.lt l /\
  (forall x, x ∈ l <-> 999900 <= x < 1000100 /\ Z.prime x) /\
  Tablet.kHashTableSize ∈ l /\ forall x, x ∈ l -> 10 ^ 6 < x -> Tablet.kHashTableSize <= x.
Proof.
  destruct (print_primes_spec 1000 (Z.to_nat (1000100 - 999900)) 999900) as (l & E & Hs & Hl); [lia.. |].
  exists l. split; [done |]. split; [done |]. split.
  - intros x. rewrite Hl. split; [| tauto]. intros [Hr [? | (p & Hp & ->)]]; [split; [lia | done] |].
    assert (2 <= p) by (by apply Z.prime_ge_2). assert (p = 1000) as -> by nia.
    destruct (Z.divide_prime_r 2 1000 Hp ltac:(exists 500; lia)) as [? | [? | [? | ?]]]; lia.
  - vm_compute in E. injection E as <-. split; [apply list_elem_of_In; cbn; tauto |].
    intros x Hx. unfold Tablet.kHashTableSize. repeat (apply elem_of_cons in Hx as [-> | Hx]; [lia |]). by apply not_elem_of_nil in Hx.
Qed.

End Prime.
