(* ===== verification/Ibud.v ===== *)
(** * [experiments/ibud.c] (and [cs/ibud.c]): datagrams that cannot be sent

    The program takes the RC set-up to a datagram queue pair and posts RDMA
    READ requests whose address handle it overwrites. *)

From S2P Require Import Prelude Verbs Protocol RcPerf Loopback.

#[local] Open Scope prog_scope.

(** ** What it shares with the other programs *)

Definition nvds_set_qp_state_init := RcPerf.nvds_set_qp_state_init.
Definition nvds_set_qp_state_rtr := RcPerf.nvds_set_qp_state_rtr.
Definition nvds_set_qp_state_rts := RcPerf.nvds_set_qp_state_rts.
Definition nvds_server_exch_info := RcPerf.nvds_server_exch_info.
Definition nvds_client_exch_info := RcPerf.nvds_client_exch_info.
Definition nvds_poll_send := RcPerf.nvds_poll_send.

(** ** [ibud.h], [ibud.c] *)

Definition QP_TYPE : ibv_qp_type := IBV_QPT_UD.
Definition QKEY : Z := 13.
Definition IB_PORT : Z := 1.
Definition RDMA_WRITE_LEN : Z := 64.
Definition RDMA_READ_LEN : Z := RDMA_WRITE_LEN.
Definition ibud_n : Z := 1000 * 1000.

Definition nvds_rdma_read (ctx : nvds_context) (data : nvds_data) : prog nvds_context :=
  let g := mkSge (buf ctx + RDMA_WRITE_LEN) RDMA_READ_LEN (lkey (mr ctx)) in
  let u := set_rdma (vaddr (remote_conn data)) (c_rkey (remote_conn data)) (s_wr (wr ctx)) in
  post_wr (with_wr g (mkSend RDMA_READ_ID [g] IBV_WR_RDMA_READ [IBV_SEND_SIGNALED] u (s_imm (wr ctx))) ctx).

Definition nvds_post_send (ctx : nvds_context) (data : nvds_data) : prog nvds_context :=
  check (bool_decide (qp_type (qp ctx) = IBV_QPT_UD)) ;;;
  let g := mkSge (buf ctx + RDMA_WRITE_LEN) RDMA_READ_LEN (lkey (mr ctx)) in
  (* Init unreliable datagram *)
  ah <- sys (ibv_create_ah (pd ctx) (mkAh 0 (u16 (lid (remote_conn data))) 1 0 IB_PORT)) ;;
  let u := set_ud ah (u32 (qpn (remote_conn data))) QKEY (s_wr (wr ctx)) in
  check (negb (ud_ah u =? 0)) ;;;
  (* The address read from *)
  let u := set_rdma (vaddr (remote_conn data)) (c_rkey (remote_conn data)) u in
  post_wr (with_wr g (mkSend RDMA_READ_ID [g] IBV_WR_RDMA_READ [IBV_SEND_SIGNALED] u (s_imm (wr ctx))) ctx).

Definition nvds_post_recv (ctx : nvds_context) (data : nvds_data) : prog unit := Ret tt.

Definition nvds_run_server (fuel : nat) (ctx : nvds_context) (data : nvds_data) : prog unit :=
  data <- nvds_server_exch_info data ;;
  (* Set queue pair state to RTR(Read to Receive) *)
  nvds_set_qp_state_rtr (qp ctx) data ;;;
  while_ fuel (fun _ => true) Ret tt.

Definition nvds_run_client (ctx : nvds_context) (data : nvds_data) : prog unit :=
  data <- nvds_client_exch_info data ;;
  nvds_set_qp_state_rts (qp ctx) data ;;;
  sys (snprintf (buf ctx) RDMA_WRITE_LEN "hello rdma\n") ;;;
  (* Test write latency *)
  begin <- sys clock ;;
  ctx <- for_ (Z.to_nat ibud_n) (fun ctx => nvds_post_send ctx data) ctx ;;
  t <- sys clock ;;
  sys (printf "time: %fs\n" [t - begin]) ;;;
  sys (printf "write latency: %fus\n" [t - begin; ibud_n]) ;;;
  (* Test read latency: an empty loop *)
  begin <- sys clock ;;
  t <- sys clock ;;
  sys (printf "time: %fs\n" [t - begin]) ;;;
  sys (printf "read latency: %fus\n" [t - begin; ibud_n]) ;;;
  exit 0.

Definition nvds_init_local_ib_connection (ctx : nvds_context) (data : nvds_data) : prog nvds_data :=
  r <- sys (ibv_query_port (context ctx) (ib_port data)) ;;
  nvds_expect (r.1 =? 0) "ibv_query_port() failed" ;;;
  psn <- sys lrand48 ;;
  Ret (with_local (mkConn (port_lid r.2) (s32 (qp_num (qp ctx))) (Z.land psn 16777215 (* 0xffffff *))
         (rkey (mr ctx)) (buf ctx)) data).

Definition nvds_init_ctx (page_size : Z) (data : nvds_data) : prog (nvds_context * nvds_data) :=
  (* Get IB device *)
  l <- sys ibv_get_device_list ;;
  nvds_expect (bool_decide (is_Some l)) "ibv_get_device_list() failed" ;;;
  let dev := hd 0 (default [] l) in
  (* Open IB device *)
  context <- sys (ibv_open_device dev) ;;
  nvds_expect (negb (context =? 0)) "ibv_open_device() failed" ;;;
  (* Alloc protection domain *)
  pd <- sys (ibv_alloc_pd context) ;;
  nvds_expect (negb (pd =? 0)) "ibv_alloc_pd() failed" ;;;
  (* Alloc buffer for write *)
  buf <- sys (memalign page_size (d_size data)) ;;
  sys (memset buf 0 (d_size data)) ;;;
  (* Register memory region *)
  m <- sys (ibv_reg_mr pd buf (d_size data)
         [IBV_ACCESS_LOCAL_WRITE; IBV_ACCESS_REMOTE_READ; IBV_ACCESS_REMOTE_WRITE]) ;;
  nvds_expect (bool_decide (is_Some m)) "ibv_reg_mr() failed" ;;;
  (* Create completion channel *)
  ch <- sys (ibv_create_comp_channel context) ;;
  nvds_expect (negb (ch =? 0)) "ibv_create_comp_channel() failed" ;;;
  (* Create complete queue *)
  rcq <- sys (ibv_create_cq context 1) ;;
  nvds_expect (negb (rcq =? 0)) "ibv_create_cq() failed" ;;;
  scq <- sys (ibv_create_cq context (d_tx_depth data)) ;;
  nvds_expect (negb (rcq =? 0)) "ibv_create_cq() failed" ;;;
  (* Create & init queue pair *)
  q <- sys (ibv_create_qp pd (mkInit scq rcq QP_TYPE 0 (d_tx_depth data) 1 1 1 0)) ;;
  nvds_expect (bool_decide (is_Some q)) "ibv_create_qp() failed" ;;;
  let q := default (mkQp 0 QP_TYPE) q in
  nvds_set_qp_state_init q data ;;;
  Ret (mkCtx context pd (default (mkMr 0 0 0) m) rcq scq q buf (d_size data) (d_tx_depth data)
         (mkSge 0 0 0) zero_wr, with_dev dev data).

Definition main (fuel : nat) (argc : Z) (argv : list string) : prog Z :=
  nvds_expect (argc <=? 2) "too many arguments" ;;;
  let is_client := argc =? 2 in
  let data := mkData 5500 IB_PORT 65536 100 (if is_client then nth_error argv 1 else None) zero_conn zero_conn 0 in
  pid <- sys getpid ;;
  t <- sys time_ ;;
  sys (srand48 (pid * t)) ;;;
  page_size <- sys sysconf_pagesize ;;
  cd <- nvds_init_ctx page_size data ;;
  data <- nvds_init_local_ib_connection cd.1 cd.2 ;;
  (if is_client then nvds_run_client cd.1 data else nvds_run_server fuel cd.1 data) ;;;
  Ret 0.

(** ** What is wrong *)

(** The calls that change the state of a queue pair. *)
Definition is_modify (c : call) : bool := match c with ibv_modify_qp _ _ _ => true | _ => false end.

(** From [d], no queue pair changes its state unless a rule is broken. *)
Fixpoint doomed {A} (d : device) (p : prog A) : Prop :=
  match p with
  | Ret _ | Stop _ => True
  | Vis c k => allowed d c = true -> is_modify c = false /\ forall r, reply_ok d c r = true -> doomed (after d c r) (k r)
  end.

Lemma judged_run {A} e h (p : prog A) : (forall d, judge h <> Running d) -> judge (run e h p).1 = judge h.
Proof.
  revert h. induction p as [a | s | c k IH]; intros h Hh; cbn [run fst]; [done.. |].
  assert (judge (mkCall c (e h c) :: h) = judge h) as E by (cbn [judge]; destruct (judge h) as [d | |]; [by destruct (Hh d) | done..]).
  rewrite IH; [done |]. by rewrite E.
Qed.

Lemma doomed_run {A} e (p : prog A) : forall h d, judge h = Running d -> doomed d p -> Forall (fun ev => is_modify (ev_call ev) = false) h ->
  let h' := (run e h p).1 in judge h' = Excused \/ misused (judge h') = true \/ Forall (fun ev => is_modify (ev_call ev) = false) h'.
Proof.
  induction p as [a | s | c k IH]; intros h d Hj Hd Hh; cbn [run fst]; [by right; right.. |]. cbn [doomed] in Hd.
  set (ev := mkCall c (e h c)). destruct (allowed d c) eqn:Ha.
  - destruct (Hd eq_refl) as [Hm Hk]. destruct (reply_ok d c (e h c)) eqn:Hr.
    + apply (IH _ _ (after d c (e h c))); [| by apply Hk | by constructor]. cbn [judge ev_call ev_reply ev]. by rewrite Hj, Ha, Hr.
    + left. assert (judge (ev :: h) = Excused) as Ex by (cbn [judge ev_call ev_reply ev]; by rewrite Hj, Ha, Hr). rewrite judged_run; [done | intros ?; by rewrite Ex].
  - right. left. assert (judge (ev :: h) = Misused c) as Em by (cbn [judge ev_call ev]; by rewrite Hj, Ha). rewrite judged_run; [by fold ev; rewrite Em | intros ?; by rewrite Em].
Qed.

Lemma doomed_sys {B} d c (k : reply c -> prog B) : is_modify c = false ->
  (forall r, reply_ok d c r = true -> doomed (after d c r) (k r)) -> doomed d (pbind (sys c) k).
Proof. intros Hc Hk. cbn. by split. Qed.

Lemma doomed_expect {B} d b err (k : unit -> prog B) : (b = true -> doomed d (k tt)) -> doomed d (pbind (RcPerf.nvds_expect b err) k).
Proof. destruct b; cbn; [auto |]. by repeat (split; [done |]; intros). Qed.

Lemma doomed_assoc {A B C} d (p : prog A) (k : A -> prog B) (l : B -> prog C) : doomed d (pbind p (fun a => pbind (k a) l)) -> doomed d (pbind (pbind p k) l).
Proof.
  revert d. induction p as [a | s | c k' IH]; intros d; cbn [doomed pbind]; [done | done |].
  intros Hp Ha. destruct (Hp Ha) as [Hc Hk]. split; [done |]. auto.
Qed.

Ltac doom := repeat apply doomed_assoc; first [apply doomed_sys; [done |]; intros ? ? | apply doomed_expect; intros ?].

(** The transition to INIT names the access flags and not the queue key. *)
Lemma doomed_init_ctx {B} d page_size data (k : nvds_context * nvds_data -> prog B) : doomed d (pbind (nvds_init_ctx page_size data) k).
Proof.
  unfold nvds_init_ctx. do 16 doom. repeat apply doomed_assoc. apply doomed_sys; [done |]. intros q Hq. doom. destruct q as [q |]; [| done]. cbn [default].
  unfold nvds_set_qp_state_init, RcPerf.nvds_set_qp_state_init. repeat apply doomed_assoc. cbn [pbind sys doomed after]. intros Ha. exfalso.
  cbn [allowed set_qp qps] in Ha. rewrite lookup_insert_eq in Ha. vm_compute in Ha. discriminate Ha.
Qed.

(** C21. Whatever the device answers, and in either role, a run that comes to
    change the state of its queue pair breaks the rules, unless the device has
    answered what it may not: the program brings a datagram queue pair to INIT
    with access flags and without a queue key, the attributes of a connected
    one.  A run that keeps the rules has given up before. *)
Theorem ibud_breaks_the_rules fuel argc argv e :
  let h := (run e [] (main fuel argc argv)).1 in
  Exists (fun ev => is_modify (ev_call ev) = true) h -> judge h = Excused \/ misused (judge h) = true.
Proof.
  intros h Hm. assert (doomed empty_device (main fuel argc argv)) as Hd.
  { unfold main. do 5 doom. apply doomed_init_ctx. }
  destruct (doomed_run e _ [] empty_device eq_refl Hd ltac:(constructor)) as [? | [? | Hf]]; [by left | by right |].
  exfalso. fold h in Hf. apply list.Exists_exists in Hm as (ev & Hin & Ev). rewrite list.Forall_forall in Hf. specialize (Hf ev Hin). congruence.
Qed.

(** On a device where every call succeeds it is not excused. *)
Lemma ibud_breaks_the_rules_witness :
  let h := (run loopback [] (main 0 1 ["ibud"%string])).1 in misused (judge h) = true.
Proof.
  intros h.
  assert (existsb (fun ev => is_modify (ev_call ev)) h = true /\ match judge h with Excused => false | _ => true end = true) as [H1 H2] by (vm_compute; by split).
  destruct (ibud_breaks_the_rules 0 1 ["ibud"%string] loopback) as [E | E]; [| | exact E].
  - apply list.Exists_exists. apply existsb_exists in H1 as (ev & Hin & Hev). exists ev. split; [by apply list_elem_of_In | exact Hev].
  - fold h in E. rewrite E in H2. discriminate H2.
Defined.

(** What [nvds_post_send] posts is never what the preparation of the
    datagram asked for: the [rdma] member of the union is written after the
    [ud] member, so the address handle just created is replaced by the peer's
    buffer address and the queue pair number by its key, and the operation is
    an RDMA READ, which a datagram queue pair does not have. *)
Theorem ibud_send_loses_handle e h ctx data h' ctx' :
  run e h (nvds_post_send ctx data) = (h', Returned ctx') ->
  qp_type (qp ctx) = IBV_QPT_UD /\ opcode_ok (qp_type (qp ctx)) (s_opcode (wr ctx')) = false /\
  ud_ah (s_wr (wr ctx')) = vaddr (remote_conn data) /\
  ud_remote_qpn (s_wr (wr ctx')) = c_rkey (remote_conn data) /\
  map ev_call h' = ibv_post_send (qp ctx) [wr ctx'] ::
    ibv_create_ah (pd ctx) (mkAh 0 (u16 (lid (remote_conn data))) 1 0 IB_PORT) :: map ev_call h.
Proof.
  unfold nvds_post_send, post_wr. cbn [with_wr qp wr]. intros H.
  destruct (bool_decide (qp_type (qp ctx) = IBV_QPT_UD)) eqn:Hty; cbn [check pbind sys run] in H; [| done].
  apply bool_decide_eq_true in Hty. cbn [ud_ah set_ud word0] in H.
  destruct (negb (_ =? 0)); cbn [check pbind sys run] in H; [| done].
  destruct (_ =? 0) in H; cbn [nvds_expect nvds_error pbind sys run exit] in H; [| done].
  injection H as <- <-. by rewrite Hty.
Qed.

Definition ctx_example : nvds_context :=
  mkCtx 1 2 (mkMr 3 3 3) 4 5 (mkQp 6 IBV_QPT_UD) 4096 65536 100 (mkSge 0 0 0) zero_wr.
Definition data_example : nvds_data :=
  mkData 5500 1 65536 100 None zero_conn (mkConn 1 7 33 9 8192) 1.

Lemma ibud_send_loses_handle_witness : exists h' ctx',
  run loopback [] (nvds_post_send ctx_example data_example) = (h', Returned ctx') /\
  ud_ah (s_wr (wr ctx')) = 8192 /\ ud_remote_qpn (s_wr (wr ctx')) = 9.
Proof.
  eexists _, _. split; [vm_compute; reflexivity |].
  pose proof (ibud_send_loses_handle loopback [] ctx_example data_example _ _ eq_refl) as (_ & _ & H1 & H2 & _).
  split; [exact H1 | exact H2].
Defined.
