(* ===== verification/Udpp.v ===== *)
(** * [experiments/udpp.c] (and [cs/udpp.c]): datagram ping-pong

    The two sides exchange their addresses as text over TCP and then bounce
    datagrams.  [getopt] and [strtol] deliver the options as a list;
    [pp_get_local_lid] is not part of the repository and is a parameter. *)

From S2P Require Import Prelude Verbs Protocol RcPerf.

#[local] Open Scope prog_scope.

Definition PINGPONG_RECV_WRID : Z := 1.
Definition PINGPONG_SEND_WRID : Z := 2.

Record pingpong_context := mkPp {
  pp_self : Z;             (* the address of the structure *)
  pp_context : Z; pp_channel : Z; pp_pd : Z; pp_mr : ibv_mr; pp_cq : Z; pp_qp : ibv_qp; pp_ah : Z;
  pp_buf : Z; pp_size : Z; pp_rx_depth : Z }.

Definition sizeof_pingpong_context : Z := 80.

Definition with_ah (ah : Z) (c : pingpong_context) : pingpong_context :=
  mkPp (pp_self c) (pp_context c) (pp_channel c) (pp_pd c) (pp_mr c) (pp_cq c) (pp_qp c) ah (pp_buf c) (pp_size c)
    (pp_rx_depth c).

Record pingpong_dest := mkDest { dest_lid : Z; dest_qpn : Z; dest_psn : Z }.

Definition fprintf_stderr (s : string) : prog unit := sys (printf s []).

(** ** The address as text: ["%04x:%06x:%06x"] *)

Definition hex_digit (d : Z) : Init.Byte.byte :=
  if d <? 10 then byte.of_Z (48 + d) else byte.of_Z (87 + d).

(** The digits of [v], most significant first, at least [n] of them. *)
Fixpoint hex_fixed (n : nat) (v : Z) : list Init.Byte.byte :=
  match n with
  | O => []
  | S n' => hex_fixed n' (v / 16) ++ [hex_digit (v mod 16)]
  end.

(** How many digits an [unsigned] takes. *)
Definition hex_width (v : Z) : Z := if v <? 16 then 1 else Z.log2 v / 4 + 1.

(** [%0nx] of an [int] *)
Definition print_hex (n v : Z) : list Init.Byte.byte :=
  hex_fixed (Z.to_nat (Z.max n (hex_width (u32 v)))) (u32 v).

Definition colon : Init.Byte.byte := Byte.x3a.
Definition print_dest (d : pingpong_dest) : list Init.Byte.byte :=
  print_hex 4 (dest_lid d) ++ colon :: print_hex 6 (dest_qpn d) ++ colon :: print_hex 6 (dest_psn d).

(** [char msg[sizeof "0000:000000:000000"]] *)
Definition sizeof_msg : Z := 19.

(** [sprintf(msg, ...)]: writing past the buffer is an error; what is behind
    the terminator are the old bytes of [msg]. *)
Definition sprintf_dest (msg : list Init.Byte.byte) (d : pingpong_dest) : prog (list Init.Byte.byte) :=
  let s := print_dest d ++ [Byte.x00] in
  if Z.of_nat (length s) <=? sizeof_msg then Ret (s ++ drop (length s) msg) else Stop (Fault Segv).

Definition digit_of (b : Init.Byte.byte) : option Z :=
  let z := byte.unsigned b in
  if (48 <=? z) && (z <=? 57) then Some (z - 48)
  else if (97 <=? z) && (z <=? 102) then Some (z - 87)
  else if (65 <=? z) && (z <=? 70) then Some (z - 55)
  else None.

(** The digits at the front and what follows; the value saturates as that of
    [strtoul] does. *)
Fixpoint scan_digits (acc : Z) (bs : list Init.Byte.byte) : Z * list Init.Byte.byte :=
  match bs with
  | [] => (acc, [])
  | b :: bs' =>
      match digit_of b with
      | Some d => scan_digits (Z.min (16 * acc + d) (2 ^ 64 - 1)) bs'
      | None => (acc, bs)
      end
  end.

Definition is_space (b : Init.Byte.byte) : bool :=
  let z := byte.unsigned b in (z =? 32) || ((9 <=? z) && (z <=? 13)).

Fixpoint skip_spaces (bs : list Init.Byte.byte) : list Init.Byte.byte :=
  match bs with b :: bs' => if is_space b then skip_spaces bs' else bs | [] => [] end.

(** [%x]: spaces, a sign, an optional [0x], digits. *)
Definition scan_hex (bs : list Init.Byte.byte) : option (Z * list Init.Byte.byte) :=
  let bs := skip_spaces bs in
  let neg := match bs with b :: _ => byte.unsigned b =? 45 | [] => false end in
  let bs := match bs with b :: bs' => if (byte.unsigned b =? 45) || (byte.unsigned b =? 43) then bs' else bs | [] => [] end in
  let bs := match bs with
            | b :: c :: bs' => if (byte.unsigned b =? 48) && ((byte.unsigned c =? 120) || (byte.unsigned c =? 88))
                               then bs' else bs
            | _ => bs end in
  match bs with
  | b :: _ => match digit_of b with
              | Some _ => let (v, rest) := scan_digits 0 bs in Some (s32 (if neg then - v else v), rest)
              | None => None
              end
  | [] => None
  end.

Definition scan_colon (bs : list Init.Byte.byte) : option (list Init.Byte.byte) :=
  match bs with b :: bs' => if byte.unsigned b =? 58 then Some bs' else None | [] => None end.

(** [sscanf(msg, "%x:%x:%x", ...)] into a structure that holds [old]: fields
    that are not reached keep what they had. *)
Definition scan_dest (old : pingpong_dest) (msg : list Init.Byte.byte) : pingpong_dest :=
  match scan_hex msg with
  | None => old
  | Some (l, r) =>
      match scan_colon r with
      | None => mkDest l (dest_qpn old) (dest_psn old)
      | Some r =>
          match scan_hex r with
          | None => mkDest l (dest_qpn old) (dest_psn old)
          | Some (q, r) =>
              match scan_colon r with
              | None => mkDest l q (dest_psn old)
              | Some r => match scan_hex r with
                          | None => mkDest l q (dest_psn old)
                          | Some (p, _) => mkDest l q p
                          end
              end
          end
      end
  end.

(** ** The queue pair and its buffers *)

Definition pp_connect_ctx (ctx : pingpong_context) (port my_psn sl : Z) (dest : pingpong_dest) :
    prog (pingpong_context * Z) :=
  let attr := mkAh 0 (u16 (dest_lid dest)) (u8 sl) 0 (u8 port) in
  r <- sys (ibv_modify_qp (pp_qp ctx) [qp_state IBV_QPS_RTR] [IBV_QP_STATE]) ;;
  if negb (r =? 0) then fprintf_stderr "Failed to modify QP to RTR\n" ;;; Ret (ctx, 1) else
  r <- sys (ibv_modify_qp (pp_qp ctx) [qp_state IBV_QPS_RTS; sq_psn (u32 my_psn)] [IBV_QP_STATE; IBV_QP_SQ_PSN]) ;;
  if negb (r =? 0) then fprintf_stderr "Failed to modify QP to RTS\n" ;;; Ret (ctx, 1) else
  ah <- sys (ibv_create_ah (pp_pd ctx) attr) ;;
  if ah =? 0 then fprintf_stderr "Failed to create AH\n" ;;; Ret (with_ah ah ctx, 1) else
  Ret (with_ah ah ctx, 0).

Definition pp_init_ctx (ib_dev size rx_depth port : Z) (use_event : bool) : prog (option pingpong_context) :=
  self <- sys (malloc sizeof_pingpong_context) ;;
  if self =? 0 then Ret None else
  buf <- sys (malloc (u64 (size + 40))) ;;
  if buf =? 0 then fprintf_stderr "Couldn't allocate work buf.\n" ;;; Ret None else
  sys (memset buf 0 (u64 (size + 40))) ;;;
  context <- sys (ibv_open_device ib_dev) ;;
  if context =? 0 then
    sys (ibv_get_device_name ib_dev) ;;; fprintf_stderr "Couldn't get context for %s\n" ;;; Ret None else
  channel <- (if use_event then sys (ibv_create_comp_channel context) else Ret 0) ;;
  if use_event && (channel =? 0) then fprintf_stderr "Couldn't create completion channel\n" ;;; Ret None else
  pd <- sys (ibv_alloc_pd context) ;;
  if pd =? 0 then fprintf_stderr "Couldn't allocate PD\n" ;;; Ret None else
  m <- sys (ibv_reg_mr pd buf (u64 (size + 40)) [IBV_ACCESS_LOCAL_WRITE]) ;;
  match m with None => fprintf_stderr "Couldn't register MR\n" ;;; Ret None | Some m =>
  cq <- sys (ibv_create_cq context (rx_depth + 1)) ;;
  if cq =? 0 then fprintf_stderr "Couldn't create CQ\n" ;;; Ret None else
  q <- sys (ibv_create_qp pd (mkInit cq cq IBV_QPT_UD 0 1 (u32 rx_depth) 1 1 0)) ;;
  match q with None => fprintf_stderr "Couldn't create QP\n" ;;; Ret None | Some q =>
  r <- sys (ibv_modify_qp q [qp_state IBV_QPS_INIT; pkey_index 0; port_num (u8 port); qkey 286331153 (* 0x11111111 *)]
         [IBV_QP_STATE; IBV_QP_PKEY_INDEX; IBV_QP_PORT; IBV_QP_QKEY]) ;;
  if negb (r =? 0) then fprintf_stderr "Failed to modify QP to INIT\n" ;;; Ret None else
  Ret (Some (mkPp self context channel pd m cq q 0 buf size rx_depth))
  end end.

Definition pp_close_ctx (ctx : pingpong_context) : prog Z :=
  r <- sys (ibv_destroy_qp (pp_qp ctx)) ;;
  if negb (r =? 0) then fprintf_stderr "Couldn't destroy QP\n" ;;; Ret 1 else
  r <- sys (ibv_destroy_cq (pp_cq ctx)) ;;
  if negb (r =? 0) then fprintf_stderr "Couldn't destroy CQ\n" ;;; Ret 1 else
  r <- sys (ibv_dereg_mr (mr_ptr (pp_mr ctx))) ;;
  if negb (r =? 0) then fprintf_stderr "Couldn't deregister MR\n" ;;; Ret 1 else
  r <- sys (ibv_destroy_ah (pp_ah ctx)) ;;
  if negb (r =? 0) then fprintf_stderr "Couldn't destroy AH\n" ;;; Ret 1 else
  r <- sys (ibv_dealloc_pd (pp_pd ctx)) ;;
  if negb (r =? 0) then fprintf_stderr "Couldn't deallocate PD\n" ;;; Ret 1 else
  r <- (if pp_channel ctx =? 0 then Ret 0 else sys (ibv_destroy_comp_channel (pp_channel ctx))) ;;
  if negb (r =? 0) then fprintf_stderr "Couldn't destroy completion channel\n" ;;; Ret 1 else
  r <- sys (ibv_close_device (pp_context ctx)) ;;
  if negb (r =? 0) then fprintf_stderr "Couldn't release context\n" ;;; Ret 1 else
  sys (free (pp_buf ctx)) ;;;
  sys (free (pp_self ctx)) ;;;
  Ret 0.

(** [for (i = 0; i < n; ++i) if (ibv_post_recv(...)) break; return i;] *)
Fixpoint post_recvs (n : nat) (ctx : pingpong_context) (i : Z) : prog Z :=
  match n with
  | O => Ret i
  | S n' =>
      r <- sys (ibv_post_recv (pp_qp ctx)
             (mkRecv PINGPONG_RECV_WRID [mkSge (pp_buf ctx) (u32 (pp_size ctx + 40)) (lkey (pp_mr ctx))])) ;;
      if r =? 0 then post_recvs n' ctx (i + 1) else Ret i
  end.
Definition pp_post_recv (ctx : pingpong_context) (n : Z) : prog Z := post_recvs (Z.to_nat n) ctx 0.

Definition pp_post_send (ctx : pingpong_context) (qpn : Z) : prog Z :=
  sys (ibv_post_send (pp_qp ctx)
    [mkSend PINGPONG_SEND_WRID [mkSge (pp_buf ctx + 40) (u32 (pp_size ctx)) (lkey (pp_mr ctx))]
       IBV_WR_SEND [IBV_SEND_SIGNALED] (mkUnion (pp_ah ctx) (u32 qpn) 286331153 (* 0x11111111 *)) 0]).

(** ** The exchange of addresses *)

(** [socket] and [connect] or [bind] on the addresses of the name, until one
    works; -1 stands for [INVALID_SOCKET]. *)
Fixpoint first_socket (try_ : Z -> Z -> prog Z) (addrs : list Z) : prog Z :=
  match addrs with
  | [] => Ret (-1)
  | a :: rest =>
      fd <- sys (socket "ai_family" "ai_socktype") ;;
      if fd =? -1 then first_socket try_ rest else
      r <- try_ fd a ;;
      if r =? 0 then Ret fd else sys (close fd) ;;; first_socket try_ rest
  end.

(** Both exchanges return the allocated structure as its address and contents.
    What the unread memory of [malloc] and of an array on the stack holds. *)
Variant uninit := mkUninit (msg : list Init.Byte.byte) (dest : pingpong_dest).

Definition pp_client_exch_dest (u : uninit) (servername : string) (port : Z) (my_dest : pingpong_dest) :
    prog (option (Z * pingpong_dest)) :=
  let 'mkUninit msg0 dest0 := u in
  res <- sys (getaddrinfo (Some servername) "service") ;;
  if negb (res.1 =? 0) then fprintf_stderr "%s for %s:%d\n" ;;; Ret None else
  sockfd <- first_socket (fun fd a => sys (connect fd a port)) res.2 ;;
  sys freeaddrinfo ;;;
  if sockfd =? -1 then fprintf_stderr "Couldn't connect to %s:%d\n" ;;; Ret None else
  msg <- sprintf_dest msg0 my_dest ;;
  r <- sys (write sockfd msg) ;;
  if negb (r =? sizeof_msg) then
    fprintf_stderr "Couldn't send local address\n" ;;; sys (close sockfd) ;;; Ret None else
  got <- sys (read sockfd sizeof_msg) ;;
  match got with
  | Some msg =>
      if negb (Z.of_nat (length msg) =? sizeof_msg) then
        sys (perror "client recv") ;;; fprintf_stderr "Couldn't recv remote address\n" ;;; sys (close sockfd) ;;; Ret None else
      sys (write sockfd (map byte.of_Z [100; 111; 110; 101; 0])) ;;; (* "done" *)
      p <- sys (malloc 12) ;;
      if p =? 0 then sys (close sockfd) ;;; Ret None else
      sys (close sockfd) ;;;
      Ret (Some (p, scan_dest dest0 msg))
  | None => sys (perror "client recv") ;;; fprintf_stderr "Couldn't recv remote address\n" ;;; sys (close sockfd) ;;; Ret None
  end.

Definition pp_server_exch_dest (u : uninit) (ctx : pingpong_context) (ib_port port sl : Z) (my_dest : pingpong_dest) :
    prog (pingpong_context * option (Z * pingpong_dest)) :=
  let 'mkUninit msg0 dest0 := u in
  res <- sys (getaddrinfo None "service") ;;
  if negb (res.1 =? 0) then fprintf_stderr "%s for port %d\n" ;;; Ret (ctx, None) else
  sockfd <- first_socket (fun fd a =>
    sys (setsockopt fd "IPV6_V6ONLY" 0) ;;; sys (setsockopt fd "SO_REUSEADDR" 1) ;;; sys (bind_ fd a)) res.2 ;;
  sys freeaddrinfo ;;;
  if sockfd =? -1 then fprintf_stderr "Couldn't listen to port %d\n" ;;; Ret (ctx, None) else
  sys (listen sockfd 1) ;;;
  connfd <- sys (accept sockfd) ;;
  sys (close sockfd) ;;;
  if connfd =? -1 then fprintf_stderr "accept() failed\n" ;;; Ret (ctx, None) else
  got <- sys (read connfd sizeof_msg) ;;
  match got with
  | Some msg =>
      if negb (Z.of_nat (length msg) =? sizeof_msg) then
        sys (perror "server recv") ;;; fprintf_stderr "%d/%d: Couldn't recv remote address\n" ;;; sys (close connfd) ;;; Ret (ctx, None) else
      p <- sys (malloc 12) ;;
      if p =? 0 then sys (close connfd) ;;; Ret (ctx, None) else
      let rem_dest := scan_dest dest0 msg in
      cr <- pp_connect_ctx ctx ib_port (dest_psn my_dest) sl rem_dest ;;
      let ctx := cr.1 in
      if negb (cr.2 =? 0) then
        fprintf_stderr "Couldn't connect to remote QP\n" ;;; sys (free p) ;;; sys (close connfd) ;;; Ret (ctx, None) else
      msg <- sprintf_dest msg my_dest ;;
      r <- sys (write connfd msg) ;;
      if negb (r =? sizeof_msg) then
        fprintf_stderr "Couldn't send local address\n" ;;; sys (free p) ;;; sys (close connfd) ;;; Ret (ctx, None) else
      sys (read connfd sizeof_msg) ;;;
      sys (close connfd) ;;;
      Ret (ctx, Some (p, rem_dest))
  | None =>
      sys (perror "server recv") ;;; fprintf_stderr "%d/%d: Couldn't recv remote address\n" ;;; sys (close connfd) ;;; Ret (ctx, None)
  end.

(** ** [main] *)

Definition usage : prog unit :=
  sys (printf "Usage:\n" []) ;;;
  sys (printf "  %s            start a server and wait for connection\n" []) ;;;
  sys (printf "  %s -h <host>  connect to server at <host>\n" []) ;;;
  sys (printf "\n" []) ;;;
  sys (printf "Options:\n" []) ;;;
  sys (printf "  -p <port>     listen on/connect to port <port> (default 18515)\n" []) ;;;
  sys (printf "  -d <dev>      use IB device <dev> (default first device found)\n" []) ;;;
  sys (printf "  -i <port>     use port <port> of IB device (default 1)\n" []) ;;;
  sys (printf "  -s <size>     size of message to exchange (default 2048)\n" []) ;;;
  sys (printf "  -r <dep>      number of receives to post at a time (default 500)\n" []) ;;;
  sys (printf "  -n <iters>    number of exchanges (default 1000)\n" []) ;;;
  sys (printf "  -e            sleep on CQ events (default poll)\n" []).

(** What [getopt] returns, with the value [strtol] makes of its argument. *)
Inductive opt :=
  | opt_p (v : Z) | opt_d (s : string) | opt_i (v : Z) | opt_s (v : Z) | opt_r (v : Z) | opt_n (v : Z)
  | opt_l (v : Z) | opt_e | opt_h (s : string) | opt_unknown.

Record options := mkOptions {
  ib_devname : option string; servername : option string; o_port : Z; o_ib_port : Z; o_size : Z;
  rx_depth : Z; iters : Z; use_event : Z; o_sl : Z }.

Definition defaults : options := mkOptions None None 18515 1 2048 500 1000 0 0.

(** The loop over the options; [None] when it ends with [usage]. *)
Fixpoint parse (o : options) (l : list opt) : option options :=
  let 'mkOptions dn sn p ip sz rx it ev sl := o in
  match l with
  | [] => Some o
  | opt_p v :: l' => if (v <? 0) || (65535 <? v) then None else parse (mkOptions dn sn v ip sz rx it ev sl) l'
  | opt_d s :: l' => parse (mkOptions (Some s) sn p ip sz rx it ev sl) l'
  | opt_i v :: l' => if v <? 0 then None else parse (mkOptions dn sn p v sz rx it ev sl) l'
  | opt_s v :: l' => parse (mkOptions dn sn p ip v rx it ev sl) l'
  | opt_r v :: l' => parse (mkOptions dn sn p ip sz v it ev sl) l'
  | opt_n v :: l' => parse (mkOptions dn sn p ip sz rx v ev sl) l'
  | opt_l v :: l' => parse (mkOptions dn sn p ip sz rx it ev v) l'
  | opt_e :: l' => parse (mkOptions dn sn p ip sz rx it (ev + 1) sl) l'
  | opt_h s :: l' => parse (mkOptions dn (Some s) p ip sz rx it ev sl) l'
  | opt_unknown :: _ => None
  end.

(** The device with the given name in the list, which a null ends. *)
Fixpoint find_dev (name : string) (l : list Z) : prog Z :=
  match l with
  | [] => Ret 0
  | dev :: l' => s <- sys (ibv_get_device_name dev) ;; if String.eqb s name then Ret dev else find_dev name l'
  end.

(** The counters of the loop; [pending] is a field of the context. *)
Record counters := mkCounters { routs : Z; rcnt : Z; scnt : Z; num_cq_events : Z; pending : Z }.

Section Loop.
Variables (o : options) (ctx : pingpong_context) (rem_qpn : Z).

(** One completion: [inl] is a return from [main]. *)
Definition on_completion (st : counters) (wc : ibv_wc) : prog (Z + counters) :=
  let 'mkCounters routs rcnt scnt nev pending := st in
  if negb (wc_status wc =? IBV_WC_SUCCESS) then
    fprintf_stderr "Failed status %s (%d) for wr_id %d\n" ;;; Ret (inl 1) else
  let id := s32 (wc_wr_id wc) in
  r <- (if id =? PINGPONG_SEND_WRID then Ret (inr (routs, rcnt, scnt + 1))
        else if id =? PINGPONG_RECV_WRID then
          let routs := routs - 1 in
          if routs <=? 1 then
            m <- pp_post_recv ctx (pp_rx_depth ctx - routs) ;;
            let routs := routs + m in
            if routs <? pp_rx_depth ctx then fprintf_stderr "Couldn't post receive (%d)\n" ;;; Ret (inl 1)
            else Ret (inr (routs, rcnt + 1, scnt))
          else Ret (inr (routs, rcnt + 1, scnt))
        else fprintf_stderr "Completion for unknown wr_id %d\n" ;;; Ret (inl 1)) ;;
  match r with
  | inl code => Ret (inl code)
  | inr (routs, rcnt, scnt) =>
      let pending := Z.land pending (Z.lnot id) in
      if (scnt <? iters o) && (pending =? 0) then
        r <- pp_post_send ctx rem_qpn ;;
        if negb (r =? 0) then fprintf_stderr "Couldn't post send\n" ;;; Ret (inl 1) else
        Ret (inr (mkCounters routs rcnt scnt nev (Z.lor PINGPONG_RECV_WRID PINGPONG_SEND_WRID)))
      else Ret (inr (mkCounters routs rcnt scnt nev pending))
  end.

Fixpoint on_completions (st : counters) (wcs : list ibv_wc) : prog (Z + counters) :=
  match wcs with
  | [] => Ret (inr st)
  | wc :: wcs' =>
      r <- on_completion st wc ;;
      match r with inl code => Ret (inl code) | inr st => on_completions st wcs' end
  end.

(** [do { ne = ibv_poll_cq(ctx->cq, 2, wc); ... } while (!use_event && ne < 1)];
    [None] when polling fails. *)
Fixpoint poll_some (fuel : nat) : prog (option (list ibv_wc)) :=
  match fuel with
  | O => Stop (Fault OutOfFuel)
  | S fuel' =>
      p <- sys (ibv_poll_cq (pp_cq ctx) 2) ;;
      match p with
      | PollFailed _ => fprintf_stderr "poll CQ failed %d\n" ;;; Ret None
      | Polled [] => if use_event o =? 0 then poll_some fuel' else Ret (Some [])
      | Polled wcs => Ret (Some wcs)
      end
  end.

(** The wait for an event, when asked for: the counters, or a return. *)
Definition wait_event (st : counters) : prog (Z + counters) :=
  if use_event o =? 0 then Ret (inr st) else
  ev <- sys (ibv_get_cq_event (pp_channel ctx)) ;;
  if negb (ev.1 =? 0) then fprintf_stderr "Failed to get cq_event\n" ;;; Ret (inl 1) else
  let st := mkCounters (routs st) (rcnt st) (scnt st) (num_cq_events st + 1) (pending st) in
  if negb (ev.2 =? pp_cq ctx) then fprintf_stderr "CQ event for unknown CQ %p\n" ;;; Ret (inl 1) else
  r <- sys (ibv_req_notify_cq (pp_cq ctx) 0) ;;
  if negb (r =? 0) then fprintf_stderr "Couldn't request CQ notification\n" ;;; Ret (inl 1) else
  Ret (inr st).

(** [while (rcnt < iters || scnt < iters)] *)
Fixpoint bounce (fuel : nat) (st : counters) : prog (Z + counters) :=
  match fuel with
  | O => Stop (Fault OutOfFuel)
  | S fuel' =>
      if (rcnt st <? iters o) || (scnt st <? iters o) then
        r <- wait_event st ;;
        match r with inl code => Ret (inl code) | inr st =>
        wcs <- poll_some fuel' ;;
        match wcs with None => Ret (inl 1) | Some wcs =>
        r <- on_completions st wcs ;;
        match r with inl code => Ret (inl code) | inr st => bounce fuel' st end
        end end
      else Ret (inr st)
  end.
End Loop.

Section Main.
Variables (pp_get_local_lid : Z -> Z -> prog Z) (u : uninit).

(** From the first receive on, with the device open. *)
Definition pp_run (fuel : nat) (o : options) (ctx : pingpong_context) : prog Z :=
  n <- pp_post_recv ctx (pp_rx_depth ctx) ;;
  if n <? pp_rx_depth ctx then fprintf_stderr "Couldn't post receive (%d)\n" ;;; Ret 1 else
  r <- (if use_event o =? 0 then Ret 0 else sys (ibv_req_notify_cq (pp_cq ctx) 0)) ;;
  if negb (r =? 0) then fprintf_stderr "Couldn't request CQ notification\n" ;;; Ret 1 else
  lid <- pp_get_local_lid (pp_context ctx) (o_ib_port o) ;;
  rnd <- sys (os "rand" []) ;;
  let my_dest := mkDest lid (s32 (qp_num (pp_qp ctx))) (Z.land rnd 16777215 (* 0xffffff *)) in
  if lid =? 0 then fprintf_stderr "Couldn't get local LID\n" ;;; Ret 1 else
  sys (printf "  local address:  LID 0x%04x, QPN 0x%06x, PSN 0x%06x\n" [lid; dest_qpn my_dest; dest_psn my_dest]) ;;;
  cr <- match servername o with
        | Some name => r <- pp_client_exch_dest u name (o_port o) my_dest ;; Ret (ctx, r)
        | None => pp_server_exch_dest u ctx (o_ib_port o) (o_port o) (o_sl o) my_dest
        end ;;
  let ctx : pingpong_context := cr.1 in
  match cr.2 with None => Ret 1 | Some (p, rem_dest) =>
  sys (printf "  remote address: LID 0x%04x, QPN 0x%06x, PSN 0x%06x\n"
    [dest_lid rem_dest; dest_qpn rem_dest; dest_psn rem_dest]) ;;;
  cr <- match servername o with
        | Some _ => pp_connect_ctx ctx (o_ib_port o) (dest_psn my_dest) (o_sl o) rem_dest
        | None => Ret (ctx, 0)
        end ;;
  let ctx : pingpong_context := cr.1 in
  if negb (cr.2 =? 0) then Ret 1 else
  r <- match servername o with
       | Some _ => pp_post_send ctx (dest_qpn rem_dest)
       | None => Ret 0
       end ;;
  if negb (r =? 0) then fprintf_stderr "Couldn't post send\n" ;;; Ret 1 else
  let pending := match servername o with
                 | Some _ => Z.lor PINGPONG_RECV_WRID PINGPONG_SEND_WRID
                 | None => PINGPONG_RECV_WRID end in
  start <- sys (os "QueryPerformanceCounter" []) ;;
  if start =? 0 then sys (perror "QueryPerformanceCounter") ;;; Ret 1 else
  r <- bounce o ctx (dest_qpn rem_dest) fuel (mkCounters n 0 0 0 pending) ;;
  match r with inl code => Ret code | inr st =>
  end_ <- sys (os "QueryPerformanceCounter" []) ;;
  freq <- (if end_ =? 0 then Ret 0 else sys (os "QueryPerformanceFrequency" [])) ;;
  if freq =? 0 then sys (perror "QueryPerformanceCounter/Frequency") ;;; Ret 1 else
  sys (printf "%I64d bytes in %.2f seconds = %.2f Mbit/sec\n" [o_size o * iters o * 2]) ;;;
  sys (printf "%d iters in %.2f seconds = %.2f usec/iter\n" [iters o]) ;;;
  sys (ibv_ack_cq_events (pp_cq ctx) (num_cq_events st)) ;;;
  r <- pp_close_ctx ctx ;;
  if negb (r =? 0) then Ret 1 else
  sys ibv_free_device_list ;;;
  sys (free p) ;;;
  Ret 0
  end end.

Definition main (fuel : nat) (opts : list opt) : prog Z :=
  t <- sys time_ ;;
  sys (os "srand" [t]) ;;;
  err <- sys (os "WSAStartup" [514]) ;;
  if negb (err =? 0) then Ret (-1) else
  match parse defaults opts with None => usage ;;; Ret 1 | Some o =>
  l <- sys ibv_get_device_list ;;
  match l with None => fprintf_stderr "No IB devices found\n" ;;; Ret 1 | Some l =>
  dev <- match ib_devname o with
         | None => Ret (hd 0 l)
         | Some name => find_dev name l
         end ;;
  if dev =? 0 then
    fprintf_stderr (match ib_devname o with None => "No IB devices found\n" | Some _ => "IB device %s not found\n" end) ;;;
    Ret 1 else
  ctx <- pp_init_ctx dev (o_size o) (rx_depth o) (o_ib_port o) (negb (use_event o =? 0)) ;;
  match ctx with None => Ret 1 | Some ctx => pp_run fuel o ctx end
  end end.
End Main.
