(* ===== verification/UdppSpec.v ===== *)
(** * The datagram ping-pong: text of addresses, accounting of requests *)

From S2P Require Import Prelude Verbs Protocol RcPerf Loopback Udpp.

#[local] Open Scope prog_scope.

(** ** The text of an address gives back the address *)

Definition is_hex (b : Init.Byte.byte) : Prop := exists d, 0 <= d < 16 /\ b = hex_digit d.

(** No digit is a space, a sign, a colon or the x of a prefix. *)
Lemma hex_digit_facts d : 0 <= d < 16 ->
  digit_of (hex_digit d) = Some d /\ is_space (hex_digit d) = false /\
  Forall (fun c => (byte.unsigned (hex_digit d) =? c) = false) [45; 43; 58; 120; 88].
Proof.
  intros Hd. assert (forallb (fun d => bool_decide (digit_of (hex_digit d) = Some d) && negb (is_space (hex_digit d)) &&
    forallb (fun c => negb (byte.unsigned (hex_digit d) =? c)) [45; 43; 58; 120; 88]) (map Z.of_nat (seq 0 16)) = true)
    as Hall by (vm_compute; reflexivity).
  rewrite forallb_forall in Hall. specialize (Hall d).
  apply andb_true_iff in Hall as [[H1%bool_decide_eq_true H2%negb_true_iff]%andb_true_iff H3].
  2:{ apply in_map_iff. exists (Z.to_nat d). split; [lia | apply in_seq; lia]. }
  split_and!; [done | done |]. apply List.Forall_forall. intros c Hc. rewrite forallb_forall in H3.
  by apply negb_true_iff, H3.
Qed.

Lemma hex_fixed_hex n v : 0 <= v -> Forall is_hex (hex_fixed n v).
Proof.
  revert v. induction n as [|n IH]; intros v Hv; cbn [hex_fixed]; [constructor |].
  apply Forall_app. split; [apply IH, Z.div_pos; lia |]. repeat constructor.
  exists (v mod 16). split; [apply Z.mod_pos_bound; lia | done].
Qed.

Lemma hex_fixed_length n v : length (hex_fixed n v) = n.
Proof. revert v. induction n as [|n IH]; intros v; cbn [hex_fixed]; [done |]. rewrite length_app, IH. cbn. lia. Qed.

Definition no_digit (bs : list Init.Byte.byte) : Prop := match bs with b :: _ => digit_of b = None | [] => True end.

Lemma scan_fixed n v acc rest :
  0 <= acc -> 0 <= v < 16 ^ Z.of_nat n -> acc * 16 ^ Z.of_nat n + v < 2 ^ 64 ->
  scan_digits acc (hex_fixed n v ++ rest) = scan_digits (acc * 16 ^ Z.of_nat n + v) rest.
Proof.
  revert v rest. induction n as [|n IH]; intros v rest Ha Hv Hb; cbn [hex_fixed app].
  - f_equal. change (16 ^ Z.of_nat 0) with 1 in *. lia.
  - rewrite Nat2Z.inj_succ, Z.pow_succ_r in * by lia.
    pose proof (Z.div_mod v 16 ltac:(lia)) as Hdm. pose proof (Z.mod_pos_bound v 16 ltac:(lia)).
    assert (0 <= v / 16 < 16 ^ Z.of_nat n) by (split; [apply Z.div_pos; lia | apply Z.div_lt_upper_bound; lia]).
    rewrite <- app_assoc, IH by lia. cbn [app scan_digits].
    destruct (hex_digit_facts (v mod 16)) as (-> & _); [lia |]. f_equal. lia.
Qed.

Lemma scan_hex_fixed n v rest : (0 < n <= 8)%nat -> 0 <= v < 16 ^ Z.of_nat n -> v < 2 ^ 31 -> no_digit rest ->
  (match rest with b :: _ => byte.unsigned b = 58 \/ byte.unsigned b = 0 | [] => True end) ->
  scan_hex (hex_fixed n v ++ rest) = Some (v, rest).
Proof.
  intros Hn Hv Hv31 Hrest Hsep.
  assert (scan_digits 0 (hex_fixed n v ++ rest) = (v, rest)) as Hscan.
  { rewrite scan_fixed by lia. rewrite Z.mul_0_l, Z.add_0_l.
    destruct rest as [|b rest]; [done |]. cbn [scan_digits no_digit] in *. by rewrite Hrest. }
  pose proof (hex_fixed_hex n v ltac:(lia)) as Hh. pose proof (hex_fixed_length n v) as Hl.
  unfold scan_hex. destruct (hex_fixed n v) as [|b tl]; [cbn in Hl; lia |].
  inversion Hh as [|? ? [d [Hd ->]] Htl]; subst. cbn [app] in *.
  destruct (hex_digit_facts d Hd) as (Hdig & Hsp & Hne). cbn [skip_spaces]. rewrite Hsp.
  inversion Hne as [|? ? E45 Hne1]; subst. inversion Hne1 as [|? ? E43 _]; subst. rewrite E45, E43. cbn [orb].
  assert (forall c r, tl ++ rest = c :: r -> ((byte.unsigned c =? 120) || (byte.unsigned c =? 88)) = false) as Hx.
  { intros c r E. destruct tl as [|c' tl]; cbn [app] in E.
    - subst rest. destruct Hsep as [-> | ->]; done.
    - injection E as -> _. inversion Htl as [|? ? [d' [Hd' ->]] _]; subst.
      destruct (hex_digit_facts d' Hd') as (_ & _ & Hf). do 3 (inversion Hf as [|? ? _ Hf']; subst; clear Hf; rename Hf' into Hf).
      inversion Hf as [|? ? E1 Hf2]; subst. inversion Hf2 as [|? ? E2 _]; subst. by rewrite E1, E2. }
  destruct (tl ++ rest) as [|c r] eqn:E.
  - rewrite Hdig, Hscan. cbn. unfold s32, u32. rewrite Z.mod_small by lia. by rewrite (proj2 (Z.ltb_lt _ _)) by lia.
  - rewrite (Hx c r eq_refl), andb_false_r, Hdig, Hscan. unfold s32, u32. rewrite Z.mod_small by lia.
    by rewrite (proj2 (Z.ltb_lt _ _)) by lia.
Qed.

Definition dest_ok (d : pingpong_dest) : Prop :=
  0 <= dest_lid d < 2 ^ 16 /\ 0 <= dest_qpn d < 2 ^ 24 /\ 0 <= dest_psn d < 2 ^ 24.

Lemma print_hex_fixed n v : 0 < n <= 6 -> 0 <= v < 16 ^ n -> print_hex n v = hex_fixed (Z.to_nat n) v.
Proof.
  intros Hn Hv. assert (16 ^ n <= 16 ^ 6) as Hp by (apply Z.pow_le_mono_r; lia). change (16 ^ 6) with 16777216 in Hp.
  unfold print_hex. rewrite u32_small by lia. f_equal. f_equal. apply Z.max_l. unfold hex_width.
  destruct (Z.ltb_spec v 16); [lia |]. assert (Z.log2 v < 4 * n) as Hl.
  { apply Z.log2_lt_pow2; [lia |]. rewrite Z.pow_mul_r by lia. change (2 ^ 4) with 16. lia. }
  pose proof (Z.div_lt_upper_bound (Z.log2 v) 4 n ltac:(lia) ltac:(lia)). lia.
Qed.

(** The text of an address in range: four, six and six digits. *)
Lemma print_dest_fixed d : dest_ok d ->
  print_dest d = hex_fixed 4 (dest_lid d) ++ colon :: hex_fixed 6 (dest_qpn d) ++ colon :: hex_fixed 6 (dest_psn d).
Proof.
  change (2 ^ 16) with (16 ^ 4). change (2 ^ 24) with (16 ^ 6). intros (Hl & Hq & Hp). unfold print_dest.
  by rewrite (print_hex_fixed 4 (dest_lid d)), !(print_hex_fixed 6) by (lia || done).
Qed.

Lemma print_dest_length d : dest_ok d -> length (print_dest d) = 18%nat.
Proof.
  intros Hok. rewrite (print_dest_fixed d Hok), length_app. cbn [length]. rewrite length_app. cbn [length].
  by rewrite !hex_fixed_length.
Qed.

(** C22. The addresses survive the exchange: an address in range prints to
    exactly the 18 characters the message buffer has room for, whatever the
    buffer held, and the peer reads the same three numbers back. *)
Theorem dest_roundtrip d old msg : dest_ok d ->
  exists s, sprintf_dest msg d = Ret s /\ (Z.of_nat (length msg) = sizeof_msg -> Z.of_nat (length s) = sizeof_msg) /\
    scan_dest old s = d.
Proof.
  intros Hok. pose proof (print_dest_length d Hok) as Hlen. unfold sprintf_dest.
  rewrite length_app, Hlen. cbn [length Nat.add]. rewrite (proj2 (Z.leb_le _ _)) by (unfold sizeof_msg; lia).
  eexists. split; [reflexivity |]. split.
  { intros Hm. rewrite !length_app, length_drop, Hlen. cbn [length]. unfold sizeof_msg in *. lia. }
  rewrite (print_dest_fixed d Hok). destruct d as [l q p], Hok as (Hl & Hq & Hp). cbn in Hl, Hq, Hp.
  cbn [dest_lid dest_qpn dest_psn]. rewrite <- !app_assoc. cbn [app]. rewrite <- !app_assoc. cbn [app].
  unfold scan_dest. rewrite (scan_hex_fixed 4 l) by (lia || (cbn; lia) || done || by left).
  cbn [scan_colon]. change (byte.unsigned colon =? 58) with true. cbv iota.
  rewrite (scan_hex_fixed 6 q) by (lia || (cbn; lia) || done || by left).
  cbn [scan_colon]. change (byte.unsigned colon =? 58) with true. cbv iota.
  by rewrite (scan_hex_fixed 6 p) by (lia || (cbn; lia) || done || by right).
Qed.

Lemma dest_roundtrip_witness : exists s,
  sprintf_dest [] (mkDest 26 1079 11184810) = Ret s /\ scan_dest (mkDest 0 0 0) s = mkDest 26 1079 11184810.
Proof.
  destruct (dest_roundtrip (mkDest 26 1079 11184810) (mkDest 0 0 0) []) as (s & H1 & _ & H2);
    [repeat split; cbn; lia |].
  exists s. split; [exact H1 | exact H2].
Defined.
