(* ===== verification/InfinibandOld.v ===== *)
(** * [infiniband_old.h], [infiniband_old.cc]: the former transport

    The transport [Infiniband] replaced: queues are the caller's, requests can
    be received from a shared queue, and up to 400 bytes go inline.  The
    structures of connections, addresses, buffers and pools are the same.  The
    file is not part of the build; the constants [kQkey] and [kPageSize] it
    uses are declared nowhere and are parameters. *)

From S2P Require Import Prelude Format Wire Verbs Loopback Infiniband.
Import Infiniband (QueuePairInfo, qpi_lid, qpi_qpn, qpi_psn, Address, a_lid, a_qpn, Buffer, b_buf, b_size, b_mr, sizeof_Buffer,
  RegisteredBuffers, mkPool, buf_size_, buf_num_, ptr_, bufs_, root_, bufs, errno, is_UD, is_RC, received).

#[local] Open Scope prog_scope.

Module InfinibandOld.

Definition kPort : Z := 1.
Definition kMaxInlineData : Z := 400.

(** ** Devices *)

Section Devices.
(** The field [name] of an [ibv_device], a structure of the library. *)
Variable dev_name : Z -> string.

(** [DeviceList::DeviceList]: the list, which ends with null. *)
Definition DeviceList_construct : prog (list Z) :=
  l <- sys ibv_get_device_list ;;
  match l with
  | None => e <- errno ;; throw e
  | Some l => Ret l
  end.

(** [DeviceList::Lookup]: null when there is none. *)
Definition Lookup (dev_list : list Z) (name : option string) : Z :=
  match name with
  | None => hd 0 dev_list
  | Some name => default 0 (List.find (fun dev => bool_decide (dev_name dev = name)) dev_list)
  end.

(** [Device::Device]; the list is freed on every way out. *)
Definition Device_construct (name : option string) : prog Z :=
  l <- DeviceList_construct ;;
  let dev := Lookup l name in
  if dev =? 0 then sys ibv_free_device_list ;;; throw 0
  else
    ctx <- sys (ibv_open_device dev) ;;
    if ctx =? 0 then e <- errno ;; sys ibv_free_device_list ;;; throw e
    else sys ibv_free_device_list ;;; Ret ctx.

Definition Device_destruct (ctx : Z) : prog unit := sys (ibv_close_device ctx) ;;; Ret tt.

(** [ProtectionDomain::ProtectionDomain] *)
Definition ProtectionDomain_construct (ctx : Z) : prog Z :=
  pd <- sys (ibv_alloc_pd ctx) ;;
  if pd =? 0 then e <- errno ;; throw e else Ret pd.

Definition ProtectionDomain_destruct (pd : Z) : prog unit := sys (ibv_dealloc_pd pd) ;;; Ret tt.

(** [class Infiniband]; [addr_handlers_] by local id, absent for null. *)
Record t := mkIb { dev_ : Z; pd_ : Z; addr_handlers_ : gmap Z Z }.

(** [Infiniband::Infiniband]: without a domain the device is closed again. *)
Definition construct (device_name : option string) : prog t :=
  dev <- Device_construct device_name ;;
  pd <- try_ (ProtectionDomain_construct dev) (fun e => Device_destruct dev ;;; throw e) ;;
  Ret (mkIb dev pd ∅).
End Devices.

(** The loop of the destructor, down from the last local id. *)
Fixpoint destroy_handlers (n : nat) (handlers : gmap Z Z) : prog unit :=
  match n with
  | O => Ret tt
  | S n' =>
      match handlers !! Z.of_nat n' with
      | Some ah => sys (ibv_destroy_ah ah) ;;; destroy_handlers n' handlers
      | None => destroy_handlers n' handlers
      end
  end.

(** [Infiniband::~Infiniband] *)
Definition destruct_ (ib : t) : prog unit :=
  destroy_handlers (Z.to_nat 65536) (addr_handlers_ ib) ;;;
  ProtectionDomain_destruct (pd_ ib) ;;;
  Device_destruct (dev_ ib).

(** ** [struct QueuePair] *)

(** [sin] is zero and nothing uses it. *)
Record QueuePair := mkQueuePair {
  type : ibv_qp_type; ctx : Z; ib_port : Z; qp_pd : Z; srq : Z; qp : ibv_qp; scq : Z; rcq : Z; psn : Z; peer_lid : Z }.

Definition init_attr (type : ibv_qp_type) (scq rcq max_send max_recv : Z) : ibv_qp_init_attr :=
  let sge := if is_UD type then 1 else 8 in
  mkInit scq rcq type 0 (* Only generate CQEs on requested WQEs *) max_send max_recv sge sge kMaxInlineData.

Definition create_qp (pd : Z) (attr : ibv_qp_init_attr) (srq : Z) : prog (option ibv_qp) :=
  if srq =? 0 then sys (ibv_create_qp pd attr) else sys (ibv_create_qp_srq pd attr srq).

(** [QueuePair::QueuePair] *)
Definition QueuePair_construct (kQkey : Z) (ib : t) (type : ibv_qp_type) (ib_port srq scq rcq max_send max_recv : Z) : prog QueuePair :=
  check (is_UD type || is_RC type) ;;;
  q <- create_qp (pd_ ib) (init_attr type scq rcq max_send max_recv) srq ;;
  match q with
  | None => throw 0
  | Some q =>
      let qpa := [qp_state IBV_QPS_INIT; pkey_index 0; port_num (u8 ib_port);
                  qp_access_flags [IBV_ACCESS_REMOTE_READ; IBV_ACCESS_REMOTE_WRITE; IBV_ACCESS_LOCAL_WRITE]; qkey kQkey] in
      let mask := [IBV_QP_STATE; IBV_QP_PORT] ++
                  (if is_RC type then [IBV_QP_ACCESS_FLAGS; IBV_QP_PKEY_INDEX] else [IBV_QP_QKEY; IBV_QP_PKEY_INDEX]) in
      ret <- sys (ibv_modify_qp q qpa mask) ;;
      if negb (ret =? 0) then sys (ibv_destroy_qp q) ;;; throw ret
      else Ret (mkQueuePair type (dev_ ib) ib_port (pd_ ib) srq q scq rcq 0 0)
  end.

Definition QueuePair_destruct (q : QueuePair) : prog unit := sys (ibv_destroy_qp (qp q)) ;;; Ret tt.

Definition GetLocalQPNum (q : QueuePair) : Z := qp_num (qp q).

Definition GetPeerQPNum (q : QueuePair) : prog Z :=
  r <- sys (ibv_query_qp (qp q) [IBV_QP_DEST_QPN]) ;;
  let '(err, _, dest) := r in
  if negb (err =? 0) then throw err else Ret dest.

Definition GetState (q : QueuePair) : prog ibv_qp_state :=
  r <- sys (ibv_query_qp (qp q) [IBV_QP_STATE]) ;;
  let '(err, st, _) := r in
  if negb (err =? 0) then throw err else Ret st.

(** [auto err = ibv_modify_qp(...); if (err != 0) throw ...] *)
Definition modify_ (q : QueuePair) (attr : ibv_qp_attr) (mask : list ibv_qp_attr_mask) : prog unit :=
  err <- sys (ibv_modify_qp (qp q) attr mask) ;;
  if negb (err =? 0) then throw err else Ret tt.

(** Called only on RC queue pair; the local id of the peer is kept when the
    queue pair can send. *)
Definition Plumb (state : ibv_qp_state) (qpi : QueuePairInfo) (q : QueuePair) : prog QueuePair :=
  check (is_RC (type q)) ;;;
  st <- GetState q ;;
  check (bool_decide (st = IBV_QPS_INIT)) ;;;
  check (bool_decide (state = IBV_QPS_RTR) || bool_decide (state = IBV_QPS_RTS)) ;;;
  (* We must set qp into RTR state before RTS *)
  modify_ q
    [qp_state IBV_QPS_RTR; path_mtu IBV_MTU_4096; dest_qp_num (qpi_qpn qpi); rq_psn (qpi_psn qpi); max_dest_rd_atomic 1;
     min_rnr_timer 12; ah_attr (mkAh 0 (qpi_lid qpi) 0 0 (u8 (ib_port q)))]
    [IBV_QP_STATE; IBV_QP_AV; IBV_QP_PATH_MTU; IBV_QP_DEST_QPN; IBV_QP_RQ_PSN; IBV_QP_MIN_RNR_TIMER; IBV_QP_MAX_DEST_RD_ATOMIC] ;;;
  if bool_decide (state = IBV_QPS_RTR) then Ret q
  else
    modify_ q
      [qp_state IBV_QPS_RTS; timeout 14; retry_cnt 7; rnr_retry 7 (* 7 is infinite retry. *); sq_psn (psn q); max_rd_atomic 1]
      [IBV_QP_STATE; IBV_QP_TIMEOUT; IBV_QP_RETRY_CNT; IBV_QP_RNR_RETRY; IBV_QP_SQ_PSN; IBV_QP_MAX_QP_RD_ATOMIC] ;;;
    Ret (mkQueuePair (type q) (ctx q) (ib_port q) (qp_pd q) (srq q) (qp q) (scq q) (rcq q) (psn q) (qpi_lid qpi)).

(** Bring UD queue pair into RTS status *)
Definition Activate (q : QueuePair) : prog unit :=
  check (is_UD (type q)) ;;;
  st <- GetState q ;;
  check (bool_decide (st = IBV_QPS_INIT)) ;;;
  modify_ q [qp_state IBV_QPS_RTR] [IBV_QP_STATE] ;;;
  modify_ q [qp_state IBV_QPS_RTS; sq_psn (psn q)] [IBV_QP_STATE; IBV_QP_SQ_PSN].

(** [Address::ToString] *)
Definition Address_ToString (fuel : nat) (a : Address) : M unit string :=
  Format.Format fuel "%u:%u" [Integer (a_lid a); Integer (a_qpn a)].

(** ** [class RegisteredBuffers] *)

(** [RegisteredBuffers::RegisteredBuffers] *)
Definition RegisteredBuffers_construct (kPageSize pd buf_size buf_num : Z) (is_recv : bool) (st : bufs) :
    prog (RegisteredBuffers * bufs) :=
  let bytes := u32 (buf_size * buf_num) in
  ptr <- sys (memalign kPageSize bytes) ;;
  check (negb (ptr =? 0)) ;;;
  m <- sys (ibv_reg_mr pd ptr bytes [IBV_ACCESS_REMOTE_WRITE; IBV_ACCESS_LOCAL_WRITE]) ;;
  match m with
  | None => e <- errno ;; throw e
  | Some m =>
      a <- new_ (sizeof_Buffer * buf_num) ;;
      let pool := mkPool buf_size buf_num ptr a a in
      Ret (pool, Infiniband.init_bufs (Z.to_nat buf_num) 0 pool m is_recv st)
  end.

(** [RegisteredBuffers::~RegisteredBuffers] *)
Definition RegisteredBuffers_destruct (st : bufs) (pool : RegisteredBuffers) : prog unit :=
  match st !! bufs_ pool with
  | None => Stop (Fault Segv)
  | Some b => sys (ibv_dereg_mr (mr_ptr (b_mr b))) ;;; sys (free (ptr_ pool)) ;;; sys (free (bufs_ pool))
  end.

(** [operator[]], [begin] and [end]: addresses of buffers. *)
Definition at_index (pool : RegisteredBuffers) (idx : Z) : Z := bufs_ pool + sizeof_Buffer * idx.
Definition begin (pool : RegisteredBuffers) : Z := bufs_ pool.
Definition end_ (pool : RegisteredBuffers) : Z := at_index pool (buf_num_ pool).

(** [GetBuffer]: the buffer whose memory [pos] points into.  The distance is
    signed and the division truncates; dividing by zero stops the process. *)
Definition GetBuffer (pool : RegisteredBuffers) (pos : Z) : option Z :=
  if buf_size_ pool =? 0 then None else Some (at_index pool (Z.quot (pos - ptr_ pool) (buf_size_ pool))).

(** [Alloc] and [Free] under the pool's lock. *)
Definition Alloc (st : bufs) (pool : RegisteredBuffers) : Z * RegisteredBuffers :=
  let ret := root_ pool in
  if ret =? 0 then (ret, pool)
  else (ret, match st !! ret with
             | Some b => mkPool (buf_size_ pool) (buf_num_ pool) (ptr_ pool) (bufs_ pool) (Infiniband.next b)
             | None => pool
             end).
Definition Free (st : bufs) (pool : RegisteredBuffers) (b : Z) : bufs * RegisteredBuffers :=
  (alter (Infiniband.with_next (root_ pool)) b st, mkPool (buf_size_ pool) (buf_num_ pool) (ptr_ pool) (bufs_ pool) b).

(** ** Queues *)

Definition CreateCQ (ib : t) (min_entries : Z) : prog Z := sys (ibv_create_cq (dev_ ib) min_entries).
Definition DestroyCQ (cq : Z) : prog unit := sys (ibv_destroy_cq cq) ;;; Ret tt.
(** [srq_context] is for the user of the queue, and nothing reads it. *)
Definition CreateSRQ (ib : t) (max_wr max_sge : Z) : prog Z := sys (ibv_create_srq (pd_ ib) max_wr max_sge).
Definition DestroySRQ (srq : Z) : prog unit := sys (ibv_destroy_srq srq) ;;; Ret tt.

(** ** Messages *)

Definition GetLid (ib : t) (port : Z) : prog Z :=
  r <- sys (ibv_query_port (dev_ ib) (u8 port)) ;;
  if negb (r.1 =? 0) then throw r.1 else Ret (port_lid r.2).

Definition PollCQ (cq num_entries : Z) (st : bufs) : prog (Z * bufs) :=
  p <- sys (ibv_poll_cq cq num_entries) ;;
  match p with
  | PollFailed r => throw (Z.neg r)
  | Polled [] => Ret (0, st)
  | Polled (wc :: _) =>
      if negb (wc_status wc =? IBV_WC_SUCCESS) then throw (wc_status wc) else
      match st !! wc_wr_id wc with
      | None => Stop (Fault Segv)
      | Some b => Ret (wc_wr_id wc, <[wc_wr_id wc := received wc b]> st)
      end
  end.

Definition TryReceive (q : QueuePair) : bufs -> prog (Z * bufs) := PollCQ (rcq q) 1.
Definition TrySend (q : QueuePair) : bufs -> prog (Z * bufs) := PollCQ (scq q) 1.

(** May blocking *)
Fixpoint Receive (fuel : nat) (q : QueuePair) (st : bufs) : prog (Z * bufs) :=
  match fuel with
  | O => Stop (Fault OutOfFuel)
  | S fuel' =>
      r <- TryReceive q st ;;
      if r.1 =? 0 then Receive fuel' q r.2 else Ret r
  end.

(** The receive request of a buffer. *)
Definition recv_wr (b : Z) (buf : Buffer) : ibv_recv_wr := mkRecv b [mkSge (b_buf buf) (b_size buf) (lkey (b_mr buf))].

Definition PostReceive (q : QueuePair) (b : Z) (buf : Buffer) : prog unit :=
  err <- sys (ibv_post_recv (qp q) (recv_wr b buf)) ;;
  if negb (err =? 0) then throw err else Ret tt.

Definition PostSRQReceive (srq b : Z) (buf : Buffer) : prog unit :=
  err <- sys (ibv_post_srq_recv srq (recv_wr b buf)) ;;
  if negb (err =? 0) then throw err else Ret tt.

(** A handle that could not be made is null, and asked for again. *)
Definition GetAddrHandler (ib : t) (addr : Address) : prog (Z * t) :=
  match addr_handlers_ ib !! a_lid addr with
  | Some ah => Ret (ah, ib)
  | None =>
      ah <- sys (ibv_create_ah (pd_ ib) (mkAh 0 (a_lid addr) 1 0 kPort)) ;;
      Ret (ah, if ah =? 0 then ib else mkIb (dev_ ib) (pd_ ib) (<[a_lid addr := ah]> (addr_handlers_ ib)))
  end.

(** The address in the request: none for a connected queue pair. *)
Definition address (ib : t) (q : QueuePair) (peer_addr : option Address) (peer_qkey : Z) : prog (wr_union * t) :=
  match is_UD (type q), peer_addr with
  | true, Some addr =>
      r <- GetAddrHandler ib addr ;;
      check (negb (r.1 =? 0)) ;;;
      Ret (mkUnion r.1 (a_qpn addr) peer_qkey, r.2)
  | _, _ => Ret (mkUnion 0 0 0, ib)
  end.

Definition PostSend (ib : t) (q : QueuePair) (b : Z) (buf : Buffer) (len : Z) (peer_addr : option Address) (peer_qkey : Z) : prog t :=
  check (if is_UD (type q) then bool_decide (is_Some peer_addr) else bool_decide (peer_addr = None) && (peer_qkey =? 0)) ;;;
  r <- address ib q peer_addr peer_qkey ;;
  let flags := IBV_SEND_SIGNALED :: (if len <=? kMaxInlineData then [IBV_SEND_INLINE] else []) in
  err <- sys (ibv_post_send (qp q) [mkSend b [mkSge (b_buf buf) len (lkey (b_mr buf))] IBV_WR_SEND flags r.1 0]) ;;
  if negb (err =? 0) then throw err else Ret r.2.

Definition PostSendAndWait (fuel : nat) (ib : t) (q : QueuePair) (b : Z) (buf : Buffer) (len : Z) (peer_addr : option Address)
    (peer_qkey : Z) : prog t :=
  check (is_UD (type q)) ;;;
  ib <- PostSend ib q b buf len peer_addr peer_qkey ;;
  (* How can we make sure that the completed work we polled is the one we have just post? *)
  wc <- poll_one fuel (scq q) ;;
  if negb (wc_status wc =? IBV_WC_SUCCESS) then throw (wc_status wc) else Ret ib.

End InfinibandOld.

Import InfinibandOld.

(** ** The two transports on datagrams *)

(** A queue pair and a transport of the former kind as the present ones have
    them. *)
Definition upgrade (q : QueuePair) : Infiniband.QueuePair := Infiniband.mkQueuePair (type q) (qp q) (scq q) (rcq q) (psn q).
Definition upgrade_ib (m : ibv_mr) (raw size : Z) (ib : t) : Infiniband.t := Infiniband.mkIb (dev_ ib) (pd_ ib) m raw size (addr_handlers_ ib).

(** Programs that make the same calls and end alike. *)
Inductive alike {A B} (R : A -> B -> Prop) : prog A -> prog B -> Prop :=
  | alike_ret a b : R a b -> alike R (Ret a) (Ret b)
  | alike_stop s : alike R (Stop s) (Stop s)
  | alike_vis c k k' : (forall r, alike R (k r) (k' r)) -> alike R (Vis c k) (Vis c k').

Lemma alike_refl {A} (p : prog A) : alike eq p p.
Proof. induction p as [a | s | c k IH]; by constructor. Qed.

Lemma alike_bind {A B C D} (R : A -> B -> Prop) (R' : C -> D -> Prop) p p' k k' :
  alike R p p' -> (forall a b, R a b -> alike R' (k a) (k' b)) -> alike R' (pbind p k) (pbind p' k').
Proof. intros H Hk. induction H as [a b Hab | s | c f f' _ IH]; cbn; [by apply Hk | constructor | by constructor]. Qed.

Lemma alike_run {A B} (R : A -> B -> Prop) p p' e : alike R p p' -> forall h,
  (run e h p).1 = (run e h p').1 /\
  match (run e h p).2, (run e h p').2 with
  | Returned a, Returned b => R a b
  | Stopped s, Stopped s' => s = s'
  | _, _ => False
  end.
Proof. intros H. induction H as [a b Hab | s | c f f' _ IH]; intros h; cbn; [done.. | apply IH]. Qed.

Section Datagrams.
Variables (m : ibv_mr) (raw size : Z).
#[local] Abbreviation up := (upgrade_ib m raw size).
#[local] Abbreviation same_ib := (fun ib ib' => ib' = up ib).

(** One message: the former transport has up to 400 bytes inline, the present
    one up to 128. *)
Lemma send_alike ib q b buf len peer : len <= 128 \/ 400 < len ->
  alike same_ib (PostSend ib q b buf len (Some peer) 0) (Infiniband.PostSend (up ib) (upgrade q) b buf len peer).
Proof.
  intros Hlen. unfold PostSend, Infiniband.PostSend, address. cbn [Infiniband.type upgrade].
  destruct (is_UD (type q)); [| constructor]. cbn [pbind check].
  assert ((len <=? kMaxInlineData) = (len <=? Infiniband.kMaxInlineData)) as ->
    by (unfold kMaxInlineData, Infiniband.kMaxInlineData; destruct (Z.leb_spec len 400), (Z.leb_spec len 128); done || lia).
  rewrite bool_decide_eq_true_2 by by eexists. cbn [pbind check].
  assert (forall ah jb, alike same_ib
    (err <- sys (ibv_post_send (qp q) [mkSend b [mkSge (b_buf buf) len (lkey (b_mr buf))] IBV_WR_SEND
       (IBV_SEND_SIGNALED :: (if len <=? Infiniband.kMaxInlineData then [IBV_SEND_INLINE] else [])) (mkUnion ah (a_qpn peer) 0) 0]) ;;
     if negb (err =? 0) then throw err else Ret jb)
    (err <- sys (ibv_post_send (qp q) [mkSend b [mkSge (b_buf buf) len (lkey (b_mr buf))] IBV_WR_SEND
       (IBV_SEND_SIGNALED :: (if len <=? Infiniband.kMaxInlineData then [IBV_SEND_INLINE] else [])) (mkUnion ah (a_qpn peer) 0) 0]) ;;
     if negb (err =? 0) then throw err else Ret (up jb))) as Hpost.
  { intros ah jb. cbn. constructor. intros r. destruct (negb (r =? 0)); cbn; by constructor. }
  unfold GetAddrHandler, Infiniband.GetAddrHandler. cbn [Infiniband.addr_handlers_ upgrade_ib].
  destruct (addr_handlers_ ib !! a_lid peer) as [ah |]; cbn [pbind fst snd].
  - destruct (negb (ah =? 0)); cbn [pbind check fst snd]; [apply Hpost | constructor].
  - cbn [sys pbind Infiniband.pd_ upgrade_ib]. constructor. intros ah. destruct (ah =? 0) eqn:E; cbn [pbind check fst snd negb]; rewrite ?E; cbn [pbind check fst snd negb].
    + constructor.
    + apply (Hpost ah (mkIb _ _ _)).
Qed.

(** The operations on datagrams make the same calls and end alike, but for
    messages of 129 to 400 bytes, which the former transport sends inline. *)
Theorem datagrams_alike fuel ib q st b buf len peer : len <= 128 \/ 400 < len ->
  Activate q = Infiniband.Activate (upgrade q) /\
  PostReceive q b buf = Infiniband.PostReceive (upgrade q) b buf /\
  TrySend q st = Infiniband.TrySend (upgrade q) st /\
  (forall e h, run e h (Receive fuel q st) = run e h (Infiniband.Receive fuel (upgrade q) st)) /\
  forall e h,
    let r := run e h (PostSendAndWait fuel ib q b buf len (Some peer) 0) in
    let r' := run e h (Infiniband.PostSendAndWait fuel (up ib) (upgrade q) b buf len peer) in
    r.1 = r'.1 /\
    match r.2, r'.2 with Returned x, Returned y => y = up x | Stopped s, Stopped s' => s = s' | _, _ => False end.
Proof.
  intros Hlen. split; [done |]. split; [done |]. split; [done |]. split.
  - intros e h. revert h st. induction fuel as [|fuel IH]; intros h st; [done |]. cbn [Receive Infiniband.Receive]. rewrite !run_bind.
    change (Infiniband.TryReceive (upgrade q) st) with (TryReceive q st). destruct (run e h (TryReceive q st)) as [h1 [r | s]]; [| done].
    destruct (r.1 =? 0); [apply IH | done].
  - intros e h. apply (alike_run same_ib). unfold PostSendAndWait, Infiniband.PostSendAndWait. cbn [Infiniband.type upgrade].
    destruct (is_UD (type q)); [| constructor]. cbn [pbind check]. eapply alike_bind; [by apply send_alike |]. intros x y ->.
    eapply alike_bind; [apply alike_refl |]. intros wc wc' ->. destruct (negb _); by constructor.
Qed.
End Datagrams.

(** ** Pools *)

(** [GetBuffer] finds the buffer of every byte of its memory. *)
Lemma GetBuffer_finds pool i o : 0 < buf_size_ pool -> 0 <= i -> 0 <= o < buf_size_ pool ->
  GetBuffer pool (ptr_ pool + buf_size_ pool * i + o) = Some (at_index pool i).
Proof.
  intros Hs Hi Ho. unfold GetBuffer. rewrite (proj2 (Z.eqb_neq _ _)) by lia. do 2 f_equal.
  replace (ptr_ pool + buf_size_ pool * i + o - ptr_ pool) with (o + i * buf_size_ pool) by lia.
  rewrite Z.quot_div_nonneg by nia. rewrite Z.div_add by lia. by rewrite Z.div_small.
Qed.
